(** * libbplus: node-level engine of a B+tree index (bplus.c)

    Shallow embedding of the C sources [bplus.c] / [libbplus.h].

    Conventions of the embedding
    - a C [int] is a [Z]; [/] on ints is [Z.quot] (truncation towards zero);
      sums and products of ints are taken in [Z] (signed overflow is
      undefined in C, and the sizes a node is made with keep every offset
      far below [INT_MAX]); the [size_t]-to-[int] conversions of the two
      [bp_calc_*_content_len] functions have their wrap-around written out
      ([int_of_Z]);
    - a byte buffer is a [list byte]; a pointer into a buffer is the buffer
      together with a byte offset (a [Z], which may leave the buffer: it is
      only checked when dereferenced);
    - a node pointer is an address [Z] into the node heap, [NULL] is [0];
      inside a content buffer it occupies [sizeof_ptr = 8] bytes, stored
      little-endian;
    - every function returns an [option]: [None] stands for an execution
      the C standard leaves undefined (access outside a buffer, call through
      a null function pointer, read of an uninitialised local, division by
      zero) or for a loop that does not terminate;
    - [malloc] is driven by an oracle held in the heap, so that every
      pattern of allocation failures can be played. *)

From Stdlib Require Import ZArith Lia Strings.Byte Strings.String.
From stdpp Require Import base option list.

Local Open Scope Z_scope.

(** ** Bytes and raw buffers *)

Module Mem.

Definition byte_to_Z (b : byte) : Z := Z.of_N (Byte.to_N b).

Definition byte_of_Z (z : Z) : byte :=
  match Byte.of_N (Z.to_N (z mod 256)) with
  | Some b => b
  | None => x00
  end.

Definition len (buf : list byte) : Z := Z.of_nat (length buf).

(** [n] bytes of [buf] starting at offset [off]; [(size_t) n] for a
    negative [n] is larger than any buffer. *)
Definition read (buf : list byte) (off n : Z) : option (list byte) :=
  if (0 <=? off) && (0 <=? n) && (off + n <=? len buf)
  then Some (take (Z.to_nat n) (drop (Z.to_nat off) buf))
  else None.

(** overwrite [buf] at offset [off] with [data] *)
Definition write (buf : list byte) (off : Z) (data : list byte)
  : option (list byte) :=
  if (0 <=? off) && (off + len data <=? len buf)
  then Some (take (Z.to_nat off) buf ++ data
             ++ drop (Z.to_nat (off + len data)) buf)
  else None.

(** [memcpy (dst + doff, src + soff, n)] *)
Definition memcpy (dst : list byte) (doff : Z) (src : list byte)
    (soff n : Z) : option (list byte) :=
  data ← read src soff n; write dst doff data.

(** [memset (p, 0, n)] on a fresh block of [n] bytes *)
Definition zeros (n : Z) : list byte := replicate (Z.to_nat n) x00.

(** [memcmp] on two byte sequences of the same length: the difference of
    the first pair of bytes that differ (as [unsigned char]), [0] if there
    is none.  Callers only look at the sign. *)
Fixpoint memcmp_bytes (a b : list byte) : Z :=
  match a, b with
  | x :: a', y :: b' =>
      if byte_to_Z x =? byte_to_Z y then memcmp_bytes a' b'
      else byte_to_Z x - byte_to_Z y
  | _, _ => 0
  end.

(** [memcmp (a + aoff, b + boff, n)] *)
Definition memcmp (a : list byte) (aoff : Z) (b : list byte) (boff n : Z)
  : option Z :=
  x ← read a aoff n; y ← read b boff n; Some (memcmp_bytes x y).

(** pointers stored in a buffer *)
Definition sizeof_ptr : Z := 8.

Fixpoint encode_le (n : nat) (z : Z) : list byte :=
  match n with
  | O => []
  | S n' => byte_of_Z z :: encode_le n' (z / 256)
  end.

Fixpoint decode_le (l : list byte) : Z :=
  match l with
  | [] => 0
  | b :: l' => byte_to_Z b + 256 * decode_le l'
  end.

Definition encode_ptr (p : Z) : list byte := encode_le 8 p.
Definition decode_ptr (l : list byte) : Z := decode_le l.

Definition load_ptr (buf : list byte) (off : Z) : option Z :=
  decode_ptr <$> read buf off sizeof_ptr.

Definition store_ptr (buf : list byte) (off : Z) (p : Z)
  : option (list byte) :=
  write buf off (encode_ptr p).

End Mem.

(** ** Key comparison *)

(** [bp_compare_f]: the comparator sees the [size] bytes behind each of its
    two pointers. *)
Definition bp_compare_f : Type := list byte → list byte → Z → Z.

(** [bp_compare]: [memcmp (a, b, size)] *)
Definition bp_compare (a b : list byte) (size : Z) : Z :=
  Mem.memcmp_bytes (take (Z.to_nat size) a) (take (Z.to_nat size) b).

(** [compare ? compare : bp_compare] *)
Definition compare_or_default (compare : option bp_compare_f) : bp_compare_f :=
  match compare with
  | Some f => f
  | None => bp_compare
  end.

(** [compare (a + aoff, b + boff, size)] *)
Definition call_compare (compare : bp_compare_f) (a : list byte) (aoff : Z)
    (b : list byte) (boff size : Z) : option Z :=
  x ← Mem.read a aoff size; y ← Mem.read b boff size; Some (compare x y size).

(** ** Binary search over a packed item array *)

Section BiSearch.

Variables (content : list byte) (item_size : Z).
Variables (target : list byte) (target_size offset : Z).
Variable compare : bp_compare_f.

(** The [while (low <= high)] loop of [bp_bi_search_one] and the
    assignment of [found_idx] after it.  [low], [high] and [mid] are
    byte offsets from [content]; [last] holds [mid] and [comp_res] once
    the body has run. *)
Fixpoint bi_search_loop (fuel : nat) (low high item_num : Z)
    (last : option (Z * Z)) : option (Z * Z) :=
  if low <=? high then
    match fuel with
    | O => None
    | S fuel' =>
        let half_item_num := item_num ÷ 2 in
        let half_item_num :=
          if half_item_num =? 0 then 1 else half_item_num in
        let mid := low + (half_item_num - 1) * item_size in
        comp_res ← call_compare compare target 0 content (mid + offset)
                                target_size;
        if 0 =? comp_res then Some (1, mid ÷ item_size)
        else if 0 <? comp_res then
          bi_search_loop fuel' (mid + item_size) high
                         (item_num - half_item_num) (Some (mid, comp_res))
        else
          bi_search_loop fuel' low (mid - item_size)
                         (half_item_num - 1) (Some (mid, comp_res))
    end
  else
    '(mid, comp_res) ← last;
    if comp_res <? 0 then Some (0, mid ÷ item_size)
    else Some (0, low ÷ item_size).

(** the leftward scan of [bp_bi_search_first], while [found_idx > 0] *)
Fixpoint bi_first_loop (fuel : nat) (found_idx : Z) : option Z :=
  if found_idx >? 0 then
    match fuel with
    | O => None
    | S fuel' =>
        c ← call_compare compare content
              ((found_idx - 1) * item_size + offset) target 0 target_size;
        if 0 =? c then bi_first_loop fuel' (found_idx - 1)
        else Some found_idx
    end
  else Some found_idx.

(** the rightward scan of [bp_bi_search_last], while
    [found_idx < content_len / item_size - 1] *)
Fixpoint bi_last_loop (fuel : nat) (content_len found_idx : Z)
  : option Z :=
  if found_idx <? content_len ÷ item_size - 1 then
    match fuel with
    | O => None
    | S fuel' =>
        c ← call_compare compare content
              ((found_idx + 1) * item_size + offset) target 0 target_size;
        if 0 =? c then bi_last_loop fuel' content_len (found_idx + 1)
        else Some found_idx
    end
  else Some found_idx.

End BiSearch.

(** The three search functions return the pair of their result and of the
    index they leave in [found_idx].  The fuel given to each loop is the
    number of iterations the loop can make when [item_size] is positive;
    with a negative [item_size] the C loops walk backwards through memory
    and the embedding gives [None]. *)
Definition bp_bi_search_one (content : list byte) (content_len item_size : Z)
    (target : list byte) (target_size offset : Z)
    (compare : option bp_compare_f) : option (Z * Z) :=
  if 0 =? content_len then Some (0, 0)
  else if item_size =? 0 then None
  else
    let compare := compare_or_default compare in
    let item_num := content_len ÷ item_size in
    let low := 0 in
    let high := low + (item_num - 1) * item_size in
    bi_search_loop content item_size target target_size offset compare
                   (Z.to_nat item_num) low high item_num None.

Definition bp_bi_search_first (content : list byte)
    (content_len item_size : Z) (target : list byte)
    (target_size offset : Z) (compare : option bp_compare_f)
    : option (Z * Z) :=
  let compare' := compare_or_default compare in
  '(found, found_idx) ← bp_bi_search_one content content_len item_size target
                          target_size offset (Some compare');
  if 0 =? found then Some (0, found_idx)
  else
    found_idx ← bi_first_loop content item_size target target_size offset
                  compare' (Z.to_nat found_idx) found_idx;
    Some (1, found_idx).

Definition bp_bi_search_last (content : list byte)
    (content_len item_size : Z) (target : list byte)
    (target_size offset : Z) (compare : option bp_compare_f)
    : option (Z * Z) :=
  let compare' := compare_or_default compare in
  '(found, found_idx) ← bp_bi_search_one content content_len item_size target
                          target_size offset (Some compare');
  if 0 =? found then Some (0, found_idx)
  else
    found_idx ← bi_last_loop content item_size target target_size offset
                  compare' (Z.to_nat (content_len ÷ item_size)) content_len
                  found_idx;
    Some (1, found_idx).

(** ** Nodes and the node heap *)

Inductive bp_node_type_e :=
| BP_NODE_TYPE_INNER
| BP_NODE_TYPE_DATA
| BP_NODE_TYPE_MAX.

(** Values of the two function-pointer types: the functions of bplus.c
    that have the matching signature.  A null pointer is [None]. *)
Inductive bp_node_insert_f :=
| PTR_bp_data_node_insert_data
| PTR_bp_inner_node_insert_data.

Inductive bp_node_get_max_key_f :=
| PTR_bp_data_node_max_key
| PTR_bp_inner_node_max_key.

Module Common.
Record t := mk {
  type : bp_node_type_e;
  insert : option bp_node_insert_f;
  max_key : option bp_node_get_max_key_f;
  compare : option bp_compare_f;
  max_key_num : Z;
  min_key_num : Z;
  key_num : Z
}.

Definition set_key_num (c : t) (n : Z) : t :=
  mk (type c) (insert c) (max_key c) (compare c)
     (max_key_num c) (min_key_num c) n.
End Common.

Module Data.
Record t := mk {
  common : Common.t;
  key_size : Z;
  value_size : Z;
  content_len : Z;
  content : list byte
}.

Definition key_num (d : t) : Z := Common.key_num (common d).

Definition set_key_num (d : t) (n : Z) : t :=
  mk (Common.set_key_num (common d) n) (key_size d) (value_size d)
     (content_len d) (content d).

Definition set_content (d : t) (c : list byte) : t :=
  mk (common d) (key_size d) (value_size d) (content_len d) c.
End Data.

Module Inner.
Record t := mk {
  common : Common.t;
  key_size : Z;
  key_total : Z;
  content_len : Z;
  content : list byte
}.

Definition key_num (i : t) : Z := Common.key_num (common i).

Definition set_key_num (i : t) (n : Z) : t :=
  mk (Common.set_key_num (common i) n) (key_size i) (key_total i)
     (content_len i) (content i).

Definition set_key_total (i : t) (n : Z) : t :=
  mk (common i) (key_size i) n (content_len i) (content i).

Definition set_content (i : t) (c : list byte) : t :=
  mk (common i) (key_size i) (key_total i) (content_len i) c.
End Inner.

(** What a [bp_node_t *] points to. *)
Inductive bp_node :=
| DATA (d : Data.t)
| INNER (i : Inner.t).

Definition node_common (n : bp_node) : Common.t :=
  match n with
  | DATA d => Data.common d
  | INNER i => Inner.common i
  end.

Definition NULL : Z := 0.

(** The heap: the node at address [p > 0] is the [p - 1]-th allocated
    block.  [malloc_oracle] gives the outcome of the coming calls of
    [malloc] ([false]: the call returns NULL); once it is used up, every
    call fails. *)
Record heap := mk_heap {
  nodes : list bp_node;
  malloc_oracle : list bool
}.

Definition deref (h : heap) (p : Z) : option bp_node :=
  if p <=? 0 then None else nodes h !! Z.to_nat (p - 1).

Definition deref_data (h : heap) (p : Z) : option Data.t :=
  n ← deref h p; match n with DATA d => Some d | INNER _ => None end.

Definition deref_inner (h : heap) (p : Z) : option Inner.t :=
  n ← deref h p; match n with INNER i => Some i | DATA _ => None end.

Definition store (h : heap) (p : Z) (n : bp_node) : heap :=
  if p <=? 0 then h
  else mk_heap (<[Z.to_nat (p - 1) := n]> (nodes h)) (malloc_oracle h).

Definition SIZE_MAX : Z := 2 ^ 64 - 1.
Definition PTRDIFF_MAX : Z := 2 ^ 63 - 1.

(** [malloc (size)]: whether the call succeeds, and the heap with the
    oracle advanced.  A request above [PTRDIFF_MAX] bytes always fails, and
    so does one for which no 64-bit address is left. *)
Definition malloc (h : heap) (size : Z) : bool * heap :=
  match malloc_oracle h with
  | [] => (false, h)
  | ok :: rest =>
      (ok && (size <=? PTRDIFF_MAX)
          && (Z.of_nat (length (nodes h)) + 1 <=? SIZE_MAX),
       mk_heap (nodes h) rest)
  end.

(** The block obtained from a successful [malloc], once initialised. *)
Definition new_block (h : heap) (n : bp_node) : Z * heap :=
  (Z.of_nat (length (nodes h)) + 1,
   mk_heap (nodes h ++ [n]) (malloc_oracle h)).

(** [(int) z] for a [size_t] or wider value [z] *)
Definition int_of_Z (z : Z) : Z := (z + 2 ^ 31) mod 2 ^ 32 - 2 ^ 31.

(** [(size_t) z] *)
Definition size_t_of_Z (z : Z) : Z := z mod 2 ^ 64.

(** [sizeof (bp_data_node_t)] and [sizeof (bp_inner_node_t)] on LP64: the
    header takes 60 bytes, [content] starts at offset 60 and the size is
    rounded up to 64.  The block of a node is [sizeof_node + content_len]
    bytes long, so four bytes of padding follow the [content_len] bytes of
    [content]; the embedding keeps [content_len] bytes and counts an access
    behind them as an access outside the buffer. *)
Definition sizeof_node : Z := 64.

Definition bp_calc_inner_node_content_len (max_key_num key_size : Z) : Z :=
  int_of_Z (max_key_num * (key_size + Mem.sizeof_ptr) + Mem.sizeof_ptr).

Definition bp_calc_data_node_content_len
    (max_kv_num key_size value_size : Z) : Z :=
  int_of_Z (max_kv_num * (key_size + value_size) + Mem.sizeof_ptr).

(** ** Leaf (data) nodes *)

Definition bp_create_data_node (h : heap)
    (max_kv_num min_kv_num key_size value_size : Z)
    (compare : option bp_compare_f) : option (Z * heap) :=
  let content_len :=
    bp_calc_data_node_content_len max_kv_num key_size value_size in
  let '(ok, h) := malloc h (size_t_of_Z (sizeof_node + content_len)) in
  if negb ok then Some (NULL, h)
  else if content_len <? 0 then None
  else
    let new :=
      Data.mk
        (Common.mk BP_NODE_TYPE_DATA
                   (Some PTR_bp_data_node_insert_data)
                   (Some PTR_bp_data_node_max_key)
                   compare max_kv_num min_kv_num 0)
        key_size value_size content_len (Mem.zeros content_len) in
    Some (new_block h (DATA new)).

Definition bp_data_node_need_split (data : Data.t) : bool :=
  Data.key_num data >=? Common.max_key_num (Data.common data).

(** offset in [content] of the slot that holds [pnext] *)
Definition bp_data_node_get_pnext_save_position (data : Data.t) : Z :=
  Data.content_len data - Mem.sizeof_ptr.

Definition bp_data_node_get_pnext (data : Data.t) : option Z :=
  Mem.load_ptr (Data.content data)
               (bp_data_node_get_pnext_save_position data).

Definition bp_data_node_set_pnext (data : Data.t) (pnext : Z)
  : option Data.t :=
  Data.set_content data
    <$> Mem.store_ptr (Data.content data)
                      (bp_data_node_get_pnext_save_position data) pnext.

(** [bp_data_node_split (to_split, pp_new)]: the result, the pointer left
    in [pp_new], and the heap. *)
Definition bp_data_node_split (h : heap) (to_split : Z)
  : option (Z * Z * heap) :=
  old ← deref_data h to_split;
  '(new_p, h) ← bp_create_data_node h
                  (Common.max_key_num (Data.common old))
                  (Common.min_key_num (Data.common old))
                  (Data.key_size old) (Data.value_size old)
                  (Common.compare (Data.common old));
  if new_p =? NULL then Some (-1, NULL, h)
  else
    new ← deref_data h new_p;
    let old_data_num := Data.key_num old in
    let old := Data.set_key_num old (old_data_num ÷ 2) in
    let new := Data.set_key_num new (old_data_num - Data.key_num old) in
    let offset :=
      Data.key_num old * (Data.key_size old + Data.value_size old) in
    let copy_len :=
      Data.key_num new * (Data.key_size new + Data.value_size new) in
    c ← Mem.memcpy (Data.content new) 0 (Data.content old) offset copy_len;
    let new := Data.set_content new c in
    pnext ← bp_data_node_get_pnext old;
    new ← bp_data_node_set_pnext new pnext;
    old ← bp_data_node_set_pnext old new_p;
    let h := store h to_split (DATA old) in
    let h := store h new_p (DATA new) in
    Some (0, new_p, h).

(** The loop of [bp_data_node_insert_data] that moves the items behind
    [dst] one slot up:
    [for (tmp = ...; tmp > dst; tmp -= item_size)
       memcpy (tmp, tmp - item_size, item_size)]. *)
Fixpoint data_shift_loop (fuel : nat) (content : list byte)
    (tmp dst item_size : Z) : option (list byte) :=
  if tmp >? dst then
    match fuel with
    | O => None
    | S fuel' =>
        content ← Mem.memcpy content tmp content (tmp - item_size) item_size;
        data_shift_loop fuel' content (tmp - item_size) dst item_size
    end
  else Some content.

(** [bp_data_node_insert_data (node, key, position, pp_new)]: the result,
    the pointer left in [pp_new], the caller's [key] buffer afterwards, and
    the heap.

    [key] is a valid pointer, so the value of [memcpy (key, ...)], which is
    [key] itself, is never [0]: the test at the split point is false
    whenever it is reached.

    The shift loop copies one slot more than it has to.  A copy that ends
    behind the [content_len] bytes of content has no result here, also
    where it would end within the four bytes of padding that follow them
    in the block (see [sizeof_node]): there the embedding is stricter than
    the C code. *)
Definition bp_data_node_insert_data (h : heap) (node : Z)
    (key position : list byte) : option (Z * Z * list byte * heap) :=
  data ← deref_data h node;
  '(split_res, pp_new, h) ←
    (if bp_data_node_need_split data then bp_data_node_split h node
     else Some (0, NULL, h));
  if bp_data_node_need_split data && (-1 =? split_res)
  then Some (-1, pp_new, key, h)
  else
    '(data_p, key) ←
      (if pp_new =? NULL then Some (node, key)
       else
         data ← deref_data h node;
         new ← deref_data h pp_new;
         let max_key_of_data :=
           (Data.key_num data - 1)
           * (Data.key_size data + Data.value_size data) in
         cmp_res ← Mem.memcmp key 0 (Data.content data) max_key_of_data
                              (Data.key_size data);
         if 0 <? cmp_res then Some (pp_new, key)
         else if 0 =? cmp_res then
           let min_key_of_new := 0 in
           key ← Mem.memcpy key 0 (Data.content new) min_key_of_new
                            (Data.key_size data);
           let memcpy_result_is_null := false in
           if memcpy_result_is_null then Some (pp_new, key)
           else Some (node, key)
         else Some (node, key));
    data ← deref_data h data_p;
    let item_size := Data.key_size data + Data.value_size data in
    let valid_data_len := Data.key_num data * item_size in
    '(found, found_idx) ←
      bp_bi_search_last (Data.content data) valid_data_len item_size key
                        (Data.key_size data) 0
                        (Common.compare (Data.common data));
    let dst := found_idx * item_size in
    let dst := if found =? 0 then dst else dst + item_size in
    content ←
      (if dst <? valid_data_len
       then data_shift_loop (Z.to_nat (Data.key_num data) + 2)
                            (Data.content data)
                            (valid_data_len + item_size) dst item_size
       else Some (Data.content data));
    content ← Mem.memcpy content dst key 0 (Data.key_size data);
    content ← Mem.memcpy content (dst + Data.key_size data) position 0
                         (Data.value_size data);
    let data := Data.set_content data content in
    let data := Data.set_key_num data (Data.key_num data + 1) in
    Some (0, pp_new, key, store h data_p (DATA data)).

(** [bp_data_node_max_key (node, key_buf, key_buf_len)]: the result and
    the caller's buffer afterwards; [key_buf] is the buffer the pointer
    points into and [key_buf_off] the offset of the pointer in it. *)
Definition bp_data_node_max_key (h : heap) (node : Z) (key_buf : list byte)
    (key_buf_off key_buf_len : Z) : option (Z * list byte) :=
  data ← deref_data h node;
  if Data.key_num data <=? 0 then Some (-1, key_buf)
  else
    let cp_len :=
      if key_buf_len <? Data.key_size data then key_buf_len
      else Data.key_size data in
    key_buf ← Mem.memcpy key_buf key_buf_off (Data.content data)
                ((Data.key_num data - 1)
                 * (Data.key_size data + Data.value_size data)) cp_len;
    Some (cp_len, key_buf).

(** ** Inner nodes *)

Definition bp_create_inner_node (h : heap) (max_key_num key_size : Z)
    (compare : option bp_compare_f) : option (Z * heap) :=
  let content_len := bp_calc_inner_node_content_len max_key_num key_size in
  let '(ok, h) := malloc h (size_t_of_Z (sizeof_node + content_len)) in
  if negb ok then Some (NULL, h)
  else if content_len <? 0 then None
  else
    let new :=
      Inner.mk
        (Common.mk BP_NODE_TYPE_INNER
                   (Some PTR_bp_inner_node_insert_data)
                   None
                   compare max_key_num (max_key_num ÷ 2) 0)
        key_size 0 content_len (Mem.zeros content_len) in
    Some (new_block h (INNER new)).

Definition bp_inner_node_get_insert_position (inner : Inner.t)
    (found_idx : Z) : option Z :=
  if found_idx <? Inner.key_num inner then
    Mem.load_ptr (Inner.content inner)
                 (found_idx * (Mem.sizeof_ptr + Inner.key_size inner))
  else
    Mem.load_ptr (Inner.content inner)
                 ((Inner.key_num inner - 1)
                  * (Mem.sizeof_ptr + Inner.key_size inner)).

Definition bp_inner_node_split (h : heap) (to_split : Z)
  : option (Z * Z * heap) :=
  old ← deref_inner h to_split;
  '(new_p, h) ← bp_create_inner_node h
                  (Common.max_key_num (Inner.common old))
                  (Inner.key_size old)
                  (Common.compare (Inner.common old));
  if new_p =? NULL then Some (-1, NULL, h)
  else
    new ← deref_inner h new_p;
    let old_data_num := Inner.key_num old in
    let old := Inner.set_key_num old (old_data_num ÷ 2) in
    let new := Inner.set_key_num new (old_data_num - Inner.key_num old) in
    let offset :=
      Inner.key_num old * (Mem.sizeof_ptr + Inner.key_size old) in
    let copy_len :=
      Inner.key_num new * (Mem.sizeof_ptr + Inner.key_size new) in
    c ← Mem.memcpy (Inner.content new) 0 (Inner.content old) offset copy_len;
    let new := Inner.set_content new c in
    let h := store h to_split (INNER old) in
    let h := store h new_p (INNER new) in
    Some (0, new_p, h).

Definition bp_inner_node_max_key (h : heap) (node : Z) (key_buf : list byte)
    (key_buf_off key_buf_len : Z) : option (Z * list byte) :=
  inner ← deref_inner h node;
  if Inner.key_num inner <=? 0 then Some (-1, key_buf)
  else
    let cp_len :=
      if key_buf_len <? Inner.key_size inner then key_buf_len
      else Inner.key_size inner in
    key_buf ← Mem.memcpy key_buf key_buf_off (Inner.content inner)
                ((Inner.key_num inner - 1)
                 * (Mem.sizeof_ptr + Inner.key_size inner)
                 + Mem.sizeof_ptr) cp_len;
    Some (cp_len, key_buf).

(** A call [f (node, key_buf, key_buf_len)] through a pointer [f] of type
    [bp_node_get_max_key_f]. *)
Definition call_max_key (f : option bp_node_get_max_key_f) (h : heap)
    (node : Z) (key_buf : list byte) (key_buf_off key_buf_len : Z)
  : option (Z * list byte) :=
  match f with
  | None => None
  | Some PTR_bp_data_node_max_key =>
      bp_data_node_max_key h node key_buf key_buf_off key_buf_len
  | Some PTR_bp_inner_node_max_key =>
      bp_inner_node_max_key h node key_buf key_buf_off key_buf_len
  end.

(** [child->max_key (child, dst->content + off, key_buf_len)], for an inner
    node [dst]; the result of the call is dropped, as at both call sites. *)
Definition max_key_into (h : heap) (child dst : Z) (off key_buf_len : Z)
  : option heap :=
  c ← deref h child;
  d ← deref_inner h dst;
  '(_, buf) ← call_max_key (Common.max_key (node_common c)) h child
                (Inner.content d) off key_buf_len;
  Some (store h dst (INNER (Inner.set_content d buf))).

(** The loop of [bp_inner_node_add_split_child] that moves the entries
    behind the child one slot up:
    [for (tmp = ...; tmp > child_position; tmp -= item_size)
       memcpy (tmp + item_size, tmp, item_size)]. *)
Fixpoint inner_shift_loop (fuel : nat) (content : list byte)
    (tmp child_position item_size : Z) : option (list byte) :=
  if tmp >? child_position then
    match fuel with
    | O => None
    | S fuel' =>
        content ← Mem.memcpy content (tmp + item_size) content tmp item_size;
        inner_shift_loop fuel' content (tmp - item_size) child_position
                         item_size
    end
  else Some content.

(** [bp_inner_node_add_split_child (inner, child, split_child, child_idx,
    split_inner)]: the result, the pointer left in [split_inner], and the
    heap.  A write that ends behind the [content_len] bytes of content has
    no result here, also where it would end within the four bytes of
    padding that follow them in the block (see [sizeof_node]): there the
    embedding is stricter than the C code. *)
Definition bp_inner_node_add_split_child (h : heap)
    (inner_p child split_child child_idx : Z) : option (Z * Z * heap) :=
  inner ← deref_inner h inner_p;
  let full :=
    Inner.key_num inner =? Common.max_key_num (Inner.common inner) in
  '(split_res, split_inner, h) ←
    (if full then bp_inner_node_split h inner_p else Some (0, NULL, h));
  if full && (-1 =? split_res) then Some (-1, split_inner, h)
  else
    inner ← deref_inner h inner_p;
    let '(inner_contains_child, child_idx) :=
      if split_inner =? NULL then (inner_p, child_idx)
      else if child_idx <? Inner.key_num inner then (inner_p, child_idx)
      else (split_inner, child_idx - Inner.key_num inner) in
    let item_size := Mem.sizeof_ptr + Inner.key_size inner in
    let valid_data_len := Inner.key_num inner * item_size in
    let child_position := child_idx * item_size in
    h ← max_key_into h child inner_contains_child
          (child_position + Mem.sizeof_ptr) (Inner.key_size inner);
    icc ← deref_inner h inner_contains_child;
    content ← inner_shift_loop (Z.to_nat (Inner.key_num inner))
                (Inner.content icc) (valid_data_len - item_size)
                child_position item_size;
    let tmp := child_position + item_size in
    content ← Mem.store_ptr content tmp split_child;
    let h := store h inner_contains_child
                   (INNER (Inner.set_content icc content)) in
    h ← max_key_into h split_child inner_contains_child
          (tmp + Mem.sizeof_ptr) (Inner.key_size icc);
    icc ← deref_inner h inner_contains_child;
    let h := store h inner_contains_child
                   (INNER (Inner.set_key_num icc (Inner.key_num icc + 1))) in
    Some (0, split_inner, h).

(** [bp_inner_node_insert_data (node, key, position, pp_new)]: the result,
    the pointer left in [pp_new], the caller's [key] buffer afterwards, and
    the heap.  The call [child->insert (...)] goes through the function
    pointer of the child; [depth] bounds the nesting of these calls. *)
Fixpoint bp_inner_node_insert_data (depth : nat) (h : heap) (node : Z)
    (key position : list byte) {struct depth}
  : option (Z * Z * list byte * heap) :=
  inner ← deref_inner h node;
  inner ←
    (if 0 =? Inner.key_num inner then
       c ← Mem.memcpy (Inner.content inner) Mem.sizeof_ptr key 0
                      (Inner.key_size inner);
       Some (Inner.set_key_num (Inner.set_content inner c) 1)
     else Some inner);
  let item_size := Mem.sizeof_ptr + Inner.key_size inner in
  let valid_data_len := Inner.key_num inner * item_size in
  '(_, found_idx) ←
    bp_bi_search_last (Inner.content inner) valid_data_len item_size key
                      (Inner.key_size inner) Mem.sizeof_ptr
                      (Common.compare (Inner.common inner));
  inner ←
    (if found_idx =? Inner.key_num inner then
       c ← Mem.memcpy (Inner.content inner)
                      ((found_idx - 1) * item_size + Mem.sizeof_ptr) key 0
                      (Inner.key_size inner);
       Some (Inner.set_content inner c)
     else Some inner);
  let h := store h node (INNER inner) in
  child ← bp_inner_node_get_insert_position inner found_idx;
  child_node ← deref h child;
  '(res, split_child, key, h) ←
    match Common.insert (node_common child_node) with
    | None => None
    | Some PTR_bp_data_node_insert_data =>
        bp_data_node_insert_data h child key position
    | Some PTR_bp_inner_node_insert_data =>
        match depth with
        | O => None
        | S depth' => bp_inner_node_insert_data depth' h child key position
        end
    end;
  if -1 =? res then Some (-1, NULL, key, h)
  else
    '(_, pp_new, h) ←
      (if split_child =? NULL then Some (0, NULL, h)
       else bp_inner_node_add_split_child h node child split_child
                                          found_idx);
    inner ← deref_inner h node;
    let h := store h node
               (INNER (Inner.set_key_total inner
                                           (Inner.key_total inner + 1))) in
    Some (0, pp_new, key, h).

(** [bp_inner_node_set_first_ptr (inner, first_data)] *)
Definition bp_inner_node_set_first_ptr (h : heap) (inner_p first_data : Z)
  : option heap :=
  inner ← deref_inner h inner_p;
  c ← Mem.store_ptr (Inner.content inner) 0 first_data;
  Some (store h inner_p (INNER (Inner.set_content inner c))).

Definition bp_node_get_key_num (h : heap) (node : Z) : option Z :=
  n ← deref h node; Some (Common.key_num (node_common n)).

Definition bp_node_get_content (h : heap) (node : Z) : option (list byte) :=
  n ← deref h node;
  match Common.type (node_common n) with
  | BP_NODE_TYPE_DATA => Data.content <$> deref_data h node
  | _ => Inner.content <$> deref_inner h node
  end.

Definition bytes (s : string) : list byte := list_byte_of_string s.

(** ** The scenarios of test.cc *)

Definition empty_heap (oracle : list bool) : heap := mk_heap [] oracle.

(** A sequence of calls of [bp_data_node_insert_data] on one node, each
    required to return [0] and to leave [NULL] in [pp_new]. *)
Fixpoint data_inserts (h : heap) (node : Z)
    (kvs : list (list byte * list byte)) : option heap :=
  match kvs with
  | [] => Some h
  | (k, v) :: kvs =>
      '(res, pp_new, _, h) ← bp_data_node_insert_data h node k v;
      if (res =? 0) && (pp_new =? NULL) then data_inserts h node kvs
      else None
  end.

(** A sequence of calls of [bp_inner_node_insert_data] on one node, each
    required to return [0] and to leave [NULL] in [pp_new]. *)
Fixpoint inner_inserts (depth : nat) (h : heap) (node : Z)
    (kvs : list (list byte * list byte)) : option heap :=
  match kvs with
  | [] => Some h
  | (k, v) :: kvs =>
      '(res, pp_new, _, h) ← bp_inner_node_insert_data depth h node k v;
      if (res =? 0) && (pp_new =? NULL) then inner_inserts depth h node kvs
      else None
  end.

(** The set-up of test InnerNode.Insert: [head] and [data] are created and
    the address of [data] is copied to the start of the content of [head]. *)
Definition inner_test_setup (oracle : list bool) : option (Z * Z * heap) :=
  '(head, h) ← bp_create_inner_node (empty_heap oracle) 4 2 None;
  '(data, h) ← bp_create_data_node h 4 2 2 2 None;
  h ← bp_inner_node_set_first_ptr h head data;
  Some (head, data, h).

(** ** Notions used in the statements *)

(** The six pairs of test LeafNode.Insert, in the order of insertion. *)
Definition leaf_test_pairs : list (list byte * list byte) :=
  [(bytes "1", bytes "1"); (bytes "3", bytes "5"); (bytes "2", bytes "3");
   (bytes "2", bytes "4"); (bytes "3", bytes "6"); (bytes "1", bytes "2")].

(** A full leaf of capacity 4 (one-byte keys and values) that holds
    ("1","a") ("2","b") ("2","c") ("3","d"): a split keeps the first "2" in
    the old half and moves the second one to the new half. *)
Definition dup_leaf (oracle : list bool) : option (Z * heap) :=
  '(p, h) ← bp_create_data_node (empty_heap (true :: oracle)) 4 2 1 1 None;
  h ← data_inserts h p
        [(bytes "1", bytes "a"); (bytes "2", bytes "b");
         (bytes "2", bytes "c"); (bytes "3", bytes "d")];
  Some (p, h).

(** A leaf with two-byte keys and values that holds ("57","ab"). *)
Definition wide_leaf : option (Z * heap) :=
  '(p, h) ← bp_create_data_node (empty_heap [true]) 4 2 2 2 None;
  h ← data_inserts h p [(bytes "57", bytes "ab")];
  Some (p, h).

(** Key of item [i] of a packed array: the [key_size] bytes at [offset]
    inside the item. *)
Definition item_key (content : list byte) (item_size offset key_size i : Z)
  : list byte :=
  take (Z.to_nat key_size) (drop (Z.to_nat (i * item_size + offset)) content).

(** The comparator, applied to [size] bytes on each side, is a total
    preorder on the byte strings of length [size]. *)
Record total_preorder (cmp : bp_compare_f) (size : Z) : Prop := {
  cmp_antisym : ∀ a b : list byte,
    Mem.len a = size → Mem.len b = size →
    (cmp a b size < 0 ↔ 0 < cmp b a size);
  cmp_trans : ∀ a b c : list byte,
    Mem.len a = size → Mem.len b = size → Mem.len c = size →
    cmp a b size ≤ 0 → cmp b c size ≤ 0 → cmp a c size ≤ 0
}.

(** The first [n] items of [content] have non-decreasing keys. *)
Definition sorted_items (cmp : bp_compare_f) (content : list byte)
    (item_size offset key_size n : Z) : Prop :=
  ∀ i j, 0 ≤ i → i ≤ j → j < n →
    cmp (item_key content item_size offset key_size i)
        (item_key content item_size offset key_size j) key_size ≤ 0.

(** [content] holds [n] whole items of [item_size] bytes, each with a key
    field of [key_size] bytes at [offset]. *)
Record packed_array (content : list byte) (item_size offset key_size n : Z)
  : Prop := {
  pa_item_size : 0 < item_size;
  pa_count : 0 ≤ n;
  pa_offset : 0 ≤ offset;
  pa_key_size : 0 ≤ key_size;
  pa_field : offset + key_size ≤ item_size;
  pa_length : n * item_size ≤ Mem.len content
}.

(** The result of comparing the target with the key of item [i], in the
    argument order of [bp_bi_search_one]: negative when the target is below
    the item, zero when they match, positive when it is above. *)
Definition target_vs_item (cmp : bp_compare_f) (content : list byte)
    (item_size offset : Z) (target : list byte) (target_size i : Z) : Z :=
  cmp (take (Z.to_nat target_size) target)
      (item_key content item_size offset target_size i) target_size.

(** What a search may return on [n] sorted items: found, at an item that
    matches; or not found, at the index that separates the items below the
    target from the items above it. *)
Definition search_post (cmp : bp_compare_f) (content : list byte)
    (item_size offset : Z) (target : list byte) (target_size n : Z)
    (found idx : Z) : Prop :=
  let kc := target_vs_item cmp content item_size offset target target_size in
  (found = 1 ∧ 0 ≤ idx < n ∧ kc idx = 0)
  ∨ (found = 0 ∧ 0 ≤ idx ≤ n
     ∧ (∀ i, 0 ≤ i < idx → 0 < kc i)
     ∧ (∀ i, idx ≤ i < n → kc i < 0)).

Definition INT_MAX : Z := 2 ^ 31 - 1.

(** A leaf as the factory lays it out and the inserts keep it: sizes are
    not negative, the count is within the capacity, and the buffer has room
    for [max_key_num] items and the [pnext] slot. *)
Record data_wf (d : Data.t) : Prop := {
  dwf_key_size : 0 ≤ Data.key_size d;
  dwf_value_size : 0 ≤ Data.value_size d;
  dwf_count : 0 ≤ Data.key_num d ≤ Common.max_key_num (Data.common d);
  dwf_content_len :
    Data.content_len d
    = Common.max_key_num (Data.common d)
      * (Data.key_size d + Data.value_size d) + Mem.sizeof_ptr;
  dwf_int : Data.content_len d ≤ INT_MAX;
  dwf_content : Mem.len (Data.content d) = Data.content_len d
}.

(** The size [bp_data_node_split] asks [malloc] for, through
    [bp_create_data_node]. *)
Definition data_split_request (d : Data.t) : Z :=
  size_t_of_Z
    (sizeof_node
     + bp_calc_data_node_content_len
         (Common.max_key_num (Data.common d))
         (Data.key_size d) (Data.value_size d)).

(** Offset, in the content of an inner node, of the key of its last
    separator. *)
Definition last_separator_offset (i : Inner.t) : Z :=
  (Inner.key_num i - 1) * (Mem.sizeof_ptr + Inner.key_size i)
  + Mem.sizeof_ptr.

(** [i'] is [i] up to the eager separator update of
    [bp_inner_node_insert_data]: either nothing changed, or the count is
    the same (or went from 0 to 1) and the content differs at most in the
    key bytes of the last separator.  Every other field, and every child
    pointer, is the same. *)
Definition inner_widened (i i' : Inner.t) : Prop :=
  Inner.set_content (Inner.set_key_num i' (Inner.key_num i)) (Inner.content i)
  = i
  ∧ Mem.len (Inner.content i') = Mem.len (Inner.content i)
  ∧ (i' = i
     ∨ (Inner.key_num i' ≠ 0
        ∧ (Inner.key_num i' = Inner.key_num i
           ∨ (Inner.key_num i = 0 ∧ Inner.key_num i' = 1))
        ∧ ∀ o m,
            o + m ≤ last_separator_offset i'
            ∨ last_separator_offset i' + Inner.key_size i' ≤ o →
            Mem.read (Inner.content i') o m
            = Mem.read (Inner.content i) o m)).

(** What a failed insert leaves behind: the same addresses, every leaf as
    it was, every inner node as it was up to [inner_widened]. *)
Definition failed_insert_frame (h h' : heap) : Prop :=
  length (nodes h') = length (nodes h)
  ∧ ∀ p,
      match deref h p with
      | Some (DATA d) => deref h' p = Some (DATA d)
      | Some (INNER i) =>
          ∃ i', deref h' p = Some (INNER i') ∧ inner_widened i i'
      | None => deref h' p = None
      end.

(** A tree of height two: a root inner node over one inner node over one
    leaf of capacity 2 (one-byte keys and values), filled through the root
    with the keys "1" and "3", so that the leaf is full. *)
Definition two_level_tree (oracle : list bool) : option (Z * Z * Z * heap) :=
  '(root, h) ← bp_create_inner_node
                 (empty_heap (true :: true :: true :: oracle)) 4 1 None;
  '(mid, h) ← bp_create_inner_node h 4 1 None;
  '(leaf, h) ← bp_create_data_node h 2 1 1 1 None;
  h ← bp_inner_node_set_first_ptr h root mid;
  h ← bp_inner_node_set_first_ptr h mid leaf;
  h ← inner_inserts 1 h root [(bytes "1", bytes "a"); (bytes "3", bytes "c")];
  Some (root, mid, leaf, h).

(** A full inner node of capacity 1 over a full leaf of capacity 2. *)
Definition full_inner_tree (oracle : list bool) : option (Z * Z * heap) :=
  '(root, h) ← bp_create_inner_node
                 (empty_heap (true :: true :: oracle)) 1 1 None;
  '(leaf, h) ← bp_create_data_node h 2 1 1 1 None;
  h ← bp_inner_node_set_first_ptr h root leaf;
  h ← inner_inserts 0 h root [(bytes "1", bytes "a"); (bytes "3", bytes "c")];
  Some (root, leaf, h).

(** ** The tree handle *)

Module Tree.
Record t := mk {
  max_idx_num : Z;
  max_data_num : Z;
  key_size : Z;
  value_size : Z;
  head : Z;
  data : Z
}.
End Tree.

(** [sizeof (bp_tree_t)] on LP64 *)
Definition sizeof_tree : Z := 32.

(** [bp_create_tree (max_idx_num, max_data_num, key_size, value_size,
    compare)]: the handle it returns ([None] for NULL), the heap, and the
    node blocks it has passed to [free], in that order.  The handle is not
    a node: its block lies outside the node heap and only its [malloc] is
    played; when the function returns NULL after that [malloc], it has
    freed the handle. *)
Definition bp_create_tree (h : heap)
    (max_idx_num max_data_num key_size value_size : Z)
    (compare : option bp_compare_f)
  : option (option Tree.t * heap * list Z) :=
  if max_data_num <? max_idx_num then Some (None, h, [])
  else
    let '(ok, h) := malloc h sizeof_tree in
    if negb ok then Some (None, h, [])
    else
      '(head, h) ← bp_create_inner_node h max_idx_num key_size compare;
      if head =? NULL then Some (None, h, [])
      else
        '(data, h) ← bp_create_data_node h max_data_num (max_idx_num ÷ 2)
                       key_size value_size compare;
        if data =? NULL then Some (None, h, [head])
        else
          h ← bp_inner_node_set_first_ptr h head data;
          Some (Some (Tree.mk max_idx_num max_data_num key_size value_size
                              head data), h, []).

(** [bp_insert (tree, key, key_len, position, position_len)] *)
Definition bp_insert (tree : Tree.t) (key : list byte) (key_len : Z)
    (position : list byte) (position_len : Z) : Z :=
  if negb (Tree.key_size tree =? key_len) then -1
  else if negb (Tree.value_size tree =? position_len) then -1
  else 0.

(** ** More notions used in the statements *)

(** the byte at offset [z] of a buffer *)
Definition byte_at (buf : list byte) (z : Z) : option byte :=
  if z <? 0 then None else buf !! Z.to_nat z.

(** An inner node as the factory lays it out and the inserts keep it. *)
Record inner_wf (i : Inner.t) : Prop := {
  iwf_key_size : 0 ≤ Inner.key_size i;
  iwf_count : 0 ≤ Inner.key_num i ≤ Common.max_key_num (Inner.common i);
  iwf_content_len :
    Inner.content_len i
    = Common.max_key_num (Inner.common i)
      * (Inner.key_size i + Mem.sizeof_ptr) + Mem.sizeof_ptr;
  iwf_int : Inner.content_len i ≤ INT_MAX;
  iwf_content : Mem.len (Inner.content i) = Inner.content_len i
}.

(** The node [bp_create_data_node] initialises. *)
Definition fresh_data_node (max_kv_num min_kv_num key_size value_size : Z)
    (compare : option bp_compare_f) : Data.t :=
  let content_len := max_kv_num * (key_size + value_size) + Mem.sizeof_ptr in
  Data.mk (Common.mk BP_NODE_TYPE_DATA (Some PTR_bp_data_node_insert_data)
                     (Some PTR_bp_data_node_max_key) compare
                     max_kv_num min_kv_num 0)
          key_size value_size content_len (Mem.zeros content_len).

(** The node [bp_create_inner_node] initialises. *)
Definition fresh_inner_node (max_key_num key_size : Z)
    (compare : option bp_compare_f) : Inner.t :=
  let content_len := max_key_num * (key_size + Mem.sizeof_ptr)
                     + Mem.sizeof_ptr in
  Inner.mk (Common.mk BP_NODE_TYPE_INNER (Some PTR_bp_inner_node_insert_data)
                      None compare max_key_num (max_key_num ÷ 2) 0)
           key_size 0 content_len (Mem.zeros content_len).

(** Where [bp_data_node_insert_data] writes a new item among [n] sorted
    items, from the result of [bp_bi_search_last]: behind the last match,
    or at the index of the first larger key. *)
Definition insert_index (found idx : Z) : Z :=
  if found =? 0 then idx else idx + 1.

(** A leaf made by the factory (with all the memory it asks for) and
    filled by a sequence of inserts, none of which splits it. *)
Definition leaf_of (max_kv_num key_size value_size : Z)
    (kvs : list (list byte * list byte)) : option (Z * heap) :=
  '(p, h) ← bp_create_data_node (empty_heap [true]) max_kv_num
              (max_kv_num ÷ 2) key_size value_size None;
  h ← data_inserts h p kvs;
  Some (p, h).



(** A full inner node of capacity 3 over leaves of capacity 2, and one more
    leaf that is not yet in the node. *)
Definition odd_inner_tree : option (Z * Z * Z * heap) :=
  '(root, h) ← bp_create_inner_node
                 (empty_heap [true; true; true; true; true; true]) 3 1 None;
  '(leaf, h) ← bp_create_data_node h 2 1 1 1 None;
  h ← bp_inner_node_set_first_ptr h root leaf;
  h ← inner_inserts 0 h root
        [(bytes "7", bytes "g"); (bytes "5", bytes "e");
         (bytes "3", bytes "c"); (bytes "1", bytes "a")];
  '(sib, h) ← bp_create_data_node h 2 1 1 1 None;
  h ← data_inserts h sib [(bytes "6", bytes "f")];
  Some (root, leaf, sib, h).

(** * Properties *)

(** ** Raw buffers *)

Lemma read_Some (buf : list byte) (off n : Z) :
  0 ≤ off → 0 ≤ n → off + n ≤ Mem.len buf →
  Mem.read buf off n
  = Some (take (Z.to_nat n) (drop (Z.to_nat off) buf)).
Proof.
  intros H1 H2 H3. unfold Mem.read.
  destruct (Z.leb_spec 0 off); [|lia].
  destruct (Z.leb_spec 0 n); [|lia].
  destruct (Z.leb_spec (off + n) (Mem.len buf)); [|lia].
  reflexivity.
Qed.

Lemma read_inv (buf : list byte) (off n : Z) (l : list byte) :
  Mem.read buf off n = Some l →
  0 ≤ off ∧ 0 ≤ n ∧ off + n ≤ Mem.len buf
  ∧ l = take (Z.to_nat n) (drop (Z.to_nat off) buf).
Proof.
  unfold Mem.read.
  destruct (Z.leb_spec 0 off); simpl; [|discriminate].
  destruct (Z.leb_spec 0 n); simpl; [|discriminate].
  destruct (Z.leb_spec (off + n) (Mem.len buf)); simpl; [|discriminate].
  intros [= <-]. auto.
Qed.

Lemma len_take_drop (buf : list byte) (off n : Z) :
  0 ≤ off → 0 ≤ n → off + n ≤ Mem.len buf →
  Mem.len (take (Z.to_nat n) (drop (Z.to_nat off) buf)) = n.
Proof.
  unfold Mem.len. intros. rewrite length_take, length_drop. lia.
Qed.

(** ** Binary search *)

Section SearchSpec.

Variables (content : list byte) (item_size n : Z).
Variables (target : list byte) (target_size offset : Z).
Variable cmp : bp_compare_f.

Hypothesis Hpacked : packed_array content item_size offset target_size n.
Hypothesis Htarget : target_size ≤ Mem.len target.
Hypothesis Hcmp : total_preorder cmp target_size.
Hypothesis Hsorted : sorted_items cmp content item_size offset target_size n.

Local Abbreviation key := (item_key content item_size offset target_size).
Local Abbreviation tkey := (take (Z.to_nat target_size) target).
Local Abbreviation kc := (target_vs_item cmp content item_size offset target
                                     target_size).
Local Abbreviation search_post := (search_post cmp content item_size offset
                                           target target_size n).

Lemma key_len i : 0 ≤ i < n → Mem.len (key i) = target_size.
Proof using Hpacked.
  destruct Hpacked. intros Hi. apply len_take_drop; nia.
Qed.

Lemma tkey_len : Mem.len tkey = target_size.
Proof using Hpacked Htarget.
  destruct Hpacked. unfold Mem.len in *. rewrite length_take. lia.
Qed.

Lemma call_compare_target_item i :
  0 ≤ i < n →
  call_compare cmp target 0 content (i * item_size + offset) target_size
  = Some (kc i).
Proof using Hpacked Htarget.
  destruct Hpacked. intros Hi. unfold call_compare.
  rewrite !read_Some by nia. reflexivity.
Qed.

Lemma call_compare_item_target i :
  0 ≤ i < n →
  call_compare cmp content (i * item_size + offset) target 0 target_size
  = Some (cmp (key i) tkey target_size).
Proof using Hpacked Htarget.
  destruct Hpacked. intros Hi. unfold call_compare.
  rewrite !read_Some by nia. reflexivity.
Qed.

Lemma cmp_flip_le a b :
  Mem.len a = target_size → Mem.len b = target_size →
  0 ≤ cmp a b target_size → cmp b a target_size ≤ 0.
Proof using Hcmp.
  intros Ha Hb H. pose proof (cmp_antisym _ _ Hcmp a b Ha Hb). lia.
Qed.

Lemma cmp_flip_zero a b :
  Mem.len a = target_size → Mem.len b = target_size →
  cmp a b target_size = 0 → cmp b a target_size = 0.
Proof using Hcmp.
  intros Ha Hb H.
  pose proof (cmp_antisym _ _ Hcmp a b Ha Hb).
  pose proof (cmp_antisym _ _ Hcmp b a Hb Ha). lia.
Qed.

(** the target is above item [m]: it is above every item before *)
Lemma kc_above i m : 0 ≤ i → i ≤ m → m < n → 0 < kc m → 0 < kc i.
Proof using Hpacked Htarget Hcmp Hsorted.
  intros H0 Him Hm Hgt.
  destruct (Z.lt_ge_cases 0 (kc i)) as [|Hle]; [assumption|].
  exfalso. pose proof (Hsorted i m H0 Him Hm) as Hs.
  pose proof (cmp_trans _ _ Hcmp tkey (key i) (key m) tkey_len
                (key_len i ltac:(lia)) (key_len m ltac:(lia)) Hle Hs).
  unfold target_vs_item in *. lia.
Qed.

(** the target is below item [m]: it is below every item behind *)
Lemma kc_below i m : 0 ≤ m → m ≤ i → i < n → kc m < 0 → kc i < 0.
Proof using Hpacked Htarget Hcmp Hsorted.
  intros H0 Hmi Hi Hlt.
  destruct (Z.lt_ge_cases (kc i) 0) as [|Hge]; [assumption|].
  exfalso. pose proof (Hsorted m i H0 Hmi Hi) as Hs.
  pose proof (cmp_flip_le tkey (key i) tkey_len (key_len i ltac:(lia)) Hge)
    as Hit.
  pose proof (cmp_trans _ _ Hcmp (key m) (key i) tkey
                (key_len m ltac:(lia)) (key_len i ltac:(lia)) tkey_len
                Hs Hit) as Hmt.
  pose proof (cmp_antisym _ _ Hcmp tkey (key m) tkey_len
                (key_len m ltac:(lia))).
  unfold target_vs_item in *. lia.
Qed.

Lemma bi_search_loop_spec (fuel : nat) :
  ∀ lo num low high last,
    0 ≤ lo → 0 ≤ num → lo + num ≤ n → (Z.to_nat num ≤ fuel)%nat →
    low = lo * item_size → high = (lo + num - 1) * item_size →
    (∀ i, 0 ≤ i < lo → 0 < kc i) →
    (∀ i, lo + num ≤ i < n → kc i < 0) →
    (num = 0 → ∃ m c, last = Some (m * item_size, c) ∧ (c < 0 → m = lo)) →
    ∃ found idx,
      bi_search_loop content item_size target target_size offset cmp
                     fuel low high num last = Some (found, idx)
      ∧ search_post found idx.
Proof using Hpacked Htarget Hcmp Hsorted.
  pose proof (pa_item_size _ _ _ _ _ Hpacked) as Hitem.
  induction fuel as [|fuel IH];
    intros lo num low high last Hlo Hnum Hhi Hfuel -> -> Hbelow Habove Hlast.
  - assert (num = 0) as -> by lia.
    destruct (Hlast eq_refl) as (m & c & -> & Hm).
    simpl. destruct (Z.leb_spec (lo * item_size) ((lo + 0 - 1) * item_size));
      [nia|].
    simpl. destruct (Z.ltb_spec c 0).
    + rewrite (Hm ltac:(lia)), Z.quot_mul by lia.
      eexists _, _. split; [reflexivity|]. right.
      repeat split; try lia; [exact Hbelow|].
      intros i Hi. apply Habove. lia.
    + rewrite Z.quot_mul by lia.
      eexists _, _. split; [reflexivity|]. right.
      repeat split; try lia; [exact Hbelow|].
      intros i Hi. apply Habove. lia.
  - cbn [bi_search_loop].
    destruct (Z.leb_spec (lo * item_size) ((lo + num - 1) * item_size))
      as [Hle|Hgt].
    + assert (1 ≤ num) as Hnum1 by nia.
      set (half0 := num ÷ 2).
      set (half := if half0 =? 0 then 1 else half0).
      assert (1 ≤ half ≤ num ∧ (half = 1 ∨ half = num / 2)) as [Hhalf Hhalf'].
      { subst half half0. rewrite Z.quot_div_nonneg by lia.
        destruct (Z.eqb_spec (num / 2) 0); Z.div_mod_to_equations; lia. }
      set (m := lo + half - 1).
      replace (lo * item_size + (half - 1) * item_size)
        with (m * item_size) by (subst m; lia).
      rewrite call_compare_target_item by (subst m; lia).
      cbn [mbind option_bind].
      destruct (Z.eqb_spec 0 (kc m)) as [Hz|Hnz].
      * rewrite Z.quot_mul by lia.
        eexists _, _. split; [reflexivity|]. left.
        repeat split; subst m; lia.
      * destruct (Z.ltb_spec 0 (kc m)) as [Hpos|Hneg].
        -- apply (IH (m + 1)); try (subst m; lia).
           ++ intros i Hi. apply (kc_above i m); subst m; lia.
           ++ intros i Hi. apply Habove. subst m; lia.
           ++ intros _. exists m, (kc m). split; [reflexivity|lia].
        -- apply (IH lo); try (subst m; lia).
           ++ exact Hbelow.
           ++ intros i Hi.
              destruct (Z.lt_ge_cases i (lo + num)) as [Hin|Hout].
              ** apply (kc_below i m); subst m; lia.
              ** apply Habove. lia.
           ++ intros Hh. exists m, (kc m). split; [reflexivity|].
              intros _. subst m. lia.
    + assert (num = 0) as -> by nia.
      destruct (Hlast eq_refl) as (m & c & -> & Hm).
      cbn [mbind option_bind]. destruct (Z.ltb_spec c 0).
      * rewrite (Hm ltac:(lia)), Z.quot_mul by lia.
        eexists _, _. split; [reflexivity|]. right.
        repeat split; try lia; [exact Hbelow|].
        intros i Hi. apply Habove. lia.
      * rewrite Z.quot_mul by lia.
        eexists _, _. split; [reflexivity|]. right.
        repeat split; try lia; [exact Hbelow|].
        intros i Hi. apply Habove. lia.
Qed.

Lemma bp_bi_search_one_spec (compare : option bp_compare_f) :
  compare_or_default compare = cmp →
  ∃ found idx,
    bp_bi_search_one content (n * item_size) item_size target target_size
                     offset compare = Some (found, idx)
    ∧ search_post found idx.
Proof using Hpacked Htarget Hcmp Hsorted.
  pose proof (pa_item_size _ _ _ _ _ Hpacked) as Hitem.
  pose proof (pa_count _ _ _ _ _ Hpacked) as Hn.
  intros Hc. unfold bp_bi_search_one. rewrite Hc.
  destruct (Z.eqb_spec 0 (n * item_size)) as [Hz|Hnz].
  - exists 0, 0. split; [reflexivity|]. right.
    assert (n = 0) by nia. repeat split; intros; lia.
  - destruct (Z.eqb_spec item_size 0); [lia|].
    rewrite Z.quot_mul by lia.
    apply (bi_search_loop_spec (Z.to_nat n) 0 n); lia.
Qed.

(** a run of matching items is contiguous *)
Lemma kc_zero_between i m j :
  0 ≤ i → i ≤ m → m ≤ j → j < n → kc i = 0 → kc j = 0 → kc m = 0.
Proof using Hpacked Htarget Hcmp Hsorted.
  intros H0 Him Hmj Hj Hi Hjz.
  destruct (Z.lt_trichotomy (kc m) 0) as [Hlt|[Heq|Hgt]]; [|assumption|].
  - pose proof (kc_below j m ltac:(lia) Hmj Hj Hlt). lia.
  - pose proof (kc_above i m H0 Him ltac:(lia) Hgt). lia.
Qed.

Lemma item_vs_target_zero i :
  0 ≤ i < n → (cmp (key i) tkey target_size = 0 ↔ kc i = 0).
Proof using Hpacked Htarget Hcmp.
  intros Hi. unfold target_vs_item.
  split; apply cmp_flip_zero; auto using key_len, tkey_len.
Qed.

Lemma bi_first_loop_spec (fuel : nat) :
  ∀ idx,
    0 ≤ idx < n → (Z.to_nat idx ≤ fuel)%nat → kc idx = 0 →
    ∃ idx',
      bi_first_loop content item_size target target_size offset cmp fuel idx
      = Some idx'
      ∧ 0 ≤ idx' ≤ idx ∧ kc idx' = 0 ∧ (∀ i, 0 ≤ i < idx' → kc i ≠ 0).
Proof using Hpacked Htarget Hcmp Hsorted.
  induction fuel as [|fuel IH]; intros idx Hidx Hfuel Hz.
  - assert (idx = 0) as -> by lia. exists 0. simpl.
    repeat split; first [lia|assumption].
  - cbn [bi_first_loop]. destruct (Z.gtb_spec idx 0) as [Hpos|Hzero].
    + rewrite call_compare_item_target by lia. cbn [mbind option_bind].
      destruct (Z.eqb_spec 0 (cmp (key (idx - 1)) tkey target_size))
        as [Heq|Hne].
      * destruct (IH (idx - 1)) as (idx' & -> & ? & ? & ?); try lia.
        { apply item_vs_target_zero; lia. }
        exists idx'. repeat split; first [lia|assumption|auto].
      * exists idx. split; [reflexivity|]. split; [lia|].
        split; [assumption|]. intros i Hi Hiz. apply Hne. symmetry.
        apply item_vs_target_zero; [lia|].
        apply (kc_zero_between i (idx - 1) idx); auto; lia.
    + assert (idx = 0) as -> by lia. exists 0.
      repeat split; first [lia|assumption].
Qed.

Lemma bi_last_loop_spec (fuel : nat) :
  ∀ idx,
    0 ≤ idx < n → (Z.to_nat (n - idx) ≤ S fuel)%nat → kc idx = 0 →
    ∃ idx',
      bi_last_loop content item_size target target_size offset cmp fuel
                   (n * item_size) idx = Some idx'
      ∧ idx ≤ idx' < n ∧ kc idx' = 0 ∧ (∀ i, idx' < i < n → kc i ≠ 0).
Proof using Hpacked Htarget Hcmp Hsorted.
  pose proof (pa_item_size _ _ _ _ _ Hpacked) as Hitem.
  induction fuel as [|fuel IH]; intros idx Hidx Hfuel Hz.
  - assert (idx = n - 1) as -> by lia. exists (n - 1).
    cbn [bi_last_loop]. rewrite Z.quot_mul by lia.
    destruct (Z.ltb_spec (n - 1) (n - 1)); [lia|].
    repeat split; first [lia|assumption].
  - cbn [bi_last_loop]. rewrite Z.quot_mul by lia.
    destruct (Z.ltb_spec idx (n - 1)) as [Hlt|Hge].
    + rewrite call_compare_item_target by lia. cbn [mbind option_bind].
      destruct (Z.eqb_spec 0 (cmp (key (idx + 1)) tkey target_size))
        as [Heq|Hne].
      * destruct (IH (idx + 1)) as (idx' & Hrun & ? & ? & ?); try lia.
        { apply item_vs_target_zero; lia. }
        rewrite Hrun.
        exists idx'. repeat split; first [lia|assumption|auto].
      * exists idx. split; [reflexivity|]. split; [lia|].
        split; [assumption|]. intros i Hi Hiz. apply Hne. symmetry.
        apply item_vs_target_zero; [lia|].
        apply (kc_zero_between idx (idx + 1) i); auto; lia.
    + assert (idx = n - 1) as -> by lia. exists (n - 1).
      repeat split; first [lia|assumption].
Qed.

Lemma bp_bi_search_first_spec (compare : option bp_compare_f) :
  compare_or_default compare = cmp →
  ∃ found1 idx1 found idx,
    bp_bi_search_one content (n * item_size) item_size target target_size
                     offset compare = Some (found1, idx1)
    ∧ bp_bi_search_first content (n * item_size) item_size target
                         target_size offset compare = Some (found, idx)
    ∧ search_post found1 idx1
    ∧ found = found1
    ∧ (found = 0 → idx = idx1)
    ∧ (found = 1 →
       0 ≤ idx ≤ idx1 ∧ kc idx = 0 ∧ ∀ i, 0 ≤ i < idx → kc i ≠ 0).
Proof using Hpacked Htarget Hcmp Hsorted.
  intros Hc.
  destruct (bp_bi_search_one_spec compare Hc) as (found1 & idx1 & Hone & Hpost).
  exists found1, idx1. unfold bp_bi_search_first.
  assert (bp_bi_search_one content (n * item_size) item_size target
            target_size offset (Some (compare_or_default compare))
          = Some (found1, idx1)) as ->.
  { rewrite <- Hone. reflexivity. }
  cbn [mbind option_bind]. rewrite Hc.
  destruct Hpost as [(-> & Hidx & Hz)|(-> & Hidx & Hlo & Hhi)].
  - destruct (bi_first_loop_spec (Z.to_nat idx1) idx1)
      as (idx & -> & ? & ? & ?); auto.
    exists 1, idx. cbn. repeat split; first [lia|assumption|auto].
    left. auto.
  - exists 0, idx1. cbn. repeat split; first [lia|assumption|auto].
    right. auto.
Qed.

Lemma bp_bi_search_last_spec (compare : option bp_compare_f) :
  compare_or_default compare = cmp →
  ∃ found1 idx1 found idx,
    bp_bi_search_one content (n * item_size) item_size target target_size
                     offset compare = Some (found1, idx1)
    ∧ bp_bi_search_last content (n * item_size) item_size target
                        target_size offset compare = Some (found, idx)
    ∧ search_post found1 idx1
    ∧ found = found1
    ∧ (found = 0 → idx = idx1)
    ∧ (found = 1 →
       idx1 ≤ idx < n ∧ kc idx = 0 ∧ ∀ i, idx < i < n → kc i ≠ 0).
Proof using Hpacked Htarget Hcmp Hsorted.
  pose proof (pa_item_size _ _ _ _ _ Hpacked) as Hitem.
  intros Hc.
  destruct (bp_bi_search_one_spec compare Hc) as (found1 & idx1 & Hone & Hpost).
  exists found1, idx1. unfold bp_bi_search_last.
  assert (bp_bi_search_one content (n * item_size) item_size target
            target_size offset (Some (compare_or_default compare))
          = Some (found1, idx1)) as ->.
  { rewrite <- Hone. reflexivity. }
  cbn [mbind option_bind]. rewrite Hc.
  destruct Hpost as [(-> & Hidx & Hz)|(-> & Hidx & Hlo & Hhi)].
  - rewrite Z.quot_mul by lia.
    destruct (bi_last_loop_spec (Z.to_nat n) idx1)
      as (idx & -> & ? & ? & ?); auto; try lia.
    exists 1, idx. cbn. repeat split; first [lia|assumption|auto].
    left. auto.
  - exists 0, idx1. cbn. repeat split; first [lia|assumption|auto].
    right. auto.
Qed.

End SearchSpec.

(** ** The default comparator *)

Lemma memcmp_bytes_opp (a : list byte) :
  ∀ b, Mem.memcmp_bytes b a = - Mem.memcmp_bytes a b.
Proof.
  induction a as [|x a IH]; intros [|y b]; simpl; try reflexivity.
  rewrite Z.eqb_sym.
  destruct (Z.eqb_spec (Mem.byte_to_Z x) (Mem.byte_to_Z y)); [apply IH|lia].
Qed.

Lemma memcmp_bytes_trans (a : list byte) :
  ∀ b c,
    length a = length b → length b = length c →
    Mem.memcmp_bytes a b ≤ 0 → Mem.memcmp_bytes b c ≤ 0 →
    Mem.memcmp_bytes a c ≤ 0.
Proof.
  induction a as [|x a IH]; intros [|y b] [|z c]; simpl; try lia.
  intros [= Hab] [= Hbc].
  destruct (Z.eqb_spec (Mem.byte_to_Z x) (Mem.byte_to_Z y)) as [Exy|Nxy];
    destruct (Z.eqb_spec (Mem.byte_to_Z y) (Mem.byte_to_Z z)) as [Eyz|Nyz];
    destruct (Z.eqb_spec (Mem.byte_to_Z x) (Mem.byte_to_Z z)) as [Exz|Nxz];
    try lia.
  apply IH; assumption.
Qed.

Lemma take_key (size : Z) (a : list byte) :
  Mem.len a = size → take (Z.to_nat size) a = a.
Proof. unfold Mem.len. intros <-. apply take_ge. lia. Qed.

Lemma bp_compare_total_preorder (size : Z) : total_preorder bp_compare size.
Proof.
  split.
  - intros a b Ha Hb. unfold bp_compare.
    rewrite !take_key by assumption.
    rewrite (memcmp_bytes_opp a b). lia.
  - intros a b c Ha Hb Hc. unfold bp_compare.
    rewrite !take_key by assumption.
    apply memcmp_bytes_trans; unfold Mem.len in *; lia.
Qed.

(** ** Claims on the search functions *)

(** C3. On [n] items sorted under the comparator, [bp_bi_search_one]
    returns a result: when some item matches the target it reports found
    (1) with the index of a matching item; when none matches it reports
    not found (0) with the index [idx] such that every item before [idx] is
    below the target and every item from [idx] on is above it (so [idx] is
    the first item above the target, or [n] when there is none); with
    [content_len = 0] it reports not found with index 0, whatever the other
    arguments are. *)
Theorem C3_search_one_sorted
    (content : list byte) (item_size n : Z) (target : list byte)
    (target_size offset : Z) (compare : option bp_compare_f) :
  packed_array content item_size offset target_size n →
  target_size ≤ Mem.len target →
  total_preorder (compare_or_default compare) target_size →
  sorted_items (compare_or_default compare) content item_size offset
               target_size n →
  let kc := target_vs_item (compare_or_default compare) content item_size
                           offset target target_size in
  (∃ found idx,
     bp_bi_search_one content (n * item_size) item_size target target_size
                      offset compare = Some (found, idx)
     ∧ ((∃ i, 0 ≤ i < n ∧ kc i = 0) →
        found = 1 ∧ 0 ≤ idx < n ∧ kc idx = 0)
     ∧ ((∀ i, 0 ≤ i < n → kc i ≠ 0) →
        found = 0 ∧ 0 ≤ idx ≤ n
        ∧ (∀ i, 0 ≤ i < idx → 0 < kc i)
        ∧ (∀ i, idx ≤ i < n → kc i < 0)))
  ∧ (∀ content' item_size' target' target_size' offset' compare',
       bp_bi_search_one content' 0 item_size' target' target_size' offset'
                        compare' = Some (0, 0)).
Proof.
  intros Hpacked Htarget Hcmp Hsorted kc. split; [|reflexivity].
  destruct (bp_bi_search_one_spec content item_size n target target_size
              offset _ Hpacked Htarget Hcmp Hsorted compare eq_refl)
    as (found & idx & Hrun & Hpost).
  exists found, idx. split; [exact Hrun|].
  destruct Hpost as [(-> & Hidx & Hz)|(-> & Hidx & Hlo & Hhi)].
  - split; [auto|]. intros Hnone. destruct (Hnone idx Hidx Hz).
  - split; [|auto]. intros (i & Hi & Hiz). exfalso.
    destruct (Z.lt_ge_cases i idx).
    + pose proof (Hlo i ltac:(lia)). fold kc in H0. lia.
    + pose proof (Hhi i ltac:(lia)). fold kc in H0. lia.
Qed.

(** C7. On [n] sorted items: when some item matches the target,
    [bp_bi_search_first] and [bp_bi_search_last] report found with the
    index of the leftmost and of the rightmost matching item; when none
    matches, both report not found with the index [bp_bi_search_one]
    returns. *)
Theorem C7_search_first_last_sorted
    (content : list byte) (item_size n : Z) (target : list byte)
    (target_size offset : Z) (compare : option bp_compare_f) :
  packed_array content item_size offset target_size n →
  target_size ≤ Mem.len target →
  total_preorder (compare_or_default compare) target_size →
  sorted_items (compare_or_default compare) content item_size offset
               target_size n →
  let kc := target_vs_item (compare_or_default compare) content item_size
                           offset target target_size in
  ∃ found1 idx1 found_first idx_first found_last idx_last,
    bp_bi_search_one content (n * item_size) item_size target target_size
                     offset compare = Some (found1, idx1)
    ∧ bp_bi_search_first content (n * item_size) item_size target
                         target_size offset compare
      = Some (found_first, idx_first)
    ∧ bp_bi_search_last content (n * item_size) item_size target
                        target_size offset compare
      = Some (found_last, idx_last)
    ∧ ((∃ i, 0 ≤ i < n ∧ kc i = 0) →
       found_first = 1 ∧ found_last = 1
       ∧ 0 ≤ idx_first ∧ idx_first ≤ idx_last ∧ idx_last < n
       ∧ kc idx_first = 0 ∧ kc idx_last = 0
       ∧ (∀ i, 0 ≤ i < n → kc i = 0 → idx_first ≤ i ≤ idx_last))
    ∧ ((∀ i, 0 ≤ i < n → kc i ≠ 0) →
       found1 = 0 ∧ found_first = 0 ∧ found_last = 0
       ∧ idx_first = idx1 ∧ idx_last = idx1).
Proof.
  intros Hpacked Htarget Hcmp Hsorted kc.
  destruct (bp_bi_search_first_spec content item_size n target target_size
              offset _ Hpacked Htarget Hcmp Hsorted compare eq_refl)
    as (found1 & idx1 & ff & idf & Hone & Hfirst & Hpost & -> & Hf0 & Hf1).
  destruct (bp_bi_search_last_spec content item_size n target target_size
              offset _ Hpacked Htarget Hcmp Hsorted compare eq_refl)
    as (found1' & idx1' & fl & idl & Hone' & Hlast & _ & -> & Hl0 & Hl1).
  rewrite Hone in Hone'. injection Hone' as <- <-.
  exists found1, idx1, found1, idf, found1, idl.
  split; [exact Hone|]. split; [exact Hfirst|]. split; [exact Hlast|].
  fold kc in Hf1, Hl1.
  destruct Hpost as [(-> & Hidx & Hz)|(-> & Hidx & Hlo & Hhi)].
  - destruct (Hf1 eq_refl) as (Hfr & Hfz & Hfleft).
    destruct (Hl1 eq_refl) as (Hlr & Hlz & Hlright).
    split.
    + intros _. repeat split; try lia; try assumption.
      * destruct (Z.lt_ge_cases i idf) as [Hlt|]; [|assumption].
        destruct (Hfleft i ltac:(lia)). assumption.
      * destruct (Z.lt_ge_cases idl i) as [Hlt|]; [|assumption].
        destruct (Hlright i ltac:(lia)). assumption.
    + intros Hnone. destruct (Hnone idx1 Hidx Hz).
  - split.
    + intros (i & Hi & Hiz). exfalso. fold kc in Hlo, Hhi.
      destruct (Z.lt_ge_cases i idx1).
      * pose proof (Hlo i ltac:(lia)). lia.
      * pose proof (Hhi i ltac:(lia)). lia.
    + intros _. rewrite (Hf0 eq_refl), (Hl0 eq_refl). auto.
Qed.

(** The array "112233" of three two-byte items, keyed by the second byte,
    is sorted for the default comparator. *)
Lemma sorted_112233 :
  sorted_items (compare_or_default None) (bytes "112233") 2 1 1 3.
Proof.
  intros i j Hi Hij Hj.
  assert (i = 0 ∨ i = 1 ∨ i = 2) as Ei by lia.
  assert (j = 0 ∨ j = 1 ∨ j = 2) as Ej by lia.
  destruct Ei as [-> | [-> | ->] ]; destruct Ej as [-> | [-> | ->] ];
    try lia; vm_compute; discriminate.
Qed.

Lemma packed_112233 : packed_array (bytes "112233") 2 1 1 3.
Proof. split; vm_compute; first [reflexivity|discriminate]. Qed.

Lemma C3_search_one_sorted_witness :
  packed_array (bytes "112233") 2 1 1 3
  ∧ 1 ≤ Mem.len (bytes "2")
  ∧ total_preorder (compare_or_default None) 1
  ∧ sorted_items (compare_or_default None) (bytes "112233") 2 1 1 3
  ∧ ∃ found idx,
      bp_bi_search_one (bytes "112233") (3 * 2) 2 (bytes "2") 1 1 None
      = Some (found, idx).
Proof.
  assert (1 ≤ Mem.len (bytes "2")) as Ht by (vm_compute; discriminate).
  split; [exact packed_112233|]. split; [exact Ht|].
  split; [exact (bp_compare_total_preorder 1)|].
  split; [exact sorted_112233|].
  destruct (C3_search_one_sorted (bytes "112233") 2 3 (bytes "2") 1 1 None
              packed_112233 Ht (bp_compare_total_preorder 1) sorted_112233)
    as [(found & idx & Hrun & _) _].
  exists found, idx. exact Hrun.
Defined.

Lemma C7_search_first_last_sorted_witness :
  packed_array (bytes "112233") 2 1 1 3
  ∧ 1 ≤ Mem.len (bytes "2")
  ∧ total_preorder (compare_or_default None) 1
  ∧ sorted_items (compare_or_default None) (bytes "112233") 2 1 1 3
  ∧ ∃ found idx,
      bp_bi_search_last (bytes "112233") (3 * 2) 2 (bytes "2") 1 1 None
      = Some (found, idx).
Proof.
  assert (1 ≤ Mem.len (bytes "2")) as Ht by (vm_compute; discriminate).
  split; [exact packed_112233|]. split; [exact Ht|].
  split; [exact (bp_compare_total_preorder 1)|].
  split; [exact sorted_112233|].
  destruct (C7_search_first_last_sorted (bytes "112233") 2 3 (bytes "2") 1 1
              None packed_112233 Ht (bp_compare_total_preorder 1)
              sorted_112233)
    as (f1 & i1 & ff & idf & fl & idl & _ & _ & Hlast & _).
  exists fl, idl. exact Hlast.
Defined.

(** ** More on raw buffers *)

Lemma read_len (buf : list byte) (off n : Z) (l : list byte) :
  Mem.read buf off n = Some l → Mem.len l = n.
Proof.
  intros H. apply read_inv in H as (? & ? & ? & ->).
  apply len_take_drop; assumption.
Qed.

(** a read inside the range of another read *)
Lemma read_sub (buf data : list byte) (off n o m : Z) :
  Mem.read buf off n = Some data →
  0 ≤ o → 0 ≤ m → o + m ≤ n →
  Mem.read buf (off + o) m = Mem.read data o m.
Proof.
  intros H Ho Hm Hom. pose proof (read_len _ _ _ _ H) as Hlen.
  apply read_inv in H as (Hoff & Hn & Hbuf & ->).
  rewrite !read_Some by lia. f_equal.
  rewrite Z2Nat.inj_add, <- drop_drop by lia.
  rewrite !(take_drop_commute _ (Z.to_nat m) (Z.to_nat o)), take_take.
  do 2 f_equal. lia.
Qed.

Lemma write_Some (buf : list byte) (off : Z) (data : list byte) :
  0 ≤ off → off + Mem.len data ≤ Mem.len buf →
  Mem.write buf off data
  = Some (take (Z.to_nat off) buf ++ data
          ++ drop (Z.to_nat (off + Mem.len data)) buf).
Proof.
  intros H1 H2. unfold Mem.write.
  destruct (Z.leb_spec 0 off); [|lia].
  destruct (Z.leb_spec (off + Mem.len data) (Mem.len buf)); [|lia].
  reflexivity.
Qed.

Lemma write_inv (buf : list byte) (off : Z) (data buf' : list byte) :
  Mem.write buf off data = Some buf' →
  0 ≤ off ∧ off + Mem.len data ≤ Mem.len buf
  ∧ buf' = take (Z.to_nat off) buf ++ data
           ++ drop (Z.to_nat (off + Mem.len data)) buf.
Proof.
  unfold Mem.write.
  destruct (Z.leb_spec 0 off); simpl; [|discriminate].
  destruct (Z.leb_spec (off + Mem.len data) (Mem.len buf)); simpl;
    [|discriminate].
  intros [= <-]. auto.
Qed.

Lemma write_len (buf : list byte) (off : Z) (data buf' : list byte) :
  Mem.write buf off data = Some buf' → Mem.len buf' = Mem.len buf.
Proof.
  intros H. apply write_inv in H as (H1 & H2 & ->). unfold Mem.len in *.
  rewrite !length_app, length_take, length_drop. lia.
Qed.

Lemma read_write_same (buf : list byte) (off : Z) (data buf' : list byte) :
  Mem.write buf off data = Some buf' →
  Mem.read buf' off (Mem.len data) = Some data.
Proof.
  intros H. pose proof (write_len _ _ _ _ H) as Hlen.
  apply write_inv in H as (H1 & H2 & ->).
  rewrite read_Some by (unfold Mem.len in *; lia). f_equal.
  rewrite drop_app_length' by (unfold Mem.len in *; rewrite length_take; lia).
  apply take_app_length'. unfold Mem.len. lia.
Qed.

Lemma read_write_other (buf : list byte) (off : Z) (data buf' : list byte)
    (o n : Z) :
  Mem.write buf off data = Some buf' →
  o + n ≤ off ∨ off + Mem.len data ≤ o →
  Mem.read buf' o n = Mem.read buf o n.
Proof.
  intros H Hd. pose proof (write_len _ _ _ _ H) as Hlen.
  apply write_inv in H as (H1 & H2 & Hbuf').
  unfold Mem.read. rewrite Hlen.
  destruct ((0 <=? o) && (0 <=? n) && (o + n <=? Mem.len buf)) eqn:Hc;
    [|reflexivity].
  apply andb_true_iff in Hc as [Hc Hc3]. apply andb_true_iff in Hc as [Hc1 Hc2].
  apply Z.leb_le in Hc1, Hc2, Hc3. f_equal. subst buf'.
  unfold Mem.len in *. apply list_eq. intros k.
  rewrite !lookup_take. case_decide; [|reflexivity].
  rewrite !lookup_drop. destruct Hd as [Hd|Hd].
  - rewrite lookup_app_l by (rewrite length_take; lia).
    rewrite lookup_take. case_decide; [reflexivity|lia].
  - rewrite lookup_app_r by (rewrite length_take; lia).
    rewrite lookup_app_r by (rewrite length_take; lia).
    rewrite lookup_drop, length_take. f_equal. lia.
Qed.

Lemma memcpy_Some (dst : list byte) (doff : Z) (src : list byte)
    (soff n : Z) :
  0 ≤ soff → 0 ≤ n → soff + n ≤ Mem.len src →
  0 ≤ doff → doff + n ≤ Mem.len dst →
  ∃ dst',
    Mem.memcpy dst doff src soff n = Some dst'
    ∧ Mem.len dst' = Mem.len dst
    ∧ Mem.read dst' doff n = Mem.read src soff n
    ∧ (∀ o m, o + m ≤ doff ∨ doff + n ≤ o →
       Mem.read dst' o m = Mem.read dst o m).
Proof.
  intros H1 H2 H3 H4 H5. unfold Mem.memcpy.
  rewrite read_Some by assumption. cbn [mbind option_bind].
  set (data := take (Z.to_nat n) (drop (Z.to_nat soff) src)).
  assert (Mem.len data = n) as Hdata by (apply len_take_drop; assumption).
  destruct (Mem.write dst doff data) as [dst'|] eqn:E.
  - exists dst'. split; [reflexivity|].
    split; [by eapply write_len|]. split.
    + rewrite <- Hdata at 1. by eapply read_write_same.
    + intros o m Hd. eapply read_write_other; [exact E|]. lia.
  - rewrite write_Some in E by lia. discriminate.
Qed.

(** ** Pointers in buffers *)

Lemma byte_to_Z_range (b : byte) : 0 ≤ Mem.byte_to_Z b < 256.
Proof.
  unfold Mem.byte_to_Z. pose proof (Byte.to_N_bounded b). lia.
Qed.

Lemma byte_to_of_Z (z : Z) : Mem.byte_to_Z (Mem.byte_of_Z z) = z mod 256.
Proof.
  unfold Mem.byte_to_Z, Mem.byte_of_Z.
  pose proof (Z.mod_pos_bound z 256 ltac:(lia)) as Hr.
  destruct (Byte.of_N (Z.to_N (z mod 256))) as [b|] eqn:E.
  - apply Byte.to_of_N in E. rewrite E. lia.
  - apply Byte.of_N_None_iff in E. lia.
Qed.

Lemma length_encode_le (k : nat) : ∀ z, length (Mem.encode_le k z) = k.
Proof. induction k; intros z; simpl; [reflexivity|]. by rewrite IHk. Qed.

Lemma decode_encode_le (k : nat) :
  ∀ z, Mem.decode_le (Mem.encode_le k z) = z mod 256 ^ Z.of_nat k.
Proof.
  induction k as [|k IH]; intros z.
  - simpl. by rewrite Z.mod_1_r.
  - cbn [Mem.encode_le Mem.decode_le]. rewrite byte_to_of_Z, IH.
    rewrite Nat2Z.inj_succ, Z.pow_succ_r by lia.
    rewrite (Z.rem_mul_r z 256 (256 ^ Z.of_nat k)) by lia. lia.
Qed.

Lemma decode_encode_ptr (p : Z) :
  0 ≤ p ≤ SIZE_MAX → Mem.decode_ptr (Mem.encode_ptr p) = p.
Proof.
  intros Hp. unfold Mem.decode_ptr, Mem.encode_ptr.
  rewrite decode_encode_le. apply Z.mod_small. unfold SIZE_MAX in Hp.
  change (256 ^ Z.of_nat 8) with (2 ^ 64). lia.
Qed.

Lemma decode_le_range (l : list byte) :
  0 ≤ Mem.decode_le l < 256 ^ Mem.len l.
Proof.
  unfold Mem.len. induction l as [|b l IH].
  - simpl. lia.
  - cbn [Mem.decode_le length]. pose proof (byte_to_Z_range b).
    rewrite Nat2Z.inj_succ, Z.pow_succ_r by lia. lia.
Qed.

Lemma load_ptr_range (buf : list byte) (off p : Z) :
  Mem.load_ptr buf off = Some p → 0 ≤ p ≤ SIZE_MAX.
Proof.
  unfold Mem.load_ptr. destruct (Mem.read buf off Mem.sizeof_ptr) as [l|] eqn:E;
    [|discriminate].
  intros [= <-]. apply read_len in E. pose proof (decode_le_range l) as H.
  rewrite E in H. unfold Mem.decode_ptr, SIZE_MAX.
  change (256 ^ Mem.sizeof_ptr) with (2 ^ 64) in H. lia.
Qed.

Lemma len_encode_ptr (p : Z) : Mem.len (Mem.encode_ptr p) = Mem.sizeof_ptr.
Proof. reflexivity. Qed.

Lemma load_store_ptr (buf buf' : list byte) (off p : Z) :
  0 ≤ p ≤ SIZE_MAX →
  Mem.store_ptr buf off p = Some buf' → Mem.load_ptr buf' off = Some p.
Proof.
  intros Hp H. unfold Mem.load_ptr, Mem.store_ptr in *.
  apply read_write_same in H. rewrite len_encode_ptr in H. rewrite H.
  cbn [fmap option_fmap option_map]. by rewrite decode_encode_ptr.
Qed.

Lemma load_ptr_Some (buf : list byte) (off : Z) :
  0 ≤ off → off + Mem.sizeof_ptr ≤ Mem.len buf →
  ∃ p, Mem.load_ptr buf off = Some p.
Proof.
  intros H1 H2. unfold Mem.load_ptr.
  rewrite read_Some by (unfold Mem.sizeof_ptr in *; lia). eauto.
Qed.

Lemma store_ptr_Some (buf : list byte) (off p : Z) :
  0 ≤ off → off + Mem.sizeof_ptr ≤ Mem.len buf → 0 ≤ p ≤ SIZE_MAX →
  ∃ buf',
    Mem.store_ptr buf off p = Some buf'
    ∧ Mem.len buf' = Mem.len buf
    ∧ Mem.load_ptr buf' off = Some p
    ∧ (∀ o m, o + m ≤ off ∨ off + Mem.sizeof_ptr ≤ o →
       Mem.read buf' o m = Mem.read buf o m).
Proof.
  intros H1 H2 Hp.
  destruct (Mem.store_ptr buf off p) as [buf'|] eqn:E.
  - exists buf'. split; [reflexivity|].
    split; [by eapply write_len|]. split; [by eapply load_store_ptr|].
    intros o m Hd. unfold Mem.store_ptr in E.
    eapply read_write_other; [exact E|].
    by rewrite len_encode_ptr.
  - unfold Mem.store_ptr in E.
    rewrite write_Some in E by (rewrite ?len_encode_ptr; lia). discriminate.
Qed.

Lemma len_zeros (n : Z) : 0 ≤ n → Mem.len (Mem.zeros n) = n.
Proof. intros. unfold Mem.len, Mem.zeros. rewrite length_replicate. lia. Qed.

(** ** The node heap *)

Lemma deref_Some_pos (h : heap) (p : Z) (n : bp_node) :
  deref h p = Some n → 0 < p ≤ Z.of_nat (length (nodes h)).
Proof.
  unfold deref. destruct (Z.leb_spec p 0); [discriminate|].
  intros Hl%lookup_lt_Some. lia.
Qed.

Lemma deref_store_eq (h : heap) (p : Z) (n0 n : bp_node) :
  deref h p = Some n0 → deref (store h p n) p = Some n.
Proof.
  intros H. pose proof (deref_Some_pos _ _ _ H).
  unfold deref, store in *. destruct (Z.leb_spec p 0); [lia|]. simpl.
  apply list_lookup_insert_eq. by eapply lookup_lt_Some.
Qed.

Lemma deref_store_ne (h : heap) (p q : Z) (n : bp_node) :
  p ≠ q → deref (store h p n) q = deref h q.
Proof.
  intros Hne. unfold deref, store.
  destruct (Z.leb_spec p 0); [reflexivity|].
  destruct (Z.leb_spec q 0); [reflexivity|]. simpl.
  apply list_lookup_insert_ne. lia.
Qed.

Lemma store_length (h : heap) (p : Z) (n : bp_node) :
  length (nodes (store h p n)) = length (nodes h).
Proof.
  unfold store. destruct (p <=? 0); [reflexivity|]. simpl.
  apply length_insert.
Qed.

Lemma store_oracle (h : heap) (p : Z) (n : bp_node) :
  malloc_oracle (store h p n) = malloc_oracle h.
Proof. unfold store. by destruct (p <=? 0). Qed.

Lemma deref_new_block (h : heap) (n : bp_node) :
  deref (new_block h n).2 (new_block h n).1 = Some n.
Proof.
  unfold deref, new_block. simpl.
  destruct (Z.leb_spec (Z.of_nat (length (nodes h)) + 1) 0); [lia|].
  rewrite lookup_app_r by lia.
  replace (_ - _)%nat with 0%nat by lia. reflexivity.
Qed.

Lemma deref_new_block_old (h : heap) (n m : bp_node) (q : Z) :
  deref h q = Some m →
  deref (new_block h n).2 q = Some m ∧ q ≠ (new_block h n).1.
Proof.
  intros H. pose proof (deref_Some_pos _ _ _ H).
  unfold deref, new_block in *. simpl.
  destruct (Z.leb_spec q 0); [lia|]. split; [|lia].
  rewrite lookup_app_l by lia. exact H.
Qed.

Lemma malloc_nodes (h : heap) (size : Z) : nodes (malloc h size).2 = nodes h.
Proof. unfold malloc. by destruct (malloc_oracle h). Qed.

Lemma malloc_oracle_tail (h : heap) (size : Z) :
  malloc_oracle (malloc h size).2 = tail (malloc_oracle h).
Proof.
  unfold malloc. destruct (malloc_oracle h) eqn:E; [exact E|reflexivity].
Qed.

(** ** Leaf nodes *)

Lemma int_of_Z_small (z : Z) : - 2 ^ 31 ≤ z ≤ INT_MAX → int_of_Z z = z.
Proof.
  unfold int_of_Z, INT_MAX. intros H.
  rewrite Z.mod_small by lia. lia.
Qed.

Lemma bp_create_data_node_success (h : heap)
    (max_kv_num min_kv_num key_size value_size : Z)
    (compare : option bp_compare_f) (rest : list bool) :
  let content_len := max_kv_num * (key_size + value_size) + Mem.sizeof_ptr in
  malloc_oracle h = true :: rest →
  0 ≤ content_len ≤ INT_MAX →
  Z.of_nat (length (nodes h)) + 1 ≤ SIZE_MAX →
  bp_create_data_node h max_kv_num min_kv_num key_size value_size compare
  = Some (new_block (mk_heap (nodes h) rest)
            (DATA (Data.mk
                     (Common.mk BP_NODE_TYPE_DATA
                                (Some PTR_bp_data_node_insert_data)
                                (Some PTR_bp_data_node_max_key)
                                compare max_kv_num min_kv_num 0)
                     key_size value_size content_len
                     (Mem.zeros content_len)))).
Proof.
  intros content_len Horacle Hlen Hnodes.
  unfold bp_create_data_node, bp_calc_data_node_content_len, malloc.
  fold content_len. rewrite Horacle, int_of_Z_small by (unfold INT_MAX in *; lia).
  unfold size_t_of_Z, sizeof_node, PTRDIFF_MAX, INT_MAX in *.
  rewrite Z.mod_small by lia.
  destruct (Z.leb_spec (64 + content_len) (2 ^ 63 - 1)); [|lia].
  destruct (Z.leb_spec (Z.of_nat (length (nodes h)) + 1) SIZE_MAX); [|lia].
  cbn [andb negb]. destruct (Z.ltb_spec content_len 0); [lia|].
  reflexivity.
Qed.

(** C9. When [malloc] fails in a leaf split, [bp_data_node_split] returns
    -1 and leaves NULL in [pp_new]; the heap keeps all its nodes and the
    leaf is unchanged; and [bp_data_node_insert_data] on that leaf, when
    it is full, returns -1 with NULL in [pp_new], the same heap of nodes,
    and the key buffer untouched. *)
Theorem C9_leaf_split_alloc_failure
    (h : heap) (node : Z) (data : Data.t) (key position : list byte) :
  deref_data h node = Some data →
  (malloc h (data_split_request data)).1 = false →
  let h' := (malloc h (data_split_request data)).2 in
  bp_data_node_split h node = Some (-1, NULL, h')
  ∧ nodes h' = nodes h
  ∧ deref_data h' node = Some data
  ∧ (bp_data_node_need_split data = true →
     bp_data_node_insert_data h node key position
     = Some (-1, NULL, key, h')).
Proof.
  intros Hd Hfail h'.
  assert (bp_data_node_split h node = Some (-1, NULL, h')) as Hsplit.
  { unfold bp_data_node_split. rewrite Hd. cbn [mbind option_bind].
    unfold bp_create_data_node. fold (data_split_request data).
    subst h'. destruct (malloc h (data_split_request data)) as [ok h1].
    simpl in Hfail. subst ok. reflexivity. }
  assert (nodes h' = nodes h) as Hnodes by apply malloc_nodes.
  split; [exact Hsplit|]. split; [exact Hnodes|]. split.
  - unfold deref_data, deref in *. by rewrite Hnodes.
  - intros Hfull. unfold bp_data_node_insert_data.
    rewrite Hd. cbn [mbind option_bind]. rewrite Hfull, Hsplit.
    reflexivity.
Qed.

Lemma C9_leaf_split_alloc_failure_witness :
  ∃ node h data,
    dup_leaf [] = Some (node, h)
    ∧ deref_data h node = Some data
    ∧ (malloc h (data_split_request data)).1 = false
    ∧ bp_data_node_need_split data = true
    ∧ bp_data_node_insert_data h node (bytes "2") (bytes "e")
      = Some (-1, NULL, bytes "2", (malloc h (data_split_request data)).2).
Proof.
  eexists _, _, _.
  split; [vm_compute; reflexivity|].
  split; [vm_compute; reflexivity|].
  split; [vm_compute; reflexivity|].
  split; [vm_compute; reflexivity|].
  refine (proj2 (proj2 (proj2
    (C9_leaf_split_alloc_failure _ _ _ (bytes "2") (bytes "e") _ _))) _);
    vm_compute; reflexivity.
Defined.

Lemma item_key_read (content : list byte) (item_size offset key_size i : Z) :
  0 ≤ i * item_size + offset → 0 ≤ key_size →
  i * item_size + offset + key_size ≤ Mem.len content →
  Mem.read content (i * item_size + offset) key_size
  = Some (item_key content item_size offset key_size i).
Proof. intros. by rewrite read_Some by lia. Qed.

(** keys are read alike in two buffers that agree on the item *)
Lemma item_key_agree (c1 c2 : list byte) (item_size key_size i j : Z) :
  0 ≤ i → 0 ≤ j → 0 ≤ key_size → 0 ≤ item_size - key_size →
  (i + 1) * item_size ≤ Mem.len c1 → (j + 1) * item_size ≤ Mem.len c2 →
  Mem.read c1 (i * item_size) item_size = Mem.read c2 (j * item_size) item_size →
  item_key c1 item_size 0 key_size i = item_key c2 item_size 0 key_size j.
Proof.
  intros Hi Hj Hk Hks H1 H2 Heq.
  assert (Some (item_key c1 item_size 0 key_size i)
          = Some (item_key c2 item_size 0 key_size j)) as [= ->]; [|done].
  rewrite <- !item_key_read by nia.
  destruct (Mem.read c1 (i * item_size) item_size) as [d|] eqn:E1.
  - rewrite (read_sub c1 d (i * item_size) item_size 0 key_size E1) by lia.
    symmetry in Heq.
    rewrite (read_sub c2 d (j * item_size) item_size 0 key_size Heq) by lia.
    reflexivity.
  - rewrite read_Some in E1 by nia. discriminate.
Qed.

(** C4. A leaf with [c] sorted items, split with a successful allocation:
    the call returns 0 and a fresh node; the old node keeps [c / 2] items
    (its first ones, unchanged), the new node has the same configuration
    and holds the other [c - c / 2] items, in order; every key left in the
    old node is below or equal to every key of the new node; the new node
    links to what the old node linked to, and the old node links to the
    new node. *)
Theorem C4_leaf_split
    (h : heap) (to_split : Z) (old : Data.t) (rest : list bool) :
  let c := Data.key_num old in
  let item_size := Data.key_size old + Data.value_size old in
  let cmp := compare_or_default (Common.compare (Data.common old)) in
  deref_data h to_split = Some old →
  data_wf old →
  malloc_oracle h = true :: rest →
  Z.of_nat (length (nodes h)) + 1 ≤ SIZE_MAX →
  sorted_items cmp (Data.content old) item_size 0 (Data.key_size old) c →
  ∃ new_p h' old' new' pnext,
    bp_data_node_split h to_split = Some (0, new_p, h')
    ∧ new_p ≠ NULL ∧ deref h new_p = None
    ∧ deref_data h' to_split = Some old'
    ∧ deref_data h' new_p = Some new'
    ∧ Data.key_num old' = c / 2
    ∧ Data.key_num new' = c - c / 2
    ∧ Data.key_num old' + Data.key_num new' = c
    ∧ Common.max_key_num (Data.common new')
      = Common.max_key_num (Data.common old)
    ∧ Common.min_key_num (Data.common new')
      = Common.min_key_num (Data.common old)
    ∧ Common.compare (Data.common new') = Common.compare (Data.common old)
    ∧ Data.key_size new' = Data.key_size old
    ∧ Data.value_size new' = Data.value_size old
    ∧ (∀ i, 0 ≤ i < c / 2 →
       Mem.read (Data.content old') (i * item_size) item_size
       = Mem.read (Data.content old) (i * item_size) item_size)
    ∧ (∀ j, 0 ≤ j < c - c / 2 →
       Mem.read (Data.content new') (j * item_size) item_size
       = Mem.read (Data.content old) ((c / 2 + j) * item_size) item_size)
    ∧ (∀ i j, 0 ≤ i < c / 2 → 0 ≤ j < c - c / 2 →
       cmp (item_key (Data.content old') item_size 0 (Data.key_size old) i)
           (item_key (Data.content new') item_size 0 (Data.key_size old) j)
           (Data.key_size old) ≤ 0)
    ∧ bp_data_node_get_pnext old = Some pnext
    ∧ bp_data_node_get_pnext new' = Some pnext
    ∧ bp_data_node_get_pnext old' = Some new_p.
Proof.
  intros c item_size cmp Hd Hwf Horacle Hnodes Hsorted.
  destruct old as [[ty ins mk cmpf max minn c0] ks vs cl content].
  destruct Hwf as [Hks Hvs Hc Hcl Hint Hlen].
  unfold Data.key_num in *. cbn in c, item_size, cmp, Hks, Hvs, Hc, Hcl, Hint, Hlen, Hsorted.
  subst c.
  assert (c0 ÷ 2 = c0 / 2) as Hquot by (apply Z.quot_div_nonneg; lia).
  assert (0 ≤ c0 / 2 ≤ c0) as Hhalf by (Z.div_mod_to_equations; lia).
  set (fresh :=
         Data.mk (Common.mk BP_NODE_TYPE_DATA
                            (Some PTR_bp_data_node_insert_data)
                            (Some PTR_bp_data_node_max_key) cmpf max minn 0)
                 ks vs cl (Mem.zeros cl)).
  set (h0 := mk_heap (nodes h) rest).
  pose proof (deref_new_block h0 (DATA fresh)) as Hnew.
  assert (deref h0 to_split
          = Some (DATA (Data.mk (Common.mk ty ins mk cmpf max minn c0)
                                ks vs cl content))) as Hold0.
  { unfold deref_data in Hd. unfold deref in *. cbn [nodes h0].
    destruct (to_split <=? 0); [discriminate|].
    destruct (nodes h !! Z.to_nat (to_split - 1)) as [[d|i]|];
      try discriminate. by injection Hd as ->. }
  destruct (deref_new_block_old h0 (DATA fresh) _ _ Hold0) as [Hold Hne].
  unfold bp_data_node_split. rewrite Hd. cbn [mbind option_bind].
  cbn [Data.common Common.max_key_num Common.min_key_num Data.key_size
       Data.value_size Common.compare].
  rewrite (bp_create_data_node_success h max minn ks vs cmpf rest Horacle)
    by (unfold Mem.sizeof_ptr in *; nia || lia).
  rewrite <- Hcl. fold fresh h0.
  destruct (new_block h0 (DATA fresh)) as [new_p h1] eqn:Eblock.
  cbn [fst snd] in Hnew, Hold, Hne.
  assert (new_p = Z.of_nat (length (nodes h)) + 1) as Hp
    by (unfold new_block in Eblock; by injection Eblock as <- _).
  cbn [mbind option_bind].
  destruct (Z.eqb_spec new_p NULL) as [|_]; [unfold NULL in *; lia|].
  unfold deref_data at 1. rewrite Hnew. cbn [mbind option_bind].
  unfold Data.key_num, Data.set_key_num, Data.set_content,
    bp_data_node_get_pnext, bp_data_node_set_pnext,
    bp_data_node_get_pnext_save_position.
  cbn [Data.common Data.key_size Data.value_size Data.content_len
       Data.content Common.key_num Common.set_key_num Common.type
       Common.insert Common.max_key Common.compare Common.max_key_num
       Common.min_key_num fresh].
  rewrite Hquot. fold item_size.
  assert (0 ≤ item_size) as Hitem by (subst item_size; lia).
  assert (max * item_size = cl - Mem.sizeof_ptr) as Hroom
    by (subst item_size; lia).
  assert (0 ≤ c0 / 2 * item_size ∧ 0 ≤ (c0 - c0 / 2) * item_size
          ∧ c0 / 2 * item_size + (c0 - c0 / 2) * item_size = c0 * item_size
          ∧ c0 * item_size ≤ max * item_size) as (Ho1 & Ho2 & Ho3 & Ho4)
    by nia.
  unfold Mem.sizeof_ptr in Hroom.
  destruct (memcpy_Some (Mem.zeros cl) 0 content (c0 / 2 * item_size)
              ((c0 - c0 / 2) * item_size))
    as (c1 & Ec1 & Hc1len & Hc1read & Hc1other);
    try (rewrite ?len_zeros; lia).
  rewrite len_zeros in Hc1len by lia.
  destruct (load_ptr_Some content (cl - Mem.sizeof_ptr))
    as (pnext & Hpnext); try (unfold Mem.sizeof_ptr; lia).
  destruct (store_ptr_Some c1 (cl - Mem.sizeof_ptr) pnext)
    as (c2 & Ec2 & Hc2len & Hc2load & Hc2other);
    try (unfold Mem.sizeof_ptr; lia).
  { by eapply load_ptr_range. }
  destruct (store_ptr_Some content (cl - Mem.sizeof_ptr) new_p)
    as (c3 & Ec3 & Hc3len & Hc3load & Hc3other);
    try (unfold Mem.sizeof_ptr; lia).
  rewrite Ec1. cbn [mbind option_bind]. rewrite Hpnext.
  cbn [mbind option_bind]. rewrite Ec2.
  cbn [mbind option_bind fmap option_fmap option_map]. rewrite Ec3.
  cbn [mbind option_bind fmap option_fmap option_map].
  unfold Data.set_content, Common.set_key_num.
  cbn [Data.common Data.key_size Data.value_size Data.content_len
       Data.content Common.key_num Common.type
       Common.insert Common.max_key Common.compare Common.max_key_num
       Common.min_key_num].
  set (old' := Data.mk (Common.mk ty ins mk cmpf max minn (c0 / 2))
                       ks vs cl c3).
  set (new' := Data.mk (Common.mk BP_NODE_TYPE_DATA
                                  (Some PTR_bp_data_node_insert_data)
                                  (Some PTR_bp_data_node_max_key)
                                  cmpf max minn (c0 - c0 / 2))
                       ks vs cl c2).
  assert (∀ i, 0 ≤ i < c0 / 2 →
          Mem.read c3 (i * item_size) item_size
          = Mem.read content (i * item_size) item_size) as Hkeep.
  { intros i Hi. apply Hc3other. left. nia. }
  assert (∀ j, 0 ≤ j < c0 - c0 / 2 →
          Mem.read c2 (j * item_size) item_size
          = Mem.read content ((c0 / 2 + j) * item_size) item_size) as Hmove.
  { intros j Hj. rewrite Hc2other by (left; nia).
    destruct (Mem.read content (c0 / 2 * item_size)
                ((c0 - c0 / 2) * item_size)) as [d|] eqn:Ed;
      [|rewrite read_Some in Ed by lia; discriminate].
    replace ((c0 / 2 + j) * item_size)
      with (c0 / 2 * item_size + j * item_size) by lia.
    rewrite (read_sub content d _ _ (j * item_size) item_size Ed) by nia.
    rewrite <- (read_sub c1 d 0 _ (j * item_size) item_size Hc1read) by nia.
    reflexivity. }
  exists new_p, (store (store h1 to_split (DATA old')) new_p (DATA new')),
    old', new', pnext.
  split; [reflexivity|]. split; [unfold NULL; lia|].
  split.
  { unfold deref. destruct (Z.leb_spec new_p 0); [reflexivity|].
    apply lookup_ge_None_2. lia. }
  split.
  { unfold deref_data. rewrite deref_store_ne by lia.
    by rewrite (deref_store_eq _ _ _ _ Hold). }
  split.
  { unfold deref_data. erewrite deref_store_eq; [reflexivity|].
    rewrite deref_store_ne by lia. exact Hnew. }
  cbn [old' new' Data.common Data.key_size Data.value_size Data.content_len
       Data.content Common.key_num Common.max_key_num Common.min_key_num
       Common.compare].
  repeat (split; [first [reflexivity|lia]|]).
  split; [exact Hkeep|]. split; [exact Hmove|].
  split; [|auto].
  intros i j Hi Hj.
  rewrite (item_key_agree c3 content item_size ks i i) by (auto; nia).
  rewrite (item_key_agree c2 content item_size ks j (c0 / 2 + j))
    by (auto; nia).
  apply Hsorted; lia.
Qed.

Lemma C4_leaf_split_witness :
  ∃ leaf h old,
    dup_leaf [true] = Some (leaf, h)
    ∧ deref_data h leaf = Some old
    ∧ data_wf old
    ∧ malloc_oracle h = [true]
    ∧ Z.of_nat (length (nodes h)) + 1 ≤ SIZE_MAX
    ∧ sorted_items (compare_or_default (Common.compare (Data.common old)))
                   (Data.content old)
                   (Data.key_size old + Data.value_size old) 0
                   (Data.key_size old) (Data.key_num old)
    ∧ ∃ new_p h', bp_data_node_split h leaf = Some (0, new_p, h').
Proof.
  match eval vm_compute in (dup_leaf [true]) with
  | Some (?p, ?x) => pose (leaf := p); pose (h := x)
  end.
  match eval vm_compute in (deref_data h leaf) with
  | Some ?d => pose (old := d)
  end.
  assert (deref_data h leaf = Some old) as Hd by reflexivity.
  assert (data_wf old) as Hwf
    by (split; vm_compute; repeat split; first [reflexivity|discriminate]).
  assert (malloc_oracle h = [true]) as Ho by reflexivity.
  assert (Z.of_nat (length (nodes h)) + 1 ≤ SIZE_MAX) as Hn
    by (vm_compute; discriminate).
  assert (sorted_items (compare_or_default (Common.compare (Data.common old)))
            (Data.content old) (Data.key_size old + Data.value_size old) 0
            (Data.key_size old) (Data.key_num old)) as Hs.
  { intros i j Hi Hij Hj. change (Data.key_num old) with 4 in Hj.
    assert (i = 0 ∨ i = 1 ∨ i = 2 ∨ i = 3) as Ei by lia.
    assert (j = 0 ∨ j = 1 ∨ j = 2 ∨ j = 3) as Ej by lia.
    destruct Ei as [-> | [-> | [-> | ->] ] ];
      destruct Ej as [-> | [-> | [-> | ->] ] ];
      try lia; vm_compute; discriminate. }
  exists leaf, h, old.
  split; [vm_compute; reflexivity|].
  split; [exact Hd|]. split; [exact Hwf|]. split; [exact Ho|].
  split; [exact Hn|]. split; [exact Hs|].
  destruct (C4_leaf_split h leaf old [] Hd Hwf Ho Hn Hs)
    as (new_p & h' & _ & _ & _ & Hsplit & _).
  exists new_p, h'. exact Hsplit.
Defined.

(** ** The max-key operations and the dispatch table *)

Lemma read_prefix_of_key (content : list byte) (item_size offset key_size i n : Z) :
  0 ≤ i * item_size + offset → 0 ≤ n → n ≤ key_size →
  i * item_size + offset + key_size ≤ Mem.len content →
  Mem.read content (i * item_size + offset) n
  = Some (take (Z.to_nat n) (item_key content item_size offset key_size i)).
Proof.
  intros H1 H2 H3 H4. rewrite read_Some by lia. unfold item_key.
  rewrite take_take. do 2 f_equal. lia.
Qed.

(** C10. With at least one item in the node, each of the two max-key
    functions copies the first [min (key_buf_len, key_size)] bytes of the
    last key to the caller's buffer, leaves the rest of the buffer alone
    and returns that number, which is never -1 (a buffer shorter than the
    key gets a truncated key, not an error); with no item it returns -1 and
    leaves the buffer alone. *)
Theorem C10_max_key_copies_min
    (h : heap) (node : Z) (key_buf : list byte)
    (key_buf_off key_buf_len : Z) :
  0 ≤ key_buf_off → 0 ≤ key_buf_len →
  key_buf_off + key_buf_len ≤ Mem.len key_buf →
  (∀ data : Data.t,
     deref_data h node = Some data →
     0 ≤ Data.key_size data → 0 ≤ Data.value_size data →
     Data.key_num data * (Data.key_size data + Data.value_size data)
       ≤ Mem.len (Data.content data) →
     let cp_len := Z.min key_buf_len (Data.key_size data) in
     let last_key :=
       item_key (Data.content data)
                (Data.key_size data + Data.value_size data) 0
                (Data.key_size data) (Data.key_num data - 1) in
     (1 ≤ Data.key_num data →
      ∃ buf',
        bp_data_node_max_key h node key_buf key_buf_off key_buf_len
        = Some (cp_len, buf')
        ∧ cp_len ≠ -1
        ∧ Mem.read buf' key_buf_off cp_len
          = Some (take (Z.to_nat cp_len) last_key)
        ∧ Mem.len buf' = Mem.len key_buf
        ∧ (∀ o m, o + m ≤ key_buf_off ∨ key_buf_off + cp_len ≤ o →
           Mem.read buf' o m = Mem.read key_buf o m))
     ∧ (Data.key_num data ≤ 0 →
        bp_data_node_max_key h node key_buf key_buf_off key_buf_len
        = Some (-1, key_buf)))
  ∧ (∀ inner : Inner.t,
       deref_inner h node = Some inner →
       0 ≤ Inner.key_size inner →
       Inner.key_num inner * (Mem.sizeof_ptr + Inner.key_size inner)
         ≤ Mem.len (Inner.content inner) →
       let cp_len := Z.min key_buf_len (Inner.key_size inner) in
       let last_key :=
         item_key (Inner.content inner)
                  (Mem.sizeof_ptr + Inner.key_size inner) Mem.sizeof_ptr
                  (Inner.key_size inner) (Inner.key_num inner - 1) in
       (1 ≤ Inner.key_num inner →
        ∃ buf',
          bp_inner_node_max_key h node key_buf key_buf_off key_buf_len
          = Some (cp_len, buf')
          ∧ cp_len ≠ -1
          ∧ Mem.read buf' key_buf_off cp_len
            = Some (take (Z.to_nat cp_len) last_key)
          ∧ Mem.len buf' = Mem.len key_buf
          ∧ (∀ o m, o + m ≤ key_buf_off ∨ key_buf_off + cp_len ≤ o →
             Mem.read buf' o m = Mem.read key_buf o m))
       ∧ (Inner.key_num inner ≤ 0 →
          bp_inner_node_max_key h node key_buf key_buf_off key_buf_len
          = Some (-1, key_buf))).
Proof.
  intros Hoff Hlen Hbuf. split.
  - intros data Hd Hks Hvs Hitems cp_len last_key.
    unfold bp_data_node_max_key. rewrite Hd. cbn [mbind option_bind].
    split.
    + intros Hcount. destruct (Z.leb_spec (Data.key_num data) 0); [lia|].
      assert ((if key_buf_len <? Data.key_size data then key_buf_len
               else Data.key_size data) = cp_len) as ->.
      { subst cp_len. destruct (Z.ltb_spec key_buf_len (Data.key_size data));
          lia. }
      set (item_size := Data.key_size data + Data.value_size data) in *.
      assert (0 ≤ cp_len ≤ Data.key_size data ∧ cp_len ≤ key_buf_len)
        as (Hcp & Hcp') by (subst cp_len; lia).
      destruct (memcpy_Some key_buf key_buf_off (Data.content data)
                  ((Data.key_num data - 1) * item_size) cp_len)
        as (buf' & -> & Hlen' & Hread & Hother); try nia.
      exists buf'. split; [reflexivity|]. split; [lia|].
      split; [|split; assumption].
      rewrite Hread. subst last_key.
      replace ((Data.key_num data - 1) * item_size)
        with ((Data.key_num data - 1) * item_size + 0) by lia.
      apply read_prefix_of_key; nia.
    + intros Hcount. destruct (Z.leb_spec (Data.key_num data) 0); [|lia].
      reflexivity.
  - intros inner Hd Hks Hitems cp_len last_key.
    unfold bp_inner_node_max_key. rewrite Hd. cbn [mbind option_bind].
    split.
    + intros Hcount. destruct (Z.leb_spec (Inner.key_num inner) 0); [lia|].
      assert ((if key_buf_len <? Inner.key_size inner then key_buf_len
               else Inner.key_size inner) = cp_len) as ->.
      { subst cp_len.
        destruct (Z.ltb_spec key_buf_len (Inner.key_size inner)); lia. }
      set (item_size := Mem.sizeof_ptr + Inner.key_size inner) in *.
      assert (0 ≤ cp_len ≤ Inner.key_size inner ∧ cp_len ≤ key_buf_len)
        as (Hcp & Hcp') by (subst cp_len; lia).
      assert (Mem.sizeof_ptr = 8) as Hptr by reflexivity.
      destruct (memcpy_Some key_buf key_buf_off (Inner.content inner)
                  ((Inner.key_num inner - 1) * item_size + Mem.sizeof_ptr)
                  cp_len)
        as (buf' & -> & Hlen' & Hread & Hother); try nia.
      exists buf'. split; [reflexivity|]. split; [lia|].
      split; [|split; assumption].
      rewrite Hread. subst last_key.
      apply read_prefix_of_key; nia.
    + intros Hcount. destruct (Z.leb_spec (Inner.key_num inner) 0); [|lia].
      reflexivity.
Qed.

Lemma C10_max_key_copies_min_witness :
  ∃ leaf h data,
    wide_leaf = Some (leaf, h)
    ∧ deref_data h leaf = Some data
    ∧ 0 ≤ 0 ∧ 0 ≤ 1 ∧ 0 + 1 ≤ Mem.len (bytes "xy")
    ∧ 0 ≤ Data.key_size data ∧ 0 ≤ Data.value_size data
    ∧ Data.key_num data * (Data.key_size data + Data.value_size data)
      ≤ Mem.len (Data.content data)
    ∧ 1 ≤ Data.key_num data
    ∧ ∃ buf',
        bp_data_node_max_key h leaf (bytes "xy") 0 1 = Some (1, buf')
        ∧ Mem.read buf' 0 1 = Some (bytes "5").
Proof.
  match eval vm_compute in wide_leaf with
  | Some (?p, ?x) => pose (leaf := p); pose (h := x)
  end.
  match eval vm_compute in (deref_data h leaf) with
  | Some ?d => pose (data := d)
  end.
  assert (0 + 1 ≤ Mem.len (bytes "xy")) as Hb by (vm_compute; discriminate).
  assert (0 ≤ Data.key_size data) as Hks by (vm_compute; discriminate).
  assert (0 ≤ Data.value_size data) as Hvs by (vm_compute; discriminate).
  assert (Data.key_num data * (Data.key_size data + Data.value_size data)
          ≤ Mem.len (Data.content data)) as Hin
    by (vm_compute; discriminate).
  assert (1 ≤ Data.key_num data) as Hcount by (vm_compute; discriminate).
  exists leaf, h, data. split; [vm_compute; reflexivity|].
  split; [reflexivity|]. split; [lia|]. split; [lia|]. split; [exact Hb|].
  split; [exact Hks|]. split; [exact Hvs|]. split; [exact Hin|].
  split; [exact Hcount|].
  destruct (proj1 (C10_max_key_copies_min h leaf (bytes "xy") 0 1
                     ltac:(lia) ltac:(lia) Hb)
              data eq_refl Hks Hvs Hin) as [Hsome _].
  destruct (Hsome Hcount) as (buf' & Hrun & _ & Hread & _).
  exists buf'. split; [exact Hrun|]. exact Hread.
Defined.

(** C8, evaluated on the code.  [bp_create_data_node] installs both
    operations; [bp_create_inner_node] installs [insert] only: whenever it
    returns a node, the [max_key] pointer of that node is null, and a call
    through it is undefined.  The second part is the instance with
    capacity 4 and key size 2. *)
Theorem C8_inner_factory_installs_no_max_key :
  (∀ (h : heap) (max_key_num key_size : Z) (compare : option bp_compare_f),
     match bp_create_inner_node h max_key_num key_size compare with
     | Some (p, h') =>
         p = NULL
         ∨ ∃ inner,
             deref_inner h' p = Some inner
             ∧ Common.insert (Inner.common inner)
               = Some PTR_bp_inner_node_insert_data
             ∧ Common.max_key (Inner.common inner) = None
             ∧ ∀ key_buf off len,
                 call_max_key (Common.max_key (Inner.common inner)) h' p
                              key_buf off len = None
     | None => True
     end)
  ∧ (∃ p h' inner,
       bp_create_inner_node (empty_heap [true]) 4 2 None = Some (p, h')
       ∧ p ≠ NULL
       ∧ deref_inner h' p = Some inner
       ∧ Common.max_key (Inner.common inner) = None)
  ∧ (∃ p h' data,
       bp_create_data_node (empty_heap [true]) 4 2 2 2 None = Some (p, h')
       ∧ deref_data h' p = Some data
       ∧ Common.insert (Data.common data)
         = Some PTR_bp_data_node_insert_data
       ∧ Common.max_key (Data.common data)
         = Some PTR_bp_data_node_max_key).
Proof.
  split; [|split].
  - intros h max_key_num key_size compare. unfold bp_create_inner_node.
    destruct (malloc h _) as [ok h1]. destruct ok; cbn [negb].
    + destruct (_ <? 0); [exact I|].
      match goal with
      | |- context [new_block ?x ?n] =>
          pose proof (deref_new_block x n) as Hnew;
          destruct (new_block x n) as [p h']
      end.
      cbn [fst snd] in Hnew. right.
      eexists. unfold deref_inner. rewrite Hnew.
      cbn [mbind option_bind]. split; [reflexivity|]. auto.
    + left. reflexivity.
  - eexists _, _, _. split; [vm_compute; reflexivity|].
    split; [vm_compute; discriminate|].
    split; vm_compute; reflexivity.
  - eexists _, _, _. split; [vm_compute; reflexivity|].
    repeat split; vm_compute; reflexivity.
Qed.

(** ** Allocation failure *)

Lemma bp_create_data_node_null (h h1 : heap)
    (max_kv_num min_kv_num key_size value_size : Z)
    (compare : option bp_compare_f) (p : Z) :
  bp_create_data_node h max_kv_num min_kv_num key_size value_size compare
  = Some (p, h1) →
  p = NULL →
  nodes h1 = nodes h ∧ malloc_oracle h1 = tail (malloc_oracle h).
Proof.
  unfold bp_create_data_node.
  pose proof (malloc_nodes h (size_t_of_Z (sizeof_node
    + bp_calc_data_node_content_len max_kv_num key_size value_size))) as Hm.
  pose proof (malloc_oracle_tail h (size_t_of_Z (sizeof_node
    + bp_calc_data_node_content_len max_kv_num key_size value_size))) as Ho.
  destruct (malloc h _) as [ok h0]. cbn [snd] in Hm, Ho.
  destruct ok; cbn [negb].
  - destruct (_ <? 0); [discriminate|]. unfold new_block.
    intros [= <- <-]. unfold NULL. lia.
  - intros [= <- <-] _. auto.
Qed.

Lemma bp_data_node_split_fail_inv (h h1 : heap) (to_split pp_new : Z) :
  bp_data_node_split h to_split = Some (-1, pp_new, h1) →
  pp_new = NULL ∧ nodes h1 = nodes h
  ∧ malloc_oracle h1 = tail (malloc_oracle h).
Proof.
  unfold bp_data_node_split. intros H.
  destruct (deref_data h to_split) as [old|]; [|discriminate].
  cbn [mbind option_bind] in H.
  destruct (bp_create_data_node h _ _ _ _ _) as [[new_p h0]|] eqn:Ec;
    [|discriminate].
  cbn [mbind option_bind] in H.
  destruct (Z.eqb_spec new_p NULL) as [->|Hne].
  - injection H as <- <-. split; [reflexivity|].
    by eapply bp_create_data_node_null.
  - repeat match type of H with
           | mbind _ ?x = Some _ =>
               destruct x; cbn [mbind option_bind] in H; [|discriminate H]
           end.
    discriminate H.
Qed.

Lemma bp_data_node_insert_fail_inv (h h' : heap) (node pp_new : Z)
    (key position key' : list byte) :
  bp_data_node_insert_data h node key position
  = Some (-1, pp_new, key', h') →
  pp_new = NULL ∧ key' = key ∧ nodes h' = nodes h
  ∧ malloc_oracle h' = tail (malloc_oracle h).
Proof.
  unfold bp_data_node_insert_data. intros H.
  destruct (deref_data h node) as [data|]; [|discriminate].
  cbn [mbind option_bind] in H.
  destruct (bp_data_node_need_split data).
  - destruct (bp_data_node_split h node) as [[[r q] h1]|] eqn:Es;
      [|discriminate].
    cbn [mbind option_bind andb] in H.
    destruct (Z.eqb_spec (-1) r) as [<-|Hne].
    + injection H as <- <- <-.
      apply bp_data_node_split_fail_inv in Es as (-> & -> & ->). auto.
    + exfalso.
      repeat match type of H with
             | mbind _ ?x = Some _ =>
                 destruct x as [ [? ?] | ] eqn:?;
                   cbn [mbind option_bind] in H; [|discriminate H]
             | mbind _ ?x = Some _ =>
                 destruct x eqn:?;
                   cbn [mbind option_bind] in H; [|discriminate H]
             end.
      discriminate H.
  - cbn [mbind option_bind andb] in H. exfalso.
    repeat match type of H with
           | mbind _ ?x = Some _ =>
               destruct x as [ [? ?] | ] eqn:?;
                 cbn [mbind option_bind] in H; [|discriminate H]
           | mbind _ ?x = Some _ =>
               destruct x eqn:?;
                 cbn [mbind option_bind] in H; [|discriminate H]
           end.
    discriminate H.
Qed.

Lemma memcpy_inv (dst : list byte) (doff : Z) (src : list byte)
    (soff n : Z) (dst' : list byte) :
  Mem.memcpy dst doff src soff n = Some dst' →
  Mem.len dst' = Mem.len dst
  ∧ ∀ o m, o + m ≤ doff ∨ doff + n ≤ o →
           Mem.read dst' o m = Mem.read dst o m.
Proof.
  unfold Mem.memcpy. intros H.
  destruct (Mem.read src soff n) as [data|] eqn:Er; [|discriminate].
  cbn [mbind option_bind] in H. apply read_len in Er. split.
  - by eapply write_len.
  - intros o m Hd. eapply read_write_other; [exact H|]. lia.
Qed.

Ltac inner_fields :=
  unfold last_separator_offset in *;
  unfold Inner.set_content, Inner.set_key_num, Inner.set_key_total,
    Inner.key_num, Common.set_key_num in *;
  cbn [Inner.common Inner.key_size Inner.key_total Inner.content_len
       Inner.content Common.type Common.insert Common.max_key Common.compare
       Common.max_key_num Common.min_key_num Common.key_num] in *.

Lemma inner_widened_refl (i : Inner.t) : inner_widened i i.
Proof.
  split; [by destruct i as [[] ]|]. split; [reflexivity|]. by left.
Qed.

Lemma inner_widened_trans (i i1 i2 : Inner.t) :
  inner_widened i i1 → inner_widened i1 i2 → inner_widened i i2.
Proof.
  intros (E1 & L1 & D1) (E2 & L2 & D2).
  destruct D2 as [->|(Hnz2 & Hk2 & Hc2)]; [by repeat split|].
  destruct D1 as [->|(Hnz1 & Hk1 & Hc1)]; [by repeat split; auto|].
  assert (Inner.key_size i2 = Inner.key_size i1) as Hks.
  { rewrite <- E2. reflexivity. }
  assert (Inner.key_num i2 = Inner.key_num i1) as Hkn by lia.
  assert (last_separator_offset i2 = last_separator_offset i1) as Hoff.
  { unfold last_separator_offset. by rewrite Hks, Hkn. }
  split.
  { clear -E1 E2. destruct i as [[] ], i1 as [[] ], i2 as [[] ].
    inner_fields. congruence. }
  split; [congruence|]. right.
  split; [assumption|]. split; [lia|].
  intros o m Hd. rewrite Hc2 by assumption. apply Hc1.
  rewrite <- Hoff, <- Hks. assumption.
Qed.

Lemma failed_insert_frame_nodes (h h' : heap) :
  nodes h' = nodes h → failed_insert_frame h h'.
Proof.
  intros Hn. split; [by rewrite Hn|]. intros p.
  assert (deref h' p = deref h p) as -> by (unfold deref; by rewrite Hn).
  destruct (deref h p) as [[d|i]|]; auto.
  exists i. split; [reflexivity|]. apply inner_widened_refl.
Qed.

Lemma failed_insert_frame_trans (h h1 h2 : heap) :
  failed_insert_frame h h1 → failed_insert_frame h1 h2 →
  failed_insert_frame h h2.
Proof.
  intros [L1 F1] [L2 F2]. split; [congruence|]. intros p.
  specialize (F1 p). specialize (F2 p).
  destruct (deref h p) as [[d|i]|].
  - by rewrite F1 in F2.
  - destruct F1 as (i1 & E1 & W1). rewrite E1 in F2.
    destruct F2 as (i2 & E2 & W2). exists i2. split; [exact E2|].
    by eapply inner_widened_trans.
  - by rewrite F1 in F2.
Qed.

Lemma failed_insert_frame_store (h : heap) (node : Z) (i i' : Inner.t) :
  deref_inner h node = Some i → inner_widened i i' →
  failed_insert_frame h (store h node (INNER i')).
Proof.
  intros Hd Hw. split; [apply store_length|]. intros p.
  assert (deref h node = Some (INNER i)) as Hn.
  { unfold deref_inner in Hd. destruct (deref h node) as [[d|j]|];
      try discriminate. by injection Hd as ->. }
  destruct (Z.eq_dec node p) as [<-|Hne].
  - rewrite Hn. exists i'. split; [by eapply deref_store_eq|assumption].
  - rewrite deref_store_ne by assumption.
    destruct (deref h p) as [[d|j]|]; auto.
    exists j. split; [reflexivity|]. apply inner_widened_refl.
Qed.

(** the adoption of the key as first separator, on an empty inner node *)
Lemma inner_adopt_widened (i i1 : Inner.t) (key : list byte) :
  (if 0 =? Inner.key_num i then
     c ← Mem.memcpy (Inner.content i) Mem.sizeof_ptr key 0 (Inner.key_size i);
     Some (Inner.set_key_num (Inner.set_content i c) 1)
   else Some i) = Some i1 →
  inner_widened i i1 ∧ Inner.key_num i1 ≠ 0.
Proof.
  destruct (Z.eqb_spec 0 (Inner.key_num i)) as [Hz|Hnz].
  - destruct (Mem.memcpy _ _ _ _ _) as [c|] eqn:Ec; [|discriminate].
    intros [= <-]. apply memcpy_inv in Ec as [Hlen Hother].
    destruct i as [[] ]. unfold inner_widened. inner_fields. subst.
    split; [|lia]. split; [reflexivity|]. split; [assumption|]. right.
    split; [lia|]. split; [right; lia|].
    intros o m Hd. apply Hother. lia.
  - intros [= <-]. split; [apply inner_widened_refl|lia].
Qed.

(** the widening of the last separator before the recursive call *)
Lemma inner_widen_widened (i1 i2 : Inner.t) (key : list byte)
    (found_idx : Z) :
  Inner.key_num i1 ≠ 0 →
  (if found_idx =? Inner.key_num i1 then
     c ← Mem.memcpy (Inner.content i1)
           ((found_idx - 1) * (Mem.sizeof_ptr + Inner.key_size i1)
            + Mem.sizeof_ptr) key 0 (Inner.key_size i1);
     Some (Inner.set_content i1 c)
   else Some i1) = Some i2 →
  inner_widened i1 i2.
Proof.
  intros Hnz. destruct (Z.eqb_spec found_idx (Inner.key_num i1)) as [->|Hne].
  - destruct (Mem.memcpy _ _ _ _ _) as [c|] eqn:Ec; [|discriminate].
    intros [= <-]. apply memcpy_inv in Ec as [Hlen Hother].
    destruct i1 as [[] ]. unfold inner_widened. inner_fields.
    split; [reflexivity|]. split; [assumption|]. right.
    split; [assumption|]. split; [left; reflexivity|].
    intros o m Hd. apply Hother. lia.
  - intros [= <-]. apply inner_widened_refl.
Qed.

Ltac bind_step H E :=
  match type of H with
  | mbind _ ?x = Some _ =>
      destruct x eqn:E; cbn [mbind option_bind] in H; [|discriminate H]
  end.

Lemma inner_insert_fail_step
    (rec : heap → Z → list byte → list byte
           → option (Z * Z * list byte * heap))
    (h : heap) (node : Z) (key position : list byte)
    (pp_new : Z) (key' : list byte) (h' : heap) :
  (∀ h1 child k v pp k' h2,
     rec h1 child k v = Some (-1, pp, k', h2) →
     k' = k ∧ failed_insert_frame h1 h2
     ∧ malloc_oracle h2 = tail (malloc_oracle h1)) →
  (inner ← deref_inner h node;
   inner ←
     (if 0 =? Inner.key_num inner then
        c ← Mem.memcpy (Inner.content inner) Mem.sizeof_ptr key 0
                       (Inner.key_size inner);
        Some (Inner.set_key_num (Inner.set_content inner c) 1)
      else Some inner);
   let item_size := Mem.sizeof_ptr + Inner.key_size inner in
   let valid_data_len := Inner.key_num inner * item_size in
   '(_, found_idx) ←
     bp_bi_search_last (Inner.content inner) valid_data_len item_size key
                       (Inner.key_size inner) Mem.sizeof_ptr
                       (Common.compare (Inner.common inner));
   inner ←
     (if found_idx =? Inner.key_num inner then
        c ← Mem.memcpy (Inner.content inner)
                       ((found_idx - 1) * item_size + Mem.sizeof_ptr) key 0
                       (Inner.key_size inner);
        Some (Inner.set_content inner c)
      else Some inner);
   let h := store h node (INNER inner) in
   child ← bp_inner_node_get_insert_position inner found_idx;
   child_node ← deref h child;
   '(res, split_child, key, h) ←
     match Common.insert (node_common child_node) with
     | None => None
     | Some PTR_bp_data_node_insert_data =>
         bp_data_node_insert_data h child key position
     | Some PTR_bp_inner_node_insert_data => rec h child key position
     end;
   if -1 =? res then Some (-1, NULL, key, h)
   else
     '(_, pp_new, h) ←
       (if split_child =? NULL then Some (0, NULL, h)
        else bp_inner_node_add_split_child h node child split_child
                                           found_idx);
     inner ← deref_inner h node;
     let h := store h node
                (INNER (Inner.set_key_total inner
                                            (Inner.key_total inner + 1))) in
     Some (0, pp_new, key, h))
  = Some (-1, pp_new, key', h') →
  pp_new = NULL ∧ key' = key ∧ failed_insert_frame h h'
  ∧ malloc_oracle h' = tail (malloc_oracle h).
Proof.
  intros Hrec H.
  bind_step H Hd. rename t into inner.
  bind_step H E1. rename t into inner1.
  cbn zeta in H.
  bind_step H Es. destruct p as [found found_idx].
  bind_step H E2. rename t into inner2.
  cbn zeta in H.
  bind_step H Ep. rename z into child.
  bind_step H Ec. rename b into child_node.
  bind_step H Ecall. destruct p as [[[res split_child] key2] h2].
  apply inner_adopt_widened in E1 as [W1 Hnz].
  apply inner_widen_widened in E2; [|assumption].
  pose proof (failed_insert_frame_store h node inner inner2 Hd
                (inner_widened_trans _ _ _ W1 E2)) as Hframe.
  destruct (Z.eqb_spec (-1) res) as [<-|Hne].
  - injection H as <- <- <-. split; [reflexivity|].
    destruct (Common.insert (node_common child_node)) as [[|]|];
      [| |discriminate].
    + apply bp_data_node_insert_fail_inv in Ecall as (_ & -> & Hn & Ho).
      split; [reflexivity|]. rewrite store_oracle in Ho. split; [|exact Ho].
      eapply failed_insert_frame_trans; [exact Hframe|].
      by apply failed_insert_frame_nodes.
    + apply Hrec in Ecall as (-> & Hf & Ho). split; [reflexivity|].
      rewrite store_oracle in Ho. split; [|exact Ho].
      by eapply failed_insert_frame_trans.
  - exfalso. bind_step H Ea. destruct p as [[r pp] h3].
    bind_step H Ed. discriminate H.
Qed.

(** X22. What an insert that returns -1 leaves behind.  When
    [bp_data_node_insert_data] returns -1 it reports no sibling, leaves
    the caller's key alone, leaves the list of nodes as it was and has
    used up one allocation attempt.  When [bp_inner_node_insert_data]
    returns -1, at any nesting depth, it reports no sibling, leaves the
    caller's key alone and has used up one allocation attempt; no node is
    added or removed; every leaf is as it was (no item moved or written,
    no count changed); every inner node keeps every field but the count,
    which stays or goes from 0 to 1, and every byte of its content but the
    key bytes of its last separator, which may have been overwritten. *)
Theorem failed_insert_leaves_frame :
  (∀ (h : heap) (node : Z) (key position : list byte) (pp_new : Z)
     (key' : list byte) (h' : heap),
     bp_data_node_insert_data h node key position
     = Some (-1, pp_new, key', h') →
     pp_new = NULL ∧ key' = key ∧ nodes h' = nodes h
     ∧ malloc_oracle h' = tail (malloc_oracle h))
  ∧ (∀ (depth : nat) (h : heap) (node : Z) (key position : list byte)
       (pp_new : Z) (key' : list byte) (h' : heap),
       bp_inner_node_insert_data depth h node key position
       = Some (-1, pp_new, key', h') →
       pp_new = NULL ∧ key' = key ∧ failed_insert_frame h h'
       ∧ malloc_oracle h' = tail (malloc_oracle h)).
Proof.
  split; [intros; by eapply bp_data_node_insert_fail_inv|].
  induction depth as [|depth IH]; intros h node key position pp_new key' h' H.
  - apply (inner_insert_fail_step (λ _ _ _ _, None) h node key position);
      [discriminate|exact H].
  - apply (inner_insert_fail_step (bp_inner_node_insert_data depth)
             h node key position); [|exact H].
    intros h1 child k v pp k' h2 Hcall.
    by destruct (IH _ _ _ _ _ _ _ Hcall) as (_ & ? & ? & ?).
Qed.

Lemma failed_insert_leaves_frame_witness :
  ∃ root mid leaf h h',
    two_level_tree [] = Some (root, mid, leaf, h)
    ∧ bp_inner_node_insert_data 1 h root (bytes "9") (bytes "z")
      = Some (-1, NULL, bytes "9", h')
    ∧ failed_insert_frame h h'.
Proof.
  match eval vm_compute in (two_level_tree []) with
  | Some (?r, ?m, ?l, ?x) =>
      pose (root := r); pose (mid := m); pose (leaf := l); pose (h := x)
  end.
  match eval vm_compute in
        (bp_inner_node_insert_data 1 h root (bytes "9") (bytes "z")) with
  | Some (_, _, _, ?x) => pose (h' := x)
  end.
  assert (bp_inner_node_insert_data 1 h root (bytes "9") (bytes "z")
          = Some (-1, NULL, bytes "9", h')) as Hrun
    by (vm_compute; reflexivity).
  exists root, mid, leaf, h, h'.
  split; [vm_compute; reflexivity|]. split; [exact Hrun|].
  exact (proj1 (proj2 (proj2 (proj2 failed_insert_leaves_frame 1%nat h root
                                (bytes "9") (bytes "z") NULL (bytes "9") h'
                                Hrun)))).
Defined.

(** C2. Two inserts in which a split cannot allocate its sibling, and
    which leave the tree changed.

    In [two_level_tree] with no memory left, the insert of "9" goes
    through the root and the middle node to the full leaf, whose split
    cannot allocate.  The call returns -1 through both inner nodes, but
    the separator of the root, "3" before the call, reads "9" after it:
    [bp_inner_node_insert_data] writes the key over the last separator
    before it calls the child, where the comment in
    [bp_inner_node_get_insert_position] places that update after the
    insert, and nothing undoes it.

    In [full_inner_tree] with one allocation left, the insert of "2"
    splits the full leaf; the full inner node must then be split to take
    the new leaf, and that allocation fails.
    [bp_inner_node_add_split_child] returns -1, and
    [bp_inner_node_insert_data], which does not look at that result,
    returns 0: the failure does not reach the caller, the leaf has gone
    from two items to one, the inner node still has its one entry, on the
    old leaf, and its total has gone up by one. *)
Theorem C2_failing_split_leaves_tree_changed :
  (∃ root mid leaf h h' inner inner',
     two_level_tree [] = Some (root, mid, leaf, h)
     ∧ malloc_oracle h = []
     ∧ bp_inner_node_insert_data 1 h root (bytes "9") (bytes "z")
       = Some (-1, NULL, bytes "9", h')
     ∧ deref_inner h root = Some inner
     ∧ deref_inner h' root = Some inner'
     ∧ Mem.read (Inner.content inner) (last_separator_offset inner) 1
       = Some (bytes "3")
     ∧ Mem.read (Inner.content inner') (last_separator_offset inner') 1
       = Some (bytes "9")
     ∧ nodes h' ≠ nodes h)
  ∧ (∃ root leaf h split key1 h1 h2 h' inner inner' d d',
       full_inner_tree [true] = Some (root, leaf, h)
       ∧ malloc_oracle h = [true]
       ∧ bp_data_node_insert_data h leaf (bytes "2") (bytes "z")
         = Some (0, split, key1, h1)
       ∧ split ≠ NULL
       ∧ malloc_oracle h1 = []
       ∧ bp_inner_node_add_split_child h1 root leaf split 0
         = Some (-1, NULL, h2)
       ∧ bp_inner_node_insert_data 0 h root (bytes "2") (bytes "z")
         = Some (0, NULL, key1, h')
       ∧ deref_data h leaf = Some d
       ∧ deref_data h' leaf = Some d'
       ∧ Data.key_num d = 2
       ∧ Data.key_num d' = 1
       ∧ deref_inner h root = Some inner
       ∧ deref_inner h' root = Some inner'
       ∧ Inner.key_num inner' = 1
       ∧ Mem.load_ptr (Inner.content inner') 0 = Some leaf
       ∧ Inner.key_total inner' = Inner.key_total inner + 1).
Proof.
  split.
  - eexists _, _, _, _, _, _, _.
    split; [vm_compute; reflexivity|].
    split; [vm_compute; reflexivity|].
    split; [vm_compute; reflexivity|].
    split; [vm_compute; reflexivity|].
    split; [vm_compute; reflexivity|].
    split; [vm_compute; reflexivity|].
    split; [vm_compute; reflexivity|].
    vm_compute. discriminate.
  - eexists _, _, _, _, _, _, _, _, _, _, _, _.
    split; [vm_compute; reflexivity|].
    split; [vm_compute; reflexivity|].
    split; [vm_compute; reflexivity|].
    split; [vm_compute; discriminate|].
    split; [vm_compute; reflexivity|].
    split; [vm_compute; reflexivity|].
    split; [vm_compute; reflexivity|].
    split; [vm_compute; reflexivity|].
    split; [vm_compute; reflexivity|].
    split; [vm_compute; reflexivity|].
    split; [vm_compute; reflexivity|].
    split; [vm_compute; reflexivity|].
    split; [vm_compute; reflexivity|].
    split; [vm_compute; reflexivity|].
    split; vm_compute; reflexivity.
Qed.

(** ** Concrete scenarios *)

(** Cases of test.cc: BiSearch.FindOne, FindFirst, FindLast. *)
Example FindOne_second_byte :
  bp_bi_search_one (bytes "112233445566778899") 18 2 (bytes "3") 1 1 None
  = Some (1, 2).
Proof. reflexivity. Qed.

Example FindOne_absent :
  bp_bi_search_one (bytes "112233445566778899") 18 2 (bytes "12") 2 0 None
  = Some (0, 1).
Proof. reflexivity. Qed.

Example FindOne_above_all :
  bp_bi_search_one (bytes "112233445566778899") 18 2 (bytes "aa") 2 0 None
  = Some (0, 9).
Proof. reflexivity. Qed.

Example FindFirst_run :
  bp_bi_search_first (bytes "111133335555777799") 18 2 (bytes "5") 1 1 None
  = Some (1, 4).
Proof. reflexivity. Qed.

Example FindLast_run :
  bp_bi_search_last (bytes "111133335555777799") 18 2 (bytes "5") 1 1 None
  = Some (1, 5).
Proof. reflexivity. Qed.

Example FindLast_above_all :
  bp_bi_search_last (bytes "111133335555777799") 18 2 (bytes "a") 1 1 None
  = Some (0, 9).
Proof. reflexivity. Qed.

(** C6. A leaf of capacity 6 with one-byte keys and values takes the six
    pairs (1,1) (3,5) (2,3) (2,4) (3,6) (1,2) without a split (every insert
    returns 0 with a null sibling and no allocation is attempted); the
    count is then 6 and the first twelve bytes of the buffer read
    "111223243536": each duplicate sits right behind the equal keys
    inserted before it. *)
Theorem C6_leaf_six_inserts (oracle : list bool) :
  ∃ data h0 h content,
    bp_create_data_node (empty_heap (true :: oracle)) 6 3 1 1 None
      = Some (data, h0)
    ∧ data_inserts h0 data leaf_test_pairs = Some h
    ∧ malloc_oracle h = oracle
    ∧ length (nodes h) = 1%nat
    ∧ bp_node_get_key_num h data = Some 6
    ∧ bp_node_get_content h data = Some content
    ∧ take 12 content = bytes "111223243536".
Proof.
  eexists _, _, _, _.
  split; [vm_compute; reflexivity|].
  split; [vm_compute; reflexivity|].
  repeat split; vm_compute; reflexivity.
Qed.

(** C5. Inner node of capacity 4 and key size 2 over one leaf of capacity 4
    (two-byte values, whatever they are): the inserts of "55", "88", "11",
    "22" leave one child and one separator; the insert of "33" splits the
    leaf, the inner node itself does not split and has two children, the
    old one with keys "11" "22" and separator "22", the new one with keys
    "33" "55" "88" and separator "88". *)
Theorem C5_inner_fifth_insert_splits_child
    (a1 a2 b1 b2 c1 c2 d1 d2 e1 e2 : byte) (oracle : list bool) :
  ∃ head data h0 h4 key5 h5 split inner4 inner old new,
    inner_test_setup (true :: true :: true :: oracle) = Some (head, data, h0)
    ∧ inner_inserts 0 h0 head
        [(bytes "55", [a1; a2]); (bytes "88", [b1; b2]);
         (bytes "11", [c1; c2]); (bytes "22", [d1; d2])] = Some h4
    ∧ length (nodes h4) = 2%nat
    ∧ deref_inner h4 head = Some inner4
    ∧ Inner.key_num inner4 = 1
    ∧ bp_inner_node_insert_data 0 h4 head (bytes "33") [e1; e2]
      = Some (0, NULL, key5, h5)
    ∧ length (nodes h5) = 3%nat
    ∧ deref_inner h5 head = Some inner
    ∧ deref_data h5 data = Some old
    ∧ deref_data h5 split = Some new
    ∧ split ≠ data
    ∧ Inner.key_num inner = 2
    ∧ Mem.load_ptr (Inner.content inner) 0 = Some data
    ∧ Mem.read (Inner.content inner) 8 2 = Some (bytes "22")
    ∧ Mem.load_ptr (Inner.content inner) 10 = Some split
    ∧ Mem.read (Inner.content inner) 18 2 = Some (bytes "88")
    ∧ Data.key_num old = 2
    ∧ Mem.read (Data.content old) 0 8
      = Some (bytes "11" ++ [c1; c2] ++ bytes "22" ++ [d1; d2])
    ∧ Data.key_num new = 3
    ∧ Mem.read (Data.content new) 0 12
      = Some (bytes "33" ++ [e1; e2] ++ bytes "55" ++ [a1; a2]
              ++ bytes "88" ++ [b1; b2]).
Proof.
  eexists _, _, _, _, _, _, 3, _, _, _, _.
  split; [vm_compute; reflexivity|].
  split; [vm_compute; reflexivity|].
  split; [reflexivity|].
  split; [vm_compute; reflexivity|].
  split; [reflexivity|].
  split; [vm_compute; reflexivity|].
  split; [reflexivity|].
  split; [vm_compute; reflexivity|].
  split; [vm_compute; reflexivity|].
  split; [vm_compute; reflexivity|].
  split; [vm_compute; discriminate|].
  repeat split; vm_compute; reflexivity.
Qed.

(** C1, evaluated on the code.  The full leaf [dup_leaf] receives a third
    key "2".  After the split the old half ends with "2" and the new half
    starts with "2", so the key equals both the maximum of the old half and
    the minimum of the new half; the item is nevertheless written into the
    old half (at index 2), and the new half keeps its two items. *)
Theorem C1_equal_key_at_split_point_goes_to_old_half (oracle : list bool) :
  ∃ leaf h0 h1 new_p h key' old new,
    dup_leaf (true :: oracle) = Some (leaf, h0)
    ∧ bp_data_node_split h0 leaf = Some (0, new_p, h1)
    ∧ (old ← deref_data h1 leaf; Mem.read (Data.content old) 2 1)
      = Some (bytes "2")
    ∧ (new ← deref_data h1 new_p; Mem.read (Data.content new) 0 1)
      = Some (bytes "2")
    ∧ bp_data_node_insert_data h0 leaf (bytes "2") (bytes "e")
      = Some (0, new_p, key', h)
    ∧ deref_data h leaf = Some old
    ∧ deref_data h new_p = Some new
    ∧ Data.key_num old = 3
    ∧ Mem.read (Data.content old) 0 6 = Some (bytes "1a2b2e")
    ∧ Data.key_num new = 2
    ∧ Mem.read (Data.content new) 0 4 = Some (bytes "2c3d").
Proof.
  eexists _, _, _, _, _, _, _, _.
  split; [vm_compute; reflexivity|].
  split; [vm_compute; reflexivity|].
  split; [vm_compute; reflexivity|].
  split; [vm_compute; reflexivity|].
  split; [vm_compute; reflexivity|].
  split; [vm_compute; reflexivity|].
  split; [vm_compute; reflexivity|].
  repeat split; vm_compute; reflexivity.
Qed.

(** The same call site, when the new half starts with a larger key.  A full
    leaf holds the keys "1" "2" "3" "4" and receives "2": the key equals
    the maximum of the old half, [memcpy] overwrites the caller's key
    buffer with the minimum of the new half, "3", and the item written to
    the old half carries the key "3". *)
Example equal_key_is_overwritten_by_memcpy (oracle : list bool) :
  ∃ leaf h0 h new_p h' key' old,
    bp_create_data_node (empty_heap (true :: true :: oracle)) 4 2 1 1 None
      = Some (leaf, h0)
    ∧ data_inserts h0 leaf
        [(bytes "1", bytes "a"); (bytes "2", bytes "b");
         (bytes "3", bytes "c"); (bytes "4", bytes "d")] = Some h
    ∧ bp_data_node_insert_data h leaf (bytes "2") (bytes "e")
      = Some (0, new_p, key', h')
    ∧ key' = bytes "3"
    ∧ deref_data h' leaf = Some old
    ∧ Data.key_num old = 3
    ∧ Mem.read (Data.content old) 0 6 = Some (bytes "1a2b3e").
Proof.
  eexists _, _, _, _, _, _, _.
  split; [vm_compute; reflexivity|].
  split; [vm_compute; reflexivity|].
  split; [vm_compute; reflexivity|].
  split; [vm_compute; reflexivity|].
  split; [vm_compute; reflexivity|].
  split; vm_compute; reflexivity.
Qed.

(** * Further properties *)

(** ** The search functions on arrays in any order *)

Section SearchAny.

Variables (content : list byte) (item_size n : Z).
Variables (target : list byte) (target_size offset : Z).
Variable cmp : bp_compare_f.

Hypothesis Hpacked : packed_array content item_size offset target_size n.
Hypothesis Htarget : target_size ≤ Mem.len target.

Local Abbreviation key := (item_key content item_size offset target_size).
Local Abbreviation tkey := (take (Z.to_nat target_size) target).
Local Abbreviation kc := (target_vs_item cmp content item_size offset target
                                         target_size).

Lemma bi_search_loop_sound (fuel : nat) :
  ∀ lo num low high last,
    0 ≤ lo → 0 ≤ num → lo + num ≤ n → (Z.to_nat num ≤ fuel)%nat →
    low = lo * item_size → high = (lo + num - 1) * item_size →
    (num = 0 → ∃ m c, last = Some (m * item_size, c) ∧ 0 ≤ m ≤ n) →
    ∃ found idx,
      bi_search_loop content item_size target target_size offset cmp
                     fuel low high num last = Some (found, idx)
      ∧ ((found = 1 ∧ 0 ≤ idx < n ∧ kc idx = 0)
         ∨ (found = 0 ∧ 0 ≤ idx ≤ n)).
Proof using Hpacked Htarget.
  pose proof (pa_item_size _ _ _ _ _ Hpacked) as Hitem.
  assert (∀ lo m c,
            0 ≤ lo → lo ≤ n → 0 ≤ m ≤ n →
            ∃ found idx,
              (let '(mid, comp_res) := (m * item_size, c) in
               if comp_res <? 0 then Some (0, mid ÷ item_size)
               else Some (0, lo * item_size ÷ item_size))
              = Some (found, idx)
              ∧ ((found = 1 ∧ 0 ≤ idx < n ∧ kc idx = 0)
                 ∨ (found = 0 ∧ 0 ≤ idx ≤ n))) as Hexit.
  { intros lo m c Hlo Hlon Hm. cbn. rewrite !Z.quot_mul by lia.
    destruct (c <? 0); eexists _, _; (split; [reflexivity|]); right; lia. }
  induction fuel as [|fuel IH];
    intros lo num low high last Hlo Hnum Hhi Hfuel -> -> Hlast.
  - assert (num = 0) as -> by lia.
    destruct (Hlast eq_refl) as (m & c & -> & Hm).
    simpl. destruct (Z.leb_spec (lo * item_size) ((lo + 0 - 1) * item_size));
      [nia|].
    apply (Hexit lo m c); auto; lia.
  - cbn [bi_search_loop].
    destruct (Z.leb_spec (lo * item_size) ((lo + num - 1) * item_size))
      as [Hle|Hgt].
    + assert (1 ≤ num) as Hnum1 by nia.
      set (half0 := num ÷ 2).
      set (half := if half0 =? 0 then 1 else half0).
      assert (1 ≤ half ≤ num) as Hhalf.
      { subst half half0. rewrite Z.quot_div_nonneg by lia.
        destruct (Z.eqb_spec (num / 2) 0); Z.div_mod_to_equations; lia. }
      set (m := lo + half - 1).
      replace (lo * item_size + (half - 1) * item_size)
        with (m * item_size) by (subst m; lia).
      rewrite (call_compare_target_item content item_size n target target_size
                 offset cmp Hpacked Htarget) by (subst m; lia).
      cbn [mbind option_bind].
      destruct (Z.eqb_spec 0 (target_vs_item cmp content item_size offset
                                target target_size m)) as [Hz|Hnz].
      * rewrite Z.quot_mul by lia.
        eexists _, _. split; [reflexivity|]. left.
        repeat split; subst m; lia.
      * destruct (0 <? _).
        -- apply (IH (m + 1)); try (subst m; lia).
           intros _. exists m, (kc m). split; [reflexivity|subst m; lia].
        -- apply (IH lo); try (subst m; lia).
           intros _. exists m, (kc m). split; [reflexivity|subst m; lia].
    + assert (num = 0) as -> by nia.
      destruct (Hlast eq_refl) as (m & c & -> & Hm).
      apply (Hexit lo m c); auto; lia.
Qed.

(** the leftward scan stops at the left end of a run of matching items *)
Lemma bi_first_loop_sound (fuel : nat) :
  ∀ idx,
    0 ≤ idx < n → (Z.to_nat idx ≤ fuel)%nat →
    ∃ idx',
      bi_first_loop content item_size target target_size offset cmp fuel idx
      = Some idx'
      ∧ 0 ≤ idx' ≤ idx
      ∧ (∀ i, idx' ≤ i < idx → cmp (key i) tkey target_size = 0)
      ∧ (0 < idx' → cmp (key (idx' - 1)) tkey target_size ≠ 0).
Proof using Hpacked Htarget.
  induction fuel as [|fuel IH]; intros idx Hidx Hfuel.
  - assert (idx = 0) as -> by lia. exists 0. simpl.
    repeat split; intros; lia.
  - cbn [bi_first_loop]. destruct (Z.gtb_spec idx 0) as [Hpos|Hzero].
    + rewrite (call_compare_item_target content item_size n target
                 target_size offset cmp Hpacked Htarget) by lia.
      cbn [mbind option_bind].
      destruct (Z.eqb_spec 0 (cmp (key (idx - 1)) tkey target_size))
        as [Heq|Hne].
      * destruct (IH (idx - 1)) as (idx' & -> & ? & Hrun & Hstop); try lia.
        exists idx'. split; [reflexivity|]. split; [lia|].
        split; [|exact Hstop]. intros i Hi.
        destruct (Z.eq_dec i (idx - 1)) as [->|]; [by symmetry|].
        apply Hrun. lia.
      * exists idx. split; [reflexivity|]. split; [lia|].
        split; [intros; lia|]. intros _ Hz. apply Hne. by symmetry.
    + assert (idx = 0) as -> by lia. exists 0.
      repeat split; intros; lia.
Qed.

(** the rightward scan stops at the right end of a run of matching items *)
Lemma bi_last_loop_sound (fuel : nat) :
  ∀ idx,
    0 ≤ idx < n → (Z.to_nat (n - idx) ≤ S fuel)%nat →
    ∃ idx',
      bi_last_loop content item_size target target_size offset cmp fuel
                   (n * item_size) idx = Some idx'
      ∧ idx ≤ idx' < n
      ∧ (∀ i, idx < i ≤ idx' → cmp (key i) tkey target_size = 0)
      ∧ (idx' + 1 < n → cmp (key (idx' + 1)) tkey target_size ≠ 0).
Proof using Hpacked Htarget.
  pose proof (pa_item_size _ _ _ _ _ Hpacked) as Hitem.
  induction fuel as [|fuel IH]; intros idx Hidx Hfuel.
  - assert (idx = n - 1) as -> by lia. exists (n - 1).
    cbn [bi_last_loop]. rewrite Z.quot_mul by lia.
    destruct (Z.ltb_spec (n - 1) (n - 1)); [lia|].
    repeat split; intros; lia.
  - cbn [bi_last_loop]. rewrite Z.quot_mul by lia.
    destruct (Z.ltb_spec idx (n - 1)) as [Hlt|Hge].
    + rewrite (call_compare_item_target content item_size n target
                 target_size offset cmp Hpacked Htarget) by lia.
      cbn [mbind option_bind].
      destruct (Z.eqb_spec 0 (cmp (key (idx + 1)) tkey target_size))
        as [Heq|Hne].
      * destruct (IH (idx + 1)) as (idx' & Hrun' & ? & Hrun & Hstop);
          try lia.
        rewrite Hrun'. exists idx'. split; [reflexivity|]. split; [lia|].
        split; [|exact Hstop]. intros i Hi.
        destruct (Z.eq_dec i (idx + 1)) as [->|]; [by symmetry|].
        apply Hrun. lia.
      * exists idx. split; [reflexivity|]. split; [lia|].
        split; [intros; lia|]. intros _ Hz. apply Hne. by symmetry.
    + assert (idx = n - 1) as -> by lia. exists (n - 1).
      repeat split; intros; lia.
Qed.

End SearchAny.

(** X1. On a packed array in any order and with any comparator, the three
    searches return a result, with a found flag of 0 or 1 (the same for
    the three) and an index between 0 and [n]; when the flag is 1,
    [bp_bi_search_one] gives an item [idx1 < n] that matches the target,
    [bp_bi_search_first] gives the left end and [bp_bi_search_last] the
    right end of the run of neighbours of [idx1] that compare equal to the
    target; when it is 0 the three indices are the same. *)
Theorem search_results_any_order
    (content : list byte) (item_size n : Z) (target : list byte)
    (target_size offset : Z) (compare : option bp_compare_f) :
  packed_array content item_size offset target_size n →
  target_size ≤ Mem.len target →
  let cmp := compare_or_default compare in
  let key := item_key content item_size offset target_size in
  let tkey := take (Z.to_nat target_size) target in
  ∃ found idx1 idx_first idx_last,
    bp_bi_search_one content (n * item_size) item_size target target_size
                     offset compare = Some (found, idx1)
    ∧ bp_bi_search_first content (n * item_size) item_size target
                         target_size offset compare = Some (found, idx_first)
    ∧ bp_bi_search_last content (n * item_size) item_size target
                        target_size offset compare = Some (found, idx_last)
    ∧ (found = 0 ∨ found = 1)
    ∧ 0 ≤ idx1 ≤ n
    ∧ (found = 0 → idx_first = idx1 ∧ idx_last = idx1)
    ∧ (found = 1 →
       idx1 < n ∧ cmp tkey (key idx1) target_size = 0
       ∧ 0 ≤ idx_first ≤ idx1 ∧ idx1 ≤ idx_last < n
       ∧ (∀ i, idx_first ≤ i ≤ idx_last → i ≠ idx1 →
          cmp (key i) tkey target_size = 0)
       ∧ (0 < idx_first → cmp (key (idx_first - 1)) tkey target_size ≠ 0)
       ∧ (idx_last + 1 < n →
          cmp (key (idx_last + 1)) tkey target_size ≠ 0)).
Proof.
  intros Hpacked Htarget cmp key tkey.
  pose proof (pa_item_size _ _ _ _ _ Hpacked) as Hitem.
  pose proof (pa_count _ _ _ _ _ Hpacked) as Hn.
  assert (∃ found idx1,
            bp_bi_search_one content (n * item_size) item_size target
                             target_size offset compare = Some (found, idx1)
            ∧ ((found = 1 ∧ 0 ≤ idx1 < n
                ∧ cmp tkey (key idx1) target_size = 0)
               ∨ (found = 0 ∧ 0 ≤ idx1 ≤ n)))
    as (found & idx1 & Hone & Hpost).
  { unfold bp_bi_search_one.
    destruct (Z.eqb_spec 0 (n * item_size)) as [Hz|Hnz].
    - exists 0, 0. split; [reflexivity|]. right. lia.
    - destruct (Z.eqb_spec item_size 0); [lia|].
      rewrite Z.quot_mul by lia.
      apply (bi_search_loop_sound content item_size n target target_size
               offset cmp Hpacked Htarget (Z.to_nat n) 0 n); lia. }
  assert (bp_bi_search_one content (n * item_size) item_size target
            target_size offset (Some (compare_or_default compare))
          = Some (found, idx1)) as Hone' by (rewrite <- Hone; reflexivity).
  unfold bp_bi_search_first, bp_bi_search_last. rewrite Hone'.
  cbn [mbind option_bind]. fold cmp.
  destruct Hpost as [(-> & Hidx & Hz)|(-> & Hidx)].
  - destruct (bi_first_loop_sound content item_size n target target_size
                offset cmp Hpacked Htarget (Z.to_nat idx1) idx1)
      as (idf & -> & Hf1 & Hf2 & Hf3); [lia|lia|].
    rewrite Z.quot_mul by lia.
    destruct (bi_last_loop_sound content item_size n target target_size
                offset cmp Hpacked Htarget (Z.to_nat n) idx1)
      as (idl & -> & Hl1 & Hl2 & Hl3); [lia|lia|].
    exists 1, idx1, idf, idl. cbn.
    split; [exact Hone|]. split; [reflexivity|]. split; [reflexivity|].
    split; [by right|]. split; [lia|]. split; [lia|]. intros _.
    split; [lia|]. split; [exact Hz|]. split; [lia|]. split; [lia|].
    split; [|split; assumption].
    intros i Hi Hne. destruct (Z.lt_ge_cases i idx1).
    + apply Hf2. lia.
    + apply Hl2. lia.
  - exists 0, idx1, idx1, idx1. cbn.
    split; [exact Hone|]. split; [reflexivity|]. split; [reflexivity|].
    split; [by left|]. split; [lia|]. split; [auto|]. intros; lia.
Qed.

Lemma search_results_any_order_witness :
  packed_array (bytes "332211") 2 1 1 3
  ∧ 1 ≤ Mem.len (bytes "2")
  ∧ ∃ found idx_first,
      bp_bi_search_first (bytes "332211") (3 * 2) 2 (bytes "2") 1 1 None
      = Some (found, idx_first).
Proof.
  assert (packed_array (bytes "332211") 2 1 1 3) as Hp
    by (split; vm_compute; first [reflexivity|discriminate]).
  assert (1 ≤ Mem.len (bytes "2")) as Ht by (vm_compute; discriminate).
  split; [exact Hp|]. split; [exact Ht|].
  destruct (search_results_any_order (bytes "332211") 2 3 (bytes "2") 1 1
              None Hp Ht) as (found & idx1 & idf & idl & _ & Hfirst & _).
  exists found, idf. exact Hfirst.
Defined.

(** ** The default comparator *)

Lemma byte_to_Z_inj (x y : byte) : Mem.byte_to_Z x = Mem.byte_to_Z y → x = y.
Proof.
  unfold Mem.byte_to_Z. intros H. apply N2Z.inj in H.
  pose proof (Byte.of_to_N x) as Hx. rewrite H, Byte.of_to_N in Hx.
  by injection Hx.
Qed.

Lemma memcmp_bytes_zero (a : list byte) :
  ∀ b, length a = length b → (Mem.memcmp_bytes a b = 0 ↔ a = b).
Proof.
  induction a as [|x a IH]; intros [|y b]; simpl; try done.
  intros [= Hlen].
  destruct (Z.eqb_spec (Mem.byte_to_Z x) (Mem.byte_to_Z y)) as [E|N].
  - apply byte_to_Z_inj in E as ->. rewrite (IH b Hlen).
    split; [by intros ->|by intros [= ->]].
  - split; [lia|]. intros [= -> ->]. done.
Qed.

(** X2. The default comparator meets the comparator contract on keys of
    any size: it is a total preorder, and two keys compare equal exactly
    when they are the same bytes. *)
Theorem bp_compare_contract (size : Z) :
  total_preorder bp_compare size
  ∧ ∀ a b : list byte,
      Mem.len a = size → Mem.len b = size →
      (bp_compare a b size = 0 ↔ a = b).
Proof.
  split; [apply bp_compare_total_preorder|].
  intros a b Ha Hb. unfold bp_compare. rewrite !take_key by assumption.
  apply memcmp_bytes_zero. unfold Mem.len in *. lia.
Qed.

(** ** Buffers, byte by byte *)

Lemma byte_at_read (buf l : list byte) (off n : Z) :
  Mem.read buf off n = Some l →
  ∀ j, 0 ≤ j < n → byte_at l j = byte_at buf (off + j).
Proof.
  intros H j Hj. apply read_inv in H as (Hoff & Hn & Hlen & ->).
  unfold byte_at. destruct (Z.ltb_spec j 0); [lia|].
  destruct (Z.ltb_spec (off + j) 0); [lia|].
  rewrite lookup_take. case_decide; [|lia].
  rewrite lookup_drop. f_equal. lia.
Qed.

Lemma byte_at_ge (buf : list byte) (z : Z) :
  Mem.len buf ≤ z → byte_at buf z = None.
Proof.
  intros H. unfold byte_at, Mem.len in *. destruct (z <? 0); [done|].
  apply lookup_ge_None_2. lia.
Qed.

(** two reads of bytes that agree one by one *)
Lemma read_ext (b1 b2 : list byte) (o1 o2 m : Z) :
  0 ≤ o1 → 0 ≤ o2 → 0 ≤ m →
  o1 + m ≤ Mem.len b1 → o2 + m ≤ Mem.len b2 →
  (∀ j, 0 ≤ j < m → byte_at b1 (o1 + j) = byte_at b2 (o2 + j)) →
  Mem.read b1 o1 m = Mem.read b2 o2 m.
Proof.
  intros H1 H2 Hm Hl1 Hl2 Hb. rewrite !read_Some by lia. f_equal.
  apply list_eq. intros k. rewrite !lookup_take. case_decide; [|done].
  rewrite !lookup_drop. specialize (Hb (Z.of_nat k) ltac:(lia)).
  unfold byte_at in Hb.
  destruct (Z.ltb_spec (o1 + Z.of_nat k) 0); [lia|].
  destruct (Z.ltb_spec (o2 + Z.of_nat k) 0); [lia|].
  rewrite !Z2Nat.inj_add, !Nat2Z.id in Hb by lia. exact Hb.
Qed.

Lemma byte_at_write (buf : list byte) (off : Z) (data buf' : list byte) :
  Mem.write buf off data = Some buf' →
  ∀ z, byte_at buf' z
       = if (off <=? z) && (z <? off + Mem.len data)
         then byte_at data (z - off) else byte_at buf z.
Proof.
  intros H z. apply write_inv in H as (Hoff & Hlen & ->).
  unfold byte_at, Mem.len in *.
  destruct (Z.ltb_spec z 0) as [Hz|Hz].
  { destruct (Z.leb_spec off z); [lia|]. done. }
  destruct (Z.leb_spec off z) as [Ho|Ho]; cbn [andb].
  - destruct (Z.ltb_spec z (off + Z.of_nat (length data))) as [Hd|Hd].
    + destruct (Z.ltb_spec (z - off) 0); [lia|].
      rewrite lookup_app_r by (rewrite length_take; lia).
      rewrite lookup_app_l by (rewrite length_take; lia).
      f_equal. rewrite length_take. lia.
    + rewrite lookup_app_r by (rewrite length_take; lia).
      rewrite lookup_app_r by (rewrite length_take; lia).
      rewrite lookup_drop, length_take. f_equal. lia.
  - rewrite lookup_app_l by (rewrite length_take; lia).
    rewrite lookup_take. case_decide; [done|lia].
Qed.

Lemma byte_at_memcpy (dst : list byte) (doff : Z) (src : list byte)
    (soff n : Z) (dst' : list byte) :
  Mem.memcpy dst doff src soff n = Some dst' →
  ∀ z, byte_at dst' z
       = if (doff <=? z) && (z <? doff + n)
         then byte_at src (soff + (z - doff)) else byte_at dst z.
Proof.
  unfold Mem.memcpy. intros H z.
  destruct (Mem.read src soff n) as [data|] eqn:Er; [|discriminate].
  cbn [mbind option_bind] in H.
  rewrite (byte_at_write _ _ _ _ H). rewrite (read_len _ _ _ _ Er).
  destruct (Z.leb_spec doff z); cbn [andb]; [|done].
  destruct (Z.ltb_spec z (doff + n)); [|done].
  apply (byte_at_read _ _ _ _ Er). lia.
Qed.

(** the loop that opens a slot in a leaf: the bytes from [dst] up to
    [tmp] move up by one item, the rest stays *)
Lemma data_shift_loop_spec (k : nat) :
  ∀ fuel content tmp dst item_size,
    0 < item_size → 0 ≤ dst → tmp = dst + Z.of_nat k * item_size →
    tmp + item_size ≤ Mem.len content → (k ≤ fuel)%nat →
    ∃ content',
      data_shift_loop fuel content tmp dst item_size = Some content'
      ∧ Mem.len content' = Mem.len content
      ∧ ∀ z, byte_at content' z
             = if (dst + item_size <=? z) && (z <? tmp + item_size)
               then byte_at content (z - item_size) else byte_at content z.
Proof.
  induction k as [|k IH];
    intros fuel content tmp dst item_size Hitem Hdst -> Hlen Hfuel.
  - exists content. replace (dst + Z.of_nat 0 * item_size) with dst by lia.
    split.
    { destruct fuel; cbn [data_shift_loop];
        destruct (Z.gtb_spec dst dst); (lia || reflexivity). }
    split; [reflexivity|]. intros z.
    destruct (Z.leb_spec (dst + item_size) z); cbn [andb]; [|done].
    destruct (Z.ltb_spec z (dst + item_size)); [lia|done].
  - destruct fuel as [|fuel]; [lia|]. cbn [data_shift_loop].
    set (tmp := dst + Z.of_nat (S k) * item_size) in *.
    destruct (Z.gtb_spec tmp dst) as [_|]; [|subst tmp; nia].
    destruct (memcpy_Some content tmp content (tmp - item_size) item_size)
      as (c1 & Ec1 & Hc1len & _ & _); try (subst tmp; nia).
    rewrite Ec1. cbn [mbind option_bind].
    destruct (IH fuel c1 (tmp - item_size) dst item_size)
      as (c' & -> & Hc'len & Hc'); try (subst tmp; nia).
    exists c'. split; [reflexivity|]. split; [congruence|]. intros z.
    rewrite Hc'. rewrite !(byte_at_memcpy _ _ _ _ _ _ Ec1).
    replace (tmp - item_size + item_size) with tmp by lia.
    destruct (Z.leb_spec (dst + item_size) z); cbn [andb].
    + destruct (Z.ltb_spec z tmp); cbn [andb].
      * destruct (Z.ltb_spec z (tmp + item_size)); [|lia].
        destruct (Z.leb_spec tmp (z - item_size)); [lia|]. done.
      * destruct (Z.leb_spec tmp z); [|lia]. cbn [andb].
        destruct (Z.ltb_spec z (tmp + item_size)); [|done].
        f_equal. lia.
    + destruct (Z.leb_spec tmp z); [subst tmp; nia|]. done.
Qed.

(** ** Where a new item goes *)

Section InsertionPoint.

Variables (content : list byte) (item_size n : Z).
Variables (target : list byte) (target_size offset : Z).
Variable cmp : bp_compare_f.

Hypothesis Hpacked : packed_array content item_size offset target_size n.
Hypothesis Htarget : target_size ≤ Mem.len target.
Hypothesis Hcmp : total_preorder cmp target_size.
Hypothesis Hsorted : sorted_items cmp content item_size offset target_size n.

Local Abbreviation kc := (target_vs_item cmp content item_size offset target
                                         target_size).

(** [bp_bi_search_last] gives the index behind the last item that is
    not above the target *)
Lemma search_last_insertion_point (compare : option bp_compare_f) :
  compare_or_default compare = cmp →
  ∃ found idx,
    bp_bi_search_last content (n * item_size) item_size target target_size
                      offset compare = Some (found, idx)
    ∧ 0 ≤ insert_index found idx ≤ n
    ∧ (found = 0 ∨ (found = 1 ∧ kc idx = 0))
    ∧ (∀ i, 0 ≤ i < insert_index found idx → 0 ≤ kc i)
    ∧ (∀ i, insert_index found idx ≤ i < n → kc i < 0).
Proof using Hpacked Htarget Hcmp Hsorted.
  intros Hc.
  destruct (bp_bi_search_last_spec content item_size n target target_size
              offset cmp Hpacked Htarget Hcmp Hsorted compare Hc)
    as (found1 & idx1 & found & idx & _ & Hlast & Hpost & -> & H0 & H1).
  exists found1, idx. split; [exact Hlast|]. unfold insert_index.
  destruct Hpost as [(-> & Hidx & Hz)|(-> & Hidx & Hlo & Hhi)].
  - destruct (H1 eq_refl) as (Hr & Hzl & Hright). cbn.
    split; [lia|]. split; [by right|]. split.
    + intros i Hi. destruct (Z.lt_ge_cases (kc i) 0) as [Hneg|]; [|done].
      pose proof (kc_below content item_size n target target_size offset cmp
                    Hpacked Htarget Hcmp Hsorted idx i ltac:(lia) ltac:(lia)
                    ltac:(lia) Hneg). lia.
    + intros i Hi. pose proof (Hright i ltac:(lia)) as Hne.
      destruct (Z.lt_ge_cases 0 (kc i)) as [Hpos|]; [|lia].
      pose proof (kc_above content item_size n target target_size offset cmp
                    Hpacked Htarget Hcmp Hsorted idx i ltac:(lia) ltac:(lia)
                    ltac:(lia) Hpos). lia.
  - rewrite (H0 eq_refl). cbn. split; [lia|]. split; [by left|]. split.
    + intros i Hi. pose proof (Hlo i Hi). lia.
    + exact Hhi.
Qed.

End InsertionPoint.

(** ** Insert in a leaf that has room *)

(** the writes of [bp_data_node_insert_data] in the chosen leaf, byte by
    byte: the item lands at index [ins]; when [ins] is not the end, the
    bytes from there up to and including the first free slot move up by
    one item *)
Lemma leaf_place_item (content key position : list byte)
    (key_size value_size c ins : Z) :
  let item_size := key_size + value_size in
  let dst := ins * item_size in
  let valid_data_len := c * item_size in
  0 ≤ key_size → 0 ≤ value_size → 0 < item_size → 0 ≤ ins ≤ c →
  (c + 1) * item_size ≤ Mem.len content →
  (ins < c → (c + 2) * item_size ≤ Mem.len content) →
  key_size ≤ Mem.len key → value_size ≤ Mem.len position →
  ∃ c1 c2 content',
    (if dst <? valid_data_len
     then data_shift_loop (Z.to_nat c + 2) content
                          (valid_data_len + item_size) dst item_size
     else Some content) = Some c1
    ∧ Mem.memcpy c1 dst key 0 key_size = Some c2
    ∧ Mem.memcpy c2 (dst + key_size) position 0 value_size = Some content'
    ∧ Mem.len content' = Mem.len content
    ∧ ∀ z, byte_at content' z
           = if (dst <=? z) && (z <? dst + key_size)
             then byte_at key (z - dst)
             else if (dst + key_size <=? z) && (z <? dst + item_size)
             then byte_at position (z - dst - key_size)
             else if (ins <? c) && (dst + item_size <=? z)
                     && (z <? (c + 2) * item_size)
             then byte_at content (z - item_size)
             else byte_at content z.
Proof.
  intros item_size dst valid_data_len Hks Hvs Hitem Hins Hroom Hover
    Hkey Hpos.
  assert (0 ≤ dst ∧ dst + item_size ≤ (c + 1) * item_size
          ∧ (ins < c → dst < valid_data_len)
          ∧ (ins = c → dst = valid_data_len)) as (Hd0 & Hd1 & Hd2 & Hd3)
    by (subst dst valid_data_len; nia).
  assert (∃ c1,
            (if dst <? valid_data_len
             then data_shift_loop (Z.to_nat c + 2) content
                                  (valid_data_len + item_size) dst item_size
             else Some content) = Some c1
            ∧ Mem.len c1 = Mem.len content
            ∧ ∀ z, byte_at c1 z
                   = if (ins <? c) && (dst + item_size <=? z)
                        && (z <? (c + 2) * item_size)
                     then byte_at content (z - item_size)
                     else byte_at content z) as (c1 & Ec1 & Hc1len & Hc1).
  { destruct (Z.ltb_spec dst valid_data_len) as [Hlt|Hge].
    - assert (ins < c) as Hic by (subst dst valid_data_len; nia).
      assert (valid_data_len + item_size
              = dst + Z.of_nat (Z.to_nat (c + 1 - ins)) * item_size) as Htmp.
      { subst dst valid_data_len. rewrite Z2Nat.id by lia. lia. }
      assert (valid_data_len + item_size + item_size ≤ Mem.len content)
        as Hend.
      { specialize (Hover Hic). subst valid_data_len. lia. }
      destruct (data_shift_loop_spec (Z.to_nat (c + 1 - ins))
                  (Z.to_nat c + 2) content (valid_data_len + item_size) dst
                  item_size Hitem Hd0 Htmp Hend ltac:(lia))
        as (c1 & -> & Hlen & Hb).
      exists c1. split; [reflexivity|]. split; [exact Hlen|]. intros z.
      rewrite Hb. destruct (Z.ltb_spec ins c); [|lia]. cbn [andb].
      replace (valid_data_len + item_size + item_size)
        with ((c + 2) * item_size) by (subst valid_data_len; lia).
      reflexivity.
    - exists content. split; [reflexivity|]. split; [reflexivity|].
      intros z. destruct (Z.ltb_spec ins c); [|done].
      subst dst valid_data_len. nia. }
  destruct (memcpy_Some c1 dst key 0 key_size)
    as (c2 & Ec2 & Hc2len & _ & _); try lia.
  destruct (memcpy_Some c2 (dst + key_size) position 0 value_size)
    as (c3 & Ec3 & Hc3len & _ & _); try lia.
  exists c1, c2, c3. split; [exact Ec1|]. split; [exact Ec2|].
  split; [exact Ec3|]. split; [congruence|]. intros z.
  rewrite (byte_at_memcpy _ _ _ _ _ _ Ec3), (byte_at_memcpy _ _ _ _ _ _ Ec2),
    Hc1.
  replace (dst + key_size + value_size) with (dst + item_size)
    by (subst item_size; lia).
  destruct (Z.leb_spec dst z); destruct (Z.ltb_spec z (dst + key_size));
    destruct (Z.leb_spec (dst + key_size) z);
    destruct (Z.ltb_spec z (dst + item_size)); cbn [andb];
    try lia; try reflexivity; f_equal; lia.
Qed.

(** what the bytes of the new content say about the items *)
Lemma leaf_items_after (content content' key position : list byte)
    (key_size value_size c ins : Z) :
  let item_size := key_size + value_size in
  let dst := ins * item_size in
  0 ≤ key_size → 0 ≤ value_size → 0 < item_size → 0 ≤ ins ≤ c →
  (c + 1) * item_size ≤ Mem.len content →
  (ins < c → (c + 2) * item_size ≤ Mem.len content) →
  key_size ≤ Mem.len key → value_size ≤ Mem.len position →
  Mem.len content' = Mem.len content →
  (∀ z, byte_at content' z
        = if (dst <=? z) && (z <? dst + key_size)
          then byte_at key (z - dst)
          else if (dst + key_size <=? z) && (z <? dst + item_size)
          then byte_at position (z - dst - key_size)
          else if (ins <? c) && (dst + item_size <=? z)
                  && (z <? (c + 2) * item_size)
          then byte_at content (z - item_size)
          else byte_at content z) →
  (∀ i, 0 ≤ i < ins →
     Mem.read content' (i * item_size) item_size
     = Mem.read content (i * item_size) item_size)
  ∧ Mem.read content' dst key_size = Mem.read key 0 key_size
  ∧ Mem.read content' (dst + key_size) value_size
    = Mem.read position 0 value_size
  ∧ (∀ i, ins ≤ i < c →
     Mem.read content' ((i + 1) * item_size) item_size
     = Mem.read content (i * item_size) item_size)
  ∧ (ins < c →
     Mem.read content' ((c + 1) * item_size) item_size
     = Mem.read content (c * item_size) item_size)
  ∧ (∀ o m, 0 ≤ o → 0 ≤ m → o + m ≤ Mem.len content →
     (c + 2) * item_size ≤ o ∨ (ins = c ∧ (c + 1) * item_size ≤ o) →
     Mem.read content' o m = Mem.read content o m).
Proof.
  intros item_size dst Hks Hvs Hitem Hins Hroom Hover Hkey Hpos Hlen Hb.
  assert (0 ≤ dst ∧ dst + item_size ≤ (c + 1) * item_size
          ∧ (ins = c → dst + item_size = (c + 1) * item_size))
    as (Hd0 & Hd1 & Hd2) by (subst dst; nia).
  assert (key_size + value_size = item_size) as Hkv by reflexivity.
  split; [|split; [|split; [|split; [|split] ] ] ].
  - intros i Hi.
    assert (0 ≤ i * item_size ∧ i * item_size + item_size ≤ dst) as [? ?]
      by (subst dst; nia).
    apply read_ext; try lia. intros j Hj. rewrite Hb.
    destruct (Z.leb_spec dst (i * item_size + j)); [lia|]. cbn [andb].
    destruct (Z.leb_spec (dst + key_size) (i * item_size + j)); [lia|].
    cbn [andb].
    destruct (Z.leb_spec (dst + item_size) (i * item_size + j)); [lia|].
    by rewrite andb_false_r.
  - apply read_ext; try lia. intros j Hj. rewrite Hb.
    destruct (Z.leb_spec dst (dst + j)); [|lia].
    destruct (Z.ltb_spec (dst + j) (dst + key_size)); [|lia]. cbn [andb].
    f_equal. lia.
  - apply read_ext; try lia. intros j Hj. rewrite Hb.
    destruct (Z.ltb_spec (dst + key_size + j) (dst + key_size)); [lia|].
    rewrite andb_false_r.
    destruct (Z.leb_spec (dst + key_size) (dst + key_size + j)); [|lia].
    destruct (Z.ltb_spec (dst + key_size + j) (dst + item_size)); [|lia].
    cbn [andb]. f_equal. lia.
  - intros i Hi. specialize (Hover ltac:(lia)).
    assert (dst + item_size ≤ (i + 1) * item_size
            ∧ (i + 1) * item_size + item_size ≤ (c + 1) * item_size
            ∧ 0 ≤ i * item_size) as (? & ? & ?) by (subst dst; nia).
    apply read_ext; try lia. intros j Hj. rewrite Hb.
    destruct (Z.ltb_spec ((i + 1) * item_size + j) (dst + key_size)); [lia|].
    rewrite andb_false_r.
    destruct (Z.ltb_spec ((i + 1) * item_size + j) (dst + item_size)); [lia|].
    rewrite andb_false_r.
    destruct (Z.ltb_spec ins c); [|lia].
    destruct (Z.leb_spec (dst + item_size) ((i + 1) * item_size + j)); [|lia].
    destruct (Z.ltb_spec ((i + 1) * item_size + j) ((c + 2) * item_size));
      [|lia].
    cbn [andb]. f_equal. lia.
  - intros Hic. specialize (Hover Hic).
    assert (0 ≤ c * item_size) by nia.
    apply read_ext; try lia. intros j Hj. rewrite Hb.
    destruct (Z.ltb_spec ((c + 1) * item_size + j) (dst + key_size)); [lia|].
    rewrite andb_false_r.
    destruct (Z.ltb_spec ((c + 1) * item_size + j) (dst + item_size)); [lia|].
    rewrite andb_false_r.
    destruct (Z.ltb_spec ins c); [|lia].
    destruct (Z.leb_spec (dst + item_size) ((c + 1) * item_size + j)); [|lia].
    destruct (Z.ltb_spec ((c + 1) * item_size + j) ((c + 2) * item_size));
      [|lia].
    cbn [andb]. f_equal. lia.
  - intros o m Ho Hm Hom Hfar.
    apply read_ext; try lia. intros j Hj. rewrite Hb.
    destruct (Z.ltb_spec (o + j) (dst + key_size)); [lia|].
    rewrite andb_false_r.
    destruct (Z.ltb_spec (o + j) (dst + item_size)); [lia|].
    rewrite andb_false_r.
    destruct (Z.ltb_spec ins c).
    + destruct (Z.ltb_spec (o + j) ((c + 2) * item_size)); [lia|].
      by rewrite andb_false_r.
    + done.
Qed.

Lemma cmp_refl_zero (cmp : bp_compare_f) (size : Z) (a : list byte) :
  total_preorder cmp size → Mem.len a = size → cmp a a size = 0.
Proof.
  intros Hcmp Ha. pose proof (cmp_antisym _ _ Hcmp a a Ha Ha). lia.
Qed.

(** the keys of the items after the insert, in terms of the keys before *)
Lemma leaf_keys_after (content content' key : list byte)
    (key_size value_size c ins : Z) :
  let item_size := key_size + value_size in
  0 ≤ key_size → 0 ≤ value_size → 0 ≤ ins ≤ c →
  (c + 1) * item_size ≤ Mem.len content →
  key_size ≤ Mem.len key →
  Mem.len content' = Mem.len content →
  (∀ i, 0 ≤ i < ins →
     Mem.read content' (i * item_size) item_size
     = Mem.read content (i * item_size) item_size) →
  Mem.read content' (ins * item_size) key_size = Mem.read key 0 key_size →
  (∀ i, ins ≤ i < c →
     Mem.read content' ((i + 1) * item_size) item_size
     = Mem.read content (i * item_size) item_size) →
  ∀ i, 0 ≤ i < c + 1 →
    item_key content' item_size 0 key_size i
    = if i <? ins then item_key content item_size 0 key_size i
      else if i =? ins then take (Z.to_nat key_size) key
      else item_key content item_size 0 key_size (i - 1).
Proof.
  intros item_size Hks Hvs Hins Hroom Hkey Hlen Ha Hb Hc i Hi.
  assert (0 ≤ item_size - key_size) by (subst item_size; lia).
  destruct (Z.ltb_spec i ins) as [Hlt|Hge].
  - apply item_key_agree; try lia; try nia. apply Ha. lia.
  - destruct (Z.eqb_spec i ins) as [->|Hne].
    + assert (Some (item_key content' item_size 0 key_size ins)
              = Some (take (Z.to_nat key_size) key)) as [= ->]; [|done].
      rewrite <- (item_key_read content' item_size 0 key_size ins) by nia.
      replace (ins * item_size + 0) with (ins * item_size) by lia.
      rewrite Hb. by rewrite read_Some by lia.
    + apply item_key_agree; try lia; try nia.
      replace (i * item_size) with ((i - 1 + 1) * item_size) at 1 by lia.
      apply Hc. lia.
Qed.

Lemma leaf_sorted_after (cmp : bp_compare_f)
    (content content' key : list byte) (key_size value_size c ins : Z) :
  let item_size := key_size + value_size in
  let kc := target_vs_item cmp content item_size 0 key key_size in
  total_preorder cmp key_size →
  sorted_items cmp content item_size 0 key_size c →
  0 ≤ key_size → 0 ≤ value_size → 0 ≤ ins ≤ c →
  (c + 1) * item_size ≤ Mem.len content →
  key_size ≤ Mem.len key →
  (∀ i, 0 ≤ i < ins → 0 ≤ kc i) →
  (∀ i, ins ≤ i < c → kc i < 0) →
  (∀ i, 0 ≤ i < c + 1 →
     item_key content' item_size 0 key_size i
     = if i <? ins then item_key content item_size 0 key_size i
       else if i =? ins then take (Z.to_nat key_size) key
       else item_key content item_size 0 key_size (i - 1)) →
  sorted_items cmp content' item_size 0 key_size (c + 1).
Proof.
  intros item_size kc Hcmp Hsorted Hks Hvs Hins Hroom Hkey Hlo Hhi Hkeys.
  assert (Mem.len (take (Z.to_nat key_size) key) = key_size) as Htk.
  { unfold Mem.len in *. rewrite length_take. lia. }
  assert (∀ i, 0 ≤ i < c →
            Mem.len (item_key content item_size 0 key_size i) = key_size)
    as Hkl.
  { intros i Hi. apply len_take_drop; try lia; nia. }
  intros i j Hi Hij Hj. rewrite !Hkeys by lia.
  destruct (Z.ltb_spec i ins); destruct (Z.ltb_spec j ins); try lia.
  - apply Hsorted; lia.
  - destruct (Z.eqb_spec j ins) as [->|].
    + specialize (Hlo i ltac:(lia)). unfold kc, target_vs_item in Hlo.
      pose proof (cmp_antisym _ _ Hcmp _ _ Htk (Hkl i ltac:(lia))). lia.
    + apply Hsorted; lia.
  - destruct (Z.eqb_spec i ins) as [->|]; destruct (Z.eqb_spec j ins) as [->|];
      try lia.
    + rewrite (cmp_refl_zero cmp key_size _ Hcmp Htk). lia.
    + specialize (Hhi (j - 1) ltac:(lia)). unfold kc, target_vs_item in Hhi.
      lia.
    + apply Hsorted; lia.
Qed.

(** the part of [bp_data_node_insert_data] that follows the choice of the
    leaf: search, shift, write, count *)
Lemma leaf_insert_tail (h : heap) (data_p : Z) (d : Data.t)
    (key position : list byte) (pp_new : Z) :
  let c := Data.key_num d in
  let item_size := Data.key_size d + Data.value_size d in
  let cmp := compare_or_default (Common.compare (Data.common d)) in
  let kc := target_vs_item cmp (Data.content d) item_size 0 key
                           (Data.key_size d) in
  deref_data h data_p = Some d →
  0 ≤ Data.key_size d → 0 ≤ Data.value_size d → 0 < item_size → 0 ≤ c →
  (c + 1) * item_size ≤ Mem.len (Data.content d) →
  Data.key_size d ≤ Mem.len key → Data.value_size d ≤ Mem.len position →
  total_preorder cmp (Data.key_size d) →
  sorted_items cmp (Data.content d) item_size 0 (Data.key_size d) c →
  ((c + 2) * item_size ≤ Mem.len (Data.content d)
   ∨ ∀ i, 0 ≤ i < c → 0 ≤ kc i) →
  ∃ ins content',
    (data ← deref_data h data_p;
     let item_size := Data.key_size data + Data.value_size data in
     let valid_data_len := Data.key_num data * item_size in
     '(found, found_idx) ←
       bp_bi_search_last (Data.content data) valid_data_len item_size key
                         (Data.key_size data) 0
                         (Common.compare (Data.common data));
     let dst := found_idx * item_size in
     let dst := if found =? 0 then dst else dst + item_size in
     content ←
       (if dst <? valid_data_len
        then data_shift_loop (Z.to_nat (Data.key_num data) + 2)
                             (Data.content data)
                             (valid_data_len + item_size) dst item_size
        else Some (Data.content data));
     content ← Mem.memcpy content dst key 0 (Data.key_size data);
     content ← Mem.memcpy content (dst + Data.key_size data) position 0
                          (Data.value_size data);
     let data := Data.set_content data content in
     let data := Data.set_key_num data (Data.key_num data + 1) in
     Some (0, pp_new, key, store h data_p (DATA data)))
    = Some (0, pp_new, key,
            store h data_p
                  (DATA (Data.set_key_num (Data.set_content d content')
                                          (c + 1))))
    ∧ 0 ≤ ins ≤ c
    ∧ (∀ i, 0 ≤ i < ins → 0 ≤ kc i)
    ∧ (∀ i, ins ≤ i < c → kc i < 0)
    ∧ Mem.len content' = Mem.len (Data.content d)
    ∧ ∀ z, byte_at content' z
           = if (ins * item_size <=? z)
                && (z <? ins * item_size + Data.key_size d)
             then byte_at key (z - ins * item_size)
             else if (ins * item_size + Data.key_size d <=? z)
                     && (z <? ins * item_size + item_size)
             then byte_at position (z - ins * item_size - Data.key_size d)
             else if (ins <? c) && (ins * item_size + item_size <=? z)
                     && (z <? (c + 2) * item_size)
             then byte_at (Data.content d) (z - item_size)
             else byte_at (Data.content d) z.
Proof.
  intros c item_size cmp kc Hd Hks Hvs Hitem Hc Hroom Hkey Hpos Hcmp Hsorted
    Hover.
  assert (packed_array (Data.content d) item_size 0 (Data.key_size d) c)
    as Hpacked by (split; subst item_size; nia).
  destruct (search_last_insertion_point (Data.content d) item_size c key
              (Data.key_size d) 0 cmp Hpacked Hkey Hcmp Hsorted
              (Common.compare (Data.common d)) eq_refl)
    as (found & idx & Hsearch & Hins & _ & Hlo & Hhi).
  set (ins := insert_index found idx) in *.
  assert (ins < c → (c + 2) * item_size ≤ Mem.len (Data.content d)) as Hov.
  { intros Hic. destruct Hover as [|Hall]; [assumption|].
    pose proof (Hhi (c - 1) ltac:(lia)). pose proof (Hall (c - 1) ltac:(lia)).
    fold kc in H. lia. }
  destruct (leaf_place_item (Data.content d) key position (Data.key_size d)
              (Data.value_size d) c ins Hks Hvs Hitem Hins Hroom Hov Hkey
              Hpos) as (c1 & c2 & content' & E1 & E2 & E3 & Hlen & Hb).
  exists ins, content'. rewrite Hd. cbn [mbind option_bind]. cbn zeta.
  fold c item_size. rewrite Hsearch. cbn [mbind option_bind].
  replace (if found =? 0 then idx * item_size else idx * item_size + item_size)
    with (ins * item_size)
    by (subst ins; unfold insert_index; destruct (found =? 0); lia).
  fold item_size in E1, E2, E3. rewrite E1. cbn [mbind option_bind].
  rewrite E2. cbn [mbind option_bind]. rewrite E3. cbn [mbind option_bind].
  split; [reflexivity|]. split; [exact Hins|]. split; [exact Hlo|].
  split; [exact Hhi|]. split; [exact Hlen|]. exact Hb.
Qed.

Lemma data_insert_no_split (h : heap) (node : Z) (d : Data.t)
    (key position : list byte) :
  deref_data h node = Some d →
  bp_data_node_need_split d = false →
  bp_data_node_insert_data h node key position
  = (data ← deref_data h node;
     let item_size := Data.key_size data + Data.value_size data in
     let valid_data_len := Data.key_num data * item_size in
     '(found, found_idx) ←
       bp_bi_search_last (Data.content data) valid_data_len item_size key
                         (Data.key_size data) 0
                         (Common.compare (Data.common data));
     let dst := found_idx * item_size in
     let dst := if found =? 0 then dst else dst + item_size in
     content ←
       (if dst <? valid_data_len
        then data_shift_loop (Z.to_nat (Data.key_num data) + 2)
                             (Data.content data)
                             (valid_data_len + item_size) dst item_size
        else Some (Data.content data));
     content ← Mem.memcpy content dst key 0 (Data.key_size data);
     content ← Mem.memcpy content (dst + Data.key_size data) position 0
                          (Data.value_size data);
     let data := Data.set_content data content in
     let data := Data.set_key_num data (Data.key_num data + 1) in
     Some (0, NULL, key, store h node (DATA data))).
Proof.
  intros Hd Hfull. unfold bp_data_node_insert_data.
  rewrite Hd at 1. cbn [mbind option_bind]. rewrite Hfull.
  cbn [mbind option_bind andb]. change (NULL =? NULL) with true.
  cbn [mbind option_bind]. reflexivity.
Qed.

(** what the tail of [bp_data_node_insert_data] does to the leaf it has
    chosen *)
Lemma leaf_insert_tail_spec
    (h : heap) (node : Z) (d : Data.t) (key position : list byte)
    (pp_new : Z) :
  let c := Data.key_num d in
  let item_size := Data.key_size d + Data.value_size d in
  let cmp := compare_or_default (Common.compare (Data.common d)) in
  let kc := target_vs_item cmp (Data.content d) item_size 0 key
                           (Data.key_size d) in
  deref_data h node = Some d →
  data_wf d →
  c < Common.max_key_num (Data.common d) →
  0 < item_size →
  Data.key_size d ≤ Mem.len key → Data.value_size d ≤ Mem.len position →
  total_preorder cmp (Data.key_size d) →
  sorted_items cmp (Data.content d) item_size 0 (Data.key_size d) c →
  ((c + 2) * item_size ≤ Data.content_len d ∨ ∀ i, 0 ≤ i < c → 0 ≤ kc i) →
  ∃ ins d',
    (data ← deref_data h node;
     let item_size := Data.key_size data + Data.value_size data in
     let valid_data_len := Data.key_num data * item_size in
     '(found, found_idx) ←
       bp_bi_search_last (Data.content data) valid_data_len item_size key
                         (Data.key_size data) 0
                         (Common.compare (Data.common data));
     let dst := found_idx * item_size in
     let dst := if found =? 0 then dst else dst + item_size in
     content ←
       (if dst <? valid_data_len
        then data_shift_loop (Z.to_nat (Data.key_num data) + 2)
                             (Data.content data)
                             (valid_data_len + item_size) dst item_size
        else Some (Data.content data));
     content ← Mem.memcpy content dst key 0 (Data.key_size data);
     content ← Mem.memcpy content (dst + Data.key_size data) position 0
                          (Data.value_size data);
     let data := Data.set_content data content in
     let data := Data.set_key_num data (Data.key_num data + 1) in
     Some (0, pp_new, key, store h node (DATA data)))
    = Some (0, pp_new, key, store h node (DATA d'))
    ∧ 0 ≤ ins ≤ c
    ∧ (∀ i, 0 ≤ i < ins → 0 ≤ kc i)
    ∧ (∀ i, ins ≤ i < c → kc i < 0)
    ∧ Data.key_num d' = c + 1
    ∧ Data.set_content (Data.set_key_num d' c) (Data.content d) = d
    ∧ data_wf d'
    ∧ (∀ i, 0 ≤ i < ins →
       Mem.read (Data.content d') (i * item_size) item_size
       = Mem.read (Data.content d) (i * item_size) item_size)
    ∧ Mem.read (Data.content d') (ins * item_size) (Data.key_size d)
      = Some (take (Z.to_nat (Data.key_size d)) key)
    ∧ Mem.read (Data.content d') (ins * item_size + Data.key_size d)
               (Data.value_size d)
      = Some (take (Z.to_nat (Data.value_size d)) position)
    ∧ (∀ i, ins ≤ i < c →
       Mem.read (Data.content d') ((i + 1) * item_size) item_size
       = Mem.read (Data.content d) (i * item_size) item_size)
    ∧ sorted_items cmp (Data.content d') item_size 0 (Data.key_size d)
                   (c + 1).
Proof.
  intros c item_size cmp kc Hd Hwf Hfull Hitem Hkey Hpos Hcmp Hsorted Hover.
  destruct Hwf as [Hks Hvs Hc Hcl Hint Hlen].
  fold c item_size in Hc, Hcl.
  assert ((c + 1) * item_size ≤ Mem.len (Data.content d)) as Hroom.
  { rewrite Hlen, Hcl. unfold Mem.sizeof_ptr. nia. }
  rewrite <- Hlen in Hover.
  destruct (leaf_insert_tail h node d key position pp_new Hd Hks Hvs Hitem
              ltac:(lia) Hroom Hkey Hpos Hcmp Hsorted Hover)
    as (ins & content' & Hrun & Hins & Hlo & Hhi & Hlen' & Hb).
  fold c item_size cmp in Hrun, Hb, Hlo, Hhi. fold kc in Hlo, Hhi.
  assert (ins < c → (c + 2) * item_size ≤ Mem.len (Data.content d)) as Hov.
  { intros Hic. destruct Hover as [|Hall]; [assumption|].
    pose proof (Hhi (c - 1) ltac:(lia)). pose proof (Hall (c - 1) ltac:(lia)).
    lia. }
  destruct (leaf_items_after (Data.content d) content' key position
              (Data.key_size d) (Data.value_size d) c ins Hks Hvs Hitem Hins
              Hroom Hov Hkey Hpos Hlen' Hb)
    as (Ha & Hk & Hv & Hm & _ & _).
  fold item_size in Ha, Hk, Hv, Hm.
  exists ins, (Data.set_key_num (Data.set_content d content') (c + 1)).
  split; [exact Hrun|].
  split; [exact Hins|]. split; [exact Hlo|]. split; [exact Hhi|].
  split; [reflexivity|].
  split; [subst c; by destruct d as [[] ]|].
  split.
  { split; cbn; first [assumption|lia|by rewrite Hlen']. }
  cbn [Data.content Data.set_key_num Data.set_content].
  split; [exact Ha|].
  split; [rewrite Hk; by rewrite read_Some by lia|].
  split; [rewrite Hv; by rewrite read_Some by lia|].
  split; [exact Hm|].
  apply (leaf_sorted_after cmp (Data.content d) content' key
           (Data.key_size d) (Data.value_size d) c ins); try assumption.
  apply (leaf_keys_after (Data.content d) content' key (Data.key_size d)
           (Data.value_size d) c ins); assumption.
Qed.

(** X3. Insert in a well-formed, sorted leaf that is not full (and has
    room for the one-slot overshoot of the shift loop, or takes the key at
    its end): the call returns 0 with no sibling and leaves the caller's
    key alone; only the count, now one more, and the content of this leaf
    change; the item is written at the index [ins] behind every key that
    is not above the new key and before every key that is above it (so
    behind its duplicates); the items before [ins] stay, the items from
    [ins] on move up by one slot; the leaf is well formed and sorted
    again. *)
Theorem leaf_insert_in_order
    (h : heap) (node : Z) (d : Data.t) (key position : list byte) :
  let c := Data.key_num d in
  let item_size := Data.key_size d + Data.value_size d in
  let cmp := compare_or_default (Common.compare (Data.common d)) in
  let kc := target_vs_item cmp (Data.content d) item_size 0 key
                           (Data.key_size d) in
  deref_data h node = Some d →
  data_wf d →
  c < Common.max_key_num (Data.common d) →
  0 < item_size →
  Data.key_size d ≤ Mem.len key → Data.value_size d ≤ Mem.len position →
  total_preorder cmp (Data.key_size d) →
  sorted_items cmp (Data.content d) item_size 0 (Data.key_size d) c →
  ((c + 2) * item_size ≤ Data.content_len d ∨ ∀ i, 0 ≤ i < c → 0 ≤ kc i) →
  ∃ ins d',
    bp_data_node_insert_data h node key position
    = Some (0, NULL, key, store h node (DATA d'))
    ∧ 0 ≤ ins ≤ c
    ∧ (∀ i, 0 ≤ i < ins → 0 ≤ kc i)
    ∧ (∀ i, ins ≤ i < c → kc i < 0)
    ∧ Data.key_num d' = c + 1
    ∧ Data.set_content (Data.set_key_num d' c) (Data.content d) = d
    ∧ data_wf d'
    ∧ (∀ i, 0 ≤ i < ins →
       Mem.read (Data.content d') (i * item_size) item_size
       = Mem.read (Data.content d) (i * item_size) item_size)
    ∧ Mem.read (Data.content d') (ins * item_size) (Data.key_size d)
      = Some (take (Z.to_nat (Data.key_size d)) key)
    ∧ Mem.read (Data.content d') (ins * item_size + Data.key_size d)
               (Data.value_size d)
      = Some (take (Z.to_nat (Data.value_size d)) position)
    ∧ (∀ i, ins ≤ i < c →
       Mem.read (Data.content d') ((i + 1) * item_size) item_size
       = Mem.read (Data.content d) (i * item_size) item_size)
    ∧ sorted_items cmp (Data.content d') item_size 0 (Data.key_size d)
                   (c + 1).
Proof.
  intros c item_size cmp kc Hd Hwf Hfull Hitem Hkey Hpos Hcmp Hsorted Hover.
  rewrite (data_insert_no_split h node d key position Hd).
  - exact (leaf_insert_tail_spec h node d key position NULL Hd Hwf Hfull
             Hitem Hkey Hpos Hcmp Hsorted Hover).
  - unfold bp_data_node_need_split. fold c.
    destruct (Z.geb_spec c (Common.max_key_num (Data.common d))); [lia|done].
Qed.

(** X4. Insert in a leaf as in X3, and the link to the next leaf.  The
    shift loop starts one slot above the first free slot, so when the key
    goes before the last item the bytes of the first free slot are copied
    one slot up.  With two free slots, or a key that goes to the end, the
    link is as before.  With one free slot and a key that goes before the
    end, the first [item_size] bytes of the link now hold what the free
    slot held. *)
Theorem leaf_insert_next_link
    (h : heap) (node : Z) (d : Data.t) (key position : list byte) :
  let c := Data.key_num d in
  let item_size := Data.key_size d + Data.value_size d in
  let cmp := compare_or_default (Common.compare (Data.common d)) in
  let kc := target_vs_item cmp (Data.content d) item_size 0 key
                           (Data.key_size d) in
  let link := bp_data_node_get_pnext_save_position d in
  deref_data h node = Some d →
  data_wf d →
  c < Common.max_key_num (Data.common d) →
  0 < item_size →
  Data.key_size d ≤ Mem.len key → Data.value_size d ≤ Mem.len position →
  total_preorder cmp (Data.key_size d) →
  sorted_items cmp (Data.content d) item_size 0 (Data.key_size d) c →
  ((c + 2) * item_size ≤ Data.content_len d ∨ ∀ i, 0 ≤ i < c → 0 ≤ kc i) →
  ∃ d',
    bp_data_node_insert_data h node key position
    = Some (0, NULL, key, store h node (DATA d'))
    ∧ ((c + 2 ≤ Common.max_key_num (Data.common d)
        ∨ ∀ i, 0 ≤ i < c → 0 ≤ kc i) →
       bp_data_node_get_pnext d' = bp_data_node_get_pnext d)
    ∧ (c + 1 = Common.max_key_num (Data.common d) →
       (∃ i, 0 ≤ i < c ∧ kc i < 0) →
       item_size ≤ Mem.sizeof_ptr
       ∧ Mem.read (Data.content d') link item_size
         = Mem.read (Data.content d) (link - item_size) item_size
       ∧ Mem.read (Data.content d') (link + item_size)
                  (Mem.sizeof_ptr - item_size)
         = Mem.read (Data.content d) (link + item_size)
                    (Mem.sizeof_ptr - item_size)).
Proof.
  intros c item_size cmp kc link Hd Hwf Hfull Hitem Hkey Hpos Hcmp Hsorted
    Hover.
  destruct Hwf as [Hks Hvs Hc Hcl Hint Hlen].
  fold c item_size in Hc, Hcl.
  assert (link = Common.max_key_num (Data.common d) * item_size) as Hlink.
  { subst link. unfold bp_data_node_get_pnext_save_position. lia. }
  assert (Mem.sizeof_ptr = 8) as Hptr by reflexivity.
  assert ((c + 1) * item_size ≤ Mem.len (Data.content d)) as Hroom.
  { rewrite Hlen, Hcl. nia. }
  assert (0 ≤ link ∧ link + Mem.sizeof_ptr = Mem.len (Data.content d))
    as [Hlink0 Hlink8] by (rewrite Hlen, Hcl, Hlink; nia).
  rewrite <- Hlen in Hover.
  destruct (leaf_insert_tail h node d key position NULL Hd Hks Hvs Hitem
              ltac:(lia) Hroom Hkey Hpos Hcmp Hsorted Hover)
    as (ins & content' & Hrun & Hins & Hlo & Hhi & Hlen' & Hb).
  fold c item_size cmp in Hrun, Hb, Hlo, Hhi. fold kc in Hlo, Hhi.
  assert (ins < c → (c + 2) * item_size ≤ Mem.len (Data.content d)) as Hov.
  { intros Hic. destruct Hover as [|Hall]; [assumption|].
    pose proof (Hhi (c - 1) ltac:(lia)). pose proof (Hall (c - 1) ltac:(lia)).
    lia. }
  destruct (leaf_items_after (Data.content d) content' key position
              (Data.key_size d) (Data.value_size d) c ins Hks Hvs Hitem Hins
              Hroom Hov Hkey Hpos Hlen' Hb)
    as (_ & _ & _ & _ & Hcopy & Hfar).
  fold item_size in Hcopy, Hfar.
  exists (Data.set_key_num (Data.set_content d content') (c + 1)).
  split.
  { rewrite (data_insert_no_split h node d key position Hd).
    - exact Hrun.
    - unfold bp_data_node_need_split. fold c.
      destruct (Z.geb_spec c (Common.max_key_num (Data.common d))); [lia|done].
  }
  unfold bp_data_node_get_pnext, bp_data_node_get_pnext_save_position,
    Mem.load_ptr.
  cbn [Data.content Data.content_len Data.set_key_num Data.set_content].
  fold (bp_data_node_get_pnext_save_position d). fold link.
  split.
  - intros Hfree. rewrite Hfar; [reflexivity|lia|lia|lia|].
    destruct Hfree as [Hfree|Hall].
    + left. rewrite Hlink. nia.
    + right. split; [|rewrite Hlink; nia].
      destruct (Z.eq_dec ins c) as [|Hne]; [assumption|].
      pose proof (Hhi (c - 1) ltac:(lia)).
      pose proof (Hall (c - 1) ltac:(lia)). lia.
  - intros Hone (i & Hi & Hbelow).
    assert (ins < c) as Hic.
    { destruct (Z.lt_ge_cases i ins) as [Hlt|]; [|lia].
      pose proof (Hlo i ltac:(lia)). lia. }
    specialize (Hov Hic). specialize (Hcopy Hic).
    assert (item_size ≤ Mem.sizeof_ptr) as Hsmall by (rewrite Hlen, Hcl in Hov; nia).
    split; [exact Hsmall|].
    replace link with ((c + 1) * item_size) at 1 by (rewrite Hlink; nia).
    replace (link - item_size) with (c * item_size) by (rewrite Hlink; nia).
    split; [exact Hcopy|].
    apply Hfar; [lia|lia|lia|]. left. rewrite Hlink. nia.
Qed.

Lemma memcpy_out_of_bounds (dst : list byte) (doff : Z) (src : list byte)
    (soff n : Z) :
  0 ≤ n → Mem.len dst < doff + n → Mem.memcpy dst doff src soff n = None.
Proof.
  intros Hn Hout. unfold Mem.memcpy.
  destruct (Mem.read src soff n) as [data|] eqn:Er; [|reflexivity].
  cbn [mbind option_bind]. apply read_len in Er. unfold Mem.write.
  destruct (Z.leb_spec 0 doff); [|reflexivity].
  destruct (Z.leb_spec (doff + Mem.len data) (Mem.len dst)); [lia|reflexivity].
Qed.

(** X5. The same overshoot with items of more than 12 bytes.  In a
    well-formed sorted leaf with exactly one free slot, an insert of a key
    that goes before the last item copies the free slot to
    [content + (max_key_num + 1) * item_size], beyond the [content_len]
    bytes of content and the 4 bytes of padding that follow them in the
    block: the write leaves the block of the node, and the call has no
    defined result. *)
Theorem leaf_insert_overshoot_leaves_block
    (h : heap) (node : Z) (d : Data.t) (key position : list byte) :
  let c := Data.key_num d in
  let item_size := Data.key_size d + Data.value_size d in
  let cmp := compare_or_default (Common.compare (Data.common d)) in
  let kc := target_vs_item cmp (Data.content d) item_size 0 key
                           (Data.key_size d) in
  deref_data h node = Some d →
  data_wf d →
  c + 1 = Common.max_key_num (Data.common d) →
  Mem.sizeof_ptr + (sizeof_node - 60) < item_size →
  Data.key_size d ≤ Mem.len key →
  total_preorder cmp (Data.key_size d) →
  sorted_items cmp (Data.content d) item_size 0 (Data.key_size d) c →
  (∃ i, 0 ≤ i < c ∧ kc i < 0) →
  bp_data_node_insert_data h node key position = None.
Proof.
  intros c item_size cmp kc Hd Hwf Hone Hbig Hkey Hcmp Hsorted
    (i & Hi & Hbelow).
  destruct Hwf as [Hks Hvs Hc Hcl Hint Hlen].
  fold c item_size in Hc, Hcl.
  assert (Mem.sizeof_ptr = 8 ∧ sizeof_node = 64) as [Hptr Hnode] by done.
  assert (packed_array (Data.content d) item_size 0 (Data.key_size d) c)
    as Hpacked by (split; subst item_size; nia).
  destruct (search_last_insertion_point (Data.content d) item_size c key
              (Data.key_size d) 0 cmp Hpacked Hkey Hcmp Hsorted
              (Common.compare (Data.common d)) eq_refl)
    as (found & idx & Hsearch & Hins & _ & Hlo & Hhi).
  set (ins := insert_index found idx) in *.
  assert (ins < c) as Hic.
  { destruct (Z.lt_ge_cases i ins) as [Hlt|]; [|lia].
    pose proof (Hlo i ltac:(lia)). fold kc in H. lia. }
  rewrite (data_insert_no_split h node d key position Hd).
  2:{ unfold bp_data_node_need_split. fold c.
      destruct (Z.geb_spec c (Common.max_key_num (Data.common d))); [lia|done].
  }
  rewrite Hd. cbn [mbind option_bind]. cbn zeta. fold c item_size.
  rewrite Hsearch. cbn [mbind option_bind].
  replace (if found =? 0 then idx * item_size else idx * item_size + item_size)
    with (ins * item_size)
    by (subst ins; unfold insert_index; destruct (found =? 0); lia).
  destruct (Z.ltb_spec (ins * item_size) (c * item_size)); [|nia].
  replace (Z.to_nat c + 2)%nat with (S (Z.to_nat c + 1)) by lia.
  cbn [data_shift_loop].
  destruct (Z.gtb_spec (c * item_size + item_size) (ins * item_size)); [|nia].
  rewrite memcpy_out_of_bounds; [reflexivity|lia|].
  rewrite Hlen, Hcl. nia.
Qed.

(** sortedness of the first items of a concrete buffer, by cases *)
Ltac sorted_by_cases :=
  let i := fresh "i" in let j := fresh "j" in
  let Hi := fresh in let Hij := fresh in let Hj := fresh in
  intros i j Hi Hij Hj;
  match type of Hj with
  | _ < ?b => let v := eval vm_compute in b in change b with v in Hj
  end;
  assert (i = 0 ∨ i = 1 ∨ i = 2 ∨ i = 3 ∨ 4 ≤ i) as Ei by lia;
  assert (j = 0 ∨ j = 1 ∨ j = 2 ∨ j = 3 ∨ 4 ≤ j) as Ej by lia;
  destruct Ei as [-> | [-> | [-> | [-> | ?] ] ] ];
  destruct Ej as [-> | [-> | [-> | [-> | ?] ] ] ];
  try (exfalso; lia); try (vm_compute; discriminate).

Ltac concrete_wf :=
  split; vm_compute; repeat split; first [reflexivity|discriminate].

Lemma leaf_insert_in_order_witness :
  ∃ leaf h d,
    leaf_of 4 1 1 [(bytes "1", bytes "a"); (bytes "3", bytes "c")]
    = Some (leaf, h)
    ∧ deref_data h leaf = Some d
    ∧ data_wf d
    ∧ Data.key_num d < Common.max_key_num (Data.common d)
    ∧ 0 < Data.key_size d + Data.value_size d
    ∧ Data.key_size d ≤ Mem.len (bytes "2")
    ∧ Data.value_size d ≤ Mem.len (bytes "b")
    ∧ total_preorder (compare_or_default (Common.compare (Data.common d)))
                     (Data.key_size d)
    ∧ sorted_items (compare_or_default (Common.compare (Data.common d)))
                   (Data.content d) (Data.key_size d + Data.value_size d) 0
                   (Data.key_size d) (Data.key_num d)
    ∧ (Data.key_num d + 2) * (Data.key_size d + Data.value_size d)
      ≤ Data.content_len d
    ∧ ∃ (ins : Z) (d' : Data.t),
        bp_data_node_insert_data h leaf (bytes "2") (bytes "b")
        = Some (0, NULL, bytes "2", store h leaf (DATA d'))
        ∧ 0 ≤ ins ≤ Data.key_num d
        ∧ Data.key_num d' = 3.
Proof.
  match eval vm_compute in
        (leaf_of 4 1 1 [(bytes "1", bytes "a"); (bytes "3", bytes "c")]) with
  | Some (?p, ?x) => pose (leaf := p); pose (h := x)
  end.
  match eval vm_compute in (deref_data h leaf) with
  | Some ?x => pose (d := x)
  end.
  assert (deref_data h leaf = Some d) as Hd by reflexivity.
  assert (data_wf d) as Hwf by concrete_wf.
  assert (Data.key_num d < Common.max_key_num (Data.common d)) as Hfull
    by reflexivity.
  assert (0 < Data.key_size d + Data.value_size d) as Hitem by reflexivity.
  assert (Data.key_size d ≤ Mem.len (bytes "2")) as Hkey
    by (vm_compute; discriminate).
  assert (Data.value_size d ≤ Mem.len (bytes "b")) as Hpos
    by (vm_compute; discriminate).
  assert (total_preorder (compare_or_default (Common.compare (Data.common d)))
            (Data.key_size d)) as Hcmp
    by exact (bp_compare_total_preorder 1).
  assert (sorted_items (compare_or_default (Common.compare (Data.common d)))
            (Data.content d) (Data.key_size d + Data.value_size d) 0
            (Data.key_size d) (Data.key_num d)) as Hs by sorted_by_cases.
  assert ((Data.key_num d + 2) * (Data.key_size d + Data.value_size d)
          ≤ Data.content_len d) as Hroom by (vm_compute; discriminate).
  exists leaf, h, d.
  split; [vm_compute; reflexivity|].
  split; [exact Hd|]. split; [exact Hwf|]. split; [exact Hfull|].
  split; [exact Hitem|]. split; [exact Hkey|]. split; [exact Hpos|].
  split; [exact Hcmp|]. split; [exact Hs|]. split; [exact Hroom|].
  destruct (leaf_insert_in_order h leaf d (bytes "2") (bytes "b") Hd Hwf
              Hfull Hitem Hkey Hpos Hcmp Hs (or_introl Hroom))
    as (ins & d' & Hrun & Hins & _ & _ & Hnum & _).
  exists ins, d'. split; [exact Hrun|]. split; [exact Hins|exact Hnum].
Defined.

Lemma leaf_insert_next_link_witness :
  ∃ leaf h d,
    leaf_of 2 1 1 [(bytes "3", bytes "c")] = Some (leaf, h)
    ∧ deref_data h leaf = Some d
    ∧ data_wf d
    ∧ Data.key_num d < Common.max_key_num (Data.common d)
    ∧ 0 < Data.key_size d + Data.value_size d
    ∧ Data.key_size d ≤ Mem.len (bytes "1")
    ∧ Data.value_size d ≤ Mem.len (bytes "a")
    ∧ total_preorder (compare_or_default (Common.compare (Data.common d)))
                     (Data.key_size d)
    ∧ sorted_items (compare_or_default (Common.compare (Data.common d)))
                   (Data.content d) (Data.key_size d + Data.value_size d) 0
                   (Data.key_size d) (Data.key_num d)
    ∧ (Data.key_num d + 2) * (Data.key_size d + Data.value_size d)
      ≤ Data.content_len d
    ∧ Data.key_num d + 1 = Common.max_key_num (Data.common d)
    ∧ target_vs_item (compare_or_default (Common.compare (Data.common d)))
                     (Data.content d) (Data.key_size d + Data.value_size d)
                     0 (bytes "1") (Data.key_size d) 0 < 0
    ∧ ∃ d',
        bp_data_node_insert_data h leaf (bytes "1") (bytes "a")
        = Some (0, NULL, bytes "1", store h leaf (DATA d'))
        ∧ Mem.read (Data.content d')
                   (bp_data_node_get_pnext_save_position d) 2
          = Mem.read (Data.content d)
                     (bp_data_node_get_pnext_save_position d - 2) 2.
Proof.
  match eval vm_compute in (leaf_of 2 1 1 [(bytes "3", bytes "c")]) with
  | Some (?p, ?x) => pose (leaf := p); pose (h := x)
  end.
  match eval vm_compute in (deref_data h leaf) with
  | Some ?x => pose (d := x)
  end.
  assert (deref_data h leaf = Some d) as Hd by reflexivity.
  assert (data_wf d) as Hwf by concrete_wf.
  assert (Data.key_num d < Common.max_key_num (Data.common d)) as Hfull
    by reflexivity.
  assert (0 < Data.key_size d + Data.value_size d) as Hitem by reflexivity.
  assert (Data.key_size d ≤ Mem.len (bytes "1")) as Hkey
    by (vm_compute; discriminate).
  assert (Data.value_size d ≤ Mem.len (bytes "a")) as Hpos
    by (vm_compute; discriminate).
  assert (total_preorder (compare_or_default (Common.compare (Data.common d)))
            (Data.key_size d)) as Hcmp
    by exact (bp_compare_total_preorder 1).
  assert (sorted_items (compare_or_default (Common.compare (Data.common d)))
            (Data.content d) (Data.key_size d + Data.value_size d) 0
            (Data.key_size d) (Data.key_num d)) as Hs by sorted_by_cases.
  assert ((Data.key_num d + 2) * (Data.key_size d + Data.value_size d)
          ≤ Data.content_len d) as Hroom by (vm_compute; discriminate).
  assert (Data.key_num d + 1 = Common.max_key_num (Data.common d)) as Hone
    by reflexivity.
  assert (target_vs_item
            (compare_or_default (Common.compare (Data.common d)))
            (Data.content d) (Data.key_size d + Data.value_size d)
            0 (bytes "1") (Data.key_size d) 0 < 0) as Hbelow
    by reflexivity.
  exists leaf, h, d.
  split; [vm_compute; reflexivity|].
  split; [exact Hd|]. split; [exact Hwf|]. split; [exact Hfull|].
  split; [exact Hitem|]. split; [exact Hkey|]. split; [exact Hpos|].
  split; [exact Hcmp|]. split; [exact Hs|]. split; [exact Hroom|].
  split; [exact Hone|]. split; [exact Hbelow|].
  destruct (leaf_insert_next_link h leaf d (bytes "1") (bytes "a") Hd Hwf
              Hfull Hitem Hkey Hpos Hcmp Hs (or_introl Hroom))
    as (d' & Hrun & _ & Hclobber).
  destruct (Hclobber Hone (ex_intro _ 0 (conj (conj (Z.le_refl 0) eq_refl)
                                              Hbelow)))
    as (_ & Hread & _).
  exists d'. split; [exact Hrun|exact Hread].
Defined.

Lemma leaf_insert_overshoot_leaves_block_witness :
  ∃ leaf h d,
    leaf_of 2 1 12 [(bytes "3", bytes "cccccccccccc")] = Some (leaf, h)
    ∧ deref_data h leaf = Some d
    ∧ data_wf d
    ∧ Data.key_num d + 1 = Common.max_key_num (Data.common d)
    ∧ Mem.sizeof_ptr + (sizeof_node - 60)
      < Data.key_size d + Data.value_size d
    ∧ Data.key_size d ≤ Mem.len (bytes "1")
    ∧ total_preorder (compare_or_default (Common.compare (Data.common d)))
                     (Data.key_size d)
    ∧ sorted_items (compare_or_default (Common.compare (Data.common d)))
                   (Data.content d) (Data.key_size d + Data.value_size d) 0
                   (Data.key_size d) (Data.key_num d)
    ∧ target_vs_item (compare_or_default (Common.compare (Data.common d)))
                     (Data.content d) (Data.key_size d + Data.value_size d)
                     0 (bytes "1") (Data.key_size d) 0 < 0
    ∧ bp_data_node_insert_data h leaf (bytes "1") (bytes "aaaaaaaaaaaa")
      = None.
Proof.
  match eval vm_compute in
        (leaf_of 2 1 12 [(bytes "3", bytes "cccccccccccc")]) with
  | Some (?p, ?x) => pose (leaf := p); pose (h := x)
  end.
  match eval vm_compute in (deref_data h leaf) with
  | Some ?x => pose (d := x)
  end.
  assert (deref_data h leaf = Some d) as Hd by reflexivity.
  assert (data_wf d) as Hwf by concrete_wf.
  assert (Data.key_num d + 1 = Common.max_key_num (Data.common d)) as Hone
    by reflexivity.
  assert (Mem.sizeof_ptr + (sizeof_node - 60)
          < Data.key_size d + Data.value_size d) as Hbig by reflexivity.
  assert (Data.key_size d ≤ Mem.len (bytes "1")) as Hkey
    by (vm_compute; discriminate).
  assert (total_preorder (compare_or_default (Common.compare (Data.common d)))
            (Data.key_size d)) as Hcmp
    by exact (bp_compare_total_preorder 1).
  assert (sorted_items (compare_or_default (Common.compare (Data.common d)))
            (Data.content d) (Data.key_size d + Data.value_size d) 0
            (Data.key_size d) (Data.key_num d)) as Hs by sorted_by_cases.
  assert (target_vs_item
            (compare_or_default (Common.compare (Data.common d)))
            (Data.content d) (Data.key_size d + Data.value_size d)
            0 (bytes "1") (Data.key_size d) 0 < 0) as Hbelow
    by reflexivity.
  exists leaf, h, d.
  split; [vm_compute; reflexivity|].
  split; [exact Hd|]. split; [exact Hwf|]. split; [exact Hone|].
  split; [exact Hbig|]. split; [exact Hkey|]. split; [exact Hcmp|].
  split; [exact Hs|]. split; [exact Hbelow|].
  exact (leaf_insert_overshoot_leaves_block h leaf d (bytes "1")
           (bytes "aaaaaaaaaaaa") Hd Hwf Hone Hbig Hkey Hcmp Hs
           (ex_intro _ 0 (conj (conj (Z.le_refl 0) eq_refl) Hbelow))).
Defined.

(** ** Split of a leaf, in full *)

(** the split of a leaf, with the two halves written out *)
Lemma leaf_split_spec
    (h : heap) (to_split : Z) (old : Data.t) (rest : list bool) :
  let c := Data.key_num old in
  let item_size := Data.key_size old + Data.value_size old in
  let cmp := compare_or_default (Common.compare (Data.common old)) in
  deref_data h to_split = Some old →
  data_wf old →
  malloc_oracle h = true :: rest →
  Z.of_nat (length (nodes h)) + 1 ≤ SIZE_MAX →
  sorted_items cmp (Data.content old) item_size 0 (Data.key_size old) c →
  ∃ new_p h' c3 c2,
    let old' := Data.set_content (Data.set_key_num old (c / 2)) c3 in
    let new' :=
      Data.mk (Common.mk BP_NODE_TYPE_DATA
                         (Some PTR_bp_data_node_insert_data)
                         (Some PTR_bp_data_node_max_key)
                         (Common.compare (Data.common old))
                         (Common.max_key_num (Data.common old))
                         (Common.min_key_num (Data.common old))
                         (c - c / 2))
              (Data.key_size old) (Data.value_size old)
              (Data.content_len old) c2 in
    bp_data_node_split h to_split = Some (0, new_p, h')
    ∧ new_p = Z.of_nat (length (nodes h)) + 1
    ∧ deref h new_p = None
    ∧ deref_data h' to_split = Some old'
    ∧ deref_data h' new_p = Some new'
    ∧ (∀ q, q ≠ to_split → q ≠ new_p → deref h' q = deref h q)
    ∧ malloc_oracle h' = rest
    ∧ Data.set_content (Data.set_key_num old' c) (Data.content old) = old
    ∧ Data.key_num old' = c / 2
    ∧ Data.set_content
        (Data.set_key_num new' 0)
        (Mem.zeros (Data.content_len old))
      = fresh_data_node (Common.max_key_num (Data.common old))
                        (Common.min_key_num (Data.common old))
                        (Data.key_size old) (Data.value_size old)
                        (Common.compare (Data.common old))
    ∧ Data.key_num new' = c - c / 2
    ∧ data_wf old' ∧ data_wf new'
    ∧ (∀ i, 0 ≤ i < c →
       Mem.read (Data.content old') (i * item_size) item_size
       = Mem.read (Data.content old) (i * item_size) item_size)
    ∧ (∀ j, 0 ≤ j < c - c / 2 →
       Mem.read (Data.content new') (j * item_size) item_size
       = Mem.read (Data.content old) ((c / 2 + j) * item_size) item_size)
    ∧ sorted_items cmp (Data.content old') item_size 0 (Data.key_size old)
                   (c / 2)
    ∧ sorted_items cmp (Data.content new') item_size 0 (Data.key_size old)
                   (c - c / 2)
    ∧ bp_data_node_get_pnext old' = Some new_p
    ∧ bp_data_node_get_pnext new' = bp_data_node_get_pnext old.
Proof.
  intros c item_size cmp Hd Hwf Horacle Hnodes Hsorted.
  destruct old as [[ty ins mk cmpf max minn c0] ks vs cl content].
  destruct Hwf as [Hks Hvs Hc Hcl Hint Hlen].
  unfold Data.key_num in *.
  cbn in c, item_size, cmp, Hks, Hvs, Hc, Hcl, Hint, Hlen, Hsorted.
  subst c.
  assert (c0 ÷ 2 = c0 / 2) as Hquot by (apply Z.quot_div_nonneg; lia).
  assert (0 ≤ c0 / 2 ≤ c0) as Hhalf by (Z.div_mod_to_equations; lia).
  set (fresh :=
         Data.mk (Common.mk BP_NODE_TYPE_DATA
                            (Some PTR_bp_data_node_insert_data)
                            (Some PTR_bp_data_node_max_key) cmpf max minn 0)
                 ks vs cl (Mem.zeros cl)).
  set (h0 := mk_heap (nodes h) rest).
  pose proof (deref_new_block h0 (DATA fresh)) as Hnew.
  assert (deref h0 to_split
          = Some (DATA (Data.mk (Common.mk ty ins mk cmpf max minn c0)
                                ks vs cl content))) as Hold0.
  { unfold deref_data in Hd. unfold deref in *. cbn [nodes h0].
    destruct (to_split <=? 0); [discriminate|].
    destruct (nodes h !! Z.to_nat (to_split - 1)) as [[d|i]|];
      try discriminate. by injection Hd as ->. }
  destruct (deref_new_block_old h0 (DATA fresh) _ _ Hold0) as [Hold Hne].
  assert (∀ q, q ≠ (new_block h0 (DATA fresh)).1 →
               deref (new_block h0 (DATA fresh)).2 q = deref h q) as Hframe0.
  { intros q Hq. unfold deref, new_block in *. cbn [fst snd nodes h0] in *.
    destruct (Z.leb_spec q 0); [reflexivity|].
    destruct (Z.lt_ge_cases (q - 1) (Z.of_nat (length (nodes h)))).
    - apply lookup_app_l. lia.
    - rewrite !lookup_ge_None_2; [reflexivity|lia|].
      rewrite length_app. cbn [length]. lia. }
  unfold bp_data_node_split. rewrite Hd. cbn [mbind option_bind].
  cbn [Data.common Common.max_key_num Common.min_key_num Data.key_size
       Data.value_size Common.compare].
  rewrite (bp_create_data_node_success h max minn ks vs cmpf rest Horacle)
    by (unfold Mem.sizeof_ptr in *; nia || lia).
  rewrite <- Hcl. fold fresh h0.
  destruct (new_block h0 (DATA fresh)) as [new_p h1] eqn:Eblock.
  cbn [fst snd] in Hnew, Hold, Hne, Hframe0.
  assert (new_p = Z.of_nat (length (nodes h)) + 1) as Hp
    by (unfold new_block in Eblock; by injection Eblock as <- _).
  assert (malloc_oracle h1 = rest) as Horacle1
    by (unfold new_block in Eblock; by injection Eblock as _ <-).
  cbn [mbind option_bind].
  destruct (Z.eqb_spec new_p NULL) as [|_]; [unfold NULL in *; lia|].
  unfold deref_data at 1. rewrite Hnew. cbn [mbind option_bind].
  unfold Data.key_num, Data.set_key_num, Data.set_content,
    bp_data_node_get_pnext, bp_data_node_set_pnext,
    bp_data_node_get_pnext_save_position.
  cbn [Data.common Data.key_size Data.value_size Data.content_len
       Data.content Common.key_num Common.set_key_num Common.type
       Common.insert Common.max_key Common.compare Common.max_key_num
       Common.min_key_num fresh].
  rewrite Hquot. fold item_size.
  assert (0 ≤ item_size) as Hitem by (subst item_size; lia).
  assert (max * item_size = cl - Mem.sizeof_ptr) as Hroom
    by (subst item_size; lia).
  assert (0 ≤ c0 / 2 * item_size ∧ 0 ≤ (c0 - c0 / 2) * item_size
          ∧ c0 / 2 * item_size + (c0 - c0 / 2) * item_size = c0 * item_size
          ∧ c0 * item_size ≤ max * item_size) as (Ho1 & Ho2 & Ho3 & Ho4)
    by nia.
  unfold Mem.sizeof_ptr in Hroom.
  destruct (memcpy_Some (Mem.zeros cl) 0 content (c0 / 2 * item_size)
              ((c0 - c0 / 2) * item_size))
    as (c1 & Ec1 & Hc1len & Hc1read & Hc1other);
    try (rewrite ?len_zeros; lia).
  rewrite len_zeros in Hc1len by lia.
  destruct (load_ptr_Some content (cl - Mem.sizeof_ptr))
    as (pnext & Hpnext); try (unfold Mem.sizeof_ptr; lia).
  destruct (store_ptr_Some c1 (cl - Mem.sizeof_ptr) pnext)
    as (c2 & Ec2 & Hc2len & Hc2load & Hc2other);
    try (unfold Mem.sizeof_ptr; lia).
  { by eapply load_ptr_range. }
  destruct (store_ptr_Some content (cl - Mem.sizeof_ptr) new_p)
    as (c3 & Ec3 & Hc3len & Hc3load & Hc3other);
    try (unfold Mem.sizeof_ptr; lia).
  rewrite Ec1. cbn [mbind option_bind]. rewrite Hpnext.
  cbn [mbind option_bind]. rewrite Ec2.
  cbn [mbind option_bind fmap option_fmap option_map]. rewrite Ec3.
  cbn [mbind option_bind fmap option_fmap option_map].
  unfold Data.set_content, Common.set_key_num.
  cbn [Data.common Data.key_size Data.value_size Data.content_len
       Data.content Common.key_num Common.type
       Common.insert Common.max_key Common.compare Common.max_key_num
       Common.min_key_num].
  set (old' := Data.mk (Common.mk ty ins mk cmpf max minn (c0 / 2))
                       ks vs cl c3).
  set (new' := Data.mk (Common.mk BP_NODE_TYPE_DATA
                                  (Some PTR_bp_data_node_insert_data)
                                  (Some PTR_bp_data_node_max_key)
                                  cmpf max minn (c0 - c0 / 2))
                       ks vs cl c2).
  assert (∀ i, 0 ≤ i < c0 →
          Mem.read c3 (i * item_size) item_size
          = Mem.read content (i * item_size) item_size) as Hkeep.
  { intros i Hi. apply Hc3other. left. nia. }
  assert (∀ j, 0 ≤ j < c0 - c0 / 2 →
          Mem.read c2 (j * item_size) item_size
          = Mem.read content ((c0 / 2 + j) * item_size) item_size) as Hmove.
  { intros j Hj. rewrite Hc2other by (left; nia).
    destruct (Mem.read content (c0 / 2 * item_size)
                ((c0 - c0 / 2) * item_size)) as [d|] eqn:Ed;
      [|rewrite read_Some in Ed by lia; discriminate].
    replace ((c0 / 2 + j) * item_size)
      with (c0 / 2 * item_size + j * item_size) by lia.
    rewrite (read_sub content d _ _ (j * item_size) item_size Ed) by nia.
    rewrite <- (read_sub c1 d 0 _ (j * item_size) item_size Hc1read) by nia.
    reflexivity. }
  exists new_p, (store (store h1 to_split (DATA old')) new_p (DATA new')),
    c3, c2.
  change (Data.set_content
            (Data.set_key_num
               (Data.mk (Common.mk ty ins mk cmpf max minn c0) ks vs cl
                        content) (c0 / 2)) c3) with old'.
  cbn [Data.common Data.key_size Data.value_size Data.content_len
       Common.compare Common.max_key_num Common.min_key_num].
  fold new'. cbn zeta.
  split; [reflexivity|]. split; [exact Hp|].
  split.
  { unfold deref. destruct (Z.leb_spec new_p 0); [reflexivity|].
    apply lookup_ge_None_2. lia. }
  split.
  { unfold deref_data. rewrite deref_store_ne by lia.
    by rewrite (deref_store_eq _ _ _ _ Hold). }
  split.
  { unfold deref_data. erewrite deref_store_eq; [reflexivity|].
    rewrite deref_store_ne by lia. exact Hnew. }
  split.
  { intros q Hq1 Hq2. rewrite !deref_store_ne by lia. by apply Hframe0. }
  split; [by rewrite !store_oracle|].
  split; [reflexivity|]. split; [reflexivity|].
  split; [unfold fresh_data_node; cbn; by rewrite <- Hcl|].
  split; [reflexivity|].
  split; [split; cbn; first [assumption|lia|congruence]|].
  split; [split; cbn; first [assumption|lia|congruence]|].
  cbn [old' new' Data.content Data.content_len].
  split; [exact Hkeep|]. split; [exact Hmove|].
  assert (∀ i, 0 ≤ i < c0 → (i + 1) * item_size ≤ cl) as Hfit.
  { intros i Hi. assert ((i + 1) * item_size ≤ max * item_size) by nia.
    lia. }
  pose proof Hlen as Hlen0. cbn in Hlen0.
  split.
  { intros i j Hi Hij Hj.
    rewrite (item_key_agree c3 content item_size ks i i);
      [|lia|lia|lia|subst item_size; lia|rewrite ?Hc3len, ?Hlen0; apply Hfit; lia
       |rewrite Hlen0; apply Hfit; lia|apply Hkeep; lia].
    rewrite (item_key_agree c3 content item_size ks j j);
      [|lia|lia|lia|subst item_size; lia|rewrite ?Hc3len, ?Hlen0; apply Hfit; lia
       |rewrite Hlen0; apply Hfit; lia|apply Hkeep; lia].
    apply Hsorted; lia. }
  split.
  { intros i j Hi Hij Hj.
    rewrite (item_key_agree c2 content item_size ks i (c0 / 2 + i));
      [|lia|lia|lia|subst item_size; lia|rewrite ?Hc2len, ?Hc1len, ?Hlen0; apply Hfit; lia
       |rewrite Hlen0; apply Hfit; lia|apply Hmove; lia].
    rewrite (item_key_agree c2 content item_size ks j (c0 / 2 + j));
      [|lia|lia|lia|subst item_size; lia|rewrite ?Hc2len, ?Hc1len, ?Hlen0; apply Hfit; lia
       |rewrite Hlen0; apply Hfit; lia|apply Hmove; lia].
    apply Hsorted; lia. }
  split; [exact Hc3load|]. rewrite Hc2load. reflexivity.
Qed.

(** X6. A successful split of a well-formed leaf with [c] sorted items
    touches two nodes only, the leaf and the fresh sibling, and uses one
    allocation.  The leaf keeps its fields but the count, now [c / 2], and
    the link; its [c] items are all still in its buffer (the moved ones
    are not cleared).  The sibling has the type tag, the dispatch table
    and the configuration of a factory-made leaf and the [c - c / 2]
    moved items.  Both halves are well formed and sorted. *)
Theorem leaf_split_keeps_invariants
    (h : heap) (to_split : Z) (old : Data.t) (rest : list bool) :
  let c := Data.key_num old in
  let item_size := Data.key_size old + Data.value_size old in
  let cmp := compare_or_default (Common.compare (Data.common old)) in
  deref_data h to_split = Some old →
  data_wf old →
  malloc_oracle h = true :: rest →
  Z.of_nat (length (nodes h)) + 1 ≤ SIZE_MAX →
  sorted_items cmp (Data.content old) item_size 0 (Data.key_size old) c →
  ∃ new_p h' old' new',
    bp_data_node_split h to_split = Some (0, new_p, h')
    ∧ new_p = Z.of_nat (length (nodes h)) + 1
    ∧ deref h new_p = None
    ∧ deref_data h' to_split = Some old'
    ∧ deref_data h' new_p = Some new'
    ∧ (∀ q, q ≠ to_split → q ≠ new_p → deref h' q = deref h q)
    ∧ malloc_oracle h' = rest
    ∧ Data.set_content (Data.set_key_num old' c) (Data.content old) = old
    ∧ Data.key_num old' = c / 2
    ∧ Data.set_content
        (Data.set_key_num new' 0)
        (Mem.zeros (Data.content_len old))
      = fresh_data_node (Common.max_key_num (Data.common old))
                        (Common.min_key_num (Data.common old))
                        (Data.key_size old) (Data.value_size old)
                        (Common.compare (Data.common old))
    ∧ Data.key_num new' = c - c / 2
    ∧ data_wf old' ∧ data_wf new'
    ∧ (∀ i, 0 ≤ i < c →
       Mem.read (Data.content old') (i * item_size) item_size
       = Mem.read (Data.content old) (i * item_size) item_size)
    ∧ (∀ j, 0 ≤ j < c - c / 2 →
       Mem.read (Data.content new') (j * item_size) item_size
       = Mem.read (Data.content old) ((c / 2 + j) * item_size) item_size)
    ∧ sorted_items cmp (Data.content old') item_size 0 (Data.key_size old)
                   (c / 2)
    ∧ sorted_items cmp (Data.content new') item_size 0 (Data.key_size old)
                   (c - c / 2)
    ∧ bp_data_node_get_pnext old' = Some new_p
    ∧ bp_data_node_get_pnext new' = bp_data_node_get_pnext old.
Proof.
  intros c item_size cmp Hd Hwf Horacle Hnodes Hsorted.
  destruct (leaf_split_spec h to_split old rest Hd Hwf Horacle Hnodes Hsorted)
    as (new_p & h' & c3 & c2 & H).
  exists new_p, h'. eexists. eexists. exact H.
Qed.

Lemma leaf_split_keeps_invariants_witness :
  ∃ leaf h0 h d,
    leaf_of 4 1 1 [(bytes "1", bytes "a"); (bytes "2", bytes "b");
                   (bytes "3", bytes "c"); (bytes "4", bytes "d")]
    = Some (leaf, h0)
    ∧ h = mk_heap (nodes h0) [true]
    ∧ deref_data h leaf = Some d
    ∧ data_wf d
    ∧ malloc_oracle h = [true]
    ∧ Z.of_nat (length (nodes h)) + 1 ≤ SIZE_MAX
    ∧ sorted_items (compare_or_default (Common.compare (Data.common d)))
                   (Data.content d) (Data.key_size d + Data.value_size d) 0
                   (Data.key_size d) (Data.key_num d)
    ∧ ∃ new_p h' old' new',
        bp_data_node_split h leaf = Some (0, new_p, h')
        ∧ deref_data h' leaf = Some old'
        ∧ deref_data h' new_p = Some new'
        ∧ Data.key_num old' = 2 ∧ Data.key_num new' = 2
        ∧ data_wf old' ∧ data_wf new'.
Proof.
  match eval vm_compute in
        (leaf_of 4 1 1 [(bytes "1", bytes "a"); (bytes "2", bytes "b");
                        (bytes "3", bytes "c"); (bytes "4", bytes "d")]) with
  | Some (?p, ?x) => pose (leaf := p); pose (h0 := x)
  end.
  pose (h := mk_heap (nodes h0) [true]).
  match eval vm_compute in (deref_data h leaf) with
  | Some ?x => pose (d := x)
  end.
  assert (deref_data h leaf = Some d) as Hd by reflexivity.
  assert (data_wf d) as Hwf by concrete_wf.
  assert (malloc_oracle h = [true]) as Horacle by reflexivity.
  assert (Z.of_nat (length (nodes h)) + 1 ≤ SIZE_MAX) as Hnodes
    by (vm_compute; discriminate).
  assert (sorted_items (compare_or_default (Common.compare (Data.common d)))
            (Data.content d) (Data.key_size d + Data.value_size d) 0
            (Data.key_size d) (Data.key_num d)) as Hs by sorted_by_cases.
  exists leaf, h0, h, d.
  split; [vm_compute; reflexivity|]. split; [reflexivity|].
  split; [exact Hd|]. split; [exact Hwf|]. split; [exact Horacle|].
  split; [exact Hnodes|]. split; [exact Hs|].
  destruct (leaf_split_keeps_invariants h leaf d [] Hd Hwf Horacle Hnodes Hs)
    as (new_p & h' & old' & new' & Hrun & _ & _ & Ho & Hn & _ & _ & _ & Hko
        & _ & Hkn & Hwo & Hwn & _).
  exists new_p, h', old', new'.
  split; [exact Hrun|]. split; [exact Ho|]. split; [exact Hn|].
  split; [exact Hko|]. split; [exact Hkn|]. split; [exact Hwo|exact Hwn].
Defined.

(** ** Insert in a full leaf *)

(** [bp_data_node_insert_data] on a full leaf whose split succeeds: the
    choice of the half, then the tail *)
Lemma data_insert_after_split (h : heap) (node : Z) (d : Data.t)
    (key position : list byte) (pp_new : Z) (h1 : heap) :
  deref_data h node = Some d →
  bp_data_node_need_split d = true →
  bp_data_node_split h node = Some (0, pp_new, h1) →
  pp_new ≠ NULL →
  bp_data_node_insert_data h node key position
  = ('(data_p, key) ←
       (data ← deref_data h1 node;
        new ← deref_data h1 pp_new;
        let max_key_of_data :=
          (Data.key_num data - 1)
          * (Data.key_size data + Data.value_size data) in
        cmp_res ← Mem.memcmp key 0 (Data.content data) max_key_of_data
                             (Data.key_size data);
        if 0 <? cmp_res then Some (pp_new, key)
        else if 0 =? cmp_res then
          key ← Mem.memcpy key 0 (Data.content new) 0 (Data.key_size data);
          Some (node, key)
        else Some (node, key));
     data ← deref_data h1 data_p;
     let item_size := Data.key_size data + Data.value_size data in
     let valid_data_len := Data.key_num data * item_size in
     '(found, found_idx) ←
       bp_bi_search_last (Data.content data) valid_data_len item_size key
                         (Data.key_size data) 0
                         (Common.compare (Data.common data));
     let dst := found_idx * item_size in
     let dst := if found =? 0 then dst else dst + item_size in
     content ←
       (if dst <? valid_data_len
        then data_shift_loop (Z.to_nat (Data.key_num data) + 2)
                             (Data.content data)
                             (valid_data_len + item_size) dst item_size
        else Some (Data.content data));
     content ← Mem.memcpy content dst key 0 (Data.key_size data);
     content ← Mem.memcpy content (dst + Data.key_size data) position 0
                          (Data.value_size data);
     let data := Data.set_content data content in
     let data := Data.set_key_num data (Data.key_num data + 1) in
     Some (0, pp_new, key, store h1 data_p (DATA data))).
Proof.
  intros Hd Hfull Hsplit Hnew. unfold bp_data_node_insert_data.
  rewrite Hd at 1. cbn [mbind option_bind]. rewrite Hfull, Hsplit.
  cbn [mbind option_bind andb]. change (-1 =? 0) with false. cbn iota.
  destruct (Z.eqb_spec pp_new NULL) as [|_]; [contradiction|].
  reflexivity.
Qed.

Lemma read_prefix_eq (b1 b2 : list byte) (o1 o2 n m : Z) :
  0 ≤ m ≤ n → 0 ≤ o2 → o2 + n ≤ Mem.len b2 →
  Mem.read b1 o1 n = Mem.read b2 o2 n →
  Mem.read b1 o1 m = Mem.read b2 o2 m.
Proof.
  intros Hm Ho Hn H. pose proof (read_Some b2 o2 n Ho ltac:(lia) Hn) as H2.
  rewrite H2 in H.
  replace o1 with (o1 + 0) by lia. replace o2 with (o2 + 0) at 1 by lia.
  rewrite (read_sub b1 _ o1 n 0 m H) by lia.
  rewrite (read_sub b2 _ o2 n 0 m H2) by lia. reflexivity.
Qed.


(** insert in a full leaf: the split, the choice of the half, the tail *)
Lemma leaf_insert_full_spec
    (h : heap) (node : Z) (d : Data.t) (key position : list byte)
    (rest : list bool) :
  let c := Data.key_num d in
  let item_size := Data.key_size d + Data.value_size d in
  let cmp := compare_or_default (Common.compare (Data.common d)) in
  deref_data h node = Some d →
  data_wf d →
  c = Common.max_key_num (Data.common d) →
  2 ≤ c →
  0 < item_size →
  (4 ≤ c ∨ item_size ≤ Mem.sizeof_ptr) →
  malloc_oracle h = true :: rest →
  Z.of_nat (length (nodes h)) + 1 ≤ SIZE_MAX →
  Data.key_size d ≤ Mem.len key → Data.value_size d ≤ Mem.len position →
  total_preorder cmp (Data.key_size d) →
  sorted_items cmp (Data.content d) item_size 0 (Data.key_size d) c →
  ∃ m new_p key' h' ins dt' do',
    Mem.memcmp key 0 (Data.content d) ((c / 2 - 1) * item_size)
               (Data.key_size d) = Some m
    ∧ bp_data_node_insert_data h node key position
      = Some (0, new_p, key', h')
    ∧ new_p = Z.of_nat (length (nodes h)) + 1
    ∧ key' = (if m =? 0
              then item_key (Data.content d) item_size 0 (Data.key_size d)
                            (c / 2)
                   ++ drop (Z.to_nat (Data.key_size d)) key
              else key)
    ∧ let target := if 0 <? m then new_p else node in
      let other := if 0 <? m then node else new_p in
      let base := if 0 <? m then c / 2 else 0 in
      let ct := if 0 <? m then c - c / 2 else c / 2 in
      let obase := if 0 <? m then 0 else c / 2 in
      let kc := target_vs_item cmp (Data.content d) item_size 0 key'
                               (Data.key_size d) in
      let sibling :=
        fresh_data_node (Common.max_key_num (Data.common d))
                        (Common.min_key_num (Data.common d))
                        (Data.key_size d) (Data.value_size d)
                        (Common.compare (Data.common d)) in
      deref_data h' target = Some dt'
      ∧ deref_data h' other = Some do'
      ∧ (∀ q, q ≠ node → q ≠ new_p → deref h' q = deref h q)
      ∧ malloc_oracle h' = rest
      ∧ Data.key_num dt' = ct + 1
      ∧ Data.key_num do' = c - ct
      ∧ data_wf dt' ∧ data_wf do'
      ∧ 0 ≤ ins ≤ ct
      ∧ (∀ i, 0 ≤ i < ins → 0 ≤ kc (base + i))
      ∧ (∀ i, ins ≤ i < ct → kc (base + i) < 0)
      ∧ (∀ i, 0 ≤ i < ins →
         Mem.read (Data.content dt') (i * item_size) item_size
         = Mem.read (Data.content d) ((base + i) * item_size) item_size)
      ∧ Mem.read (Data.content dt') (ins * item_size) (Data.key_size d)
        = Some (take (Z.to_nat (Data.key_size d)) key')
      ∧ Mem.read (Data.content dt') (ins * item_size + Data.key_size d)
                 (Data.value_size d)
        = Some (take (Z.to_nat (Data.value_size d)) position)
      ∧ (∀ i, ins ≤ i < ct →
         Mem.read (Data.content dt') ((i + 1) * item_size) item_size
         = Mem.read (Data.content d) ((base + i) * item_size) item_size)
      ∧ (∀ j, 0 ≤ j < c - ct →
         Mem.read (Data.content do') (j * item_size) item_size
         = Mem.read (Data.content d) ((obase + j) * item_size) item_size)
      ∧ sorted_items cmp (Data.content dt') item_size 0 (Data.key_size d)
                     (ct + 1)
      ∧ sorted_items cmp (Data.content do') item_size 0 (Data.key_size d)
                     (c - ct)
      ∧ Data.set_content (Data.set_key_num dt' 0) []
        = Data.set_content
            (Data.set_key_num (if 0 <? m then sibling else d) 0) []
      ∧ Data.set_content (Data.set_key_num do' 0) []
        = Data.set_content
            (Data.set_key_num (if 0 <? m then d else sibling) 0) [].
Proof.
  intros c item_size cmp Hd Hwf Hfull Hc2 Hitem Hover Horacle Hnodes Hkey
    Hpos Hcmp Hsorted.
  destruct (leaf_split_spec h node d rest Hd Hwf Horacle Hnodes Hsorted)
    as (new_p & h1 & c3 & c2 & H).
  cbv zeta in H. fold c item_size cmp in H.
  set (old' := Data.set_content (Data.set_key_num d (c / 2)) c3) in *.
  set (new' := Data.mk _ _ _ _ c2) in *.
  destruct H as (Hsplit & Hp & Hnone & Ho & Hn & Hframe & Horacle1 & _ & _
                 & _ & _ & Hwo & Hwn & Hkeep & Hmove & Hso & Hsn & _ & _).
  cbn [Data.content old' new' Data.set_content] in Hkeep, Hmove, Hso, Hsn.
  pose proof Hwf as [Hks Hvs Hcnt Hcl Hint Hlen].
  fold c item_size in Hcnt, Hcl.
  assert (1 ≤ c / 2 ∧ c / 2 < c ∧ 1 ≤ c - c / 2 ∧ c - c / 2 < c)
    as (Hh1 & Hh2 & Hh3 & Hh4) by (Z.div_mod_to_equations; lia).
  assert (∀ i, 0 ≤ i < c → 0 ≤ i * item_size
                           ∧ (i + 1) * item_size ≤ Mem.len (Data.content d))
    as Hfit.
  { intros i Hi. rewrite Hlen, Hcl, <- Hfull. unfold Mem.sizeof_ptr.
    assert ((i + 1) * item_size ≤ c * item_size) by nia. nia. }
  assert (Mem.len c3 = Mem.len (Data.content d)) as Hlen3.
  { destruct Hwo as [_ _ _ _ _ Hl]. cbn in Hl. lia. }
  assert (Mem.len c2 = Mem.len (Data.content d)) as Hlen2.
  { destruct Hwn as [_ _ _ _ _ Hl]. cbn in Hl. lia. }
  (* the comparison with the last key of the lower half *)
  destruct (Hfit (c / 2 - 1) ltac:(lia)) as [Hm0 Hm1].
  assert (Mem.read c3 ((c / 2 - 1) * item_size) (Data.key_size d)
          = Mem.read (Data.content d) ((c / 2 - 1) * item_size)
                     (Data.key_size d)) as Hlast.
  { apply (read_prefix_eq _ _ _ _ item_size); [lia|lia|lia|].
    apply Hkeep. lia. }
  destruct (Mem.memcmp key 0 (Data.content d) ((c / 2 - 1) * item_size)
              (Data.key_size d)) as [m|] eqn:Em.
  2:{ unfold Mem.memcmp in Em. rewrite !read_Some in Em by lia.
      discriminate. }
  assert (Mem.memcmp key 0 c3 ((c / 2 - 1) * item_size) (Data.key_size d)
          = Some m) as Em3.
  { unfold Mem.memcmp in *. by rewrite Hlast. }
  (* the key after the choice *)
  destruct (Hfit (c / 2) ltac:(lia)) as [Hn0 Hn1].
  set (key' := if m =? 0
               then item_key (Data.content d) item_size 0 (Data.key_size d)
                             (c / 2)
                    ++ drop (Z.to_nat (Data.key_size d)) key
               else key).
  assert (Mem.memcpy key 0 c2 0 (Data.key_size d)
          = Some (item_key (Data.content d) item_size 0 (Data.key_size d)
                           (c / 2)
                  ++ drop (Z.to_nat (Data.key_size d)) key)) as Ecpy.
  { unfold Mem.memcpy.
    rewrite (read_prefix_eq c2 (Data.content d) 0 (c / 2 * item_size)
               item_size (Data.key_size d)); [|lia|lia|lia|].
    2:{ pose proof (Hmove 0 ltac:(lia)) as H0.
        by rewrite Z.add_0_r in H0. }
    replace (c / 2 * item_size) with (c / 2 * item_size + 0) by lia.
    rewrite item_key_read by lia. cbn [mbind option_bind].
    assert (Mem.len (item_key (Data.content d) item_size 0 (Data.key_size d)
                              (c / 2)) = Data.key_size d) as Hl
      by (apply len_take_drop; lia).
    rewrite write_Some by lia. rewrite Hl. cbn [take Z.to_nat].
    by rewrite Z.add_0_l. }
  assert (Mem.len key' = Mem.len key) as Hklen.
  { subst key'. destruct (m =? 0); [|reflexivity].
    unfold Mem.len. rewrite length_app, length_drop.
    unfold item_key. rewrite length_take, length_drop.
    unfold Mem.len in *. lia. }
  set (target := if 0 <? m then new_p else node).
  set (dt := if 0 <? m then new' else old').
  set (base := if 0 <? m then c / 2 else 0).
  set (ct := if 0 <? m then c - c / 2 else c / 2).
  assert (deref_data h1 target = Some dt) as Hdt
    by (subst target dt; by destruct (0 <? m)).
  assert (data_wf dt) as Hwt by (subst dt; by destruct (0 <? m)).
  assert (Data.key_num dt = ct) as Hkt
    by (subst dt ct; by destruct (0 <? m)).
  assert (Data.key_size dt = Data.key_size d
          ∧ Data.value_size dt = Data.value_size d
          ∧ Common.compare (Data.common dt) = Common.compare (Data.common d)
          ∧ Common.max_key_num (Data.common dt) = c
          ∧ Data.content_len dt = Data.content_len d)
    as (Hkst & Hvst & Hcmpt & Hmaxt & Hclt).
  { subst dt. rewrite Hfull. by destruct (0 <? m). }
  assert (∀ i, 0 ≤ i < ct →
          Mem.read (Data.content dt) (i * item_size) item_size
          = Mem.read (Data.content d) ((base + i) * item_size) item_size)
    as Hitems.
  { intros i Hi. subst dt base ct. destruct (0 <? m); cbn [Data.content new' old' Data.set_content].
    - apply Hmove. lia.
    - rewrite Z.add_0_l. apply Hkeep. lia. }
  assert (sorted_items cmp (Data.content dt) item_size 0 (Data.key_size d) ct)
    as Hst by (subst dt ct; by destruct (0 <? m)).
  assert (0 ≤ base ∧ 1 ≤ ct ∧ ct < c ∧ base + ct ≤ c) as (Hb0 & Hct1 & Hct2 & Hbc)
    by (subst base ct; destruct (0 <? m); lia).
  assert (Mem.len (Data.content dt) = Mem.len (Data.content d)) as Hlent
    by (subst dt; by destruct (0 <? m)).
  assert ((ct + 2) * item_size ≤ Data.content_len dt) as Hroom.
  { rewrite Hclt, Hcl, <- Hfull. unfold Mem.sizeof_ptr in *.
    destruct Hover as [H4|H8].
    - assert (ct + 2 ≤ c) by (subst ct; destruct (0 <? m);
                              Z.div_mod_to_equations; lia). nia.
    - nia. }
  destruct (leaf_insert_tail_spec h1 target dt key' position new_p Hdt Hwt)
    as (ins & dt' & Hrun & Hins & Hlo & Hhi & Hnum & Hrec & Hwt' & Ha & Hk
        & Hv & Hmv & Hst').
  { rewrite Hkt, Hmaxt. lia. }
  { rewrite Hkst, Hvst. exact Hitem. }
  { rewrite Hkst, Hklen. exact Hkey. }
  { rewrite Hvst. exact Hpos. }
  { rewrite Hkst, Hcmpt. exact Hcmp. }
  { rewrite Hkst, Hvst, Hcmpt, Hkt. exact Hst. }
  { left. rewrite Hkst, Hvst, Hkt. exact Hroom. }
  rewrite Hkt in Hins, Hhi, Hnum, Hmv, Hst'.
  rewrite Hkst, Hvst in Hlo, Hhi, Ha, Hk, Hv, Hmv, Hst'.
  rewrite Hcmpt in Hlo, Hhi, Hst'.
  fold item_size cmp in Hins, Hlo, Hhi, Hnum, Ha, Hk, Hv, Hmv, Hst'.
  exists m, new_p, key', (store h1 target (DATA dt')), ins, dt',
    (if 0 <? m then old' else new').
  split; [reflexivity|].
  split.
  { rewrite (data_insert_after_split h node d key position new_p h1 Hd).
    - rewrite Ho, Hn. cbn [mbind option_bind].
      change (Data.key_num old') with (c / 2).
      change (Data.key_size old') with (Data.key_size d).
      change (Data.value_size old') with (Data.value_size d).
      change (Data.content old') with c3.
      change (Data.content new') with c2.
      fold item_size. rewrite Em3. cbn [mbind option_bind].
      rewrite Ecpy. cbn [mbind option_bind].
      replace (if 0 <? m then Some (new_p, key)
               else if 0 =? m
                    then Some (node, item_key (Data.content d) item_size 0
                                       (Data.key_size d) (c / 2)
                                     ++ drop (Z.to_nat (Data.key_size d)) key)
                    else Some (node, key))
        with (Some (target, key')).
      + exact Hrun.
      + subst target key'. destruct (Z.ltb_spec 0 m).
        * destruct (Z.eqb_spec m 0); [lia|reflexivity].
        * destruct (Z.eqb_spec 0 m); destruct (Z.eqb_spec m 0);
            try lia; reflexivity.
    - unfold bp_data_node_need_split. fold c.
      destruct (Z.geb_spec c (Common.max_key_num (Data.common d)));
        [reflexivity|lia].
    - exact Hsplit.
    - unfold NULL. lia. }
  split; [exact Hp|]. split; [reflexivity|].
  fold target base ct. cbv zeta.
  assert (deref h1 target = Some (DATA dt)) as Hraw.
  { unfold deref_data in Hdt. destruct (deref h1 target) as [ [x|x]|];
      try discriminate. by injection Hdt as ->. }
  assert (node ≠ new_p) as Hne.
  { intros ->. unfold deref_data in Hd. rewrite Hnone in Hd. discriminate. }
  split; [unfold deref_data; by rewrite (deref_store_eq _ _ _ _ Hraw)|].
  split.
  { unfold deref_data. rewrite deref_store_ne.
    - subst target. destruct (0 <? m); [exact Ho|exact Hn].
    - subst target. destruct (0 <? m); congruence. }
  split.
  { intros q Hq1 Hq2. rewrite deref_store_ne.
    - by apply Hframe.
    - subst target. destruct (0 <? m); congruence. }
  split; [by rewrite store_oracle|].
  split; [exact Hnum|].
  split; [subst ct; destruct (0 <? m); cbn; lia|].
  split; [exact Hwt'|].
  split; [destruct (0 <? m); assumption|].
  split; [exact Hins|].
  assert (∀ i, 0 ≤ i < ct →
          target_vs_item cmp (Data.content dt) item_size 0 key'
                         (Data.key_size d) i
          = target_vs_item cmp (Data.content d) item_size 0 key'
                           (Data.key_size d) (base + i)) as Hkc.
  { intros i Hi. unfold target_vs_item. f_equal.
    destruct (Hfit (base + i) ltac:(lia)).
    destruct (Hfit i ltac:(lia)).
    apply item_key_agree;
      [lia|lia|lia|subst item_size; lia|rewrite Hlent; lia|lia
      |by apply Hitems]. }
  split; [intros i Hi; rewrite <- Hkc by lia; by apply Hlo|].
  split; [intros i Hi; rewrite <- Hkc by lia; by apply Hhi|].
  split; [intros i Hi; rewrite Ha by lia; apply Hitems; lia|].
  split; [exact Hk|]. split; [exact Hv|].
  split; [intros i Hi; rewrite Hmv by lia; apply Hitems; lia|].
  split.
  { intros j Hj. subst ct. destruct (0 <? m);
      cbn [Data.content new' old' Data.set_content].
    - rewrite Z.add_0_l. apply Hkeep. lia.
    - apply Hmove. lia. }
  split; [exact Hst'|].
  split.
  { subst ct. destruct (0 <? m);
      cbn [Data.content new' old' Data.set_content].
    - by replace (c - (c - c / 2)) with (c / 2) by lia.
    - exact Hsn. }
  assert (Data.set_content (Data.set_key_num new' 0) []
          = Data.set_content
              (Data.set_key_num
                 (fresh_data_node (Common.max_key_num (Data.common d))
                    (Common.min_key_num (Data.common d)) (Data.key_size d)
                    (Data.value_size d) (Common.compare (Data.common d))) 0)
              []) as Hcfn.
  { unfold fresh_data_node, Data.set_content, Data.set_key_num,
      Common.set_key_num. cbn. by rewrite Hcl. }
  assert (Data.set_content (Data.set_key_num old' 0) []
          = Data.set_content (Data.set_key_num d 0) []) as Hcfo
    by reflexivity.
  split.
  { assert (Data.set_content (Data.set_key_num dt' 0) []
            = Data.set_content (Data.set_key_num dt 0) []) as ->.
    { rewrite <- Hrec. by destruct dt' as [ [] ]. }
    subst dt. destruct (0 <? m); assumption. }
  destruct (0 <? m); assumption.
Qed.

(** X7. Insert in a full, well-formed, sorted leaf of capacity [c ≥ 2]
    with items of positive size, where [c ≥ 4] or the items have at most
    [sizeof (pointer)] = 8 bytes (the shift loop of the insert in a half
    copies one slot more than it has to, and that slot must lie within the
    [content_len] bytes of content), with key and position buffers of at
    least [key_size] and [value_size] bytes and a comparator that is a
    total preorder, when the allocation of the sibling succeeds. The call
    returns 0 and the sibling. [m] is [memcmp] of the key with the last
    key of the lower half: the item goes to the sibling when [m > 0], to
    the leaf otherwise; when [m = 0] the first [key_size] bytes of the
    caller's key buffer are overwritten with the first key of the sibling,
    and it is that key which is stored. The half that takes the item has
    its old items around the new one, at the index [ins] behind every key
    not above the stored key; the other half has its old items; both are
    well formed and sorted, and apart from count and content the leaf is
    as it was and the sibling as the factory makes it; no other node
    changes. *)
Theorem leaf_insert_full_splits
    (h : heap) (node : Z) (d : Data.t) (key position : list byte)
    (rest : list bool) :
  let c := Data.key_num d in
  let item_size := Data.key_size d + Data.value_size d in
  let cmp := compare_or_default (Common.compare (Data.common d)) in
  deref_data h node = Some d →
  data_wf d →
  c = Common.max_key_num (Data.common d) →
  2 ≤ c →
  0 < item_size →
  (4 ≤ c ∨ item_size ≤ Mem.sizeof_ptr) →
  malloc_oracle h = true :: rest →
  Z.of_nat (length (nodes h)) + 1 ≤ SIZE_MAX →
  Data.key_size d ≤ Mem.len key → Data.value_size d ≤ Mem.len position →
  total_preorder cmp (Data.key_size d) →
  sorted_items cmp (Data.content d) item_size 0 (Data.key_size d) c →
  ∃ m new_p key' h' ins dt' do',
    Mem.memcmp key 0 (Data.content d) ((c / 2 - 1) * item_size)
               (Data.key_size d) = Some m
    ∧ bp_data_node_insert_data h node key position
      = Some (0, new_p, key', h')
    ∧ new_p = Z.of_nat (length (nodes h)) + 1
    ∧ key' = (if m =? 0
              then item_key (Data.content d) item_size 0 (Data.key_size d)
                            (c / 2)
                   ++ drop (Z.to_nat (Data.key_size d)) key
              else key)
    ∧ let target := if 0 <? m then new_p else node in
      let other := if 0 <? m then node else new_p in
      let base := if 0 <? m then c / 2 else 0 in
      let ct := if 0 <? m then c - c / 2 else c / 2 in
      let obase := if 0 <? m then 0 else c / 2 in
      let kc := target_vs_item cmp (Data.content d) item_size 0 key'
                               (Data.key_size d) in
      let sibling :=
        fresh_data_node (Common.max_key_num (Data.common d))
                        (Common.min_key_num (Data.common d))
                        (Data.key_size d) (Data.value_size d)
                        (Common.compare (Data.common d)) in
      deref_data h' target = Some dt'
      ∧ deref_data h' other = Some do'
      ∧ (∀ q, q ≠ node → q ≠ new_p → deref h' q = deref h q)
      ∧ malloc_oracle h' = rest
      ∧ Data.key_num dt' = ct + 1
      ∧ Data.key_num do' = c - ct
      ∧ data_wf dt' ∧ data_wf do'
      ∧ 0 ≤ ins ≤ ct
      ∧ (∀ i, 0 ≤ i < ins → 0 ≤ kc (base + i))
      ∧ (∀ i, ins ≤ i < ct → kc (base + i) < 0)
      ∧ (∀ i, 0 ≤ i < ins →
         Mem.read (Data.content dt') (i * item_size) item_size
         = Mem.read (Data.content d) ((base + i) * item_size) item_size)
      ∧ Mem.read (Data.content dt') (ins * item_size) (Data.key_size d)
        = Some (take (Z.to_nat (Data.key_size d)) key')
      ∧ Mem.read (Data.content dt') (ins * item_size + Data.key_size d)
                 (Data.value_size d)
        = Some (take (Z.to_nat (Data.value_size d)) position)
      ∧ (∀ i, ins ≤ i < ct →
         Mem.read (Data.content dt') ((i + 1) * item_size) item_size
         = Mem.read (Data.content d) ((base + i) * item_size) item_size)
      ∧ (∀ j, 0 ≤ j < c - ct →
         Mem.read (Data.content do') (j * item_size) item_size
         = Mem.read (Data.content d) ((obase + j) * item_size) item_size)
      ∧ sorted_items cmp (Data.content dt') item_size 0 (Data.key_size d)
                     (ct + 1)
      ∧ sorted_items cmp (Data.content do') item_size 0 (Data.key_size d)
                     (c - ct)
      ∧ Data.set_content (Data.set_key_num dt' 0) []
        = Data.set_content
            (Data.set_key_num (if 0 <? m then sibling else d) 0) []
      ∧ Data.set_content (Data.set_key_num do' 0) []
        = Data.set_content
            (Data.set_key_num (if 0 <? m then d else sibling) 0) [].
Proof.
  exact (leaf_insert_full_spec h node d key position rest).
Qed.

Lemma leaf_insert_full_splits_witness :
  ∃ leaf h0 h d,
    leaf_of 4 1 1 [(bytes "1", bytes "a"); (bytes "2", bytes "b");
                   (bytes "3", bytes "c"); (bytes "4", bytes "d")]
    = Some (leaf, h0)
    ∧ h = mk_heap (nodes h0) [true]
    ∧ deref_data h leaf = Some d
    ∧ data_wf d
    ∧ Data.key_num d = Common.max_key_num (Data.common d)
    ∧ 2 ≤ Data.key_num d
    ∧ 0 < Data.key_size d + Data.value_size d
    ∧ Data.key_size d + Data.value_size d ≤ Mem.sizeof_ptr
    ∧ malloc_oracle h = [true]
    ∧ Z.of_nat (length (nodes h)) + 1 ≤ SIZE_MAX
    ∧ Data.key_size d ≤ Mem.len (bytes "2")
    ∧ Data.value_size d ≤ Mem.len (bytes "x")
    ∧ total_preorder (compare_or_default (Common.compare (Data.common d)))
                     (Data.key_size d)
    ∧ sorted_items (compare_or_default (Common.compare (Data.common d)))
                   (Data.content d) (Data.key_size d + Data.value_size d) 0
                   (Data.key_size d) (Data.key_num d)
    ∧ ∃ new_p h',
        bp_data_node_insert_data h leaf (bytes "2") (bytes "x")
        = Some (0, new_p, bytes "3", h').
Proof.
  match eval vm_compute in
        (leaf_of 4 1 1 [(bytes "1", bytes "a"); (bytes "2", bytes "b");
                        (bytes "3", bytes "c"); (bytes "4", bytes "d")]) with
  | Some (?p, ?x) => pose (leaf := p); pose (h0 := x)
  end.
  pose (h := mk_heap (nodes h0) [true]).
  match eval vm_compute in (deref_data h leaf) with
  | Some ?x => pose (d := x)
  end.
  assert (deref_data h leaf = Some d) as Hd by reflexivity.
  assert (data_wf d) as Hwf by concrete_wf.
  assert (Data.key_num d = Common.max_key_num (Data.common d)) as Hfull
    by reflexivity.
  assert (2 ≤ Data.key_num d) as Hc2 by (vm_compute; discriminate).
  assert (0 < Data.key_size d + Data.value_size d) as Hitem by reflexivity.
  assert (Data.key_size d + Data.value_size d ≤ Mem.sizeof_ptr) as Hsmall
    by (vm_compute; discriminate).
  assert (malloc_oracle h = [true]) as Horacle by reflexivity.
  assert (Z.of_nat (length (nodes h)) + 1 ≤ SIZE_MAX) as Hnodes
    by (vm_compute; discriminate).
  assert (Data.key_size d ≤ Mem.len (bytes "2")) as Hkey
    by (vm_compute; discriminate).
  assert (Data.value_size d ≤ Mem.len (bytes "x")) as Hpos
    by (vm_compute; discriminate).
  assert (total_preorder (compare_or_default (Common.compare (Data.common d)))
            (Data.key_size d)) as Hcmp
    by exact (bp_compare_total_preorder 1).
  assert (sorted_items (compare_or_default (Common.compare (Data.common d)))
            (Data.content d) (Data.key_size d + Data.value_size d) 0
            (Data.key_size d) (Data.key_num d)) as Hs by sorted_by_cases.
  exists leaf, h0, h, d.
  split; [vm_compute; reflexivity|]. split; [reflexivity|].
  split; [exact Hd|]. split; [exact Hwf|]. split; [exact Hfull|].
  split; [exact Hc2|]. split; [exact Hitem|]. split; [exact Hsmall|].
  split; [exact Horacle|]. split; [exact Hnodes|]. split; [exact Hkey|].
  split; [exact Hpos|]. split; [exact Hcmp|]. split; [exact Hs|].
  destruct (leaf_insert_full_splits h leaf d (bytes "2") (bytes "x") []
              Hd Hwf Hfull Hc2 Hitem (or_intror Hsmall) Horacle Hnodes Hkey
              Hpos Hcmp Hs)
    as (m & new_p & key' & h' & ins & dt' & do' & Hm & Hrun & _ & Hkey' & _).
  exists new_p, h'. rewrite Hrun, Hkey'.
  vm_compute in Hm. injection Hm as <-. reflexivity.
Defined.

(** ** Insert, then search *)

(** X8. After an insert in a well-formed, sorted leaf with [c] items that
    is not full, under the conditions of the insert without a split (room
    for the one-slot overshoot of the shift loop, [(c + 2) * item_size ≤
    content_len], or a key that goes to the end; items of positive size;
    key and position buffers of at least [key_size] and [value_size]
    bytes; a comparator that is a total preorder), [bp_bi_search_last] for
    the same key on the items of the leaf finds the new item: it reports a
    match at the index where the item was written, and the value stored
    there is the position just given. [bp_bi_search_one] reports a match
    as well. *)
Theorem leaf_insert_then_search
    (h : heap) (node : Z) (d : Data.t) (key position : list byte) :
  let c := Data.key_num d in
  let item_size := Data.key_size d + Data.value_size d in
  let cmp := compare_or_default (Common.compare (Data.common d)) in
  let kc := target_vs_item cmp (Data.content d) item_size 0 key
                           (Data.key_size d) in
  deref_data h node = Some d →
  data_wf d →
  c < Common.max_key_num (Data.common d) →
  0 < item_size →
  Data.key_size d ≤ Mem.len key → Data.value_size d ≤ Mem.len position →
  total_preorder cmp (Data.key_size d) →
  sorted_items cmp (Data.content d) item_size 0 (Data.key_size d) c →
  ((c + 2) * item_size ≤ Data.content_len d ∨ ∀ i, 0 ≤ i < c → 0 ≤ kc i) →
  ∃ d' idx idx1,
    bp_data_node_insert_data h node key position
    = Some (0, NULL, key, store h node (DATA d'))
    ∧ bp_bi_search_last (Data.content d') (Data.key_num d' * item_size)
                        item_size key (Data.key_size d') 0
                        (Common.compare (Data.common d'))
      = Some (1, idx)
    ∧ 0 ≤ idx < Data.key_num d'
    ∧ Mem.read (Data.content d') (idx * item_size) (Data.key_size d)
      = Some (take (Z.to_nat (Data.key_size d)) key)
    ∧ Mem.read (Data.content d') (idx * item_size + Data.key_size d)
               (Data.value_size d)
      = Some (take (Z.to_nat (Data.value_size d)) position)
    ∧ bp_bi_search_one (Data.content d') (Data.key_num d' * item_size)
                       item_size key (Data.key_size d') 0
                       (Common.compare (Data.common d'))
      = Some (1, idx1)
    ∧ 0 ≤ idx1 ≤ idx
    ∧ target_vs_item cmp (Data.content d') item_size 0 key (Data.key_size d)
                     idx1 = 0.
Proof.
  intros c item_size cmp kc Hd Hwf Hfull Hitem Hkey Hpos Hcmp Hsorted Hover.
  destruct (leaf_insert_tail_spec h node d key position NULL Hd Hwf Hfull
              Hitem Hkey Hpos Hcmp Hsorted Hover)
    as (ins & d' & Hrun & Hins & Hlo & Hhi & Hnum & Hrec & Hwf' & Ha & Hk
        & Hv & Hmv & Hs').
  fold c item_size cmp in Hrun, Hins, Hlo, Hhi, Hnum, Hrec, Ha, Hk, Hv, Hmv,
    Hs'.
  fold kc in Hlo, Hhi.
  pose proof Hwf as [Hks Hvs Hcnt Hcl Hint Hlen].
  fold c item_size in Hcnt, Hcl.
  assert (Data.key_size d' = Data.key_size d
          ∧ Data.value_size d' = Data.value_size d
          ∧ Common.compare (Data.common d') = Common.compare (Data.common d)
          ∧ Common.max_key_num (Data.common d')
            = Common.max_key_num (Data.common d)
          ∧ Data.content_len d' = Data.content_len d)
    as (Hks' & Hvs' & Hcmp' & Hmax' & Hcl').
  { rewrite <- Hrec. by destruct d' as [ [] ]. }
  assert (Mem.len (Data.content d') = Mem.len (Data.content d)) as Hlen'.
  { destruct Hwf' as [_ _ _ _ _ Hl]. lia. }
  assert ((c + 1) * item_size ≤ Mem.len (Data.content d)) as Hroom.
  { rewrite Hlen, Hcl. unfold Mem.sizeof_ptr. nia. }
  assert (packed_array (Data.content d') item_size 0 (Data.key_size d)
                       (c + 1)) as Hpacked.
  { split; first [lia|subst item_size; lia]. }
  pose proof (leaf_keys_after (Data.content d) (Data.content d') key
                (Data.key_size d) (Data.value_size d) c ins Hks Hvs Hins
                Hroom Hkey Hlen' Ha) as Hkeys.
  fold item_size in Hkeys.
  specialize (Hkeys ltac:(rewrite Hk; by rewrite read_Some by lia) Hmv).
  set (kc' := target_vs_item cmp (Data.content d') item_size 0 key
                             (Data.key_size d)).
  assert (kc' ins = 0) as Hzero.
  { unfold kc', target_vs_item. rewrite Hkeys by lia.
    destruct (Z.ltb_spec ins ins); [lia|]. rewrite Z.eqb_refl.
    apply (cmp_refl_zero _ _ _ Hcmp). unfold Mem.len in *.
    rewrite length_take. lia. }
  assert (∀ i, ins < i < c + 1 → kc' i < 0) as Hafter.
  { intros i Hi. unfold kc', target_vs_item. rewrite Hkeys by lia.
    destruct (Z.ltb_spec i ins); [lia|].
    destruct (Z.eqb_spec i ins); [lia|]. apply Hhi. lia. }
  destruct (bp_bi_search_last_spec (Data.content d') item_size (c + 1) key
              (Data.key_size d) 0 cmp Hpacked Hkey Hcmp Hs'
              (Common.compare (Data.common d)) eq_refl)
    as (found1 & idx1 & found & idx & Hone & Hlast & Hpost & -> & H0 & H1).
  fold kc' in H1.
  destruct Hpost as [(-> & Hidx1 & Hz1)|(-> & Hidx & Hbelow & Habove)].
  2:{ exfalso. fold kc' in Hbelow, Habove.
      destruct (Z.lt_ge_cases ins idx1).
      - pose proof (Hbelow ins ltac:(lia)). lia.
      - pose proof (Habove ins ltac:(lia)). lia. }
  destruct (H1 eq_refl) as (Hidx & Hz & Hright).
  assert (idx = ins) as ->.
  { destruct (Z.lt_trichotomy idx ins) as [Hlt|[Heq|Hgt] ]; [|exact Heq|].
    - pose proof (Hright ins ltac:(lia)). lia.
    - pose proof (Hafter idx ltac:(lia)). lia. }
  exists d', ins, idx1.
  rewrite Hnum, Hks', Hcmp'.
  split.
  { rewrite (data_insert_no_split h node d key position Hd); [exact Hrun|].
    unfold bp_data_node_need_split. fold c.
    destruct (Z.geb_spec c (Common.max_key_num (Data.common d)));
      [lia|done]. }
  split; [exact Hlast|]. split; [lia|].
  split; [exact Hk|]. split; [exact Hv|]. split; [exact Hone|].
  split; [lia|exact Hz1].
Qed.

Lemma leaf_insert_then_search_witness :
  ∃ leaf h d,
    leaf_of 4 1 1 [(bytes "1", bytes "a"); (bytes "2", bytes "b")]
    = Some (leaf, h)
    ∧ deref_data h leaf = Some d
    ∧ data_wf d
    ∧ Data.key_num d < Common.max_key_num (Data.common d)
    ∧ 0 < Data.key_size d + Data.value_size d
    ∧ Data.key_size d ≤ Mem.len (bytes "2")
    ∧ Data.value_size d ≤ Mem.len (bytes "z")
    ∧ total_preorder (compare_or_default (Common.compare (Data.common d)))
                     (Data.key_size d)
    ∧ sorted_items (compare_or_default (Common.compare (Data.common d)))
                   (Data.content d) (Data.key_size d + Data.value_size d) 0
                   (Data.key_size d) (Data.key_num d)
    ∧ (Data.key_num d + 2) * (Data.key_size d + Data.value_size d)
      ≤ Data.content_len d
    ∧ ∃ (d' : Data.t) (idx : Z),
        bp_data_node_insert_data h leaf (bytes "2") (bytes "z")
        = Some (0, NULL, bytes "2", store h leaf (DATA d'))
        ∧ bp_bi_search_last (Data.content d') (Data.key_num d' * 2) 2
                            (bytes "2") (Data.key_size d') 0
                            (Common.compare (Data.common d'))
          = Some (1, idx)
        ∧ Mem.read (Data.content d') (idx * 2 + 1) 1 = Some (bytes "z").
Proof.
  match eval vm_compute in
        (leaf_of 4 1 1 [(bytes "1", bytes "a"); (bytes "2", bytes "b")]) with
  | Some (?p, ?x) => pose (leaf := p); pose (h := x)
  end.
  match eval vm_compute in (deref_data h leaf) with
  | Some ?x => pose (d := x)
  end.
  assert (deref_data h leaf = Some d) as Hd by reflexivity.
  assert (data_wf d) as Hwf by concrete_wf.
  assert (Data.key_num d < Common.max_key_num (Data.common d)) as Hfull
    by reflexivity.
  assert (0 < Data.key_size d + Data.value_size d) as Hitem by reflexivity.
  assert (Data.key_size d ≤ Mem.len (bytes "2")) as Hkey
    by (vm_compute; discriminate).
  assert (Data.value_size d ≤ Mem.len (bytes "z")) as Hpos
    by (vm_compute; discriminate).
  assert (total_preorder (compare_or_default (Common.compare (Data.common d)))
            (Data.key_size d)) as Hcmp
    by exact (bp_compare_total_preorder 1).
  assert (sorted_items (compare_or_default (Common.compare (Data.common d)))
            (Data.content d) (Data.key_size d + Data.value_size d) 0
            (Data.key_size d) (Data.key_num d)) as Hs by sorted_by_cases.
  assert ((Data.key_num d + 2) * (Data.key_size d + Data.value_size d)
          ≤ Data.content_len d) as Hroom by (vm_compute; discriminate).
  exists leaf, h, d.
  split; [vm_compute; reflexivity|].
  split; [exact Hd|]. split; [exact Hwf|]. split; [exact Hfull|].
  split; [exact Hitem|]. split; [exact Hkey|]. split; [exact Hpos|].
  split; [exact Hcmp|]. split; [exact Hs|]. split; [exact Hroom|].
  destruct (leaf_insert_then_search h leaf d (bytes "2") (bytes "z") Hd Hwf
              Hfull Hitem Hkey Hpos Hcmp Hs (or_introl Hroom))
    as (d' & idx & idx1 & Hrun & Hlast & _ & _ & Hv & _).
  exists d', idx. split; [exact Hrun|]. split; [exact Hlast|exact Hv].
Defined.

(** ** The link of a leaf *)

(** X9. On a well-formed leaf, [bp_data_node_set_pnext] followed by
    [bp_data_node_get_pnext] gives the pointer back; the store changes
    nothing but the content, keeps the leaf well formed, and leaves every
    byte of the [max_key_num] item slots as it was. *)
Theorem leaf_link_round_trip (d : Data.t) (pnext : Z) :
  data_wf d →
  0 ≤ pnext ≤ SIZE_MAX →
  ∃ d',
    bp_data_node_set_pnext d pnext = Some d'
    ∧ bp_data_node_get_pnext d' = Some pnext
    ∧ Data.set_content d' (Data.content d) = d
    ∧ data_wf d'
    ∧ ∀ o m,
        o + m ≤ Common.max_key_num (Data.common d)
                * (Data.key_size d + Data.value_size d) →
        Mem.read (Data.content d') o m = Mem.read (Data.content d) o m.
Proof.
  intros [Hks Hvs Hc Hcl Hint Hlen] Hp.
  assert (0 ≤ Common.max_key_num (Data.common d)
              * (Data.key_size d + Data.value_size d)) as Hpos by nia.
  destruct (store_ptr_Some (Data.content d)
              (bp_data_node_get_pnext_save_position d) pnext)
    as (c' & Hstore & Hlen' & Hload & Hother);
    try (unfold bp_data_node_get_pnext_save_position, Mem.sizeof_ptr in *;
         lia).
  exists (Data.set_content d c').
  unfold bp_data_node_set_pnext, bp_data_node_get_pnext. rewrite Hstore.
  split; [reflexivity|]. split; [exact Hload|].
  split; [by destruct d|].
  split; [split; cbn; first [assumption|lia]|].
  intros o m Hom. apply Hother. left.
  unfold bp_data_node_get_pnext_save_position. lia.
Qed.

Lemma leaf_link_round_trip_witness :
  ∃ leaf h d,
    leaf_of 2 1 1 [(bytes "3", bytes "c")] = Some (leaf, h)
    ∧ deref_data h leaf = Some d
    ∧ data_wf d
    ∧ ∃ d', bp_data_node_set_pnext d 7 = Some d'
            ∧ bp_data_node_get_pnext d' = Some 7.
Proof.
  match eval vm_compute in (leaf_of 2 1 1 [(bytes "3", bytes "c")]) with
  | Some (?p, ?x) => pose (leaf := p); pose (h := x)
  end.
  match eval vm_compute in (deref_data h leaf) with
  | Some ?x => pose (d := x)
  end.
  assert (data_wf d) as Hwf by concrete_wf.
  assert (0 ≤ 7 ≤ SIZE_MAX) as Hp by (split; vm_compute; discriminate).
  exists leaf, h, d.
  split; [vm_compute; reflexivity|]. split; [reflexivity|].
  split; [exact Hwf|].
  destruct (leaf_link_round_trip d 7 Hwf Hp) as (d' & Hset & Hget & _).
  exists d'. split; [exact Hset|exact Hget].
Defined.

(** ** The factories *)

Lemma read_zeros (n off m : Z) :
  0 ≤ off → 0 ≤ m → off + m ≤ n →
  Mem.read (Mem.zeros n) off m = Some (Mem.zeros m).
Proof.
  intros Ho Hm Hn. rewrite read_Some by (rewrite ?len_zeros; lia).
  unfold Mem.zeros. rewrite drop_replicate, take_replicate.
  do 2 f_equal. lia.
Qed.

Lemma load_ptr_zeros (n off : Z) :
  0 ≤ off → off + Mem.sizeof_ptr ≤ n →
  Mem.load_ptr (Mem.zeros n) off = Some NULL.
Proof.
  intros Ho Hn. unfold Mem.load_ptr.
  rewrite read_zeros by (unfold Mem.sizeof_ptr in *; lia). reflexivity.
Qed.

Lemma deref_fresh_None (h : heap) :
  deref h (Z.of_nat (length (nodes h)) + 1) = None.
Proof.
  unfold deref. destruct (Z.leb_spec (Z.of_nat (length (nodes h)) + 1) 0);
    [reflexivity|].
  apply lookup_ge_None_2. lia.
Qed.

(** X10. [bp_create_data_node] with sizes that are not negative and a
    content length that fits an [int]: it uses one [malloc]; when that
    fails it returns NULL and no node changes; when it succeeds it returns
    an address that was not in use, of a leaf with the given configuration
    that is empty, zero-filled, well formed, has a NULL link and reports no
    maximum key; every node that was there is still there, unchanged. *)
Theorem data_factory_outcome (h : heap)
    (max_kv_num min_kv_num key_size value_size : Z)
    (compare : option bp_compare_f) :
  let content_len := max_kv_num * (key_size + value_size) + Mem.sizeof_ptr in
  let new := fresh_data_node max_kv_num min_kv_num key_size value_size
                             compare in
  0 ≤ key_size → 0 ≤ value_size → 0 ≤ max_kv_num →
  content_len ≤ INT_MAX →
  ∃ p h',
    bp_create_data_node h max_kv_num min_kv_num key_size value_size compare
    = Some (p, h')
    ∧ malloc_oracle h' = tail (malloc_oracle h)
    ∧ (∀ q n, deref h q = Some n → deref h' q = Some n ∧ q ≠ p)
    ∧ ((p = NULL ∧ nodes h' = nodes h
        ∧ (head (malloc_oracle h) ≠ Some true
           ∨ SIZE_MAX < Z.of_nat (length (nodes h)) + 1))
       ∨ (p = Z.of_nat (length (nodes h)) + 1
          ∧ head (malloc_oracle h) = Some true
          ∧ deref h p = None
          ∧ nodes h' = nodes h ++ [DATA new]
          ∧ deref_data h' p = Some new
          ∧ data_wf new
          ∧ bp_data_node_get_pnext new = Some NULL
          ∧ ∀ key_buf off len,
              bp_data_node_max_key h' p key_buf off len
              = Some (-1, key_buf))).
Proof.
  intros content_len new Hks Hvs Hmax Hint.
  assert (Mem.sizeof_ptr ≤ content_len) as Hge
    by (subst content_len; unfold Mem.sizeof_ptr; nia).
  unfold bp_create_data_node, bp_calc_data_node_content_len.
  fold content_len. unfold INT_MAX, Mem.sizeof_ptr in *.
  rewrite int_of_Z_small by (unfold INT_MAX; lia).
  unfold malloc.
  destruct (malloc_oracle h) as [|ok rest] eqn:Eo.
  { exists NULL, h. cbn. rewrite Eo.
    split; [reflexivity|]. split; [reflexivity|].
    split.
    { intros q n Hq. split; [exact Hq|].
      apply deref_Some_pos in Hq. unfold NULL. lia. }
    left. repeat split. left. discriminate. }
  assert ((size_t_of_Z (sizeof_node + content_len) <=? PTRDIFF_MAX) = true)
    as ->.
  { apply Z.leb_le. unfold size_t_of_Z, sizeof_node, PTRDIFF_MAX.
    rewrite Z.mod_small; lia. }
  rewrite andb_true_r.
  destruct (ok && (Z.of_nat (length (nodes h)) + 1 <=? SIZE_MAX)) eqn:Eok;
    cbn [negb].
  - apply andb_true_iff in Eok as [-> Haddr]. apply Z.leb_le in Haddr.
    destruct (Z.ltb_spec content_len 0); [lia|].
    set (h0 := mk_heap (nodes h) rest).
    exists (new_block h0 (DATA new)).1, (new_block h0 (DATA new)).2.
    split; [reflexivity|].
    split; [reflexivity|].
    split.
    { intros q n Hq. apply (deref_new_block_old h0). exact Hq. }
    right. cbn [new_block fst snd h0 nodes head].
    split; [reflexivity|]. split; [reflexivity|].
    split; [apply deref_fresh_None|]. split; [reflexivity|].
    assert (deref_data (new_block h0 (DATA new)).2 (new_block h0 (DATA new)).1
            = Some new) as Hnew.
    { unfold deref_data. by rewrite deref_new_block. }
    split; [exact Hnew|].
    split.
    { unfold content_len in *.
      split; cbn; unfold Mem.sizeof_ptr, INT_MAX;
        first [lia|apply len_zeros; lia]. }
    split.
    { unfold bp_data_node_get_pnext, bp_data_node_get_pnext_save_position.
      unfold content_len in *. cbn.
      apply load_ptr_zeros; unfold Mem.sizeof_ptr; lia. }
    intros key_buf off len. unfold bp_data_node_max_key.
    cbn [new_block fst snd h0 nodes] in Hnew. rewrite Hnew. reflexivity.
  - exists NULL, (mk_heap (nodes h) rest). cbn.
    split; [reflexivity|]. split; [reflexivity|].
    split.
    { intros q n Hq. split; [exact Hq|].
      apply deref_Some_pos in Hq. unfold NULL. lia. }
    left. repeat split.
    apply andb_false_iff in Eok as [->|Haddr].
    + left. discriminate.
    + right. apply Z.leb_gt in Haddr. lia.
Qed.

Lemma malloc_success (h : heap) (size : Z) (rest : list bool) :
  malloc_oracle h = true :: rest →
  size ≤ PTRDIFF_MAX →
  Z.of_nat (length (nodes h)) + 1 ≤ SIZE_MAX →
  malloc h size = (true, mk_heap (nodes h) rest).
Proof.
  intros Ho Hs Ha. unfold malloc. rewrite Ho.
  destruct (Z.leb_spec size PTRDIFF_MAX); [|lia].
  destruct (Z.leb_spec (Z.of_nat (length (nodes h)) + 1) SIZE_MAX); [|lia].
  reflexivity.
Qed.

Lemma malloc_fail (h : heap) (size : Z) :
  head (malloc_oracle h) ≠ Some true →
  malloc h size = (false, mk_heap (nodes h) (tail (malloc_oracle h))).
Proof.
  intros Ho. unfold malloc. destruct h as [ns [|[] rest] ]; cbn in *;
    [reflexivity|congruence|reflexivity].
Qed.

Lemma bp_create_inner_node_success (h : heap) (max_key_num key_size : Z)
    (compare : option bp_compare_f) (rest : list bool) :
  let content_len := max_key_num * (key_size + Mem.sizeof_ptr)
                     + Mem.sizeof_ptr in
  malloc_oracle h = true :: rest →
  0 ≤ content_len ≤ INT_MAX →
  Z.of_nat (length (nodes h)) + 1 ≤ SIZE_MAX →
  bp_create_inner_node h max_key_num key_size compare
  = Some (new_block (mk_heap (nodes h) rest)
            (INNER (fresh_inner_node max_key_num key_size compare))).
Proof.
  intros content_len Ho Hcl Ha.
  unfold bp_create_inner_node, bp_calc_inner_node_content_len.
  fold content_len. unfold INT_MAX in *.
  rewrite int_of_Z_small by (unfold INT_MAX; lia).
  rewrite (malloc_success h _ rest Ho); [| |exact Ha].
  - cbn [negb]. destruct (Z.ltb_spec content_len 0); [lia|]. reflexivity.
  - unfold size_t_of_Z, sizeof_node, PTRDIFF_MAX. rewrite Z.mod_small; lia.
Qed.

Lemma bp_create_inner_node_fail (h : heap) (max_key_num key_size : Z)
    (compare : option bp_compare_f) :
  head (malloc_oracle h) ≠ Some true →
  bp_create_inner_node h max_key_num key_size compare
  = Some (NULL, mk_heap (nodes h) (tail (malloc_oracle h))).
Proof.
  intros Ho. unfold bp_create_inner_node. by rewrite malloc_fail.
Qed.

Lemma bp_create_data_node_fail (h : heap)
    (max_kv_num min_kv_num key_size value_size : Z)
    (compare : option bp_compare_f) :
  head (malloc_oracle h) ≠ Some true →
  bp_create_data_node h max_kv_num min_kv_num key_size value_size compare
  = Some (NULL, mk_heap (nodes h) (tail (malloc_oracle h))).
Proof.
  intros Ho. unfold bp_create_data_node. by rewrite malloc_fail.
Qed.

Lemma fresh_inner_node_wf (max_key_num key_size : Z)
    (compare : option bp_compare_f) :
  0 ≤ key_size → 0 ≤ max_key_num →
  max_key_num * (key_size + Mem.sizeof_ptr) + Mem.sizeof_ptr ≤ INT_MAX →
  inner_wf (fresh_inner_node max_key_num key_size compare).
Proof.
  intros Hks Hmax Hint.
  split; cbn; first [lia|apply len_zeros; unfold Mem.sizeof_ptr; nia].
Qed.

(** X11. [bp_create_inner_node] with sizes that are not negative and a
    content length that fits an [int]: one [malloc]; on failure NULL and
    no node changes; on success an address that was not in use, of an
    inner node with the given configuration and [min_key_num] half the
    capacity, with no separators, a zero total, a NULL first child, well
    formed, and reporting no maximum key; the nodes that were there are
    unchanged. *)
Theorem inner_factory_outcome (h : heap) (max_key_num key_size : Z)
    (compare : option bp_compare_f) :
  let content_len := max_key_num * (key_size + Mem.sizeof_ptr)
                     + Mem.sizeof_ptr in
  let new := fresh_inner_node max_key_num key_size compare in
  0 ≤ key_size → 0 ≤ max_key_num →
  content_len ≤ INT_MAX →
  ∃ p h',
    bp_create_inner_node h max_key_num key_size compare = Some (p, h')
    ∧ malloc_oracle h' = tail (malloc_oracle h)
    ∧ (∀ q n, deref h q = Some n → deref h' q = Some n ∧ q ≠ p)
    ∧ ((p = NULL ∧ nodes h' = nodes h
        ∧ (head (malloc_oracle h) ≠ Some true
           ∨ SIZE_MAX < Z.of_nat (length (nodes h)) + 1))
       ∨ (p = Z.of_nat (length (nodes h)) + 1
          ∧ head (malloc_oracle h) = Some true
          ∧ deref h p = None
          ∧ nodes h' = nodes h ++ [INNER new]
          ∧ deref_inner h' p = Some new
          ∧ inner_wf new
          ∧ Common.min_key_num (Inner.common new) = max_key_num ÷ 2
          ∧ Inner.key_num new = 0 ∧ Inner.key_total new = 0
          ∧ Mem.load_ptr (Inner.content new) 0 = Some NULL
          ∧ ∀ key_buf off len,
              bp_inner_node_max_key h' p key_buf off len
              = Some (-1, key_buf))).
Proof.
  intros content_len new Hks Hmax Hint.
  assert (Mem.sizeof_ptr ≤ content_len) as Hge
    by (subst content_len; unfold Mem.sizeof_ptr; nia).
  assert (∀ h0 : heap, ∀ q n, deref h q = Some n → nodes h0 = nodes h →
          deref h0 q = Some n ∧ q ≠ NULL) as Hsame.
  { intros h0 q n Hq Hn. unfold deref in *. rewrite Hn. split; [exact Hq|].
    unfold NULL. intros ->. discriminate. }
  destruct (malloc_oracle h) as [|ok rest] eqn:Eo.
  { exists NULL, (mk_heap (nodes h) []).
    rewrite bp_create_inner_node_fail by (rewrite Eo; discriminate).
    rewrite Eo. split; [reflexivity|]. split; [reflexivity|].
    split; [intros q n Hq; by apply Hsame|].
    left. repeat split. left. discriminate. }
  destruct ok.
  2:{ exists NULL, (mk_heap (nodes h) rest).
      rewrite bp_create_inner_node_fail by (rewrite Eo; discriminate).
      rewrite Eo. split; [reflexivity|]. split; [reflexivity|].
      split; [intros q n Hq; by apply Hsame|].
      left. repeat split. left. discriminate. }
  destruct (Z.le_gt_cases (Z.of_nat (length (nodes h)) + 1) SIZE_MAX)
    as [Haddr|Haddr].
  - set (h0 := mk_heap (nodes h) rest).
    exists (new_block h0 (INNER new)).1, (new_block h0 (INNER new)).2.
    rewrite (bp_create_inner_node_success h _ _ _ rest Eo);
      [|unfold Mem.sizeof_ptr in *; fold content_len; lia|exact Haddr].
    split; [reflexivity|]. split; [reflexivity|].
    split; [intros q n Hq; by apply (deref_new_block_old h0)|].
    right. cbn [new_block fst snd h0 nodes head].
    split; [reflexivity|]. split; [reflexivity|].
    split; [apply deref_fresh_None|]. split; [reflexivity|].
    assert (deref_inner (new_block h0 (INNER new)).2
                        (new_block h0 (INNER new)).1 = Some new) as Hnew.
    { unfold deref_inner. by rewrite deref_new_block. }
    split; [exact Hnew|].
    split; [by apply fresh_inner_node_wf|].
    split; [reflexivity|]. split; [reflexivity|]. split; [reflexivity|].
    split; [apply load_ptr_zeros; [lia|exact Hge]|].
    intros key_buf off len. unfold bp_inner_node_max_key.
    cbn [new_block fst snd h0 nodes] in Hnew. rewrite Hnew. reflexivity.
  - exists NULL, (mk_heap (nodes h) rest).
    split.
    { unfold bp_create_inner_node, malloc. rewrite Eo.
      destruct (Z.leb_spec (Z.of_nat (length (nodes h)) + 1) SIZE_MAX);
        [lia|]. by rewrite andb_false_r. }
    split; [reflexivity|].
    split; [intros q n Hq; by apply Hsame|].
    left. repeat split. right. lia.
Qed.

Lemma inner_factory_outcome_witness :
  0 ≤ 1 ∧ 0 ≤ 4 ∧ 4 * (1 + Mem.sizeof_ptr) + Mem.sizeof_ptr ≤ INT_MAX
  ∧ ∃ p h',
      bp_create_inner_node (empty_heap [true]) 4 1 None = Some (p, h')
      ∧ malloc_oracle h' = [].
Proof.
  assert (0 ≤ 1) as Hks by lia.
  assert (0 ≤ 4) as Hmax by lia.
  assert (4 * (1 + Mem.sizeof_ptr) + Mem.sizeof_ptr ≤ INT_MAX) as Hint
    by (vm_compute; discriminate).
  split; [exact Hks|]. split; [exact Hmax|]. split; [exact Hint|].
  destruct (inner_factory_outcome (empty_heap [true]) 4 1 None Hks Hmax Hint)
    as (p & h' & Hrun & Ho & _).
  exists p, h'. split; [exact Hrun|exact Ho].
Defined.

Lemma data_factory_outcome_witness :
  0 ≤ 1 ∧ 0 ≤ 4 ∧ 4 * (1 + 1) + Mem.sizeof_ptr ≤ INT_MAX
  ∧ ∃ p h',
      bp_create_data_node (empty_heap [true]) 4 2 1 1 None = Some (p, h')
      ∧ malloc_oracle h' = [].
Proof.
  assert (0 ≤ 1) as Hks by lia.
  assert (0 ≤ 4) as Hmax by lia.
  assert (4 * (1 + 1) + Mem.sizeof_ptr ≤ INT_MAX) as Hint
    by (vm_compute; discriminate).
  split; [exact Hks|]. split; [exact Hmax|]. split; [exact Hint|].
  destruct (data_factory_outcome (empty_heap [true]) 4 2 1 1 None Hks Hks
              Hmax Hint)
    as (p & h' & Hrun & Ho & _).
  exists p, h'. split; [exact Hrun|exact Ho].
Defined.

(** ** The tree handle *)

(** X12. [bp_create_tree] with sizes that are not negative and content
    lengths that fit an [int].  A leaf capacity below the inner capacity is
    refused before anything is allocated.  Otherwise the call makes up to
    three allocations, the handle, the head and the first leaf, and
    returns a handle exactly when all three succeed: then the head is an
    inner node without separators whose first child pointer is the leaf,
    the leaf is empty with [min_key_num] half the inner capacity, and both
    are new.  When the [k]-th allocation is the first to fail the call
    returns NULL after [k] allocations; it has freed the head when it was
    the leaf that could not be allocated, and no node is left otherwise. *)
Theorem tree_factory_outcome (h : heap)
    (max_idx_num max_data_num key_size value_size : Z)
    (compare : option bp_compare_f) :
  let n := Z.of_nat (length (nodes h)) in
  let head_node := fresh_inner_node max_idx_num key_size compare in
  let leaf := fresh_data_node max_data_num (max_idx_num ÷ 2) key_size
                              value_size compare in
  0 ≤ key_size → 0 ≤ value_size → 0 ≤ max_idx_num →
  max_idx_num * (key_size + Mem.sizeof_ptr) + Mem.sizeof_ptr ≤ INT_MAX →
  max_data_num * (key_size + value_size) + Mem.sizeof_ptr ≤ INT_MAX →
  n + 2 ≤ SIZE_MAX →
  ∃ r h' freed,
    bp_create_tree h max_idx_num max_data_num key_size value_size compare
    = Some (r, h', freed)
    ∧ (max_data_num < max_idx_num → r = None ∧ h' = h ∧ freed = [])
    ∧ (max_idx_num ≤ max_data_num →
       match r with
       | Some t =>
           take 3 (malloc_oracle h) = [true; true; true]
           ∧ malloc_oracle h' = drop 3 (malloc_oracle h)
           ∧ freed = []
           ∧ t = Tree.mk max_idx_num max_data_num key_size value_size
                         (n + 1) (n + 2)
           ∧ ∃ i, nodes h' = nodes h ++ [INNER i; DATA leaf]
                  ∧ Inner.set_content i (Inner.content head_node)
                    = head_node
                  ∧ inner_wf i
                  ∧ Mem.load_ptr (Inner.content i) 0 = Some (n + 2)
                  ∧ data_wf leaf
       | None =>
           ∃ k : nat,
             (k = 1 ∨ k = 2 ∨ k = 3)%nat
             ∧ take (k - 1) (malloc_oracle h) = replicate (k - 1) true
             ∧ head (drop (k - 1) (malloc_oracle h)) ≠ Some true
             ∧ malloc_oracle h' = drop k (malloc_oracle h)
             ∧ (if (k =? 3)%nat
                then freed = [n + 1]
                     ∧ nodes h' = nodes h ++ [INNER head_node]
                else freed = [] ∧ nodes h' = nodes h)
       end).
Proof.
  intros n head_node leaf Hks Hvs Hmax Hint1 Hint2 Haddr.
  unfold bp_create_tree.
  destruct (Z.ltb_spec max_data_num max_idx_num) as [Hlt|Hge].
  { exists None, h, []. split; [reflexivity|].
    split; [done|]. intros. lia. }
  assert (0 ≤ max_idx_num * (key_size + Mem.sizeof_ptr) + Mem.sizeof_ptr
          ∧ 0 ≤ max_data_num * (key_size + value_size) + Mem.sizeof_ptr)
    as [Hp1 Hp2] by (unfold Mem.sizeof_ptr; nia).
  assert (sizeof_tree ≤ PTRDIFF_MAX) as Htree by (vm_compute; discriminate).
  (* the handle *)
  destruct (malloc_oracle h) as [|o1 rest1] eqn:Eo.
  { rewrite malloc_fail by (rewrite Eo; discriminate). cbn [negb].
    eexists None, _, []. split; [reflexivity|]. split; [intros; lia|].
    intros _. exists 1%nat. rewrite Eo. cbn. repeat split; auto; try discriminate. }
  destruct o1.
  2:{ rewrite malloc_fail by (rewrite Eo; discriminate). cbn [negb].
      eexists None, _, []. split; [reflexivity|]. split; [intros; lia|].
      intros _. exists 1%nat. rewrite Eo. cbn. repeat split; auto; try discriminate. }
  rewrite (malloc_success h _ rest1 Eo Htree) by (subst n; lia).
  cbn [negb]. set (h1 := mk_heap (nodes h) rest1).
  (* the head *)
  destruct rest1 as [|o2 rest2].
  { rewrite bp_create_inner_node_fail by (cbn; discriminate).
    cbn [mbind option_bind]. change (NULL =? NULL) with true. cbn iota.
    eexists None, _, []. split; [reflexivity|]. split; [intros; lia|].
    intros _. exists 2%nat. cbn. repeat split; auto; try discriminate. }
  destruct o2.
  2:{ rewrite bp_create_inner_node_fail by (cbn; discriminate).
      cbn [mbind option_bind]. change (NULL =? NULL) with true. cbn iota.
      eexists None, _, []. split; [reflexivity|]. split; [intros; lia|].
      intros _. exists 2%nat. cbn. repeat split; auto; try discriminate. }
  rewrite (bp_create_inner_node_success h1 _ _ _ rest2 eq_refl)
    by (cbn [h1 nodes]; subst n; lia).
  fold head_node. cbn [h1 nodes].
  set (h2 := mk_heap (nodes h) rest2).
  pose proof (deref_new_block h2 (INNER head_node)) as Hhead.
  destruct (new_block h2 (INNER head_node)) as [head h3] eqn:Eb.
  assert (head = n + 1 ∧ nodes h3 = nodes h ++ [INNER head_node]
          ∧ malloc_oracle h3 = rest2) as (-> & Hn3 & Ho3).
  { unfold new_block in Eb. by injection Eb as <- <-. }
  cbn [fst snd] in Hhead. cbn [mbind option_bind].
  destruct (Z.eqb_spec (n + 1) NULL) as [|_]; [unfold NULL in *; lia|].
  (* the first leaf *)
  destruct rest2 as [|o3 rest3].
  { rewrite bp_create_data_node_fail by (rewrite Ho3; discriminate).
    cbn [mbind option_bind]. change (NULL =? NULL) with true. cbn iota.
    eexists None, _, [n + 1]. split; [reflexivity|]. split; [intros; lia|].
    intros _. exists 3%nat. cbn. rewrite Ho3. repeat split; auto; try discriminate. }
  destruct o3.
  2:{ rewrite bp_create_data_node_fail by (rewrite Ho3; discriminate).
      cbn [mbind option_bind]. change (NULL =? NULL) with true. cbn iota.
      eexists None, _, [n + 1]. split; [reflexivity|]. split; [intros; lia|].
      intros _. exists 3%nat. cbn. rewrite Ho3. repeat split; auto; try discriminate. }
  assert (Z.of_nat (length (nodes h3)) = n + 1) as Hlen3.
  { rewrite Hn3, length_app. cbn [length]. subst n. lia. }
  rewrite (bp_create_data_node_success h3 _ _ _ _ _ rest3 Ho3)
    by (rewrite ?Hlen3; lia).
  fold (fresh_data_node max_data_num (max_idx_num ÷ 2) key_size value_size
                        compare). fold leaf.
  set (h4 := mk_heap (nodes h3) rest3).
  assert (deref h4 (n + 1) = Some (INNER head_node)) as Hhead4
    by exact Hhead.
  destruct (deref_new_block_old h4 (DATA leaf) _ _ Hhead4) as [Hhead5 _].
  destruct (new_block h4 (DATA leaf)) as [data h5] eqn:Eb5.
  assert (data = n + 2 ∧ nodes h5 = (nodes h ++ [INNER head_node])
                                    ++ [DATA leaf]
          ∧ malloc_oracle h5 = rest3) as (-> & Hn5 & Ho5).
  { unfold new_block in Eb5. injection Eb5 as <- <-. cbn [h4 nodes].
    rewrite Hlen3, Hn3. repeat split. lia. }
  cbn [fst snd] in Hhead5. cbn [mbind option_bind].
  destruct (Z.eqb_spec (n + 2) NULL) as [|_]; [unfold NULL in *; lia|].
  (* the first pointer of the head *)
  unfold bp_inner_node_set_first_ptr, deref_inner. rewrite Hhead5.
  cbn [mbind option_bind].
  destruct (store_ptr_Some (Inner.content head_node) 0 (n + 2))
    as (c & Hstore & Hclen & Hload & _).
  { lia. }
  { cbn. rewrite len_zeros by lia. unfold Mem.sizeof_ptr in *. lia. }
  { lia. }
  rewrite Hstore. cbn [mbind option_bind].
  eexists (Some _), _, []. split; [reflexivity|]. split; [intros; lia|].
  intros _. split; [reflexivity|].
  split; [by rewrite store_oracle|]. split; [reflexivity|].
  split; [reflexivity|].
  exists (Inner.set_content head_node c).
  split.
  { unfold store. destruct (Z.leb_spec (n + 1) 0); [lia|].
    cbn [nodes]. rewrite Hn5.
    replace (Z.to_nat (n + 1 - 1)) with (length (nodes h)) by (subst n; lia).
    rewrite insert_app_l by (rewrite length_app; cbn; lia).
    rewrite insert_app_r_alt by lia. rewrite Nat.sub_diag. cbn [insert].
    by rewrite <- app_assoc. }
  split; [reflexivity|].
  split.
  { pose proof (fresh_inner_node_wf max_idx_num key_size compare Hks Hmax
                  Hint1) as [H1 H2 H3 H4 H5].
    fold head_node in H1, H2, H3, H4, H5.
    split; cbn [Inner.set_content Inner.key_size Inner.common Inner.key_num
                Inner.content_len Inner.content]; try assumption.
    rewrite Hclen. exact H5. }
  split; [exact Hload|].
  split; cbn; first [lia|apply len_zeros; lia].
Qed.

Lemma tree_factory_outcome_witness :
  0 ≤ 1 ∧ 0 ≤ 4
  ∧ 4 * (1 + Mem.sizeof_ptr) + Mem.sizeof_ptr ≤ INT_MAX
  ∧ 4 * (1 + 1) + Mem.sizeof_ptr ≤ INT_MAX
  ∧ Z.of_nat (length (nodes (empty_heap [true; true; true]))) + 2 ≤ SIZE_MAX
  ∧ ∃ r h' freed,
      bp_create_tree (empty_heap [true; true; true]) 4 4 1 1 None
      = Some (r, h', freed)
      ∧ r = Some (Tree.mk 4 4 1 1 1 2).
Proof.
  assert (0 ≤ 1) as Hks by lia.
  assert (0 ≤ 4) as Hmax by lia.
  assert (4 * (1 + Mem.sizeof_ptr) + Mem.sizeof_ptr ≤ INT_MAX) as Hint1
    by (vm_compute; discriminate).
  assert (4 * (1 + 1) + Mem.sizeof_ptr ≤ INT_MAX) as Hint2
    by (vm_compute; discriminate).
  assert (Z.of_nat (length (nodes (empty_heap [true; true; true]))) + 2
          ≤ SIZE_MAX) as Haddr by (vm_compute; discriminate).
  split; [exact Hks|]. split; [exact Hmax|]. split; [exact Hint1|].
  split; [exact Hint2|]. split; [exact Haddr|].
  destruct (tree_factory_outcome (empty_heap [true; true; true]) 4 4 1 1 None
              Hks Hks Hmax Hint1 Hint2 Haddr)
    as (r & h' & freed & Hrun & _ & Hcase).
  exists r, h', freed. split; [exact Hrun|].
  vm_compute in Hrun. by injection Hrun as <- _ _.
Defined.

(** ** Split of an inner node *)

(** a split whose allocation succeeds *)
Lemma bp_inner_node_split_success (h : heap) (to_split : Z) (old : Inner.t)
    (rest : list bool) :
  let c := Inner.key_num old in
  let item_size := Mem.sizeof_ptr + Inner.key_size old in
  let new_p := Z.of_nat (length (nodes h)) + 1 in
  deref_inner h to_split = Some old →
  inner_wf old →
  malloc_oracle h = true :: rest →
  new_p ≤ SIZE_MAX →
  ∃ h' new',
    bp_inner_node_split h to_split = Some (0, new_p, h')
    ∧ malloc_oracle h' = rest
    ∧ deref h new_p = None
    ∧ deref_inner h' to_split = Some (Inner.set_key_num old (c / 2))
    ∧ (∀ q, q ≠ to_split → q ≠ new_p → deref h' q = deref h q)
    ∧ deref_inner h' new_p = Some new'
    ∧ Inner.set_content (Inner.set_key_num new' 0)
                        (Mem.zeros (Inner.content_len old))
      = fresh_inner_node (Common.max_key_num (Inner.common old))
                         (Inner.key_size old)
                         (Common.compare (Inner.common old))
    ∧ Inner.key_num new' = c - c / 2
    ∧ inner_wf (Inner.set_key_num old (c / 2))
    ∧ inner_wf new'
    ∧ (∀ j, 0 ≤ j < c - c / 2 →
       Mem.read (Inner.content new') (j * item_size) item_size
       = Mem.read (Inner.content old) ((c / 2 + j) * item_size) item_size)
    ∧ Mem.read (Inner.content new') ((c - c / 2) * item_size)
               (Inner.content_len old - (c - c / 2) * item_size)
      = Some (Mem.zeros (Inner.content_len old - (c - c / 2) * item_size)).
Proof.
  intros c item_size new_p0 Hd Hwf Eo Haddr. subst new_p0.
  destruct old as [ [ty ins mk cmpf max minn c0] ks kt cl content].
  destruct Hwf as [Hks Hc Hcl Hint Hlen].
  unfold Inner.key_num in *.
  cbn in c, item_size, Hks, Hc, Hcl, Hint, Hlen. subst c.
  assert (c0 ÷ 2 = c0 / 2) as Hquot by (apply Z.quot_div_nonneg; lia).
  assert (0 ≤ c0 / 2 ≤ c0) as Hhalf by (Z.div_mod_to_equations; lia).
  assert (0 < item_size) as Hitem by (subst item_size; unfold Mem.sizeof_ptr; lia).
  assert (max * item_size = cl - Mem.sizeof_ptr) as Hroom
    by (subst item_size; lia).
  assert (0 ≤ c0 / 2 * item_size ∧ 0 ≤ (c0 - c0 / 2) * item_size
          ∧ c0 / 2 * item_size + (c0 - c0 / 2) * item_size = c0 * item_size
          ∧ c0 * item_size ≤ max * item_size) as (Ho1 & Ho2 & Ho3 & Ho4)
    by nia.
  unfold bp_inner_node_split. rewrite Hd. cbn [mbind option_bind].
  cbn [Inner.common Common.max_key_num Inner.key_size Common.compare].
  assert (deref h to_split
          = Some (INNER (Inner.mk (Common.mk ty ins mk cmpf max minn c0)
                                  ks kt cl content))) as Hraw.
  { unfold deref_inner in Hd. destruct (deref h to_split) as [ [x|x]|];
      try discriminate. by injection Hd as ->. }
  rewrite (bp_create_inner_node_success h max ks cmpf rest Eo)
    by (unfold Mem.sizeof_ptr in *; lia).
  set (fresh := fresh_inner_node max ks cmpf).
  set (h0 := mk_heap (nodes h) rest).
  pose proof (deref_new_block h0 (INNER fresh)) as Hnew.
  destruct (deref_new_block_old h0 (INNER fresh) _ _ Hraw) as [Hold Hne].
  assert (∀ q, q ≠ (new_block h0 (INNER fresh)).1 →
               deref (new_block h0 (INNER fresh)).2 q = deref h q)
    as Hframe0.
  { intros q Hq. unfold deref, new_block in *. cbn [fst snd nodes h0] in *.
    destruct (Z.leb_spec q 0); [reflexivity|].
    destruct (Z.lt_ge_cases (q - 1) (Z.of_nat (length (nodes h)))).
    - apply lookup_app_l. lia.
    - rewrite !lookup_ge_None_2; [reflexivity|lia|].
      rewrite length_app. cbn [length]. lia. }
  destruct (new_block h0 (INNER fresh)) as [new_p h1] eqn:Eblock.
  cbn [fst snd] in Hnew, Hold, Hne, Hframe0.
  assert (new_p = Z.of_nat (length (nodes h)) + 1) as Hp
    by (unfold new_block in Eblock; by injection Eblock as <- _).
  assert (malloc_oracle h1 = rest) as Horacle1
    by (unfold new_block in Eblock; by injection Eblock as _ <-).
  cbn [mbind option_bind].
  destruct (Z.eqb_spec new_p NULL) as [|_]; [unfold NULL in *; lia|].
  unfold deref_inner at 1. rewrite Hnew. cbn [mbind option_bind].
  unfold Inner.key_num, Inner.set_key_num, Inner.set_content,
    Common.set_key_num.
  cbn [Inner.common Inner.key_size Inner.key_total Inner.content_len
       Inner.content Common.key_num Common.type Common.insert
       Common.max_key Common.compare Common.max_key_num
       Common.min_key_num fresh fresh_inner_node].
  rewrite Hquot. fold item_size. rewrite <- Hcl.
  destruct (memcpy_Some (Mem.zeros cl) 0 content (c0 / 2 * item_size)
              ((c0 - c0 / 2) * item_size))
    as (c1 & Ec1 & Hc1len & Hc1read & Hc1other);
    try (rewrite ?len_zeros; unfold Mem.sizeof_ptr in *; lia).
  rewrite len_zeros in Hc1len by (unfold Mem.sizeof_ptr in *; lia).
  rewrite Ec1. cbn [mbind option_bind].
  subst new_p. eexists _, _. split; [reflexivity|].
  split; [by rewrite !store_oracle|].
  split; [apply deref_fresh_None|].
  split.
  { unfold deref_inner. rewrite deref_store_ne by lia.
    by rewrite (deref_store_eq _ _ _ _ Hold). }
  split.
  { intros q Hq1 Hq2. rewrite !deref_store_ne by lia. by apply Hframe0. }
  split.
  { unfold deref_inner. erewrite deref_store_eq; [reflexivity|].
    rewrite deref_store_ne by lia. exact Hnew. }
  split; [cbn; rewrite Hcl; reflexivity|].
  split; [reflexivity|].
  split; [split; cbn; first [assumption|lia]|].
  split; [split; cbn; first [assumption|lia]|].
  cbn [Inner.content].
  split.
  { intros j Hj.
    destruct (Mem.read content (c0 / 2 * item_size)
                ((c0 - c0 / 2) * item_size)) as [d|] eqn:Ed;
      [|rewrite read_Some in Ed by (unfold Mem.sizeof_ptr in *; lia);
        discriminate].
    replace ((c0 / 2 + j) * item_size)
      with (c0 / 2 * item_size + j * item_size) by lia.
    rewrite (read_sub content d _ _ (j * item_size) item_size Ed) by nia.
    rewrite <- (read_sub c1 d 0 _ (j * item_size) item_size Hc1read)
      by nia.
    reflexivity. }
  rewrite Hc1other by (right; lia).
  apply read_zeros; unfold Mem.sizeof_ptr in *; lia.
Qed.

(** X13. [bp_inner_node_split] on a well-formed inner node with [c]
    entries uses one allocation.  When it fails the call returns -1 with
    NULL and no node changes.  When it succeeds the call returns 0 and a
    new sibling: the node keeps its content and every field but the count,
    now [c / 2]; the sibling has the configuration of a factory-made inner
    node (so no [max_key] function and a zero total), the [c - c / 2]
    upper entries, pointer and key, in order, and zeros behind them; both
    are well formed and no other node changes. *)
Theorem inner_split_outcome (h : heap) (to_split : Z) (old : Inner.t) :
  let c := Inner.key_num old in
  let item_size := Mem.sizeof_ptr + Inner.key_size old in
  deref_inner h to_split = Some old →
  inner_wf old →
  ∃ res new_p h',
    bp_inner_node_split h to_split = Some (res, new_p, h')
    ∧ malloc_oracle h' = tail (malloc_oracle h)
    ∧ ((res = -1 ∧ new_p = NULL ∧ nodes h' = nodes h
        ∧ (head (malloc_oracle h) ≠ Some true
           ∨ SIZE_MAX < Z.of_nat (length (nodes h)) + 1))
       ∨ (res = 0
          ∧ head (malloc_oracle h) = Some true
          ∧ new_p = Z.of_nat (length (nodes h)) + 1
          ∧ deref h new_p = None
          ∧ deref_inner h' to_split = Some (Inner.set_key_num old (c / 2))
          ∧ (∀ q, q ≠ to_split → q ≠ new_p → deref h' q = deref h q)
          ∧ ∃ new',
              deref_inner h' new_p = Some new'
              ∧ Inner.set_content (Inner.set_key_num new' 0)
                                  (Mem.zeros (Inner.content_len old))
                = fresh_inner_node (Common.max_key_num (Inner.common old))
                                   (Inner.key_size old)
                                   (Common.compare (Inner.common old))
              ∧ Inner.key_num new' = c - c / 2
              ∧ inner_wf (Inner.set_key_num old (c / 2))
              ∧ inner_wf new'
              ∧ (∀ j, 0 ≤ j < c - c / 2 →
                 Mem.read (Inner.content new') (j * item_size) item_size
                 = Mem.read (Inner.content old) ((c / 2 + j) * item_size)
                            item_size)
              ∧ Mem.read (Inner.content new') ((c - c / 2) * item_size)
                         (Inner.content_len old - (c - c / 2) * item_size)
                = Some (Mem.zeros (Inner.content_len old
                                   - (c - c / 2) * item_size)))).
Proof.
  intros c item_size Hd Hwf.
  destruct old as [ [ty ins mk cmpf max minn c0] ks kt cl content].
  destruct Hwf as [Hks Hc Hcl Hint Hlen].
  unfold Inner.key_num in *.
  cbn in c, item_size, Hks, Hc, Hcl, Hint, Hlen. subst c.
  assert (c0 ÷ 2 = c0 / 2) as Hquot by (apply Z.quot_div_nonneg; lia).
  assert (0 ≤ c0 / 2 ≤ c0) as Hhalf by (Z.div_mod_to_equations; lia).
  assert (0 < item_size) as Hitem by (subst item_size; unfold Mem.sizeof_ptr; lia).
  assert (max * item_size = cl - Mem.sizeof_ptr) as Hroom
    by (subst item_size; lia).
  assert (0 ≤ c0 / 2 * item_size ∧ 0 ≤ (c0 - c0 / 2) * item_size
          ∧ c0 / 2 * item_size + (c0 - c0 / 2) * item_size = c0 * item_size
          ∧ c0 * item_size ≤ max * item_size) as (Ho1 & Ho2 & Ho3 & Ho4)
    by nia.
  unfold bp_inner_node_split. rewrite Hd. cbn [mbind option_bind].
  cbn [Inner.common Common.max_key_num Inner.key_size Common.compare].
  assert (deref h to_split
          = Some (INNER (Inner.mk (Common.mk ty ins mk cmpf max minn c0)
                                  ks kt cl content))) as Hraw.
  { unfold deref_inner in Hd. destruct (deref h to_split) as [ [x|x]|];
      try discriminate. by injection Hd as ->. }
  assert (head (malloc_oracle h) = Some true
          ∧ Z.of_nat (length (nodes h)) + 1 ≤ SIZE_MAX
          ∨ head (malloc_oracle h) ≠ Some true
          ∨ head (malloc_oracle h) = Some true
            ∧ SIZE_MAX < Z.of_nat (length (nodes h)) + 1) as Hcases.
  { destruct (malloc_oracle h) as [|[] ?]; cbn;
      [right; left; discriminate| |right; left; discriminate].
    destruct (Z.le_gt_cases (Z.of_nat (length (nodes h)) + 1) SIZE_MAX);
      [left|right; right]; done. }
  destruct Hcases as [ [Ho Haddr]|[Ho|[Ho Haddr] ] ].
  - (* the allocation succeeds *)
    destruct (malloc_oracle h) as [|o rest] eqn:Eo; [discriminate|].
    injection Ho as ->.
    destruct (bp_inner_node_split_success h to_split
                (Inner.mk (Common.mk ty ins mk cmpf max minn c0) ks kt cl
                          content) rest Hd
                ltac:(split; cbn; assumption) Eo Haddr)
      as (h' & new' & Hrun & Horacle & Hnone & Hold' & Hframe & Hnew' & H).
    unfold bp_inner_node_split in Hrun. rewrite Hd in Hrun.
    cbn [mbind option_bind] in Hrun.
    cbn [Inner.common Common.max_key_num Inner.key_size Common.compare]
      in Hrun.
    rewrite Hrun. eexists 0, _, h'. split; [reflexivity|].
    split; [exact Horacle|]. right.
    split; [reflexivity|]. split; [reflexivity|]. split; [reflexivity|].
    split; [exact Hnone|]. split; [exact Hold'|]. split; [exact Hframe|].
    exists new'. split; [exact Hnew'|]. exact H.
  - (* no memory *)
    rewrite bp_create_inner_node_fail by exact Ho.
    cbn [mbind option_bind]. change (NULL =? NULL) with true. cbn iota.
    eexists (-1), NULL, _. split; [reflexivity|]. split; [reflexivity|].
    left. repeat split. by left.
  - (* no address left *)
    destruct (malloc_oracle h) as [|o rest] eqn:Eo; [discriminate|].
    injection Ho as ->.
    assert (bp_create_inner_node h max ks cmpf
            = Some (NULL, mk_heap (nodes h) rest)) as ->.
    { unfold bp_create_inner_node, malloc. rewrite Eo.
      destruct (Z.leb_spec (Z.of_nat (length (nodes h)) + 1) SIZE_MAX);
        [lia|]. by rewrite andb_false_r. }
    cbn [mbind option_bind]. change (NULL =? NULL) with true. cbn iota.
    eexists (-1), NULL, _. split; [reflexivity|]. split; [reflexivity|].
    left. repeat split. right. lia.
Qed.

Ltac concrete_inner_wf :=
  split; vm_compute; repeat split; first [reflexivity|discriminate].

Lemma inner_split_outcome_witness :
  ∃ root leaf h old,
    full_inner_tree [true] = Some (root, leaf, h)
    ∧ deref_inner h root = Some old
    ∧ inner_wf old
    ∧ ∃ new_p h' new',
        bp_inner_node_split h root = Some (0, new_p, h')
        ∧ deref_inner h' new_p = Some new'
        ∧ Inner.key_num new' = 1
        ∧ Mem.load_ptr (Inner.content new') 0 = Some leaf.
Proof.
  match eval vm_compute in (full_inner_tree [true]) with
  | Some (?r, ?l, ?x) => pose (root := r); pose (leaf := l); pose (h := x)
  end.
  match eval vm_compute in (deref_inner h root) with
  | Some ?x => pose (old := x)
  end.
  assert (deref_inner h root = Some old) as Hd by reflexivity.
  assert (inner_wf old) as Hwf by concrete_inner_wf.
  exists root, leaf, h, old.
  split; [vm_compute; reflexivity|]. split; [exact Hd|].
  split; [exact Hwf|].
  destruct (inner_split_outcome h root old Hd Hwf)
    as (res & new_p & h' & Hrun & _ & [(_ & _ & _ & [Hbad|Hbad])|Hok]).
  - exfalso. apply Hbad. reflexivity.
  - exfalso. vm_compute in Hbad. discriminate.
  - destruct Hok as (-> & _ & _ & _ & _ & _ & new' & Hn & _ & Hk & _ & _
                     & Hitems & _).
    exists new_p, h', new'. split; [exact Hrun|]. split; [exact Hn|].
    split; [exact Hk|].
    unfold Mem.load_ptr.
    rewrite (read_prefix_eq (Inner.content new') (Inner.content old) 0 0
               (Mem.sizeof_ptr + Inner.key_size old) Mem.sizeof_ptr);
      [reflexivity|vm_compute; split; discriminate|lia
      |vm_compute; discriminate|].
    exact (Hitems 0 ltac:(vm_compute; split; [discriminate|reflexivity])).
Defined.

(** ** Insert through an inner node *)

Section Route.

Variables (content : list byte) (item_size n : Z).
Variables (target : list byte) (target_size offset : Z).
Variable cmp : bp_compare_f.

Hypothesis Hpacked : packed_array content item_size offset target_size n.
Hypothesis Htarget : target_size ≤ Mem.len target.
Hypothesis Hcmp : total_preorder cmp target_size.
Hypothesis Hsorted : sorted_items cmp content item_size offset target_size n.

Local Abbreviation kc := (target_vs_item cmp content item_size offset target
                                         target_size).

(** the index [bp_bi_search_last] leaves in [found_idx], as
    [bp_inner_node_insert_data] uses it: [n] when every key is below the
    target, else the index of the last key equal to the target or, when
    there is none, of the first key above it *)
Lemma search_last_route (compare : option bp_compare_f) :
  compare_or_default compare = cmp →
  ∃ found idx,
    bp_bi_search_last content (n * item_size) item_size target target_size
                      offset compare = Some (found, idx)
    ∧ 0 ≤ idx ≤ n
    ∧ (idx = n → ∀ i, 0 ≤ i < n → 0 < kc i)
    ∧ (idx < n →
       kc idx ≤ 0
       ∧ (∀ i, 0 ≤ i < idx → 0 ≤ kc i)
       ∧ (∀ i, idx < i < n → kc i < 0)).
Proof using Hpacked Htarget Hcmp Hsorted.
  intros Hc.
  destruct (bp_bi_search_last_spec content item_size n target target_size
              offset cmp Hpacked Htarget Hcmp Hsorted compare Hc)
    as (found1 & idx1 & found & idx & _ & Hlast & Hpost & -> & H0 & H1).
  exists found1, idx. split; [exact Hlast|].
  destruct Hpost as [(-> & Hidx & Hz)|(-> & Hidx & Hlo & Hhi)].
  - destruct (H1 eq_refl) as (Hr & Hzl & Hright).
    split; [lia|]. split; [lia|]. intros _. split; [lia|]. split.
    + intros i Hi. destruct (Z.lt_ge_cases (kc i) 0) as [Hneg|]; [|done].
      pose proof (kc_below content item_size n target target_size offset cmp
                    Hpacked Htarget Hcmp Hsorted idx i ltac:(lia) ltac:(lia)
                    ltac:(lia) Hneg). lia.
    + intros i Hi. pose proof (Hright i ltac:(lia)) as Hne.
      destruct (Z.lt_ge_cases 0 (kc i)) as [Hpos|]; [|lia].
      pose proof (kc_above content item_size n target target_size offset cmp
                    Hpacked Htarget Hcmp Hsorted idx i ltac:(lia) ltac:(lia)
                    ltac:(lia) Hpos). lia.
  - rewrite (H0 eq_refl). split; [lia|]. split.
    + intros -> i Hi. by apply Hlo.
    + intros Hlt. split; [pose proof (Hhi idx1 ltac:(lia)); lia|]. split.
      * intros i Hi. pose proof (Hlo i Hi). lia.
      * intros i Hi. apply Hhi. lia.
Qed.

End Route.

Lemma deref_data_raw (h : heap) (p : Z) (d : Data.t) :
  deref_data h p = Some d → deref h p = Some (DATA d).
Proof.
  unfold deref_data. destruct (deref h p) as [ [x|x]|]; try discriminate.
  by intros [= ->].
Qed.

Lemma deref_inner_raw (h : heap) (p : Z) (i : Inner.t) :
  deref_inner h p = Some i → deref h p = Some (INNER i).
Proof.
  unfold deref_inner. destruct (deref h p) as [ [x|x]|]; try discriminate.
  by intros [= ->].
Qed.

(** an insert that does not split the leaf depends on the leaf only *)
Lemma data_insert_other_heap (h h1 : heap) (p : Z) (d d' : Data.t)
    (k v k' : list byte) (r pn : Z) :
  deref_data h p = Some d → deref_data h1 p = Some d →
  bp_data_node_need_split d = false →
  bp_data_node_insert_data h p k v = Some (r, pn, k', store h p (DATA d')) →
  bp_data_node_insert_data h1 p k v
  = Some (r, pn, k', store h1 p (DATA d')).
Proof.
  intros Hd Hd1 Hfull.
  rewrite (data_insert_no_split h p d k v Hd Hfull).
  rewrite (data_insert_no_split h1 p d k v Hd1 Hfull).
  rewrite Hd, Hd1. cbn [mbind option_bind]. cbn zeta. intros H.
  bind_step H Es. destruct p0 as [found idx].
  cbn [mbind option_bind]. cbn zeta in H |- *.
  bind_step H E1. cbn [mbind option_bind].
  bind_step H E2. cbn [mbind option_bind].
  bind_step H E3. cbn [mbind option_bind].
  injection H as <- <- <- Hst. do 2 f_equal.
  apply deref_data_raw in Hd.
  pose proof (deref_store_eq h p _ (DATA d') Hd) as Hx.
  rewrite <- Hst in Hx. rewrite (deref_store_eq h p _ _ Hd) in Hx.
  by injection Hx as ->.
Qed.

(** [bp_inner_node_insert_data] up to the call on the child: an empty
    node takes the key as its first separator, the search gives [idx], the
    last separator becomes the key when [idx] is the count, and the child
    is the one of entry [j]; [rec] stands for the nested call *)
Lemma inner_insert_route
    (rec : heap → Z → list byte → list byte
           → option (Z * Z * list byte * heap))
    (h : heap) (node : Z) (inner : Inner.t) (key position : list byte) :
  let n := Inner.key_num inner in
  let item_size := Mem.sizeof_ptr + Inner.key_size inner in
  let cmp := compare_or_default (Common.compare (Inner.common inner)) in
  let kc := target_vs_item cmp (Inner.content inner) item_size Mem.sizeof_ptr
                           key (Inner.key_size inner) in
  deref_inner h node = Some inner →
  inner_wf inner →
  1 ≤ Common.max_key_num (Inner.common inner) →
  Inner.key_size inner ≤ Mem.len key →
  total_preorder cmp (Inner.key_size inner) →
  sorted_items cmp (Inner.content inner) item_size Mem.sizeof_ptr
               (Inner.key_size inner) n →
  ∃ idx content2,
    let n1 := Z.max n 1 in
    let j := if idx =? n1 then n1 - 1 else idx in
    let inner2 := Inner.set_content (Inner.set_key_num inner n1) content2 in
    (inner ← deref_inner h node;
     inner ←
       (if 0 =? Inner.key_num inner then
          c ← Mem.memcpy (Inner.content inner) Mem.sizeof_ptr key 0
                         (Inner.key_size inner);
          Some (Inner.set_key_num (Inner.set_content inner c) 1)
        else Some inner);
     let item_size := Mem.sizeof_ptr + Inner.key_size inner in
     let valid_data_len := Inner.key_num inner * item_size in
     '(_, found_idx) ←
       bp_bi_search_last (Inner.content inner) valid_data_len item_size key
                         (Inner.key_size inner) Mem.sizeof_ptr
                         (Common.compare (Inner.common inner));
     inner ←
       (if found_idx =? Inner.key_num inner then
          c ← Mem.memcpy (Inner.content inner)
                         ((found_idx - 1) * item_size + Mem.sizeof_ptr) key 0
                         (Inner.key_size inner);
          Some (Inner.set_content inner c)
        else Some inner);
     let h := store h node (INNER inner) in
     child ← bp_inner_node_get_insert_position inner found_idx;
     child_node ← deref h child;
     '(res, split_child, key, h) ←
       match Common.insert (node_common child_node) with
       | None => None
       | Some PTR_bp_data_node_insert_data =>
           bp_data_node_insert_data h child key position
       | Some PTR_bp_inner_node_insert_data => rec h child key position
       end;
     if -1 =? res then Some (-1, NULL, key, h)
     else
       '(_, pp_new, h) ←
         (if split_child =? NULL then Some (0, NULL, h)
          else bp_inner_node_add_split_child h node child split_child
                                             found_idx);
       inner ← deref_inner h node;
       let h := store h node
                  (INNER (Inner.set_key_total inner
                                              (Inner.key_total inner + 1))) in
       Some (0, pp_new, key, h))
    = (let h := store h node (INNER inner2) in
       child ← Mem.load_ptr (Inner.content inner) (j * item_size);
       child_node ← deref h child;
       '(res, split_child, key, h) ←
         match Common.insert (node_common child_node) with
         | None => None
         | Some PTR_bp_data_node_insert_data =>
             bp_data_node_insert_data h child key position
         | Some PTR_bp_inner_node_insert_data => rec h child key position
         end;
       if -1 =? res then Some (-1, NULL, key, h)
       else
         '(_, pp_new, h) ←
           (if split_child =? NULL then Some (0, NULL, h)
            else bp_inner_node_add_split_child h node child split_child
                                               idx);
         inner ← deref_inner h node;
         let h := store h node
                    (INNER (Inner.set_key_total inner
                                                (Inner.key_total inner + 1)))
         in
         Some (0, pp_new, key, h))
    ∧ 0 ≤ idx ≤ n1
    ∧ (n = 0 → idx = 0)
    ∧ (n ≠ 0 → idx = n → ∀ i, 0 ≤ i < n → 0 < kc i)
    ∧ (n ≠ 0 → idx < n →
       kc idx ≤ 0
       ∧ (∀ i, 0 ≤ i < idx → 0 ≤ kc i)
       ∧ (∀ i, idx < i < n → kc i < 0))
    ∧ Mem.len content2 = Mem.len (Inner.content inner)
    ∧ (∀ o m,
         o + m ≤ j * item_size + Mem.sizeof_ptr
         ∨ j * item_size + Mem.sizeof_ptr + Inner.key_size inner ≤ o →
         Mem.read content2 o m = Mem.read (Inner.content inner) o m)
    ∧ (if (n =? 0) || (idx =? n1)
       then Mem.read content2 (j * item_size + Mem.sizeof_ptr)
                     (Inner.key_size inner)
            = Some (take (Z.to_nat (Inner.key_size inner)) key)
       else content2 = Inner.content inner)
    ∧ sorted_items cmp content2 item_size Mem.sizeof_ptr
                   (Inner.key_size inner) n1.
Proof.
  intros n item_size cmp kc Hd Hwf Hmax Hkey Hcmp Hsorted.
  destruct inner as [ [ty ins mk cmpf max minn n0] ks kt cl content].
  destruct Hwf as [Hks Hc Hcl Hint Hlen].
  unfold Inner.key_num in *.
  cbn in n, item_size, cmp, kc, Hks, Hc, Hcl, Hint, Hlen, Hmax, Hkey, Hcmp,
    Hsorted.
  subst n. fold item_size in Hsorted. fold cmp in Hsorted.
  set (n1 := Z.max n0 1).
  assert (0 < item_size ∧ item_size = Mem.sizeof_ptr + ks
          ∧ Mem.sizeof_ptr = 8) as (Hitem & Hitem' & Hptr)
    by (subst item_size; unfold Mem.sizeof_ptr; lia).
  assert (1 ≤ n1 ≤ max ∧ n0 ≤ n1) as (Hn1 & Hn01) by (subst n1; lia).
  assert (∀ i, 0 ≤ i < max →
            0 ≤ i * item_size ∧ (i + 1) * item_size + 8 ≤ Mem.len content)
    as Hfit.
  { intros i Hi. rewrite Hlen, Hcl. unfold Mem.sizeof_ptr in *.
    assert ((i + 1) * item_size ≤ max * item_size) by nia.
    subst item_size. nia. }
  rewrite Hd. cbn [mbind option_bind].
  unfold Inner.key_num, Inner.set_key_num, Inner.set_content,
    Inner.set_key_total, Common.set_key_num.
  cbn [Inner.common Inner.key_size Inner.key_total Inner.content_len
       Inner.content Common.key_num Common.type Common.insert
       Common.max_key Common.compare Common.max_key_num
       Common.min_key_num].
  (* the first separator of an empty node *)
  assert (∃ content1,
            (if 0 =? n0
             then c ← Mem.memcpy content Mem.sizeof_ptr key 0 ks;
                  Some (Inner.mk (Common.mk ty ins mk cmpf max minn 1)
                                 ks kt cl c)
             else Some (Inner.mk (Common.mk ty ins mk cmpf max minn n0)
                                 ks kt cl content))
            = Some (Inner.mk (Common.mk ty ins mk cmpf max minn n1)
                             ks kt cl content1)
            ∧ Mem.len content1 = Mem.len content
            ∧ (∀ o m, o + m ≤ 8 ∨ 8 + ks ≤ o →
                      Mem.read content1 o m = Mem.read content o m)
            ∧ (n0 ≠ 0 → content1 = content)
            ∧ (n0 = 0 → Mem.read content1 8 ks
                        = Some (take (Z.to_nat ks) key)))
    as (content1 & -> & Hlen1 & Hother1 & Hsame1 & Hadopt).
  { destruct (Z.eqb_spec 0 n0) as [Hz|Hnz].
    - destruct (Hfit 0 ltac:(lia)) as [_ Hf0].
      destruct (memcpy_Some content Mem.sizeof_ptr key 0 ks)
        as (c1 & Ec1 & Hc1len & Hc1read & Hc1other); try lia.
      exists c1. rewrite Ec1. cbn [mbind option_bind].
      replace n1 with 1 by (subst n1; lia).
      split; [reflexivity|]. split; [exact Hc1len|].
      split; [intros o m Hom; apply Hc1other; lia|].
      split; [lia|]. intros _. rewrite <- Hptr, Hc1read.
      by rewrite read_Some by lia.
    - exists content. replace n1 with n0 by (subst n1; lia).
      split; [reflexivity|]. split; [reflexivity|].
      split; [reflexivity|]. split; [reflexivity|]. lia. }
  cbn [mbind option_bind]. cbn zeta.
  cbn [Inner.common Inner.key_size Inner.key_total Inner.content_len
       Inner.content Common.key_num Common.compare].
  fold item_size.
  (* the search among the separators *)
  assert (packed_array content1 item_size Mem.sizeof_ptr ks n1) as Hpacked.
  { destruct (Hfit (n1 - 1) ltac:(lia)).
    replace (n1 - 1 + 1) with n1 in * by lia.
    split; lia. }
  set (kc1 := target_vs_item cmp content1 item_size Mem.sizeof_ptr key ks).
  assert (n0 = 0 → kc1 0 = 0) as Hkc0.
  { intros Hz. unfold kc1, target_vs_item.
    assert (item_key content1 item_size Mem.sizeof_ptr ks 0
            = take (Z.to_nat ks) key) as ->.
    { specialize (Hadopt Hz). apply read_inv in Hadopt as (_ & _ & _ & E).
      unfold item_key. rewrite E. do 2 f_equal; lia. }
    apply (cmp_refl_zero _ _ _ Hcmp). unfold Mem.len in *.
    rewrite length_take. lia. }
  assert (sorted_items cmp content1 item_size Mem.sizeof_ptr ks n1)
    as Hsorted1.
  { destruct (Z.eq_dec n0 0) as [Hz|Hnz].
    - intros i j Hi Hij Hj. replace n1 with 1 in Hj by (subst n1; lia).
      replace j with 0 by lia. replace i with 0 by lia.
      apply Z.eq_le_incl, (cmp_refl_zero _ _ _ Hcmp).
      destruct (Hfit 0 ltac:(lia)). apply len_take_drop; lia.
    - rewrite (Hsame1 Hnz). replace n1 with n0 by (subst n1; lia).
      exact Hsorted. }
  destruct (search_last_route content1 item_size n1 key ks Mem.sizeof_ptr cmp
              Hpacked Hkey Hcmp Hsorted1 cmpf eq_refl)
    as (found & idx & -> & Hidx & Hall & Hsome).
  fold kc1 in Hall, Hsome. cbn [mbind option_bind].
  assert (n0 = 0 → idx = 0) as Hidx0.
  { intros Hz. destruct (Z.eq_dec idx n1) as [He|Hn].
    - pose proof (Hall He 0 ltac:(lia)). specialize (Hkc0 Hz). lia.
    - subst n1. lia. }
  set (j := if idx =? n1 then n1 - 1 else idx).
  assert (0 ≤ j < n1) as Hj by (subst j; destruct (Z.eqb_spec idx n1); lia).
  destruct (Hfit j ltac:(lia)) as [Hj0 Hj1].
  (* the widening of the last separator *)
  assert (∃ content2,
            (if idx =? n1
             then c ← Mem.memcpy content1
                        ((idx - 1) * item_size + Mem.sizeof_ptr) key 0 ks;
                  Some (Inner.mk (Common.mk ty ins mk cmpf max minn n1)
                                 ks kt cl c)
             else Some (Inner.mk (Common.mk ty ins mk cmpf max minn n1)
                                 ks kt cl content1))
            = Some (Inner.mk (Common.mk ty ins mk cmpf max minn n1)
                             ks kt cl content2)
            ∧ Mem.len content2 = Mem.len content
            ∧ (∀ o m, o + m ≤ j * item_size + 8
                      ∨ j * item_size + 8 + ks ≤ o →
                      Mem.read content2 o m = Mem.read content1 o m)
            ∧ (idx < n1 → content2 = content1)
            ∧ (idx = n1 → Mem.read content2 (j * item_size + 8) ks
                          = Some (take (Z.to_nat ks) key)))
    as (content2 & -> & Hlen2 & Hother2 & Hsame2 & Hwiden).
  { subst j. destruct (Z.eqb_spec idx n1) as [He|Hn].
    - subst idx.
      destruct (memcpy_Some content1
                  ((n1 - 1) * item_size + Mem.sizeof_ptr) key 0 ks)
        as (c2 & Ec2 & Hc2len & Hc2read & Hc2other); try lia.
      exists c2. rewrite Ec2. cbn [mbind option_bind].
      split; [reflexivity|]. split; [lia|].
      split; [intros o m Hom; apply Hc2other; lia|].
      split; [lia|]. intros _. rewrite <- Hptr, Hc2read.
      by rewrite read_Some by lia.
    - exists content1. split; [reflexivity|]. split; [exact Hlen1|].
      split; [reflexivity|]. split; [reflexivity|]. lia. }
  cbn [mbind option_bind].
  (* the child *)
  set (inner2 := Inner.mk (Common.mk ty ins mk cmpf max minn n1) ks kt cl
                          content2).
  assert (∀ i, 0 ≤ i < n1 →
            Mem.read content1 (i * item_size) 8
            = Mem.read content (i * item_size) 8) as Hptrs1.
  { intros i Hi. destruct (Z.eq_dec n0 0) as [Hz|Hnz].
    - replace i with 0 by (subst n1; lia). apply Hother1. lia.
    - by rewrite (Hsame1 Hnz). }
  assert (bp_inner_node_get_insert_position inner2 idx
          = Mem.load_ptr content (j * item_size)) as ->.
  { unfold bp_inner_node_get_insert_position, Inner.key_num, Mem.load_ptr.
    cbn [inner2 Inner.common Inner.key_size Inner.content Common.key_num].
    fold item_size. rewrite Hptr.
    assert (idx < n1 ∧ idx = j ∨ idx = n1 ∧ n1 - 1 = j) as Hjj
      by (subst j; destruct (Z.eqb_spec idx n1); lia).
    destruct (Z.ltb_spec idx n1), Hjj as [ [H1 H2]|[H1 H2] ]; try lia;
      rewrite H2, Hother2, Hptrs1 by lia; reflexivity. }
  assert (n0 ≠ 0 → kc1 = kc) as Hkc.
  { intros Hnz. unfold kc1, kc. by rewrite (Hsame1 Hnz). }
  assert (idx < n1 ∧ idx = j ∨ idx = n1 ∧ n1 - 1 = j) as Hjj
    by (subst j; destruct (Z.eqb_spec idx n1); lia).
  exists idx, content2.
  unfold Inner.set_content, Inner.set_key_num, Common.set_key_num.
  cbn [Inner.common Inner.key_size Inner.key_total Inner.content_len
       Inner.content Common.key_num Common.type Common.insert
       Common.max_key Common.compare Common.max_key_num
       Common.min_key_num].
  fold n1 j inner2. cbv zeta.
  split; [reflexivity|]. split; [exact Hidx|]. split; [exact Hidx0|].
  split.
  { intros Hnz He i Hi. rewrite <- (Hkc Hnz). apply Hall; subst n1; lia. }
  split.
  { intros Hnz Hlt. rewrite <- (Hkc Hnz).
    destruct (Hsome ltac:(subst n1; lia)) as (Hle & Hlo & Hhi).
    split; [exact Hle|]. split; [exact Hlo|].
    intros i Hi. apply Hhi. subst n1. lia. }
  split; [exact Hlen2|].
  split.
  { intros o m Hom. rewrite Hother2 by lia.
    destruct (Z.eq_dec n0 0) as [Hz|Hnz]; [|by rewrite (Hsame1 Hnz)].
    apply Hother1. specialize (Hidx0 Hz). nia. }
  split.
  { destruct (Z.eqb_spec n0 0) as [Hz|Hnz]; cbn [orb].
    - specialize (Hidx0 Hz). rewrite Hsame2 by lia.
      replace j with 0 by lia. by apply Hadopt.
    - destruct Hjj as [ [H1 H2]|[H1 H2] ].
      + destruct (Z.eqb_spec idx n1); [lia|].
        rewrite (Hsame2 H1). by apply Hsame1.
      + destruct (Z.eqb_spec idx n1); [|lia].
        rewrite Hptr. by apply Hwiden. }
  (* the separators stay sorted *)
  destruct Hjj as [ [H1 H2]|[H1 H2] ]; [by rewrite (Hsame2 H1)|].
  assert (∀ i, 0 ≤ i < n1 →
            item_key content2 item_size Mem.sizeof_ptr ks i
            = if i =? j then take (Z.to_nat ks) key
              else item_key content1 item_size Mem.sizeof_ptr ks i) as Hkeys.
  { intros i Hi. destruct (Hfit i ltac:(lia)) as [Hi0 Hi1].
    assert (Some (item_key content2 item_size Mem.sizeof_ptr ks i)
            = Some (if i =? j then take (Z.to_nat ks) key
                    else item_key content1 item_size Mem.sizeof_ptr ks i))
      as [= ->]; [|done].
    rewrite <- item_key_read by lia. rewrite Hptr.
    destruct (Z.eqb_spec i j) as [->|Hij].
    - by apply Hwiden.
    - rewrite Hother2 by nia. rewrite <- Hptr. apply item_key_read; lia. }
  intros a b Ha Hab Hb. rewrite !Hkeys by lia.
  assert (Mem.len (take (Z.to_nat ks) key) = ks) as Htk.
  { unfold Mem.len in *. rewrite length_take. lia. }
  destruct (Z.eqb_spec a j) as [->|Haj], (Z.eqb_spec b j) as [->|Hbj];
    try lia.
  - apply Z.eq_le_incl, (cmp_refl_zero _ _ _ Hcmp), Htk.
  - pose proof (Hall H1 a ltac:(lia)) as Hpos.
    unfold kc1, target_vs_item in Hpos.
    destruct (Hfit a ltac:(lia)).
    pose proof (cmp_antisym _ _ Hcmp
                  (item_key content1 item_size Mem.sizeof_ptr ks a)
                  (take (Z.to_nat ks) key)
                  ltac:(apply len_take_drop; lia) Htk). lia.
  - apply Hsorted1; lia.
Qed.

(** one level of [bp_inner_node_insert_data] over a leaf that takes the
    item without a split; [rec] stands for the nested call *)
Lemma inner_insert_leaf_step
    (rec : heap → Z → list byte → list byte
           → option (Z * Z * list byte * heap))
    (h : heap) (node : Z) (inner : Inner.t) (key position : list byte) :
  let n := Inner.key_num inner in
  let item_size := Mem.sizeof_ptr + Inner.key_size inner in
  let cmp := compare_or_default (Common.compare (Inner.common inner)) in
  let kc := target_vs_item cmp (Inner.content inner) item_size Mem.sizeof_ptr
                           key (Inner.key_size inner) in
  deref_inner h node = Some inner →
  inner_wf inner →
  1 ≤ Common.max_key_num (Inner.common inner) →
  Inner.key_size inner ≤ Mem.len key →
  total_preorder cmp (Inner.key_size inner) →
  sorted_items cmp (Inner.content inner) item_size Mem.sizeof_ptr
               (Inner.key_size inner) n →
  (∀ j, 0 ≤ j < Z.max n 1 →
     ∃ child d d',
       Mem.load_ptr (Inner.content inner) (j * item_size) = Some child
       ∧ deref_data h child = Some d
       ∧ Common.insert (Data.common d) = Some PTR_bp_data_node_insert_data
       ∧ bp_data_node_need_split d = false
       ∧ bp_data_node_insert_data h child key position
         = Some (0, NULL, key, store h child (DATA d'))) →
  ∃ j child d' inner' h',
    (inner ← deref_inner h node;
     inner ←
       (if 0 =? Inner.key_num inner then
          c ← Mem.memcpy (Inner.content inner) Mem.sizeof_ptr key 0
                         (Inner.key_size inner);
          Some (Inner.set_key_num (Inner.set_content inner c) 1)
        else Some inner);
     let item_size := Mem.sizeof_ptr + Inner.key_size inner in
     let valid_data_len := Inner.key_num inner * item_size in
     '(_, found_idx) ←
       bp_bi_search_last (Inner.content inner) valid_data_len item_size key
                         (Inner.key_size inner) Mem.sizeof_ptr
                         (Common.compare (Inner.common inner));
     inner ←
       (if found_idx =? Inner.key_num inner then
          c ← Mem.memcpy (Inner.content inner)
                         ((found_idx - 1) * item_size + Mem.sizeof_ptr) key 0
                         (Inner.key_size inner);
          Some (Inner.set_content inner c)
        else Some inner);
     let h := store h node (INNER inner) in
     child ← bp_inner_node_get_insert_position inner found_idx;
     child_node ← deref h child;
     '(res, split_child, key, h) ←
       match Common.insert (node_common child_node) with
       | None => None
       | Some PTR_bp_data_node_insert_data =>
           bp_data_node_insert_data h child key position
       | Some PTR_bp_inner_node_insert_data => rec h child key position
       end;
     if -1 =? res then Some (-1, NULL, key, h)
     else
       '(_, pp_new, h) ←
         (if split_child =? NULL then Some (0, NULL, h)
          else bp_inner_node_add_split_child h node child split_child
                                             found_idx);
       inner ← deref_inner h node;
       let h := store h node
                  (INNER (Inner.set_key_total inner
                                              (Inner.key_total inner + 1))) in
       Some (0, pp_new, key, h))
    = Some (0, NULL, key, h')
    ∧ 0 ≤ j < Z.max n 1
    ∧ (∀ i, 0 ≤ i < j → 0 ≤ kc i)
    ∧ (∀ i, j < i < n → kc i < 0)
    ∧ (j < n - 1 → kc j ≤ 0)
    ∧ Mem.load_ptr (Inner.content inner) (j * item_size) = Some child
    ∧ bp_data_node_insert_data h child key position
      = Some (0, NULL, key, store h child (DATA d'))
    ∧ deref_data h' child = Some d'
    ∧ deref_inner h' node = Some inner'
    ∧ (∀ q, q ≠ node → q ≠ child → deref h' q = deref h q)
    ∧ malloc_oracle h' = malloc_oracle h
    ∧ Inner.set_content
        (Inner.set_key_total (Inner.set_key_num inner' n)
                             (Inner.key_total inner))
        (Inner.content inner)
      = inner
    ∧ Inner.key_num inner' = Z.max n 1
    ∧ Inner.key_total inner' = Inner.key_total inner + 1
    ∧ inner_wf inner'
    ∧ (∀ o m,
         o + m ≤ j * item_size + Mem.sizeof_ptr
         ∨ j * item_size + Mem.sizeof_ptr + Inner.key_size inner ≤ o →
         Mem.read (Inner.content inner') o m
         = Mem.read (Inner.content inner) o m)
    ∧ (if (n =? 0) || (0 <? kc j)
       then Mem.read (Inner.content inner')
                     (j * item_size + Mem.sizeof_ptr) (Inner.key_size inner)
            = Some (take (Z.to_nat (Inner.key_size inner)) key)
       else Inner.content inner' = Inner.content inner)
    ∧ sorted_items cmp (Inner.content inner') item_size Mem.sizeof_ptr
                   (Inner.key_size inner) (Z.max n 1).
Proof.
  intros n item_size cmp kc Hd Hwf Hmax Hkey Hcmp Hsorted Hchildren.
  destruct (inner_insert_route rec h node inner key position Hd Hwf Hmax
              Hkey Hcmp Hsorted) as (idx & content2 & H).
  cbv zeta in H. fold n item_size cmp in H. fold kc in H.
  set (n1 := Z.max n 1) in *.
  set (j := if idx =? n1 then n1 - 1 else idx) in *.
  set (inner2 := Inner.set_content (Inner.set_key_num inner n1) content2)
    in *.
  destruct H as (Heq & Hidx & Hidx0 & Hall & Hsome & Hlen2 & Hother & Hsep
                 & Hsorted2).
  cbv zeta. rewrite Heq. clear Heq.
  assert (idx < n1 ∧ idx = j ∨ idx = n1 ∧ n1 - 1 = j) as Hjj
    by (subst j; destruct (Z.eqb_spec idx n1); lia).
  assert (0 ≤ j < n1) as Hj by (subst n1; lia).
  assert (0 ≤ n) as Hn0 by (destruct Hwf; subst n; lia).
  destruct (Hchildren j Hj) as (child & d & d' & Hload & Hdd & Hins & Hneed
                                & Hcall).
  rewrite Hload. cbn [mbind option_bind].
  pose proof (deref_inner_raw _ _ _ Hd) as Hraw.
  pose proof (deref_data_raw _ _ _ Hdd) as Hrawd.
  assert (node ≠ child) as Hne by (intros ->; congruence).
  rewrite deref_store_ne by exact Hne. rewrite Hrawd.
  cbn [mbind option_bind node_common]. rewrite Hins.
  rewrite (data_insert_other_heap h (store h node (INNER inner2)) child d d'
             key position key 0 NULL Hdd);
    [|unfold deref_data; by rewrite deref_store_ne, Hrawd|exact Hneed
     |exact Hcall].
  cbn [mbind option_bind]. change (-1 =? 0) with false.
  change (NULL =? NULL) with true. cbn iota. cbn [mbind option_bind].
  unfold deref_inner at 1. rewrite deref_store_ne by congruence.
  rewrite (deref_store_eq _ _ _ _ Hraw). cbn [mbind option_bind].
  set (inner' := Inner.set_key_total inner2 (Inner.key_total inner2 + 1)).
  exists j, child, d', inner'. eexists. split; [reflexivity|].
  split; [exact Hj|].
  split.
  { intros i Hi. destruct (Z.eq_dec n 0) as [Hz|Hnz].
    - specialize (Hidx0 Hz). lia.
    - destruct Hjj as [ [H1 H2]|[H1 H2] ].
      + destruct (Hsome Hnz ltac:(subst n1; lia)) as (_ & Hlo & _).
        apply Hlo. lia.
      + pose proof (Hall Hnz ltac:(subst n1; lia) i ltac:(subst n1; lia)).
        lia. }
  split.
  { intros i Hi. assert (n ≠ 0) as Hnz by lia.
    destruct Hjj as [ [H1 H2]|[H1 H2] ]; [|subst n1; lia].
    destruct (Hsome Hnz ltac:(subst n1; lia)) as (_ & _ & Hhi).
    apply Hhi. lia. }
  split.
  { intros Hlt. assert (n ≠ 0) as Hnz by lia.
    destruct Hjj as [ [H1 H2]|[H1 H2] ]; [|subst n1; lia].
    destruct (Hsome Hnz ltac:(subst n1; lia)) as (Hle & _).
    by rewrite <- H2. }
  split; [exact Hload|]. split; [exact Hcall|].
  assert (deref (store h node (INNER inner2)) child = Some (DATA d)) as Hc1
    by (by rewrite deref_store_ne).
  assert (deref (store (store h node (INNER inner2)) child (DATA d')) node
          = Some (INNER inner2)) as Hn2.
  { rewrite deref_store_ne by congruence.
    by apply (deref_store_eq _ _ _ _ Hraw). }
  split.
  { unfold deref_data. rewrite deref_store_ne by exact Hne.
    by rewrite (deref_store_eq _ _ _ _ Hc1). }
  split; [unfold deref_inner; by rewrite (deref_store_eq _ _ _ _ Hn2)|].
  split; [intros q Hq1 Hq2; by rewrite !deref_store_ne by congruence|].
  split; [by rewrite !store_oracle|].
  split; [subst n; by destruct inner as [ [] ]|].
  split; [reflexivity|]. split; [reflexivity|].
  split.
  { destruct Hwf as [H1 H2 H3 H4 H5]. fold n in H2.
    split; cbn; first [assumption|subst n1; lia|congruence]. }
  change (Inner.content inner') with content2.
  split; [exact Hother|].
  split; [|exact Hsorted2].
  destruct (Z.eqb_spec n 0) as [Hz|Hnz]; cbn [orb] in Hsep |- *;
    [exact Hsep|].
  destruct Hjj as [ [H1 H2]|[H1 H2] ].
  - destruct (Hsome Hnz ltac:(subst n1; lia)) as (Hle & _).
    rewrite <- H2. destruct (Z.ltb_spec 0 (kc idx)); [lia|].
    destruct (Z.eqb_spec idx n1); [lia|]. exact Hsep.
  - pose proof (Hall Hnz ltac:(subst n1; lia) j ltac:(subst n1; lia)).
    destruct (Z.ltb_spec 0 (kc j)); [|lia].
    destruct (Z.eqb_spec idx n1); [|lia]. exact Hsep.
Qed.

(** the same at any depth of nesting *)
Lemma inner_insert_leaf_spec
    (depth : nat) (h : heap) (node : Z) (inner : Inner.t)
    (key position : list byte) :
  let n := Inner.key_num inner in
  let item_size := Mem.sizeof_ptr + Inner.key_size inner in
  let cmp := compare_or_default (Common.compare (Inner.common inner)) in
  let kc := target_vs_item cmp (Inner.content inner) item_size Mem.sizeof_ptr
                           key (Inner.key_size inner) in
  deref_inner h node = Some inner →
  inner_wf inner →
  1 ≤ Common.max_key_num (Inner.common inner) →
  Inner.key_size inner ≤ Mem.len key →
  total_preorder cmp (Inner.key_size inner) →
  sorted_items cmp (Inner.content inner) item_size Mem.sizeof_ptr
               (Inner.key_size inner) n →
  (∀ j, 0 ≤ j < Z.max n 1 →
     ∃ child d d',
       Mem.load_ptr (Inner.content inner) (j * item_size) = Some child
       ∧ deref_data h child = Some d
       ∧ Common.insert (Data.common d) = Some PTR_bp_data_node_insert_data
       ∧ bp_data_node_need_split d = false
       ∧ bp_data_node_insert_data h child key position
         = Some (0, NULL, key, store h child (DATA d'))) →
  ∃ j child d' inner' h',
    bp_inner_node_insert_data depth h node key position
    = Some (0, NULL, key, h')
    ∧ 0 ≤ j < Z.max n 1
    ∧ (∀ i, 0 ≤ i < j → 0 ≤ kc i)
    ∧ (∀ i, j < i < n → kc i < 0)
    ∧ (j < n - 1 → kc j ≤ 0)
    ∧ Mem.load_ptr (Inner.content inner) (j * item_size) = Some child
    ∧ bp_data_node_insert_data h child key position
      = Some (0, NULL, key, store h child (DATA d'))
    ∧ deref_data h' child = Some d'
    ∧ deref_inner h' node = Some inner'
    ∧ (∀ q, q ≠ node → q ≠ child → deref h' q = deref h q)
    ∧ malloc_oracle h' = malloc_oracle h
    ∧ Inner.set_content
        (Inner.set_key_total (Inner.set_key_num inner' n)
                             (Inner.key_total inner))
        (Inner.content inner)
      = inner
    ∧ Inner.key_num inner' = Z.max n 1
    ∧ Inner.key_total inner' = Inner.key_total inner + 1
    ∧ inner_wf inner'
    ∧ (∀ o m,
         o + m ≤ j * item_size + Mem.sizeof_ptr
         ∨ j * item_size + Mem.sizeof_ptr + Inner.key_size inner ≤ o →
         Mem.read (Inner.content inner') o m
         = Mem.read (Inner.content inner) o m)
    ∧ (if (n =? 0) || (0 <? kc j)
       then Mem.read (Inner.content inner')
                     (j * item_size + Mem.sizeof_ptr) (Inner.key_size inner)
            = Some (take (Z.to_nat (Inner.key_size inner)) key)
       else Inner.content inner' = Inner.content inner)
    ∧ sorted_items cmp (Inner.content inner') item_size Mem.sizeof_ptr
                   (Inner.key_size inner) (Z.max n 1).
Proof.
  intros n item_size cmp kc Hd Hwf Hmax Hkey Hcmp Hsorted Hchildren.
  destruct depth as [|depth].
  - exact (inner_insert_leaf_step (λ _ _ _ _, None) h node inner key position
             Hd Hwf Hmax Hkey Hcmp Hsorted Hchildren).
  - exact (inner_insert_leaf_step (bp_inner_node_insert_data depth) h node
             inner key position Hd Hwf Hmax Hkey Hcmp Hsorted Hchildren).
Qed.



(** ** The first key of a tree *)

Lemma bp_create_tree_success (h : heap)
    (max_idx_num max_data_num key_size value_size : Z)
    (compare : option bp_compare_f) (rest : list bool) :
  let n := Z.of_nat (length (nodes h)) in
  let head_node := fresh_inner_node max_idx_num key_size compare in
  let leaf := fresh_data_node max_data_num (max_idx_num ÷ 2) key_size
                              value_size compare in
  0 ≤ key_size → 0 ≤ value_size → 0 ≤ max_idx_num →
  max_idx_num ≤ max_data_num →
  max_idx_num * (key_size + Mem.sizeof_ptr) + Mem.sizeof_ptr ≤ INT_MAX →
  max_data_num * (key_size + value_size) + Mem.sizeof_ptr ≤ INT_MAX →
  n + 2 ≤ SIZE_MAX →
  malloc_oracle h = true :: true :: true :: rest →
  ∃ h' c,
    bp_create_tree h max_idx_num max_data_num key_size value_size compare
    = Some (Some (Tree.mk max_idx_num max_data_num key_size value_size
                          (n + 1) (n + 2)), h', [])
    ∧ malloc_oracle h' = rest
    ∧ deref_inner h' (n + 1) = Some (Inner.set_content head_node c)
    ∧ deref_data h' (n + 2) = Some leaf
    ∧ (∀ q, q ≠ n + 1 → q ≠ n + 2 → deref h' q = deref h q)
    ∧ Mem.len c = Inner.content_len head_node
    ∧ Mem.load_ptr c 0 = Some (n + 2)
    ∧ ∀ o m, Mem.sizeof_ptr ≤ o →
             Mem.read c o m = Mem.read (Inner.content head_node) o m.
Proof.
  intros n head_node leaf Hks Hvs Hmax Hge Hint1 Hint2 Haddr Eo.
  unfold bp_create_tree.
  destruct (Z.ltb_spec max_data_num max_idx_num) as [Hlt|_]; [lia|].
  assert (0 ≤ max_idx_num * (key_size + Mem.sizeof_ptr) + Mem.sizeof_ptr
          ∧ 0 ≤ max_data_num * (key_size + value_size) + Mem.sizeof_ptr)
    as [Hp1 Hp2] by (unfold Mem.sizeof_ptr; nia).
  assert (sizeof_tree ≤ PTRDIFF_MAX) as Htree by (vm_compute; discriminate).
  rewrite (malloc_success h _ _ Eo Htree) by (subst n; lia).
  cbn [negb]. set (h1 := mk_heap (nodes h) (true :: true :: rest)).
  rewrite (bp_create_inner_node_success h1 _ _ _ (true :: rest) eq_refl)
    by (cbn [h1 nodes]; subst n; lia).
  fold head_node. cbn [h1 nodes].
  set (h2 := mk_heap (nodes h) (true :: rest)).
  pose proof (deref_new_block h2 (INNER head_node)) as Hhead.
  assert (∀ q, q ≠ n + 1 →
            deref (new_block h2 (INNER head_node)).2 q = deref h q) as Hf1.
  { intros q Hq. unfold deref, new_block. cbn [fst snd nodes h2].
    destruct (Z.leb_spec q 0); [reflexivity|].
    destruct (Z.lt_ge_cases (q - 1) n).
    - apply lookup_app_l. subst n. lia.
    - rewrite !lookup_ge_None_2; [reflexivity|subst n; lia|].
      rewrite length_app. cbn [length]. subst n. lia. }
  destruct (new_block h2 (INNER head_node)) as [head h3] eqn:Eb.
  assert (head = n + 1 ∧ nodes h3 = nodes h ++ [INNER head_node]
          ∧ malloc_oracle h3 = true :: rest) as (-> & Hn3 & Ho3).
  { unfold new_block in Eb. by injection Eb as <- <-. }
  cbn [fst snd] in Hhead, Hf1. cbn [mbind option_bind].
  destruct (Z.eqb_spec (n + 1) NULL) as [|_]; [unfold NULL in *; lia|].
  assert (Z.of_nat (length (nodes h3)) = n + 1) as Hlen3.
  { rewrite Hn3, length_app. cbn [length]. subst n. lia. }
  rewrite (bp_create_data_node_success h3 _ _ _ _ _ rest Ho3)
    by (rewrite ?Hlen3; lia).
  fold (fresh_data_node max_data_num (max_idx_num ÷ 2) key_size value_size
                        compare). fold leaf.
  set (h4 := mk_heap (nodes h3) rest).
  assert (deref h4 (n + 1) = Some (INNER head_node)) as Hhead4
    by exact Hhead.
  destruct (deref_new_block_old h4 (DATA leaf) _ _ Hhead4) as [Hhead5 _].
  pose proof (deref_new_block h4 (DATA leaf)) as Hleaf.
  assert (∀ q, q ≠ n + 2 →
            deref (new_block h4 (DATA leaf)).2 q = deref h3 q) as Hf2.
  { intros q Hq. unfold deref, new_block. cbn [fst snd nodes h4].
    destruct (Z.leb_spec q 0); [reflexivity|].
    destruct (Z.lt_ge_cases (q - 1) (n + 1)).
    - apply lookup_app_l. lia.
    - rewrite !lookup_ge_None_2; [reflexivity|lia|].
      rewrite length_app. cbn [length]. lia. }
  destruct (new_block h4 (DATA leaf)) as [data h5] eqn:Eb5.
  assert (data = n + 2 ∧ malloc_oracle h5 = rest) as (-> & Ho5).
  { unfold new_block in Eb5. injection Eb5 as <- <-. cbn [h4 nodes].
    rewrite Hlen3. split; [lia|reflexivity]. }
  cbn [fst snd] in Hhead5, Hleaf, Hf2. cbn [mbind option_bind].
  destruct (Z.eqb_spec (n + 2) NULL) as [|_]; [unfold NULL in *; lia|].
  unfold bp_inner_node_set_first_ptr, deref_inner. rewrite Hhead5.
  cbn [mbind option_bind].
  destruct (store_ptr_Some (Inner.content head_node) 0 (n + 2))
    as (c & Hstore & Hclen & Hload & Hother).
  { lia. }
  { cbn. rewrite len_zeros by lia. unfold Mem.sizeof_ptr in *. lia. }
  { lia. }
  rewrite Hstore. cbn [mbind option_bind].
  exists (store h5 (n + 1) (INNER (Inner.set_content head_node c))), c.
  split; [reflexivity|].
  split; [by rewrite store_oracle|].
  split; [by rewrite (deref_store_eq _ _ _ _ Hhead5)|].
  split; [unfold deref_data; rewrite deref_store_ne by lia; by rewrite Hleaf|].
  split.
  { intros q Hq1 Hq2. rewrite deref_store_ne by lia.
    rewrite Hf2 by exact Hq2. by apply Hf1. }
  split; [rewrite Hclen; cbn; apply len_zeros; lia|].
  split; [exact Hload|].
  intros o m Ho. apply Hother. right. lia.
Qed.

Lemma fresh_data_node_wf (max_kv_num min_kv_num key_size value_size : Z)
    (compare : option bp_compare_f) :
  0 ≤ key_size → 0 ≤ value_size → 0 ≤ max_kv_num →
  max_kv_num * (key_size + value_size) + Mem.sizeof_ptr ≤ INT_MAX →
  data_wf (fresh_data_node max_kv_num min_kv_num key_size value_size compare).
Proof.
  intros Hks Hvs Hmax Hint.
  split; cbn; first [lia|apply len_zeros; unfold Mem.sizeof_ptr; nia].
Qed.

(** X15. A tree made by [bp_create_tree] (all three allocations succeed,
    capacities at least 1) takes its first key through its head: the call
    of [bp_inner_node_insert_data] on the head returns 0 with no sibling,
    the head has one separator, equal to the key, over the first leaf, and
    a total of 1; the first leaf holds the one item, key then position;
    [bp_bi_search_one] on the leaf finds the key at index 0.  Nothing is
    allocated by the insert and no other node changes. *)
Theorem first_key_of_a_tree
    (depth : nat) (h : heap)
    (max_idx_num max_data_num key_size value_size : Z)
    (compare : option bp_compare_f) (rest : list bool)
    (key position : list byte) :
  let n := Z.of_nat (length (nodes h)) in
  let item_size := key_size + value_size in
  0 ≤ key_size → 0 ≤ value_size → 0 < item_size →
  1 ≤ max_idx_num → max_idx_num ≤ max_data_num →
  max_idx_num * (key_size + Mem.sizeof_ptr) + Mem.sizeof_ptr ≤ INT_MAX →
  max_data_num * (key_size + value_size) + Mem.sizeof_ptr ≤ INT_MAX →
  n + 2 ≤ SIZE_MAX →
  malloc_oracle h = true :: true :: true :: rest →
  key_size ≤ Mem.len key → value_size ≤ Mem.len position →
  total_preorder (compare_or_default compare) key_size →
  ∃ t h1 h2 i d,
    bp_create_tree h max_idx_num max_data_num key_size value_size compare
    = Some (Some t, h1, [])
    ∧ Tree.head t = n + 1 ∧ Tree.data t = n + 2
    ∧ bp_inner_node_insert_data depth h1 (Tree.head t) key position
      = Some (0, NULL, key, h2)
    ∧ malloc_oracle h2 = rest
    ∧ (∀ q, q ≠ Tree.head t → q ≠ Tree.data t → deref h2 q = deref h q)
    ∧ deref_inner h2 (Tree.head t) = Some i
    ∧ Inner.key_num i = 1
    ∧ Inner.key_total i = 1
    ∧ Mem.load_ptr (Inner.content i) 0 = Some (Tree.data t)
    ∧ Mem.read (Inner.content i) Mem.sizeof_ptr key_size
      = Some (take (Z.to_nat key_size) key)
    ∧ deref_data h2 (Tree.data t) = Some d
    ∧ Data.key_num d = 1
    ∧ Mem.read (Data.content d) 0 key_size
      = Some (take (Z.to_nat key_size) key)
    ∧ Mem.read (Data.content d) key_size value_size
      = Some (take (Z.to_nat value_size) position)
    ∧ bp_bi_search_one (Data.content d) (Data.key_num d * item_size)
                       item_size key key_size 0 compare
      = Some (1, 0).
Proof.
  intros n item_size Hks Hvs Hitem Hmax Hge Hint1 Hint2 Haddr Eo Hkey Hpos
    Hcmp.
  destruct (bp_create_tree_success h max_idx_num max_data_num key_size
              value_size compare rest Hks Hvs ltac:(lia) Hge Hint1 Hint2
              Haddr Eo)
    as (h1 & c & Hcreate & Ho1 & Hhead & Hleaf & Hframe1 & Hclen & Hfirst
        & Hcrest).
  fold n in Hcreate, Hhead, Hleaf, Hframe1, Hfirst.
  set (leaf := fresh_data_node max_data_num (max_idx_num ÷ 2) key_size
                               value_size compare) in *.
  set (i0 := Inner.set_content
               (fresh_inner_node max_idx_num key_size compare) c) in *.
  (* the leaf takes the item *)
  assert (data_wf leaf) as Hwl
    by (apply fresh_data_node_wf; lia).
  assert (bp_data_node_need_split leaf = false) as Hneed.
  { unfold bp_data_node_need_split. cbn.
    destruct (Z.geb_spec 0 max_data_num); [lia|reflexivity]. }
  destruct (leaf_insert_tail_spec h1 (n + 2) leaf key position NULL Hleaf
              Hwl)
    as (ins & d' & Hrun & Hins & _ & _ & Hnum & _ & Hwd' & _ & Hk & Hv & _
        & Hsd'); try (cbn; lia); try exact Hcmp; try exact Hitem.
  { intros a b Ha Hab Hb. cbn in Hb. lia. }
  { right. intros a Ha. cbn in Ha. lia. }
  cbn [leaf fresh_data_node Data.key_num Data.common Common.key_num
       Data.key_size Data.value_size Common.compare] in Hins, Hnum, Hk, Hv,
    Hsd'.
  assert (ins = 0) as -> by lia. fold item_size in Hk, Hv, Hsd'.
  rewrite Z.mul_0_l in Hk. rewrite Z.mul_0_l, Z.add_0_l in Hv.
  assert (bp_data_node_insert_data h1 (n + 2) key position
          = Some (0, NULL, key, store h1 (n + 2) (DATA d'))) as Hcall.
  { rewrite (data_insert_no_split h1 (n + 2) leaf key position Hleaf Hneed).
    exact Hrun. }
  (* the head passes it on *)
  assert (inner_wf i0) as Hwi.
  { pose proof (fresh_inner_node_wf max_idx_num key_size compare Hks
                  ltac:(lia) Hint1) as [H1 H2 H3 H4 H5].
    split; cbn [i0 Inner.set_content Inner.key_size Inner.common
                Inner.key_num Inner.content_len Inner.content];
      first [assumption|exact Hclen]. }
  destruct (inner_insert_leaf_spec depth h1 (n + 1) i0 key position Hhead
              Hwi)
    as (j & child & dd & i' & h2 & Hins2 & Hj & _ & _ & _ & Hload & Hcall2
        & Hd2 & Hi2 & Hframe2 & Ho2 & _ & Hn2 & Ht2 & _ & Hother & Hsep & _).
  { cbn. lia. }
  { exact Hkey. }
  { exact Hcmp. }
  { intros a b Ha Hab Hb. cbn in Hb. lia. }
  { intros j Hj. cbn in Hj. assert (j = 0) as -> by lia.
    exists (n + 2), leaf, d'. rewrite Z.mul_0_l.
    split; [exact Hfirst|]. split; [exact Hleaf|].
    split; [reflexivity|]. split; [exact Hneed|exact Hcall]. }
  cbn [i0 fresh_inner_node Inner.set_content Inner.key_num Inner.common
       Common.key_num Inner.key_size Inner.content Inner.key_total
       Common.compare] in Hj, Hload, Hn2, Ht2, Hother, Hsep.
  change (Z.max 0 1) with 1 in Hj, Hn2.
  assert (j = 0) as -> by lia.
  rewrite Z.mul_0_l in Hload, Hother, Hsep.
  rewrite Hfirst in Hload. injection Hload as <-.
  assert (dd = d') as ->.
  { rewrite Hcall in Hcall2. injection Hcall2 as Hst.
    apply deref_data_raw in Hleaf.
    pose proof (deref_store_eq h1 (n + 2) _ (DATA d') Hleaf) as Hx.
    rewrite Hst in Hx. rewrite (deref_store_eq h1 (n + 2) _ _ Hleaf) in Hx.
    by injection Hx as ->. }
  exists (Tree.mk max_idx_num max_data_num key_size value_size (n + 1)
                  (n + 2)), h1, h2, i', d'.
  cbn [Tree.head Tree.data].
  split; [exact Hcreate|]. split; [reflexivity|]. split; [reflexivity|].
  split; [exact Hins2|]. split; [by rewrite Ho2|].
  split; [intros q Hq1 Hq2; rewrite Hframe2 by assumption;
          by apply Hframe1|].
  split; [exact Hi2|]. split; [exact Hn2|]. split; [rewrite Ht2; lia|].
  split.
  { unfold Mem.load_ptr. rewrite Hother by lia. exact Hfirst. }
  split; [exact Hsep|].
  split; [exact Hd2|]. split; [rewrite Hnum; lia|].
  split; [exact Hk|]. split; [exact Hv|].
  (* the search finds it *)
  assert (Mem.len (Data.content d') = Data.content_len d') as Hlen'
    by (by destruct Hwd').
  assert (item_size ≤ Mem.len (Data.content d')) as Hroom.
  { apply read_inv in Hv as (_ & _ & Hb & _). subst item_size. lia. }
  assert (packed_array (Data.content d') item_size 0 key_size 1) as Hpacked
    by (split; subst item_size; lia).
  destruct (bp_bi_search_one_spec (Data.content d') item_size 1 key key_size
              0 (compare_or_default compare) Hpacked Hkey Hcmp Hsd' compare
              eq_refl) as (found & idx & Hone & Hpost).
  rewrite Hnum. change (0 + 1) with 1. rewrite Hone.
  assert (target_vs_item (compare_or_default compare) (Data.content d')
                         item_size 0 key key_size 0 = 0) as Hz.
  { unfold target_vs_item.
    assert (item_key (Data.content d') item_size 0 key_size 0
            = take (Z.to_nat key_size) key) as ->.
    { apply read_inv in Hk as (_ & _ & _ & E). unfold item_key.
      by rewrite E. }
    apply (cmp_refl_zero _ _ _ Hcmp). unfold Mem.len in *.
    rewrite length_take. lia. }
  destruct Hpost as [(-> & Hidx & _)|(-> & Hidx & Hlo & Hhi)].
  - by replace idx with 0 by lia.
  - exfalso. destruct (Z.eq_dec idx 0) as [->|].
    + pose proof (Hhi 0 ltac:(lia)). lia.
    + pose proof (Hlo 0 ltac:(lia)). lia.
Qed.

Lemma first_key_of_a_tree_witness :
  0 ≤ 2 ∧ 0 < 2 + 2 ∧ 1 ≤ 4 ∧ 4 ≤ 4
  ∧ 4 * (2 + Mem.sizeof_ptr) + Mem.sizeof_ptr ≤ INT_MAX
  ∧ 4 * (2 + 2) + Mem.sizeof_ptr ≤ INT_MAX
  ∧ Z.of_nat (length (nodes (empty_heap [true; true; true]))) + 2 ≤ SIZE_MAX
  ∧ 2 ≤ Mem.len (bytes "57") ∧ 2 ≤ Mem.len (bytes "ab")
  ∧ total_preorder (compare_or_default None) 2
  ∧ ∃ t h1 h2 d,
      bp_create_tree (empty_heap [true; true; true]) 4 4 2 2 None
      = Some (Some t, h1, [])
      ∧ bp_inner_node_insert_data 0 h1 (Tree.head t) (bytes "57") (bytes "ab")
        = Some (0, NULL, bytes "57", h2)
      ∧ deref_data h2 (Tree.data t) = Some d
      ∧ bp_bi_search_one (Data.content d) (Data.key_num d * (2 + 2)) (2 + 2)
                         (bytes "57") 2 0 None
        = Some (1, 0).
Proof.
  assert (0 ≤ 2) as Hks by lia.
  assert (0 < 2 + 2) as Hitem by lia.
  assert (1 ≤ 4) as Hmax by lia.
  assert (4 ≤ 4) as Hge by lia.
  assert (4 * (2 + Mem.sizeof_ptr) + Mem.sizeof_ptr ≤ INT_MAX) as Hint1
    by (vm_compute; discriminate).
  assert (4 * (2 + 2) + Mem.sizeof_ptr ≤ INT_MAX) as Hint2
    by (vm_compute; discriminate).
  assert (Z.of_nat (length (nodes (empty_heap [true; true; true]))) + 2
          ≤ SIZE_MAX) as Haddr by (vm_compute; discriminate).
  assert (2 ≤ Mem.len (bytes "57")) as Hkey by (vm_compute; discriminate).
  assert (2 ≤ Mem.len (bytes "ab")) as Hpos by (vm_compute; discriminate).
  assert (total_preorder (compare_or_default None) 2) as Hcmp
    by exact (bp_compare_total_preorder 2).
  split; [exact Hks|]. split; [exact Hitem|]. split; [exact Hmax|].
  split; [exact Hge|]. split; [exact Hint1|]. split; [exact Hint2|].
  split; [exact Haddr|]. split; [exact Hkey|]. split; [exact Hpos|].
  split; [exact Hcmp|].
  destruct (first_key_of_a_tree 0 (empty_heap [true; true; true]) 4 4 2 2
              None [] (bytes "57") (bytes "ab") Hks Hks Hitem Hmax Hge Hint1
              Hint2 Haddr eq_refl Hkey Hpos Hcmp)
    as (t & h1 & h2 & i & d & Hcreate & _ & _ & Hins & _ & _ & _ & _ & _ & _
        & _ & Hd & _ & _ & _ & Hfind).
  exists t, h1, h2, d.
  split; [exact Hcreate|]. split; [exact Hins|]. split; [exact Hd|].
  exact Hfind.
Defined.

(** ** A split child enters its parent *)

Lemma read_same_bytes (b1 b2 : list byte) (o m : Z) :
  Mem.len b1 = Mem.len b2 →
  (∀ z, o ≤ z < o + m → byte_at b1 z = byte_at b2 z) →
  Mem.read b1 o m = Mem.read b2 o m.
Proof.
  intros Hlen Hb. unfold Mem.read. rewrite Hlen.
  destruct (Z.leb_spec 0 o); cbn [andb]; [|reflexivity].
  destruct (Z.leb_spec 0 m); cbn [andb]; [|reflexivity].
  destruct (Z.leb_spec (o + m) (Mem.len b2)); [|reflexivity].
  rewrite <- !read_Some by lia. apply read_ext; try lia.
  intros j Hj. apply Hb. lia.
Qed.

Lemma read_shifted_bytes (b1 b2 : list byte) (o1 o2 m : Z) :
  0 ≤ o1 → 0 ≤ o2 → 0 ≤ m →
  o1 + m ≤ Mem.len b1 → o2 + m ≤ Mem.len b2 →
  (∀ z, o1 ≤ z < o1 + m → byte_at b1 z = byte_at b2 (z - o1 + o2)) →
  Mem.read b1 o1 m = Mem.read b2 o2 m.
Proof.
  intros H1 H2 Hm Hl1 Hl2 Hb. apply read_ext; try lia.
  intros j Hj. rewrite Hb by lia. f_equal. lia.
Qed.

(** the loop of [bp_inner_node_add_split_child] is the loop of the leaf,
    one slot higher *)
Lemma inner_shift_as_data_shift (fuel : nat) :
  ∀ content tmp child_position item_size,
    inner_shift_loop fuel content tmp child_position item_size
    = data_shift_loop fuel content (tmp + item_size)
                      (child_position + item_size) item_size.
Proof.
  induction fuel as [|fuel IH]; intros content tmp cp item_size;
    cbn [inner_shift_loop data_shift_loop].
  - destruct (Z.gtb_spec tmp cp), (Z.gtb_spec (tmp + item_size)
                                              (cp + item_size));
      first [reflexivity|lia].
  - destruct (Z.gtb_spec tmp cp), (Z.gtb_spec (tmp + item_size)
                                              (cp + item_size));
      try lia; [|reflexivity].
    replace (tmp + item_size - item_size) with tmp by lia.
    destruct (Mem.memcpy content (tmp + item_size) content tmp item_size)
      as [c|]; [|reflexivity].
    cbn [mbind option_bind]. rewrite IH. f_equal. lia.
Qed.

(** entries [idx + 1 .. n - 1] move up by one slot, the rest stays *)
Lemma inner_shift_loop_reads (content : list byte) (n idx item_size : Z) :
  0 < item_size → 0 ≤ idx ≤ n →
  (n + 1) * item_size ≤ Mem.len content →
  ∃ content',
    inner_shift_loop (Z.to_nat n) content (n * item_size - item_size)
                     (idx * item_size) item_size = Some content'
    ∧ Mem.len content' = Mem.len content
    ∧ (∀ o m, o + m ≤ (idx + 2) * item_size ∨ (n + 1) * item_size ≤ o →
              Mem.read content' o m = Mem.read content o m)
    ∧ (∀ i, idx < i < n →
            Mem.read content' ((i + 1) * item_size) item_size
            = Mem.read content (i * item_size) item_size).
Proof.
  intros Hitem Hidx Hroom. rewrite inner_shift_as_data_shift.
  replace (n * item_size - item_size + item_size) with (n * item_size)
    by lia.
  destruct (Z.eq_dec idx n) as [->|Hne].
  { exists content. split.
    - destruct (Z.to_nat n); cbn [data_shift_loop];
        destruct (Z.gtb_spec (n * item_size) (n * item_size + item_size));
        first [lia|reflexivity].
    - split; [reflexivity|]. split; [reflexivity|]. intros i Hi. lia. }
  destruct (data_shift_loop_spec (Z.to_nat (n - 1 - idx)) (Z.to_nat n)
              content (n * item_size) (idx * item_size + item_size)
              item_size)
    as (c' & Hrun & Hlen & Hb); try nia.
  exists c'. split; [exact Hrun|]. split; [exact Hlen|]. split.
  - intros o m Hom. apply read_same_bytes; [exact Hlen|].
    intros z Hz. rewrite Hb.
    destruct (Z.leb_spec (idx * item_size + item_size + item_size) z);
      cbn [andb]; [|reflexivity].
    destruct (Z.ltb_spec z (n * item_size + item_size)); [|reflexivity].
    nia.
  - intros i Hi. apply read_shifted_bytes; try nia.
    intros z Hz. rewrite Hb.
    destruct (Z.leb_spec (idx * item_size + item_size + item_size) z);
      cbn [andb]; [|nia].
    destruct (Z.ltb_spec z (n * item_size + item_size)); [|nia].
    f_equal. lia.
Qed.

(** [child->max_key (...)] on a leaf with at least one item *)
Lemma max_key_into_leaf (h : heap) (child dst off key_buf_len : Z)
    (dc : Data.t) (di : Inner.t) :
  deref_data h child = Some dc →
  deref_inner h dst = Some di →
  Common.max_key (Data.common dc) = Some PTR_bp_data_node_max_key →
  1 ≤ Data.key_num dc →
  Data.key_size dc = key_buf_len →
  max_key_into h child dst off key_buf_len
  = (buf ← Mem.memcpy (Inner.content di) off (Data.content dc)
             ((Data.key_num dc - 1)
              * (Data.key_size dc + Data.value_size dc)) key_buf_len;
     Some (store h dst (INNER (Inner.set_content di buf)))).
Proof.
  intros Hdc Hdi Hmk Hnum Hks. unfold max_key_into.
  rewrite (deref_data_raw _ _ _ Hdc), Hdi. cbn [mbind option_bind].
  cbn [node_common]. rewrite Hmk. cbn [call_max_key].
  unfold bp_data_node_max_key. rewrite Hdc. cbn [mbind option_bind].
  destruct (Z.leb_spec (Data.key_num dc) 0); [lia|].
  rewrite Hks. rewrite Z.ltb_irrefl.
  destruct (Mem.memcpy _ _ _ _ _) as [buf|]; reflexivity.
Qed.

Lemma deref_inner_store_eq (h : heap) (p : Z) (n0 : bp_node) (i : Inner.t) :
  deref h p = Some n0 → deref_inner (store h p (INNER i)) p = Some i.
Proof.
  intros H. unfold deref_inner. by rewrite (deref_store_eq _ _ _ _ H).
Qed.

(** the loop does nothing when the child is at or behind the last entry *)
Lemma inner_shift_loop_idle (fuel : nat) (content : list byte)
    (tmp child_position item_size : Z) :
  tmp ≤ child_position →
  inner_shift_loop fuel content tmp child_position item_size = Some content.
Proof.
  intros H. destruct fuel; cbn [inner_shift_loop];
    destruct (Z.gtb_spec tmp child_position); first [lia|reflexivity].
Qed.

(** [bp_inner_node_add_split_child] from the call of [child->max_key] on:
    [icc] is the node that contains the child, at index [idx]; the loop
    moves the entries up to index [k - 1], [k] being the count of the node
    the function was called on *)
Lemma adopt_core (h : heap) (icc_p child split_child idx k ks split_inner : Z)
    (icc : Inner.t) (dc ds : Data.t) :
  let item_size := Mem.sizeof_ptr + ks in
  let last_key (d : Data.t) :=
    item_key (Data.content d) (Data.key_size d + Data.value_size d) 0
             (Data.key_size d) (Data.key_num d - 1) in
  deref_inner h icc_p = Some icc →
  Inner.key_size icc = ks → 0 ≤ ks →
  0 ≤ idx → 0 ≤ k →
  (idx < k → (k + 1) * item_size ≤ Mem.len (Inner.content icc)) →
  (idx + 2) * item_size ≤ Mem.len (Inner.content icc) →
  deref_data h child = Some dc →
  deref_data h split_child = Some ds →
  split_child ≤ SIZE_MAX →
  Common.max_key (Data.common dc) = Some PTR_bp_data_node_max_key →
  Common.max_key (Data.common ds) = Some PTR_bp_data_node_max_key →
  data_wf dc → data_wf ds →
  1 ≤ Data.key_num dc → 1 ≤ Data.key_num ds →
  Data.key_size dc = ks → Data.key_size ds = ks →
  ∃ h' content',
    (h ← max_key_into h child icc_p (idx * item_size + Mem.sizeof_ptr) ks;
     icc ← deref_inner h icc_p;
     content ← inner_shift_loop (Z.to_nat k) (Inner.content icc)
                 (k * item_size - item_size) (idx * item_size) item_size;
     let tmp := idx * item_size + item_size in
     content ← Mem.store_ptr content tmp split_child;
     let h := store h icc_p (INNER (Inner.set_content icc content)) in
     h ← max_key_into h split_child icc_p (tmp + Mem.sizeof_ptr)
           (Inner.key_size icc);
     icc ← deref_inner h icc_p;
     let h := store h icc_p
                (INNER (Inner.set_key_num icc (Inner.key_num icc + 1))) in
     Some (0, split_inner, h))
    = Some (0, split_inner, h')
    ∧ deref_inner h' icc_p
      = Some (Inner.set_key_num (Inner.set_content icc content')
                                (Inner.key_num icc + 1))
    ∧ (∀ q, q ≠ icc_p → deref h' q = deref h q)
    ∧ malloc_oracle h' = malloc_oracle h
    ∧ Mem.len content' = Mem.len (Inner.content icc)
    ∧ (∀ i, 0 ≤ i < idx →
       Mem.read content' (i * item_size) item_size
       = Mem.read (Inner.content icc) (i * item_size) item_size)
    ∧ Mem.read content' (idx * item_size) Mem.sizeof_ptr
      = Mem.read (Inner.content icc) (idx * item_size) Mem.sizeof_ptr
    ∧ Mem.read content' (idx * item_size + Mem.sizeof_ptr) ks
      = Some (last_key dc)
    ∧ Mem.load_ptr content' ((idx + 1) * item_size) = Some split_child
    ∧ Mem.read content' ((idx + 1) * item_size + Mem.sizeof_ptr) ks
      = Some (last_key ds)
    ∧ (∀ i, idx < i < k →
       Mem.read content' ((i + 1) * item_size) item_size
       = Mem.read (Inner.content icc) (i * item_size) item_size)
    ∧ (∀ o m, Z.max (k + 1) (idx + 2) * item_size ≤ o →
       Mem.read content' o m = Mem.read (Inner.content icc) o m).
Proof.
  intros item_size last_key Hd Hksi Hks Hidx Hk Hroom Hfit Hdc Hds Hsc Hmkc
    Hmks Hwc Hws Hnc Hns Hksc Hkss.
  destruct icc as [common ks0 kt cl content].
  cbn [Inner.key_size Inner.content] in *. subst ks0.
  assert (0 < item_size ∧ item_size = 8 + ks ∧ Mem.sizeof_ptr = 8)
    as (Hitem & Hitem' & Hptr)
    by (subst item_size; unfold Mem.sizeof_ptr; lia).
  assert (0 ≤ idx * item_size) as Hcp by nia.
  assert (0 < split_child) as Hscpos.
  { apply deref_data_raw, deref_Some_pos in Hds. lia. }
  pose proof (deref_inner_raw _ _ _ Hd) as Hraw.
  assert (icc_p ≠ child ∧ icc_p ≠ split_child) as [Hne1 Hne2].
  { split; intros ->; apply deref_data_raw in Hdc, Hds; congruence. }
  assert (∀ d, data_wf d → 1 ≤ Data.key_num d → Data.key_size d = ks →
            Mem.read (Data.content d)
                     ((Data.key_num d - 1)
                      * (Data.key_size d + Data.value_size d)) ks
            = Some (last_key d)) as Hlast.
  { intros d [H1 H2 H3 H4 H5 H6] Hn Hkd. subst last_key. cbn beta.
    rewrite <- Hkd.
    replace ((Data.key_num d - 1) * (Data.key_size d + Data.value_size d))
      with ((Data.key_num d - 1) * (Data.key_size d + Data.value_size d) + 0)
      at 1 by lia.
    apply item_key_read;
      first [nia|rewrite H6, H4; unfold Mem.sizeof_ptr; nia]. }
  (* the key of the child *)
  rewrite (max_key_into_leaf h child icc_p _ ks dc _ Hdc Hd Hmkc Hnc Hksc).
  cbn [Inner.content].
  destruct (memcpy_Some content (idx * item_size + Mem.sizeof_ptr)
              (Data.content dc)
              ((Data.key_num dc - 1)
               * (Data.key_size dc + Data.value_size dc)) ks)
    as (b1 & Eb1 & Hb1len & Hb1read & Hb1other);
    try (pose proof (Hlast dc Hwc Hnc Hksc) as Hx;
         apply read_inv in Hx; lia); try nia.
  rewrite Eb1. cbn [mbind option_bind].
  rewrite (deref_inner_store_eq _ _ _ _ Hraw).
  cbn [mbind option_bind Inner.content Inner.set_content].
  (* the shift *)
  assert (∃ b2,
            inner_shift_loop (Z.to_nat k) b1 (k * item_size - item_size)
                             (idx * item_size) item_size = Some b2
            ∧ Mem.len b2 = Mem.len b1
            ∧ (∀ o m, o + m ≤ (idx + 2) * item_size
                      ∨ Z.max (k + 1) (idx + 2) * item_size ≤ o →
                      Mem.read b2 o m = Mem.read b1 o m)
            ∧ (∀ i, idx < i < k →
                    Mem.read b2 ((i + 1) * item_size) item_size
                    = Mem.read b1 (i * item_size) item_size))
    as (b2 & Eb2 & Hb2len & Hb2other & Hb2move).
  { destruct (Z.lt_ge_cases idx k) as [Hlt|Hge].
    - destruct (inner_shift_loop_reads b1 k idx item_size Hitem
                  ltac:(lia)) as (b2 & E & Hl & Ho & Hm).
      { rewrite Hb1len. by apply Hroom. }
      exists b2. split; [exact E|]. split; [exact Hl|]. split; [|exact Hm].
      intros o m Hom. apply Ho. nia.
    - exists b1. split; [apply inner_shift_loop_idle; nia|].
      split; [reflexivity|]. split; [reflexivity|]. intros i Hi. lia. }
  rewrite Eb2. cbn [mbind option_bind].
  (* the pointer of the sibling *)
  destruct (store_ptr_Some b2 (idx * item_size + item_size) split_child)
    as (b3 & Eb3 & Hb3len & Hb3load & Hb3other); try (rewrite ?Hptr; nia).
  cbv zeta. rewrite Eb3. cbn [mbind option_bind].
  set (h2 := store (store h icc_p _) icc_p _).
  assert (deref h2 icc_p = Some (INNER (Inner.mk common ks kt cl b3)))
    as Hraw2.
  { subst h2. eapply deref_store_eq. by eapply deref_store_eq. }
  assert (deref_data h2 split_child = Some ds) as Hds2.
  { subst h2. unfold deref_data. rewrite !deref_store_ne by exact Hne2.
    exact Hds. }
  (* the key of the sibling *)
  cbn [Inner.key_size].
  rewrite (max_key_into_leaf h2 split_child icc_p _ ks ds _ Hds2
             ltac:(unfold deref_inner; by rewrite Hraw2) Hmks Hns Hkss).
  cbn [Inner.content].
  destruct (memcpy_Some b3
              (idx * item_size + item_size + Mem.sizeof_ptr)
              (Data.content ds)
              ((Data.key_num ds - 1)
               * (Data.key_size ds + Data.value_size ds)) ks)
    as (b4 & Eb4 & Hb4len & Hb4read & Hb4other);
    try (pose proof (Hlast ds Hws Hns Hkss) as Hx;
         apply read_inv in Hx; lia); try nia.
  rewrite Eb4. cbn [mbind option_bind].
  rewrite (deref_inner_store_eq _ _ _ _ Hraw2).
  cbn [mbind option_bind].
  eexists _, b4.
  split; [reflexivity|].
  split.
  { erewrite deref_inner_store_eq; [reflexivity|].
    eapply deref_store_eq. exact Hraw2. }
  split.
  { intros q Hq. subst h2. by rewrite !deref_store_ne by congruence. }
  split; [subst h2; by rewrite !store_oracle|].
  split; [lia|].
  rewrite Hptr in *.
  split.
  { intros i Hi. rewrite Hb4other by nia. rewrite Hb3other by nia.
    rewrite Hb2other by nia. apply Hb1other. nia. }
  split.
  { rewrite Hb4other by nia. rewrite Hb3other by nia.
    rewrite Hb2other by nia. apply Hb1other. lia. }
  split.
  { rewrite Hb4other by nia. rewrite Hb3other by nia.
    rewrite Hb2other by nia. rewrite Hb1read. by apply Hlast. }
  split.
  { unfold Mem.load_ptr. rewrite Hptr. rewrite Hb4other by lia.
    replace ((idx + 1) * item_size)
      with (idx * item_size + item_size) by lia.
    unfold Mem.load_ptr in Hb3load. rewrite Hptr in Hb3load.
    exact Hb3load. }
  split.
  { replace ((idx + 1) * item_size + 8)
      with (idx * item_size + item_size + 8) by lia.
    rewrite Hb4read. by apply Hlast. }
  split.
  { intros i Hi. rewrite Hb4other by nia. rewrite Hb3other by nia.
    rewrite Hb2move by lia. apply Hb1other. nia. }
  intros o m Ho. rewrite Hb4other by nia. rewrite Hb3other by nia.
  rewrite Hb2other by nia. apply Hb1other. nia.
Qed.

(** [bp_inner_node_add_split_child] on an inner node that has room, for
    two leaves *)
Lemma add_split_child_spec (h : heap)
    (inner_p child split_child child_idx : Z)
    (inner : Inner.t) (dc ds : Data.t) :
  let n := Inner.key_num inner in
  let ks := Inner.key_size inner in
  let item_size := Mem.sizeof_ptr + Inner.key_size inner in
  let last_key (d : Data.t) :=
    item_key (Data.content d) (Data.key_size d + Data.value_size d) 0
             (Data.key_size d) (Data.key_num d - 1) in
  deref_inner h inner_p = Some inner →
  inner_wf inner →
  n < Common.max_key_num (Inner.common inner) →
  0 ≤ child_idx ≤ n →
  (child_idx < n ∨ (child_idx + 2) * item_size ≤ Inner.content_len inner) →
  deref_data h child = Some dc →
  deref_data h split_child = Some ds →
  split_child ≤ SIZE_MAX →
  Common.max_key (Data.common dc) = Some PTR_bp_data_node_max_key →
  Common.max_key (Data.common ds) = Some PTR_bp_data_node_max_key →
  data_wf dc → data_wf ds →
  1 ≤ Data.key_num dc → 1 ≤ Data.key_num ds →
  Data.key_size dc = ks → Data.key_size ds = ks →
  ∃ h' inner',
    bp_inner_node_add_split_child h inner_p child split_child child_idx
    = Some (0, NULL, h')
    ∧ deref_inner h' inner_p = Some inner'
    ∧ (∀ q, q ≠ inner_p → deref h' q = deref h q)
    ∧ malloc_oracle h' = malloc_oracle h
    ∧ Inner.set_content (Inner.set_key_num inner' n) (Inner.content inner)
      = inner
    ∧ Inner.key_num inner' = n + 1
    ∧ inner_wf inner'
    ∧ (∀ i, 0 ≤ i < child_idx →
       Mem.read (Inner.content inner') (i * item_size) item_size
       = Mem.read (Inner.content inner) (i * item_size) item_size)
    ∧ Mem.read (Inner.content inner') (child_idx * item_size) Mem.sizeof_ptr
      = Mem.read (Inner.content inner) (child_idx * item_size)
                 Mem.sizeof_ptr
    ∧ Mem.read (Inner.content inner')
               (child_idx * item_size + Mem.sizeof_ptr) ks
      = Some (last_key dc)
    ∧ Mem.load_ptr (Inner.content inner') ((child_idx + 1) * item_size)
      = Some split_child
    ∧ Mem.read (Inner.content inner')
               ((child_idx + 1) * item_size + Mem.sizeof_ptr) ks
      = Some (last_key ds)
    ∧ (∀ i, child_idx < i < n →
       Mem.read (Inner.content inner') ((i + 1) * item_size) item_size
       = Mem.read (Inner.content inner) (i * item_size) item_size)
    ∧ (∀ o m, Z.max (n + 1) (child_idx + 2) * item_size ≤ o →
       Mem.read (Inner.content inner') o m
       = Mem.read (Inner.content inner) o m).
Proof.
  intros n ks item_size last_key Hd Hwf Hroom Hidx Hfit2 Hdc Hds Hsc Hmkc
    Hmks Hwc Hws Hnc Hns Hksc Hkss.
  pose proof Hwf as [Hks Hc Hcl Hint Hlen]. fold n ks in Hks, Hc, Hcl.
  assert (0 < item_size ∧ Mem.sizeof_ptr = 8) as (Hitem & Hptr)
    by (subst item_size; unfold Mem.sizeof_ptr; lia).
  assert (Mem.len (Inner.content inner)
          = Common.max_key_num (Inner.common inner) * item_size + 8)
    as Hlen0.
  { rewrite Hlen, Hcl. subst item_size ks. unfold Mem.sizeof_ptr. lia. }
  assert ((n + 1) * item_size
          ≤ Common.max_key_num (Inner.common inner) * item_size) as Hn1
    by nia.
  assert ((child_idx + 2) * item_size ≤ Mem.len (Inner.content inner))
    as Hfit.
  { destruct Hfit2 as [Hlt|Hle]; [nia|lia]. }
  destruct (adopt_core h inner_p child split_child child_idx n ks NULL inner
              dc ds Hd eq_refl Hks ltac:(lia) ltac:(lia) ltac:(intros; lia)
              Hfit Hdc Hds Hsc Hmkc Hmks Hwc Hws Hnc Hns Hksc Hkss)
    as (h' & content' & Hrun & Hd' & Hframe & Horacle & Hlen' & Hentries).
  exists h', (Inner.set_key_num (Inner.set_content inner content') (n + 1)).
  split.
  { unfold bp_inner_node_add_split_child. rewrite Hd.
    cbn [mbind option_bind]. fold n.
    destruct (Z.eqb_spec n (Common.max_key_num (Inner.common inner)))
      as [|_]; [lia|].
    cbn [andb mbind option_bind]. rewrite Hd. cbn [mbind option_bind].
    change (NULL =? NULL) with true. cbn iota. exact Hrun. }
  split; [exact Hd'|]. split; [exact Hframe|]. split; [exact Horacle|].
  split; [subst n; by destruct inner as [ [] ]|].
  split; [reflexivity|].
  split; [split; cbn; first [assumption|lia|congruence]|].
  exact Hentries.
Qed.

(** X16. [bp_inner_node_add_split_child] on a well-formed inner node with
    [n] entries that is not full, for a child and a sibling that are
    leaves with at least one item and keys of the node's key size, called
    with index [child_idx] in [0 .. n] (and room for the key of entry
    [child_idx + 1]).  The call returns 0 with no new inner node, changes
    this node only and allocates nothing; the count is [n + 1]; the
    entries before [child_idx] stay; entry [child_idx] keeps its pointer
    and gets the last key of the child; entry [child_idx + 1] is the
    sibling with its last key; the entries that were behind [child_idx]
    move up by one slot; the bytes behind are as before.  With
    [child_idx = n] the pointer of entry [n] is whatever the slot held. *)
Theorem inner_adopts_split_child (h : heap)
    (inner_p child split_child child_idx : Z)
    (inner : Inner.t) (dc ds : Data.t) :
  let n := Inner.key_num inner in
  let ks := Inner.key_size inner in
  let item_size := Mem.sizeof_ptr + Inner.key_size inner in
  let last_key (d : Data.t) :=
    item_key (Data.content d) (Data.key_size d + Data.value_size d) 0
             (Data.key_size d) (Data.key_num d - 1) in
  deref_inner h inner_p = Some inner →
  inner_wf inner →
  n < Common.max_key_num (Inner.common inner) →
  0 ≤ child_idx ≤ n →
  (child_idx < n ∨ (child_idx + 2) * item_size ≤ Inner.content_len inner) →
  deref_data h child = Some dc →
  deref_data h split_child = Some ds →
  split_child ≤ SIZE_MAX →
  Common.max_key (Data.common dc) = Some PTR_bp_data_node_max_key →
  Common.max_key (Data.common ds) = Some PTR_bp_data_node_max_key →
  data_wf dc → data_wf ds →
  1 ≤ Data.key_num dc → 1 ≤ Data.key_num ds →
  Data.key_size dc = ks → Data.key_size ds = ks →
  ∃ h' inner',
    bp_inner_node_add_split_child h inner_p child split_child child_idx
    = Some (0, NULL, h')
    ∧ deref_inner h' inner_p = Some inner'
    ∧ (∀ q, q ≠ inner_p → deref h' q = deref h q)
    ∧ malloc_oracle h' = malloc_oracle h
    ∧ Inner.set_content (Inner.set_key_num inner' n) (Inner.content inner)
      = inner
    ∧ Inner.key_num inner' = n + 1
    ∧ inner_wf inner'
    ∧ (∀ i, 0 ≤ i < child_idx →
       Mem.read (Inner.content inner') (i * item_size) item_size
       = Mem.read (Inner.content inner) (i * item_size) item_size)
    ∧ Mem.read (Inner.content inner') (child_idx * item_size) Mem.sizeof_ptr
      = Mem.read (Inner.content inner) (child_idx * item_size)
                 Mem.sizeof_ptr
    ∧ Mem.read (Inner.content inner')
               (child_idx * item_size + Mem.sizeof_ptr) ks
      = Some (last_key dc)
    ∧ Mem.load_ptr (Inner.content inner') ((child_idx + 1) * item_size)
      = Some split_child
    ∧ Mem.read (Inner.content inner')
               ((child_idx + 1) * item_size + Mem.sizeof_ptr) ks
      = Some (last_key ds)
    ∧ (∀ i, child_idx < i < n →
       Mem.read (Inner.content inner') ((i + 1) * item_size) item_size
       = Mem.read (Inner.content inner) (i * item_size) item_size)
    ∧ (∀ o m, Z.max (n + 1) (child_idx + 2) * item_size ≤ o →
       Mem.read (Inner.content inner') o m
       = Mem.read (Inner.content inner) o m).
Proof.
  exact (add_split_child_spec h inner_p child split_child child_idx inner dc
           ds).
Qed.

Lemma inner_adopts_split_child_witness :
  ∃ head data h0 h1 sib h2 h inner dc ds,
    inner_test_setup [true; true; true] = Some (head, data, h0)
    ∧ inner_inserts 0 h0 head [(bytes "57", bytes "ab")] = Some h1
    ∧ bp_create_data_node h1 4 2 2 2 None = Some (sib, h2)
    ∧ data_inserts h2 sib [(bytes "99", bytes "zz")] = Some h
    ∧ deref_inner h head = Some inner
    ∧ inner_wf inner
    ∧ Inner.key_num inner < Common.max_key_num (Inner.common inner)
    ∧ 0 ≤ 0 ≤ Inner.key_num inner
    ∧ 0 < Inner.key_num inner
    ∧ deref_data h data = Some dc
    ∧ deref_data h sib = Some ds
    ∧ sib ≤ SIZE_MAX
    ∧ Common.max_key (Data.common dc) = Some PTR_bp_data_node_max_key
    ∧ Common.max_key (Data.common ds) = Some PTR_bp_data_node_max_key
    ∧ data_wf dc ∧ data_wf ds
    ∧ 1 ≤ Data.key_num dc ∧ 1 ≤ Data.key_num ds
    ∧ Data.key_size dc = Inner.key_size inner
    ∧ Data.key_size ds = Inner.key_size inner
    ∧ ∃ h' inner',
        bp_inner_node_add_split_child h head data sib 0 = Some (0, NULL, h')
        ∧ deref_inner h' head = Some inner'
        ∧ Inner.key_num inner' = 2
        ∧ Mem.load_ptr (Inner.content inner')
                       ((0 + 1) * (Mem.sizeof_ptr + Inner.key_size inner))
          = Some sib
        ∧ Mem.read (Inner.content inner')
                   ((0 + 1) * (Mem.sizeof_ptr + Inner.key_size inner)
                    + Mem.sizeof_ptr) (Inner.key_size inner)
          = Some (bytes "99").
Proof.
  match eval vm_compute in (inner_test_setup [true; true; true]) with
  | Some (?a, ?b, ?x) => pose (head := a); pose (data := b); pose (h0 := x)
  end.
  match eval vm_compute in
        (inner_inserts 0 h0 head [(bytes "57", bytes "ab")]) with
  | Some ?x => pose (h1 := x)
  end.
  match eval vm_compute in (bp_create_data_node h1 4 2 2 2 None) with
  | Some (?a, ?x) => pose (sib := a); pose (h2 := x)
  end.
  match eval vm_compute in
        (data_inserts h2 sib [(bytes "99", bytes "zz")]) with
  | Some ?x => pose (h := x)
  end.
  match eval vm_compute in (deref_inner h head) with
  | Some ?x => pose (inner := x)
  end.
  match eval vm_compute in (deref_data h data) with
  | Some ?x => pose (dc := x)
  end.
  match eval vm_compute in (deref_data h sib) with
  | Some ?x => pose (ds := x)
  end.
  assert (deref_inner h head = Some inner) as Hd by reflexivity.
  assert (inner_wf inner) as Hwf by concrete_inner_wf.
  assert (Inner.key_num inner < Common.max_key_num (Inner.common inner))
    as Hroom by reflexivity.
  assert (0 ≤ 0 ≤ Inner.key_num inner) as Hidx
    by (split; vm_compute; discriminate).
  assert (0 < Inner.key_num inner) as Hlt by reflexivity.
  assert (deref_data h data = Some dc) as Hdc by reflexivity.
  assert (deref_data h sib = Some ds) as Hds by reflexivity.
  assert (sib ≤ SIZE_MAX) as Hsc by (vm_compute; discriminate).
  assert (Common.max_key (Data.common dc) = Some PTR_bp_data_node_max_key)
    as Hmkc by reflexivity.
  assert (Common.max_key (Data.common ds) = Some PTR_bp_data_node_max_key)
    as Hmks by reflexivity.
  assert (data_wf dc) as Hwc by concrete_wf.
  assert (data_wf ds) as Hws by concrete_wf.
  assert (1 ≤ Data.key_num dc) as Hnc by (vm_compute; discriminate).
  assert (1 ≤ Data.key_num ds) as Hns by (vm_compute; discriminate).
  assert (Data.key_size dc = Inner.key_size inner) as Hksc by reflexivity.
  assert (Data.key_size ds = Inner.key_size inner) as Hkss by reflexivity.
  exists head, data, h0, h1, sib, h2, h, inner, dc, ds.
  split; [vm_compute; reflexivity|]. split; [vm_compute; reflexivity|].
  split; [vm_compute; reflexivity|]. split; [vm_compute; reflexivity|].
  split; [exact Hd|]. split; [exact Hwf|]. split; [exact Hroom|].
  split; [exact Hidx|]. split; [exact Hlt|]. split; [exact Hdc|].
  split; [exact Hds|]. split; [exact Hsc|]. split; [exact Hmkc|].
  split; [exact Hmks|]. split; [exact Hwc|]. split; [exact Hws|].
  split; [exact Hnc|]. split; [exact Hns|]. split; [exact Hksc|].
  split; [exact Hkss|].
  destruct (inner_adopts_split_child h head data sib 0 inner dc ds Hd Hwf
              Hroom Hidx (or_introl Hlt) Hdc Hds Hsc Hmkc Hmks Hwc Hws Hnc
              Hns Hksc Hkss)
    as (h' & inner' & Hrun & Hi' & _ & _ & _ & Hnum & _ & _ & _ & _ & Hptr
        & Hkey & _).
  exists h', inner'. split; [exact Hrun|]. split; [exact Hi'|].
  split; [exact Hnum|]. split; [exact Hptr|]. exact Hkey.
Defined.

(** ** Insert through an inner node into a full leaf *)








(** ** A parent that cannot be split *)





(** ** A split child enters a full parent *)

Lemma adopt_full_spec (h : heap)
    (inner_p child split_child child_idx : Z)
    (inner : Inner.t) (dc ds : Data.t) (rest : list bool) :
  let c := Inner.key_num inner in
  let ks := Inner.key_size inner in
  let item_size := Mem.sizeof_ptr + Inner.key_size inner in
  let last_key (d : Data.t) :=
    item_key (Data.content d) (Data.key_size d + Data.value_size d) 0
             (Data.key_size d) (Data.key_num d - 1) in
  let k := c / 2 in
  let new_p := Z.of_nat (length (nodes h)) + 1 in
  let in_old := child_idx <? k in
  let icc_p := if in_old then inner_p else new_p in
  let idx := if in_old then child_idx else child_idx - k in
  let base := if in_old then 0 else k in
  deref_inner h inner_p = Some inner →
  inner_wf inner →
  c = Common.max_key_num (Inner.common inner) →
  0 ≤ child_idx ≤ c →
  (idx + 2) * item_size ≤ Inner.content_len inner →
  malloc_oracle h = true :: rest →
  new_p ≤ SIZE_MAX →
  deref_data h child = Some dc →
  deref_data h split_child = Some ds →
  split_child ≤ SIZE_MAX →
  Common.max_key (Data.common dc) = Some PTR_bp_data_node_max_key →
  Common.max_key (Data.common ds) = Some PTR_bp_data_node_max_key →
  data_wf dc → data_wf ds →
  1 ≤ Data.key_num dc → 1 ≤ Data.key_num ds →
  Data.key_size dc = ks → Data.key_size ds = ks →
  ∃ h' old' nw,
    bp_inner_node_add_split_child h inner_p child split_child child_idx
    = Some (0, new_p, h')
    ∧ malloc_oracle h' = rest
    ∧ deref h new_p = None
    ∧ (∀ q, q ≠ inner_p → q ≠ new_p → deref h' q = deref h q)
    ∧ deref_inner h' inner_p = Some old'
    ∧ deref_inner h' new_p = Some nw
    ∧ Inner.set_content (Inner.set_key_num old' c) (Inner.content inner)
      = inner
    ∧ Inner.set_content (Inner.set_key_num nw 0)
                        (Mem.zeros (Inner.content_len inner))
      = fresh_inner_node (Common.max_key_num (Inner.common inner)) ks
                         (Common.compare (Inner.common inner))
    ∧ let icc' := if in_old then old' else nw in
      let other' := if in_old then nw else old' in
      Inner.key_num icc' = (if in_old then k else c - k) + 1
      ∧ Inner.key_num other' = (if in_old then c - k else k)
      ∧ (∀ i, 0 ≤ i < Inner.key_num other' →
         Mem.read (Inner.content other') (i * item_size) item_size
         = Mem.read (Inner.content inner)
                    (((if in_old then k else 0) + i) * item_size) item_size)
      ∧ (∀ i, 0 ≤ i < idx →
         Mem.read (Inner.content icc') (i * item_size) item_size
         = Mem.read (Inner.content inner) ((base + i) * item_size)
                    item_size)
      ∧ (base + idx < c →
         Mem.read (Inner.content icc') (idx * item_size) Mem.sizeof_ptr
         = Mem.read (Inner.content inner) ((base + idx) * item_size)
                    Mem.sizeof_ptr)
      ∧ Mem.read (Inner.content icc') (idx * item_size + Mem.sizeof_ptr) ks
        = Some (last_key dc)
      ∧ Mem.load_ptr (Inner.content icc') ((idx + 1) * item_size)
        = Some split_child
      ∧ Mem.read (Inner.content icc')
                 ((idx + 1) * item_size + Mem.sizeof_ptr) ks
        = Some (last_key ds)
      ∧ (∀ i, idx < i < k →
         Mem.read (Inner.content icc') ((i + 1) * item_size) item_size
         = Mem.read (Inner.content inner) ((base + i) * item_size)
                    item_size)
      ∧ (in_old = false →
         ∀ o m, Z.max (k + 1) (idx + 2) * item_size ≤ o →
                (c - k) * item_size ≤ o → 0 ≤ m →
                o + m ≤ Inner.content_len inner →
                Mem.read (Inner.content icc') o m = Some (Mem.zeros m)).
Proof.
  intros c ks item_size last_key k new_p in_old icc_p idx base Hd Hwf
    Hfull Hidx Hfit Horacle Haddr Hdc Hds Hsc Hmkc Hmks Hwc Hws Hnc Hns Hksc
    Hkss.
  pose proof Hwf as [Hks Hc Hcl Hint Hlen]. fold c ks in Hks, Hc, Hcl.
  assert (0 < item_size ∧ Mem.sizeof_ptr = 8) as (Hitem & Hptr)
    by (subst item_size; unfold Mem.sizeof_ptr; lia).
  assert (0 ≤ k ≤ c ∧ k ≤ c - k ∧ (2 ≤ c → k + 1 ≤ c) ∧ c - k ≤ k + 1)
    as (Hk & Hk2 & Hk3 & Hk4) by (subst k; Z.div_mod_to_equations; lia).
  assert (Inner.content_len inner = c * item_size + 8) as Hcl'.
  { rewrite Hcl, <- Hfull. subst item_size ks. unfold Mem.sizeof_ptr. lia. }
  destruct (bp_inner_node_split_success h inner_p inner rest Hd Hwf Horacle
              Haddr)
    as (h1 & new' & Hsplit & Horacle1 & Hnone & Hold1 & Hframe1 & Hnew1
        & Hcfg & Hnum1 & Hwfo & Hwfn & Hmove & Hzeros).
  fold c k item_size new_p in Hsplit, Hnone, Hold1, Hframe1, Hnew1, Hnum1,
    Hwfo, Hmove, Hzeros.
  assert (inner_p ≠ new_p) as Hnp.
  { intros E. rewrite <- E in Hnone. apply deref_inner_raw in Hd.
    congruence. }
  assert (child ≠ inner_p ∧ child ≠ new_p ∧ split_child ≠ inner_p
          ∧ split_child ≠ new_p) as (Hc1 & Hc2 & Hs1 & Hs2).
  { pose proof (deref_inner_raw _ _ _ Hd).
    pose proof (deref_data_raw _ _ _ Hdc).
    pose proof (deref_data_raw _ _ _ Hds).
    repeat split; intros E; subst; congruence. }
  assert (deref_data h1 child = Some dc ∧ deref_data h1 split_child = Some ds)
    as [Hdc1 Hds1].
  { unfold deref_data. rewrite !Hframe1 by assumption. by split. }
  assert (Common.max_key (Inner.common new') = None
          ∧ Inner.key_size new' = ks
          ∧ Inner.content_len new' = Inner.content_len inner)
    as (Hnmk & Hnks & Hncl).
  { change (Common.max_key (Inner.common new'))
      with (Common.max_key
              (Inner.common (Inner.set_content (Inner.set_key_num new' 0)
                               (Mem.zeros (Inner.content_len inner))))).
    change (Inner.key_size new')
      with (Inner.key_size (Inner.set_content (Inner.set_key_num new' 0)
                              (Mem.zeros (Inner.content_len inner)))).
    change (Inner.content_len new')
      with (Inner.content_len
              (Inner.set_content (Inner.set_key_num new' 0)
                 (Mem.zeros (Inner.content_len inner)))).
    rewrite Hcfg. cbn. fold ks. repeat split. rewrite Hcl.
    unfold Mem.sizeof_ptr. reflexivity. }
  assert (Mem.len (Inner.content new') = Inner.content_len inner) as Hnlen.
  { destruct Hwfn as [_ _ _ _ Hl]. lia. }
  (* the prefix of the function *)
  assert (bp_inner_node_add_split_child h inner_p child split_child child_idx
          = (h ← max_key_into h1 child icc_p
                   (idx * item_size + Mem.sizeof_ptr) ks;
             icc ← deref_inner h icc_p;
             content ← inner_shift_loop (Z.to_nat k) (Inner.content icc)
                         (k * item_size - item_size) (idx * item_size)
                         item_size;
             let tmp := idx * item_size + item_size in
             content ← Mem.store_ptr content tmp split_child;
             let h := store h icc_p (INNER (Inner.set_content icc content))
             in
             h ← max_key_into h split_child icc_p (tmp + Mem.sizeof_ptr)
                   (Inner.key_size icc);
             icc ← deref_inner h icc_p;
             let h := store h icc_p
                        (INNER (Inner.set_key_num icc
                                                  (Inner.key_num icc + 1)))
             in
             Some (0, new_p, h))) as Hprefix.
  { unfold bp_inner_node_add_split_child. rewrite Hd.
    cbn [mbind option_bind]. fold c. rewrite Hfull, Z.eqb_refl.
    rewrite Hsplit. cbn [mbind option_bind andb].
    change (-1 =? 0) with false. cbn iota. rewrite Hold1.
    cbn [mbind option_bind].
    destruct (Z.eqb_spec new_p NULL) as [E|_];
      [unfold NULL in E; subst new_p; lia|].
    change (Inner.key_num (Inner.set_key_num inner k)) with k.
    change (Inner.key_size (Inner.set_key_num inner k)) with ks.
    subst icc_p idx in_old. destruct (child_idx <? k); reflexivity. }
  rewrite Hprefix. clear Hprefix.
  destruct (Z.ltb_spec child_idx k) as [Hin|Hin]; subst in_old;
    cbn iota in icc_p, idx, base; subst icc_p idx base; cbv zeta; cbn iota.
  - (* the child is in the first half *)
    destruct (adopt_core h1 inner_p child split_child child_idx k ks new_p
                (Inner.set_key_num inner k) dc ds Hold1 eq_refl Hks
                ltac:(lia) ltac:(lia))
      as (h' & content' & Hrun & Hd' & Hframe & Horacle' & Hlen' & Hbefore
          & Hptrc & Hkeyc & Hsib & Hkeys & Hshift & _);
      try assumption.
    { intros _. cbn [Inner.content Inner.set_key_num]. rewrite Hlen, Hcl'.
      fold item_size. nia. }
    { cbn [Inner.content Inner.set_key_num]. rewrite Hlen. fold item_size.
      lia. }
    cbn [Inner.content Inner.set_key_num] in Hbefore, Hptrc, Hshift.
    fold item_size in Hrun, Hbefore, Hptrc, Hkeyc, Hsib, Hkeys, Hshift.
    exists h', (Inner.set_key_num
                  (Inner.set_content (Inner.set_key_num inner k) content')
                  (k + 1)), new'.
    split; [exact Hrun|]. split; [by rewrite Horacle'|].
    split; [exact Hnone|].
    split; [intros q Hq1 Hq2; rewrite Hframe by exact Hq1;
            by apply Hframe1|].
    split; [exact Hd'|].
    split; [unfold deref_inner; rewrite Hframe by congruence; exact Hnew1|].
    split; [subst c; by destruct inner as [ [] ]|].
    split; [exact Hcfg|].
    split; [reflexivity|]. split; [exact Hnum1|].
    split; [intros i Hi; apply Hmove; lia|].
    split; [intros i Hi; rewrite Z.add_0_l; by apply Hbefore|].
    split; [intros _; rewrite Z.add_0_l; exact Hptrc|].
    split; [exact Hkeyc|]. split; [exact Hsib|]. split; [exact Hkeys|].
    split; [intros i Hi; rewrite Z.add_0_l; by apply Hshift|].
    discriminate.
  - (* the child is in the second half *)
    destruct (adopt_core h1 new_p child split_child (child_idx - k) k ks
                new_p new' dc ds Hnew1 Hnks Hks ltac:(lia) ltac:(lia))
      as (h' & content' & Hrun & Hd' & Hframe & Horacle' & Hlen' & Hbefore
          & Hptrc & Hkeyc & Hsib & Hkeys & Hshift & Hrest);
      try assumption.
    { intros Hlt. rewrite Hnlen, Hcl'. fold item_size. nia. }
    { rewrite Hnlen. fold item_size. lia. }
    change (Mem.sizeof_ptr + ks) with item_size
      in Hrun, Hbefore, Hptrc, Hkeyc, Hsib, Hkeys, Hshift, Hrest.
    rewrite Hnum1 in Hd'.
    exists h', (Inner.set_key_num inner k),
      (Inner.set_key_num (Inner.set_content new' content') (c - k + 1)).
    split; [exact Hrun|]. split; [by rewrite Horacle'|].
    split; [exact Hnone|].
    split; [intros q Hq1 Hq2; rewrite Hframe by exact Hq2;
            by apply Hframe1|].
    split.
    { unfold deref_inner. rewrite Hframe by congruence. exact Hold1. }
    split; [exact Hd'|].
    split; [subst c; by destruct inner as [ [] ]|].
    split.
    { etransitivity; [|exact Hcfg]. clear. by destruct new' as [ [] ]. }
    split; [reflexivity|]. split; [reflexivity|].
    split; [intros i Hi; by rewrite Z.add_0_l|].
    cbn [Inner.content Inner.set_key_num Inner.set_content].
    split.
    { intros i Hi. rewrite Hbefore by exact Hi. apply Hmove. lia. }
    split.
    { intros Hlt. rewrite Hptrc.
      apply (read_prefix_eq _ _ _ _ item_size); [lia|nia| |apply Hmove; lia].
      rewrite Hlen, Hcl'.
      assert ((k + (child_idx - k) + 1) * item_size ≤ c * item_size) by nia.
      lia. }
    split; [exact Hkeyc|]. split; [exact Hsib|]. split; [exact Hkeys|].
    split.
    { intros i Hi. rewrite Hshift by exact Hi. apply Hmove. lia. }
    intros _ o m Ho1 Ho2 Hm Hom. rewrite Hrest by exact Ho1.
    replace o with ((c - k) * item_size + (o - (c - k) * item_size)) by lia.
    erewrite read_sub; [|exact Hzeros|lia|lia|lia].
    apply read_zeros; lia.
Qed.

(** X20. [bp_inner_node_add_split_child] on a full, well-formed inner
    node with [c] entries, for a child and a sibling that are leaves with
    at least one item and keys of the node's key size, when the allocation
    succeeds (and the two entries fit in the content).  The node is split
    first: it keeps [k = c / 2] entries and a new node gets the other
    [c - k]; the new node is returned, and but for count and content it
    is as the factory makes it (no [max_key] function, a zero total).
    The child is looked for in the node when [child_idx < k], else in the
    new node at [child_idx - k].  In that half the entries before the
    child stay, the child gets its last key, the sibling and its last key
    follow, and the count goes up by one; the loop however moves the
    entries up to index [k - 1] only, [k] being the count of the first
    half, so in a second half of [k + 1] entries (odd [c]) a child that is
    not the last entry has the last entry overwritten and a zero entry
    counted in its place.  The other half is as the split left it.  No
    other node changes. *)
Theorem inner_adopts_split_child_when_full (h : heap)
    (inner_p child split_child child_idx : Z)
    (inner : Inner.t) (dc ds : Data.t) (rest : list bool) :
  let c := Inner.key_num inner in
  let ks := Inner.key_size inner in
  let item_size := Mem.sizeof_ptr + Inner.key_size inner in
  let last_key (d : Data.t) :=
    item_key (Data.content d) (Data.key_size d + Data.value_size d) 0
             (Data.key_size d) (Data.key_num d - 1) in
  let k := c / 2 in
  let new_p := Z.of_nat (length (nodes h)) + 1 in
  let in_old := child_idx <? k in
  let icc_p := if in_old then inner_p else new_p in
  let idx := if in_old then child_idx else child_idx - k in
  let base := if in_old then 0 else k in
  deref_inner h inner_p = Some inner →
  inner_wf inner →
  c = Common.max_key_num (Inner.common inner) →
  0 ≤ child_idx ≤ c →
  (idx + 2) * item_size ≤ Inner.content_len inner →
  malloc_oracle h = true :: rest →
  new_p ≤ SIZE_MAX →
  deref_data h child = Some dc →
  deref_data h split_child = Some ds →
  split_child ≤ SIZE_MAX →
  Common.max_key (Data.common dc) = Some PTR_bp_data_node_max_key →
  Common.max_key (Data.common ds) = Some PTR_bp_data_node_max_key →
  data_wf dc → data_wf ds →
  1 ≤ Data.key_num dc → 1 ≤ Data.key_num ds →
  Data.key_size dc = ks → Data.key_size ds = ks →
  ∃ h' old' nw,
    bp_inner_node_add_split_child h inner_p child split_child child_idx
    = Some (0, new_p, h')
    ∧ malloc_oracle h' = rest
    ∧ deref h new_p = None
    ∧ (∀ q, q ≠ inner_p → q ≠ new_p → deref h' q = deref h q)
    ∧ deref_inner h' inner_p = Some old'
    ∧ deref_inner h' new_p = Some nw
    ∧ Inner.set_content (Inner.set_key_num old' c) (Inner.content inner)
      = inner
    ∧ Inner.set_content (Inner.set_key_num nw 0)
                        (Mem.zeros (Inner.content_len inner))
      = fresh_inner_node (Common.max_key_num (Inner.common inner)) ks
                         (Common.compare (Inner.common inner))
    ∧ let icc' := if in_old then old' else nw in
      let other' := if in_old then nw else old' in
      Inner.key_num icc' = (if in_old then k else c - k) + 1
      ∧ Inner.key_num other' = (if in_old then c - k else k)
      ∧ (∀ i, 0 ≤ i < Inner.key_num other' →
         Mem.read (Inner.content other') (i * item_size) item_size
         = Mem.read (Inner.content inner)
                    (((if in_old then k else 0) + i) * item_size) item_size)
      ∧ (∀ i, 0 ≤ i < idx →
         Mem.read (Inner.content icc') (i * item_size) item_size
         = Mem.read (Inner.content inner) ((base + i) * item_size)
                    item_size)
      ∧ (base + idx < c →
         Mem.read (Inner.content icc') (idx * item_size) Mem.sizeof_ptr
         = Mem.read (Inner.content inner) ((base + idx) * item_size)
                    Mem.sizeof_ptr)
      ∧ Mem.read (Inner.content icc') (idx * item_size + Mem.sizeof_ptr) ks
        = Some (last_key dc)
      ∧ Mem.load_ptr (Inner.content icc') ((idx + 1) * item_size)
        = Some split_child
      ∧ Mem.read (Inner.content icc')
                 ((idx + 1) * item_size + Mem.sizeof_ptr) ks
        = Some (last_key ds)
      ∧ (∀ i, idx < i < k →
         Mem.read (Inner.content icc') ((i + 1) * item_size) item_size
         = Mem.read (Inner.content inner) ((base + i) * item_size)
                    item_size)
      ∧ (in_old = false →
         ∀ o m, Z.max (k + 1) (idx + 2) * item_size ≤ o →
                (c - k) * item_size ≤ o → 0 ≤ m →
                o + m ≤ Inner.content_len inner →
                Mem.read (Inner.content icc') o m = Some (Mem.zeros m)).
Proof.
  exact (adopt_full_spec h inner_p child split_child child_idx inner dc ds
           rest).
Qed.

Lemma inner_adopts_split_child_when_full_witness :
  ∃ root leaf sib h inner child dc ds,
    odd_inner_tree = Some (root, leaf, sib, h)
    ∧ deref_inner h root = Some inner
    ∧ Mem.load_ptr (Inner.content inner)
                   (1 * (Mem.sizeof_ptr + Inner.key_size inner))
      = Some child
    ∧ inner_wf inner
    ∧ Inner.key_num inner = Common.max_key_num (Inner.common inner)
    ∧ Inner.key_num inner = 3
    ∧ malloc_oracle h = [true]
    ∧ deref_data h child = Some dc
    ∧ deref_data h sib = Some ds
    ∧ sib ≤ SIZE_MAX
    ∧ Common.max_key (Data.common dc) = Some PTR_bp_data_node_max_key
    ∧ Common.max_key (Data.common ds) = Some PTR_bp_data_node_max_key
    ∧ data_wf dc ∧ data_wf ds
    ∧ 1 ≤ Data.key_num dc ∧ 1 ≤ Data.key_num ds
    ∧ Data.key_size dc = Inner.key_size inner
    ∧ Data.key_size ds = Inner.key_size inner
    ∧ ∃ new_p h' nw,
        bp_inner_node_add_split_child h root child sib 1 = Some (0, new_p, h')
        ∧ deref_inner h' new_p = Some nw
        ∧ Inner.key_num nw = 3
        ∧ Mem.load_ptr (Inner.content nw)
                       (1 * (Mem.sizeof_ptr + Inner.key_size inner))
          = Some sib
        ∧ Mem.read (Inner.content nw)
                   (2 * (Mem.sizeof_ptr + Inner.key_size inner))
                   (Mem.sizeof_ptr + Inner.key_size inner)
          = Some (Mem.zeros (Mem.sizeof_ptr + Inner.key_size inner)).
Proof.
  match eval vm_compute in odd_inner_tree with
  | Some (?r, ?l, ?s, ?x) =>
      pose (root := r); pose (leaf := l); pose (sib := s); pose (h := x)
  end.
  match eval vm_compute in (deref_inner h root) with
  | Some ?x => pose (inner := x)
  end.
  match eval vm_compute in
        (Mem.load_ptr (Inner.content inner)
                      (1 * (Mem.sizeof_ptr + Inner.key_size inner))) with
  | Some ?x => pose (child := x)
  end.
  match eval vm_compute in (deref_data h child) with
  | Some ?x => pose (dc := x)
  end.
  match eval vm_compute in (deref_data h sib) with
  | Some ?x => pose (ds := x)
  end.
  assert (deref_inner h root = Some inner) as Hd by reflexivity.
  assert (inner_wf inner) as Hwf by concrete_inner_wf.
  assert (Inner.key_num inner = Common.max_key_num (Inner.common inner))
    as Hfull by reflexivity.
  assert (0 ≤ 1 ≤ Inner.key_num inner) as Hidx
    by (split; vm_compute; discriminate).
  assert (((if 1 <? Inner.key_num inner / 2 then 1
            else 1 - Inner.key_num inner / 2) + 2)
          * (Mem.sizeof_ptr + Inner.key_size inner)
          ≤ Inner.content_len inner) as Hfit by (vm_compute; discriminate).
  assert (malloc_oracle h = [true]) as Horacle by reflexivity.
  assert (Z.of_nat (length (nodes h)) + 1 ≤ SIZE_MAX) as Haddr
    by (vm_compute; discriminate).
  assert (deref_data h child = Some dc) as Hdc by reflexivity.
  assert (deref_data h sib = Some ds) as Hds by reflexivity.
  assert (sib ≤ SIZE_MAX) as Hsc by (vm_compute; discriminate).
  assert (Common.max_key (Data.common dc) = Some PTR_bp_data_node_max_key)
    as Hmkc by reflexivity.
  assert (Common.max_key (Data.common ds) = Some PTR_bp_data_node_max_key)
    as Hmks by reflexivity.
  assert (data_wf dc) as Hwc by concrete_wf.
  assert (data_wf ds) as Hws by concrete_wf.
  assert (1 ≤ Data.key_num dc) as Hnc by (vm_compute; discriminate).
  assert (1 ≤ Data.key_num ds) as Hns by (vm_compute; discriminate).
  assert (Data.key_size dc = Inner.key_size inner) as Hksc by reflexivity.
  assert (Data.key_size ds = Inner.key_size inner) as Hkss by reflexivity.
  exists root, leaf, sib, h, inner, child, dc, ds.
  split; [vm_compute; reflexivity|]. split; [exact Hd|].
  split; [reflexivity|]. split; [exact Hwf|]. split; [exact Hfull|].
  split; [reflexivity|]. split; [exact Horacle|]. split; [exact Hdc|].
  split; [exact Hds|]. split; [exact Hsc|]. split; [exact Hmkc|].
  split; [exact Hmks|]. split; [exact Hwc|]. split; [exact Hws|].
  split; [exact Hnc|]. split; [exact Hns|]. split; [exact Hksc|].
  split; [exact Hkss|].
  destruct (inner_adopts_split_child_when_full h root child sib 1 inner dc ds
              [] Hd Hwf Hfull Hidx Hfit Horacle Haddr Hdc Hds Hsc Hmkc Hmks
              Hwc Hws Hnc Hns Hksc Hkss)
    as (h' & old' & nw & Hrun & _ & _ & _ & _ & Hnw & _ & _ & Hnum & _ & _
        & _ & _ & _ & Hsib & _ & _ & Hzero).
  exists (Z.of_nat (length (nodes h)) + 1), h', nw.
  split; [exact Hrun|]. split; [exact Hnw|]. split; [exact Hnum|].
  split; [exact Hsib|].
  apply (Hzero eq_refl); vm_compute; discriminate.
Defined.

(** ** A full parent that is split *)





